(** * ChessEngine2021: position store, move generator and search

    A shallow embedding of the engine core: the bitboard primitives of
    [Bitboards.h], the constants of [Constants.h], the [Board] class
    (position, [makeMove], [update], piece lookups), the [MoveGen] class
    (magic-number search, attack tables, legal move generation, move
    ordering), [Evaluation::evaluate] and the alpha-beta [Search].

    A [uint64_t] is a [Z] in the range [0 .. 2^64), with the wrap-around of
    shifts, complements and products written out.  Code that can trip an
    [assert(false)] or index an array out of bounds returns [option]. *)

From Stdlib Require Import ZArith List Bool Lia Permutation Sorted.
From Stdlib Require Import FMapPositive FunctionalExtensionality.
Import ListNotations.
Local Open Scope Z_scope.

(** ** Machine integers *)

(** Reduction modulo [2^64], [2^16] and [2^8], as a mask of the low bits. *)
Definition wrap64 (z : Z) : Z := Z.land z 0xFFFFFFFFFFFFFFFF.
Definition wrap16 (z : Z) : Z := Z.land z 0xFFFF.
Definition wrap8 (z : Z) : Z := Z.land z 0xFF.

(** [~x] on a [uint64_t]. *)
Definition not64 (x : Z) : Z := wrap64 (Z.lnot x).
(** [x << n] on a [uint64_t]. *)
Definition shl64 (x n : Z) : Z := wrap64 (Z.shiftl x n).
(** [x >> n] on a [uint64_t]. *)
Definition shr64 (x n : Z) : Z := Z.shiftr x n.

Definition nonzero (x : Z) : bool := negb (x =? 0).

(** The error monad of code that may abort. *)
Definition bind {A B : Type} (m : option A) (k : A -> option B) : option B :=
  match m with
  | Some a => k a
  | None => None
  end.

Notation "x <- m ;; k" := (bind m (fun x => k))
  (at level 61, m at next level, right associativity).

(** ** Bitboards.h *)

Fixpoint pos_ctz (p : positive) : Z :=
  match p with
  | xO q => Z.succ (pos_ctz q)
  | _ => 0
  end.

(** [_mm_tzcnt_64]: the number of trailing zero bits, 64 for a zero operand. *)
Definition tzcnt64 (board : Z) : Z :=
  match board with
  | Zpos p => pos_ctz p
  | _ => 64
  end.

Fixpoint pos_popcount (p : positive) : Z :=
  match p with
  | xH => 1
  | xO q => pos_popcount q
  | xI q => Z.succ (pos_popcount q)
  end.

(** get a bitboard with one set bit, by bit index *)
Definition boardOf (square : Z) : Z := shl64 1 square.

(** pop the least significant set bit off of the bitboard and return the
    bit index (paired with the board that is left) *)
Definition popLeastSquare (board : Z) : Z * Z :=
  let leastSquare := tzcnt64 board in
  (leastSquare, Z.lxor board (shl64 1 leastSquare)).

(** pop the least significant set bit off of the bitboard and return a
    bitboard with only that bit set (paired with the board that is left) *)
Definition popLeastBitboard (board : Z) : Z * Z :=
  let leastBoard := Z.land board (wrap64 (not64 board + 1)) in
  (leastBoard, Z.lxor board leastBoard).

(** get the number of ones in the bitboard *)
Definition countSetBits (board : Z) : Z :=
  match board with
  | Zpos p => pos_popcount p
  | _ => 0
  end.

(** get the index of the least significant set bit *)
Definition getLeastSquare (board : Z) : Z := tzcnt64 board.

(** [while (board) { square = popLeastSquare(board); ... }]: the squares the
    loop visits, in order.  A 64-bit board is exhausted after 64 rounds. *)
Fixpoint popSquares (fuel : nat) (board : Z) : list Z :=
  match fuel with
  | O => []
  | S fuel' =>
      if board =? 0 then []
      else let '(square, board') := popLeastSquare board in
           square :: popSquares fuel' board'
  end.

Definition squaresOf (board : Z) : list Z := popSquares 64 board.

(** ** Constants.h *)

Definition ENGINE_IS_WHITE : bool := true.
Definition SEARCH_DEPTH : Z := 5.

Inductive PieceType : Set :=
| PLAYER_PAWN | PLAYER_KNIGHT | PLAYER_BISHOP | PLAYER_ROOK | PLAYER_QUEEN
| PLAYER_KING
| ENGINE_PAWN | ENGINE_KNIGHT | ENGINE_BISHOP | ENGINE_ROOK | ENGINE_QUEEN
| ENGINE_KING
| NONE.

(** The enumerator values. *)
Definition pieceIndex (t : PieceType) : nat :=
  match t with
  | PLAYER_PAWN => 0 | PLAYER_KNIGHT => 1 | PLAYER_BISHOP => 2
  | PLAYER_ROOK => 3 | PLAYER_QUEEN => 4 | PLAYER_KING => 5
  | ENGINE_PAWN => 6 | ENGINE_KNIGHT => 7 | ENGINE_BISHOP => 8
  | ENGINE_ROOK => 9 | ENGINE_QUEEN => 10 | ENGINE_KING => 11
  | NONE => 12
  end%nat.

Definition PieceType_eqb (a b : PieceType) : bool :=
  Nat.eqb (pieceIndex a) (pieceIndex b).

Definition playerTypes : list PieceType :=
  [PLAYER_PAWN; PLAYER_KNIGHT; PLAYER_BISHOP; PLAYER_ROOK; PLAYER_QUEEN;
   PLAYER_KING].

Definition engineTypes : list PieceType :=
  [ENGINE_PAWN; ENGINE_KNIGHT; ENGINE_BISHOP; ENGINE_ROOK; ENGINE_QUEEN;
   ENGINE_KING].

Definition PIECE_VALUES : list Z :=
  [100; 350; 400; 500; 800; 0; 100; 350; 400; 500; 800; 0].

Definition INITIAL_BOARD : list PieceType :=
  [ENGINE_ROOK; ENGINE_KNIGHT; ENGINE_BISHOP;
   if ENGINE_IS_WHITE then ENGINE_KING else ENGINE_QUEEN;
   if ENGINE_IS_WHITE then ENGINE_QUEEN else ENGINE_KING;
   ENGINE_BISHOP; ENGINE_KNIGHT; ENGINE_ROOK;
   ENGINE_PAWN; ENGINE_PAWN; ENGINE_PAWN; ENGINE_PAWN;
   ENGINE_PAWN; ENGINE_PAWN; ENGINE_PAWN; ENGINE_PAWN;
   NONE; NONE; NONE; NONE; NONE; NONE; NONE; NONE;
   NONE; NONE; NONE; NONE; NONE; NONE; NONE; NONE;
   NONE; NONE; NONE; NONE; NONE; NONE; NONE; NONE;
   NONE; NONE; NONE; NONE; NONE; NONE; NONE; NONE;
   PLAYER_PAWN; PLAYER_PAWN; PLAYER_PAWN; PLAYER_PAWN;
   PLAYER_PAWN; PLAYER_PAWN; PLAYER_PAWN; PLAYER_PAWN;
   PLAYER_ROOK; PLAYER_KNIGHT; PLAYER_BISHOP;
   if ENGINE_IS_WHITE then PLAYER_KING else PLAYER_QUEEN;
   if ENGINE_IS_WHITE then PLAYER_QUEEN else PLAYER_KING;
   PLAYER_BISHOP; PLAYER_KNIGHT; PLAYER_ROOK].

Definition MAX_EVAL : Z := Z.shiftl 1 15.
Definition MIN_EVAL : Z := - MAX_EVAL.

Definition RANK0 : Z := 0xFF.
Definition RANK1 : Z := shl64 RANK0 8.
Definition RANK2 : Z := shl64 RANK1 8.
Definition RANK3 : Z := shl64 RANK2 8.
Definition RANK4 : Z := shl64 RANK3 8.
Definition RANK5 : Z := shl64 RANK4 8.
Definition RANK6 : Z := shl64 RANK5 8.
Definition RANK7 : Z := shl64 RANK6 8.

Definition FILE0 : Z := 0x0101010101010101.
Definition FILE1 : Z := shl64 FILE0 1.
Definition FILE2 : Z := shl64 FILE1 1.
Definition FILE3 : Z := shl64 FILE2 1.
Definition FILE4 : Z := shl64 FILE3 1.
Definition FILE5 : Z := shl64 FILE4 1.
Definition FILE6 : Z := shl64 FILE5 1.
Definition FILE7 : Z := shl64 FILE6 1.

Definition PLAYER_KINGSIDE_CASTLE : Z :=
  if ENGINE_IS_WHITE then 0xE00000000000000 else 0x7000000000000000.
Definition ENGINE_KINGSIDE_CASTLE : Z :=
  if ENGINE_IS_WHITE then 0x00000000000000E else 0x0000000000000070.
Definition PLAYER_QUEENSIDE_CASTLE : Z :=
  if ENGINE_IS_WHITE then 0x3800000000000000 else 0x1C00000000000000.
Definition ENGINE_QUEENSIDE_CASTLE : Z :=
  if ENGINE_IS_WHITE then 0x0000000000000038 else 0x000000000000001C.

Definition ENGINE_QUEENSIDE_DESTINATION : Z :=
  if ENGINE_IS_WHITE then 0x0000000000000020 else 0x0000000000000004.
Definition ENGINE_KINGSIDE_DESTINATION : Z :=
  if ENGINE_IS_WHITE then 0x0000000000000002 else 0x0000000000000040.
Definition PLAYER_KINGSIDE_DESTINATION : Z :=
  if ENGINE_IS_WHITE then 0x0200000000000000 else 0x4000000000000000.
Definition PLAYER_QUEENSIDE_DESTINATION : Z :=
  if ENGINE_IS_WHITE then 0x2000000000000000 else 0x0400000000000000.

Definition PLAYER_KINGSIDE_ROOK : Z :=
  if ENGINE_IS_WHITE then 0x0100000000000000 else 0x8000000000000000.
Definition ENGINE_KINGSIDE_ROOK : Z :=
  if ENGINE_IS_WHITE then 0x0000000000000001 else 0x0000000000000080.
Definition PLAYER_QUEENSIDE_ROOK : Z :=
  if ENGINE_IS_WHITE then 0x8000000000000000 else 0x0100000000000000.
Definition ENGINE_QUEENSIDE_ROOK : Z :=
  if ENGINE_IS_WHITE then 0x0000000000000080 else 0x0000000000000001.

Definition CENTER_16_SQUARES : Z := 0x00003C3C3C3C0000.
Definition CENTER_4_SQUARES : Z := 0x0000001818000000.
Definition OUTER_SQUARES : Z := 0xFF818181818181FF.
Definition FILLED_BOARD : Z := 0xFFFFFFFFFFFFFFFF.
Definition ENGINE_ADVANCED_PAWNS : Z := 0x00003C3C3C000000.
Definition PLAYER_ADVANCED_PAWNS : Z := 0x0000003C3C3C0000.
Definition PAWN_CENTER : Z := 0x0000003C3C000000.

Definition KNIGHT_MOVES : list Z :=
  [0x20400; 0x50800; 0xa1100; 0x142200; 0x284400; 0x508800; 0xa01000;
   0x402000; 0x2040004; 0x5080008; 0xa110011; 0x14220022; 0x28440044;
   0x50880088; 0xa0100010; 0x40200020; 0x204000402; 0x508000805;
   0xa1100110a; 0x1422002214; 0x2844004428; 0x5088008850; 0xa0100010a0;
   0x4020002040; 0x20400040200; 0x50800080500; 0xa1100110a00;
   0x142200221400; 0x284400442800; 0x508800885000; 0xa0100010a000;
   0x402000204000; 0x2040004020000; 0x5080008050000; 0xa1100110a0000;
   0x14220022140000; 0x28440044280000; 0x50880088500000;
   0xa0100010a00000; 0x40200020400000; 0x204000402000000;
   0x508000805000000; 0xa1100110a000000; 0x1422002214000000;
   0x2844004428000000; 0x5088008850000000; 0xa0100010a0000000;
   0x4020002040000000; 0x400040200000000; 0x800080500000000;
   0x1100110a00000000; 0x2200221400000000; 0x4400442800000000;
   0x8800885000000000; 0x100010a000000000; 0x2000204000000000;
   0x4020000000000; 0x8050000000000; 0x110a0000000000; 0x22140000000000;
   0x44280000000000; 0x88500000000000; 0x10a00000000000;
   0x20400000000000].

Definition KING_MOVES : list Z :=
  [0x302; 0x705; 0xe0a; 0x1c14; 0x3828; 0x7050; 0xe0a0; 0xc040; 0x30203;
   0x70507; 0xe0a0e; 0x1c141c; 0x382838; 0x705070; 0xe0a0e0; 0xc040c0;
   0x3020300; 0x7050700; 0xe0a0e00; 0x1c141c00; 0x38283800; 0x70507000;
   0xe0a0e000; 0xc040c000; 0x302030000; 0x705070000; 0xe0a0e0000;
   0x1c141c0000; 0x3828380000; 0x7050700000; 0xe0a0e00000; 0xc040c00000;
   0x30203000000; 0x70507000000; 0xe0a0e000000; 0x1c141c000000;
   0x382838000000; 0x705070000000; 0xe0a0e0000000; 0xc040c0000000;
   0x3020300000000; 0x7050700000000; 0xe0a0e00000000; 0x1c141c00000000;
   0x38283800000000; 0x70507000000000; 0xe0a0e000000000;
   0xc040c000000000; 0x302030000000000; 0x705070000000000;
   0xe0a0e0000000000; 0x1c141c0000000000; 0x3828380000000000;
   0x7050700000000000; 0xe0a0e00000000000; 0xc040c00000000000;
   0x203000000000000; 0x507000000000000; 0xa0e000000000000;
   0x141c000000000000; 0x2838000000000000; 0x5070000000000000;
   0xa0e0000000000000; 0x40c0000000000000].

(** Reading a 64-entry table at a square; an index past the end is an
    out-of-bounds read in the source. *)
Definition tableAt (table : list Z) (square : Z) : option Z :=
  if (0 <=? square) && (square <? 64) then nth_error table (Z.to_nat square)
  else None.

(** ** Board.h *)

Record Position : Type := mkPosition {
  pieces : list Z;                (* uint64_t pieces[12] *)
  playerCastleQueenside : bool;
  playerCastleKingside : bool;
  engineCastleQueenside : bool;
  engineCastleKingside : bool;
  enPassantCapture : Z
}.

Inductive MoveType : Set :=
| QUEEN_PROMOTION | KNIGHT_PROMOTION | BISHOP_PROMOTION | ROOK_PROMOTION
| EN_PASSANT | NORMAL.

Definition moveTypeIndex (t : MoveType) : Z :=
  match t with
  | QUEEN_PROMOTION => 0 | KNIGHT_PROMOTION => 1 | BISHOP_PROMOTION => 2
  | ROOK_PROMOTION => 3 | EN_PASSANT => 4 | NORMAL => 5
  end.

Record Move : Type := mkMove {
  type : MoveType;
  from : Z;                       (* uint8_t *)
  to : Z;                         (* uint8_t *)
  moving : PieceType;
  captured : PieceType
}.

Record Board : Type := mkBoard {
  engineToMove : bool;
  position : Position;
  enginePieces : Z;
  playerOrEmpty : Z;
  playerPieces : Z;
  engineOrEmpty : Z;
  emptySquares : Z;
  occupiedSquares : Z
}.

(** [position.pieces[t]].  Indexing with [NONE] is undefined behaviour in
    the source; here the read yields 0 and the write is dropped. *)
Definition piece (p : Position) (t : PieceType) : Z :=
  nth (pieceIndex t) (pieces p) 0.

Fixpoint setNth (n : nat) (v : Z) (l : list Z) : list Z :=
  match l, n with
  | [], _ => []
  | _ :: tl, O => v :: tl
  | x :: tl, S n' => x :: setNth n' v tl
  end.

Definition setPiece (p : Position) (t : PieceType) (v : Z) : Position :=
  mkPosition (setNth (pieceIndex t) v (pieces p))
             (playerCastleQueenside p) (playerCastleKingside p)
             (engineCastleQueenside p) (engineCastleKingside p)
             (enPassantCapture p).

(** [position.pieces[t] ^= mask] and [position.pieces[t] |= mask] *)
Definition xorPiece (p : Position) (t : PieceType) (mask : Z) : Position :=
  setPiece p t (Z.lxor (piece p t) mask).
Definition orPiece (p : Position) (t : PieceType) (mask : Z) : Position :=
  setPiece p t (Z.lor (piece p t) mask).

Definition setEnPassant (p : Position) (v : Z) : Position :=
  mkPosition (pieces p)
             (playerCastleQueenside p) (playerCastleKingside p)
             (engineCastleQueenside p) (engineCastleKingside p) v.

(** The castling rights of one side, read and revoked. *)
Definition castleKingside (engine : bool) (p : Position) : bool :=
  if engine then engineCastleKingside p else playerCastleKingside p.
Definition castleQueenside (engine : bool) (p : Position) : bool :=
  if engine then engineCastleQueenside p else playerCastleQueenside p.

Definition forbidKingside (engine : bool) (p : Position) : Position :=
  if engine
  then mkPosition (pieces p) (playerCastleQueenside p)
         (playerCastleKingside p) (engineCastleQueenside p) false
         (enPassantCapture p)
  else mkPosition (pieces p) (playerCastleQueenside p) false
         (engineCastleQueenside p) (engineCastleKingside p)
         (enPassantCapture p).

Definition forbidQueenside (engine : bool) (p : Position) : Position :=
  if engine
  then mkPosition (pieces p) (playerCastleQueenside p)
         (playerCastleKingside p) false (engineCastleKingside p)
         (enPassantCapture p)
  else mkPosition (pieces p) false (playerCastleKingside p)
         (engineCastleQueenside p) (engineCastleKingside p)
         (enPassantCapture p).

(** [Board::update]: refresh the derived bitboards from the position. *)
Definition update (b : Board) : Board :=
  let p := position b in
  let enginePieces' :=
    Z.lor (Z.lor (Z.lor (Z.lor (Z.lor (piece p ENGINE_PAWN)
      (piece p ENGINE_KNIGHT)) (piece p ENGINE_BISHOP))
      (piece p ENGINE_ROOK)) (piece p ENGINE_QUEEN)) (piece p ENGINE_KING) in
  let playerPieces' :=
    Z.lor (Z.lor (Z.lor (Z.lor (Z.lor (piece p PLAYER_PAWN)
      (piece p PLAYER_KNIGHT)) (piece p PLAYER_BISHOP))
      (piece p PLAYER_ROOK)) (piece p PLAYER_QUEEN)) (piece p PLAYER_KING) in
  let occupiedSquares' := Z.lor enginePieces' playerPieces' in
  let emptySquares' := not64 occupiedSquares' in
  let playerOrEmpty' := Z.lor playerPieces' emptySquares' in
  let engineOrEmpty' := Z.lor enginePieces' emptySquares' in
  mkBoard (engineToMove b) p enginePieces' playerOrEmpty' playerPieces'
          engineOrEmpty' emptySquares' occupiedSquares'.

Definition setPosition (b : Board) (p : Position) : Board :=
  mkBoard (engineToMove b) p (enginePieces b) (playerOrEmpty b)
          (playerPieces b) (engineOrEmpty b) (emptySquares b)
          (occupiedSquares b).

Definition flipEngineToMove (b : Board) : Board :=
  mkBoard (negb (engineToMove b)) (position b) (enginePieces b)
          (playerOrEmpty b) (playerPieces b) (engineOrEmpty b)
          (emptySquares b) (occupiedSquares b).

(** The part of [Board::makeMove<isEngine>] that edits [position]. *)
Definition movePosition (isEngine : bool) (p0 : Position) (move : Move)
  : Position :=
  let enPassant := enPassantCapture p0 in
  let p := setEnPassant p0 0 in
  let squareTo := boardOf (to move) in
  let squareFrom := boardOf (from move) in
  (* remove the piece from its original square *)
  let p := xorPiece p (moving move) squareFrom in
  let p :=
    if moveTypeIndex (type move) <? 4 then
      match type move with
      | QUEEN_PROMOTION =>
          orPiece p (if isEngine then ENGINE_QUEEN else PLAYER_QUEEN) squareTo
      | ROOK_PROMOTION =>
          orPiece p (if isEngine then ENGINE_ROOK else PLAYER_ROOK) squareTo
      | BISHOP_PROMOTION =>
          orPiece p (if isEngine then ENGINE_BISHOP else PLAYER_BISHOP)
                  squareTo
      | KNIGHT_PROMOTION =>
          orPiece p (if isEngine then ENGINE_KNIGHT else PLAYER_KNIGHT)
                  squareTo
      | _ => p
      end
    else orPiece p (moving move) squareTo in
  (* if we want to capture a piece *)
  let p :=
    if negb (PieceType_eqb (captured move) NONE) then
      let p := xorPiece p (captured move)
                 (match type move with
                  | EN_PASSANT => enPassant
                  | _ => squareTo
                  end) in
      if PieceType_eqb (captured move)
           (if isEngine then PLAYER_ROOK else ENGINE_ROOK) then
        let p :=
          if castleKingside (negb isEngine) p then
            if nonzero (Z.land squareTo
                 (if isEngine then PLAYER_KINGSIDE_ROOK
                  else ENGINE_KINGSIDE_ROOK))
            then forbidKingside (negb isEngine) p else p
          else p in
        if castleQueenside (negb isEngine) p then
          if nonzero (Z.land squareTo
               (if isEngine then PLAYER_QUEENSIDE_ROOK
                else ENGINE_QUEENSIDE_ROOK))
          then forbidQueenside (negb isEngine) p else p
        else p
      else p
    else p in
  let ownRook := if isEngine then ENGINE_ROOK else PLAYER_ROOK in
  if PieceType_eqb (moving move)
       (if isEngine then ENGINE_KING else PLAYER_KING) then
    (* if we have the right to castle in any way *)
    if castleKingside isEngine p || castleQueenside isEngine p then
      let p :=
        if nonzero (Z.land squareTo
             (if isEngine then ENGINE_KINGSIDE_DESTINATION
              else PLAYER_KINGSIDE_DESTINATION)) then
          let p := xorPiece p ownRook
                     (if isEngine then ENGINE_KINGSIDE_ROOK
                      else PLAYER_KINGSIDE_ROOK) in
          orPiece p ownRook
            (if ENGINE_IS_WHITE then shl64 squareTo 1 else shr64 squareTo 1)
        else p in
      let p :=
        if nonzero (Z.land squareTo
             (if isEngine then ENGINE_QUEENSIDE_DESTINATION
              else PLAYER_QUEENSIDE_DESTINATION)) then
          let p := xorPiece p ownRook
                     (if isEngine then ENGINE_QUEENSIDE_ROOK
                      else PLAYER_QUEENSIDE_ROOK) in
          orPiece p ownRook
            (if ENGINE_IS_WHITE then shr64 squareTo 1 else shl64 squareTo 1)
        else p in
      forbidQueenside isEngine (forbidKingside isEngine p)
    else p
  else if PieceType_eqb (moving move) ownRook then
    let p :=
      if castleKingside isEngine p then
        if nonzero (Z.land squareFrom
             (if isEngine then ENGINE_KINGSIDE_ROOK
              else PLAYER_KINGSIDE_ROOK))
        then forbidKingside isEngine p else p
      else p in
    if castleQueenside isEngine p then
      if nonzero (Z.land squareFrom
           (if isEngine then ENGINE_QUEENSIDE_ROOK
            else PLAYER_QUEENSIDE_ROOK))
      then forbidQueenside isEngine p else p
    else p
  else if PieceType_eqb (moving move)
            (if isEngine then ENGINE_PAWN else PLAYER_PAWN) then
    (* if this pawn move is a double push move *)
    if Z.abs (to move - from move) =? 16 then
      if nonzero
           (Z.land
              (Z.land (Z.lor (shl64 squareTo 1) (shr64 squareTo 1))
                      (if isEngine then RANK3 else RANK4))
              (piece p (if isEngine then PLAYER_PAWN else ENGINE_PAWN)))
      then setEnPassant p squareTo
      else p
    else p
  else p.

(** [Board::makeMove<isEngine>] *)
Definition makeMove (isEngine : bool) (b : Board) (move : Move) : Board :=
  flipEngineToMove
    (update (setPosition b (movePosition isEngine (position b) move))).

(** [Board::getPlayerPieceType]; [None] is the [assert(false)] after the
    loop. *)
Fixpoint firstTypeOn (p : Position) (mask : Z) (types : list PieceType)
  : option PieceType :=
  match types with
  | [] => None
  | t :: rest =>
      if nonzero (Z.land (piece p t) mask) then Some t
      else firstTypeOn p mask rest
  end.

Definition getPlayerPieceType (b : Board) (square : Z) : option PieceType :=
  let mask := boardOf square in
  if nonzero (Z.land (emptySquares b) mask) then Some NONE
  else firstTypeOn (position b) mask playerTypes.

Definition getEnginePieceType (b : Board) (square : Z) : option PieceType :=
  let mask := boardOf square in
  if nonzero (Z.land (emptySquares b) mask) then Some NONE
  else firstTypeOn (position b) mask engineTypes.

Definition getPieceType (b : Board) (square : Z) : option PieceType :=
  let mask := boardOf square in
  if nonzero (Z.land (emptySquares b) mask) then Some NONE
  else if nonzero (Z.land (playerPieces b) mask) then
    getPlayerPieceType b square
  else if nonzero (Z.land (enginePieces b) mask) then
    getEnginePieceType b square
  else None.

(** [Board::Board] *)
Definition emptyPosition : Position :=
  mkPosition [0; 0; 0; 0; 0; 0; 0; 0; 0; 0; 0; 0] true true true true 0.

Fixpoint placeInitial (squares : list PieceType) (square : Z) (p : Position)
  : Position :=
  match squares with
  | [] => p
  | t :: rest =>
      let squareMask := boardOf square in
      let p := if negb (PieceType_eqb t NONE) then orPiece p t squareMask
               else p in
      placeInitial rest (square + 1) p
  end.

Definition newBoard : Board :=
  let p := placeInitial INITIAL_BOARD 0 emptyPosition in
  let b := update (mkBoard false p 0 0 0 0 0 0) in
  mkBoard ENGINE_IS_WHITE (position b) (enginePieces b) (playerOrEmpty b)
          (playerPieces b) (engineOrEmpty b) (emptySquares b)
          (occupiedSquares b).

(** ** MoveGen: sliding attacks by iteration *)

(** [isOnBoard(row, col)] *)
Definition isOnBoard (row col : Z) : bool :=
  (0 <=? row) && (row <? 8) && (0 <=? col) && (col <? 8).

(** One ray of [getRookAttacks] / [getBishopAttacks]: walk from [(row, col)]
    in steps of [(dRow, dCol)] while [inside] holds, stopping at (and, with
    [captures], including) the first blocker.  No ray of an 8x8 board has more
    than 7 squares. *)
Fixpoint rayLoop (fuel : nat) (inside : Z -> Z -> bool) (dRow dCol : Z)
    (row col : Z) (blockers : Z) (captures : bool) (attacks : Z) : Z :=
  match fuel with
  | O => attacks
  | S fuel' =>
      if inside row col then
        let attack := boardOf (row * 8 + col) in
        let attacks := if captures then Z.lor attacks attack else attacks in
        if nonzero (Z.land attack blockers) then attacks
        else rayLoop fuel' inside dRow dCol (row + dRow) (col + dCol)
               blockers captures (Z.lor attacks attack)
      else attacks
  end.

Definition getRookAttacks (from : Z) (blockers : Z) (captures : bool) : Z :=
  let attacks := 0 in
  let rowFrom := from / 8 in
  let colFrom := from mod 8 in
  (* north *)
  let attacks := rayLoop 8 (fun row _ => 0 <=? row) (-1) 0
                   (rowFrom - 1) colFrom blockers captures attacks in
  (* east *)
  let attacks := rayLoop 8 (fun _ col => col <? 8) 0 1
                   rowFrom (colFrom + 1) blockers captures attacks in
  (* south *)
  let attacks := rayLoop 8 (fun row _ => row <? 8) 1 0
                   (rowFrom + 1) colFrom blockers captures attacks in
  (* west *)
  let attacks := rayLoop 8 (fun _ col => 0 <=? col) 0 (-1)
                   rowFrom (colFrom - 1) blockers captures attacks in
  attacks.

Definition getBishopAttacks (from : Z) (blockers : Z) (captures : bool) : Z :=
  let attacks := 0 in
  (* northeast ray *)
  let attacks := rayLoop 8 isOnBoard (-1) 1
                   (from / 8 - 1) (from mod 8 + 1) blockers captures attacks in
  (* southeast ray *)
  let attacks := rayLoop 8 isOnBoard 1 1
                   (from / 8 + 1) (from mod 8 + 1) blockers captures attacks in
  (* southwest ray *)
  let attacks := rayLoop 8 isOnBoard 1 (-1)
                   (from / 8 + 1) (from mod 8 - 1) blockers captures attacks in
  (* northwest ray *)
  let attacks := rayLoop 8 isOnBoard (-1) (-1)
                   (from / 8 - 1) (from mod 8 - 1) blockers captures attacks in
  attacks.

Definition getRookBlockers (from : Z) : Z :=
  let row := from / 8 in
  let col := from mod 8 in
  let endpoints := 0 in
  let endpoints := Z.lor endpoints (boardOf col) in               (* north *)
  let endpoints := Z.lor endpoints (boardOf (row * 8 + 7)) in     (* east *)
  let endpoints := Z.lor endpoints (boardOf (56 + col)) in        (* south *)
  let endpoints := Z.lor endpoints (boardOf (from - col)) in      (* west *)
  getRookAttacks from endpoints false.

Definition getBishopBlockers (from : Z) : Z :=
  getBishopAttacks from OUTER_SQUARES false.

(** ** MoveGen: magic numbers and attack tables *)

(** A C array of 64-bit words, every entry initially [0]. *)
Definition Arr (A : Type) : Type := PositiveMap.t A.

Definition aempty {A : Type} : Arr A := PositiveMap.empty A.

Definition aget {A : Type} (default : A) (a : Arr A) (i : Z) : A :=
  match PositiveMap.find (Z.to_pos (i + 1)) a with
  | Some v => v
  | None => default
  end.

Definition aset {A : Type} (a : Arr A) (i : Z) (v : A) : Arr A :=
  PositiveMap.add (Z.to_pos (i + 1)) v a.

Record MagicSquare : Type := mkMagicSquare {
  blockers : Z;
  magic : Z
}.

Definition noMagic : MagicSquare := mkMagicSquare 0 0.

(** The tables a [MoveGen] owns. *)
Record MoveGen : Type := mkMoveGen {
  ordinals : Arr MagicSquare;          (* MagicSquare ordinals[64] *)
  cardinals : Arr MagicSquare;         (* MagicSquare cardinals[64] *)
  cardinalAttacks : Arr (Arr Z);       (* uint64_t cardinalAttacks[64][4096] *)
  ordinalAttacks : Arr (Arr Z)         (* uint64_t ordinalAttacks[64][512] *)
}.

(** The C library's [rand()] is a stream of draws; the state is the number
    of draws made so far. *)
Section MagicSearch.

Variable rand : Z -> Z.

Fixpoint random64Loop (count : nat) (index : Z) (drawn : Z) (generated : Z)
  : Z :=
  match count with
  | O => generated
  | S count' =>
      let generated :=
        if rand drawn mod 2 =? 0 then Z.lor generated (shl64 1 index)
        else generated in
      random64Loop count' (index + 1) (drawn + 1) generated
  end.

(** [random64()], started after [drawn] draws; it makes 64 more. *)
Definition random64 (drawn : Z) : Z * Z :=
  (random64Loop 64 0 drawn 0, drawn + 64).

(** The inner [while (possibleBlockers)] loop: spread the bits of
    [blockerPermutation] over the set bits of the mask. *)
Fixpoint spreadLoop (fuel : nat)
    (possibleBlockers blockerPermutation actualBlockers : Z) : Z :=
  match fuel with
  | O => actualBlockers
  | S fuel' =>
      if possibleBlockers =? 0 then actualBlockers
      else
        let '(blocker, possibleBlockers') :=
          popLeastBitboard possibleBlockers in
        let actualBlockers :=
          if nonzero (blockerPermutation mod 2)
          then Z.lor actualBlockers blocker else actualBlockers in
        spreadLoop fuel' possibleBlockers' (Z.shiftr blockerPermutation 1)
                   actualBlockers
  end.

Definition slidingAttacks (isCardinal : bool) (square actualBlockers : Z)
  : Z :=
  if isCardinal then getRookAttacks square actualBlockers true
  else getBishopAttacks square actualBlockers true.

(** The arrays [blockers[]] and [attacks[]], as the list of their entries
    for [permutation = 0 .. numPermutations - 1]. *)
Definition blockerPermutations (isCardinal : bool) (square blockerMask : Z)
  : list (Z * Z) :=
  let numPermutations := Z.shiftl 1 (countSetBits blockerMask) in
  map (fun permutation : nat =>
         let actualBlockers :=
           spreadLoop 64 blockerMask (Z.of_nat permutation) 0 in
         (actualBlockers, slidingAttacks isCardinal square actualBlockers))
      (seq 0 (Z.to_nat numPermutations)).

Definition magicShift (isCardinal : bool) : Z :=
  if isCardinal then 52 else 55.

(** [uint16_t hash = blockers * magic >> shift] *)
Definition magicHash (isCardinal : bool) (blockerBoard magicNumber : Z) : Z :=
  wrap16 (shr64 (wrap64 (blockerBoard * magicNumber))
            (magicShift isCardinal)).

(** The loop over all blocker permutations that tests one candidate.  The
    result is the candidate, or [0] where the source sets [magic = 0] and
    breaks, together with [attacksSeen]. *)
Fixpoint testMagic (isCardinal : bool) (permutations : list (Z * Z))
    (magicNumber : Z) (attacksSeen : Arr Z) : Z * Arr Z :=
  match permutations with
  | [] => (magicNumber, attacksSeen)
  | (blockerBoard, attacks) :: rest =>
      let hash := magicHash isCardinal blockerBoard magicNumber in
      if aget 0 attacksSeen hash =? 0 then
        testMagic isCardinal rest magicNumber (aset attacksSeen hash attacks)
      else if negb (aget 0 attacksSeen hash =? attacks) then (0, attacksSeen)
      else testMagic isCardinal rest magicNumber attacksSeen
  end.

(** [while (tries--)]: [None] is the [assert(false)] after the loop. *)
Fixpoint magicTries (tries : nat) (isCardinal : bool)
    (permutations : list (Z * Z)) (drawn : Z) : option (Z * Arr Z * Z) :=
  match tries with
  | O => None
  | S tries' =>
      let '(r1, drawn) := random64 drawn in
      let '(r2, drawn) := random64 drawn in
      let '(r3, drawn) := random64 drawn in
      let candidate := Z.land (Z.land r1 r2) r3 in
      let '(found, attacksSeen) :=
        testMagic isCardinal permutations candidate aempty in
      if nonzero found then Some (found, attacksSeen, drawn)
      else magicTries tries' isCardinal permutations drawn
  end.

Definition MAGIC_TRIES : nat := Z.to_nat 1000000.

(** [MoveGen::getMagicNumber]: the magic number, the generator with the
    attack table of [square] filled in, and the draws made. *)
Definition getMagicNumber (g : MoveGen) (drawn : Z) (square : Z)
    (isCardinal : bool) : option (Z * MoveGen * Z) :=
  let blockerMask :=
    if isCardinal then blockers (aget noMagic (cardinals g) square)
    else blockers (aget noMagic (ordinals g) square) in
  let permutations := blockerPermutations isCardinal square blockerMask in
  r <- magicTries MAGIC_TRIES isCardinal permutations drawn ;;
  let '(found, attacksSeen, drawn) := r in
  let g :=
    if isCardinal
    then mkMoveGen (ordinals g) (cardinals g)
           (aset (cardinalAttacks g) square attacksSeen) (ordinalAttacks g)
    else mkMoveGen (ordinals g) (cardinals g)
           (cardinalAttacks g) (aset (ordinalAttacks g) square attacksSeen) in
  Some (found, g, drawn).

Definition setCardinal (g : MoveGen) (square : Z) (m : MagicSquare) : MoveGen :=
  mkMoveGen (ordinals g) (aset (cardinals g) square m)
            (cardinalAttacks g) (ordinalAttacks g).

Definition setOrdinal (g : MoveGen) (square : Z) (m : MagicSquare) : MoveGen :=
  mkMoveGen (aset (ordinals g) square m) (cardinals g)
            (cardinalAttacks g) (ordinalAttacks g).

(** The body of the constructor's loop over the squares. *)
Definition initSquare (g : MoveGen) (drawn : Z) (square : Z)
  : option (MoveGen * Z) :=
  let g := setCardinal g square
             (mkMagicSquare (getRookBlockers square)
                (magic (aget noMagic (cardinals g) square))) in
  let g := setOrdinal g square
             (mkMagicSquare (getBishopBlockers square)
                (magic (aget noMagic (ordinals g) square))) in
  r <- getMagicNumber g drawn square true ;;
  let '(found, g, drawn) := r in
  let g := setCardinal g square
             (mkMagicSquare (blockers (aget noMagic (cardinals g) square))
                found) in
  r <- getMagicNumber g drawn square false ;;
  let '(found, g, drawn) := r in
  let g := setOrdinal g square
             (mkMagicSquare (blockers (aget noMagic (ordinals g) square))
                found) in
  Some (g, drawn).

Fixpoint initSquares (count : nat) (square : Z) (g : MoveGen) (drawn : Z)
  : option (MoveGen * Z) :=
  match count with
  | O => Some (g, drawn)
  | S count' =>
      r <- initSquare g drawn square ;;
      let '(g, drawn) := r in
      initSquares count' (square + 1) g drawn
  end.

(** [MoveGen::MoveGen] *)
Definition newMoveGen : option MoveGen :=
  r <- initSquares 64 0 (mkMoveGen aempty aempty aempty aempty) 0 ;;
  Some (fst r).

End MagicSearch.

(** ** MoveGen: legal move generation *)

(** The two table reads every generation routine makes.  [cardinalMask s]
    is [cardinals[s].blockers] and [cardinalLookup s blockers] is
    [cardinalAttacks[s][blockers * cardinals[s].magic >> 52]]; likewise for
    the ordinals with a shift of 55.  A square past 63 indexes the arrays
    out of bounds. *)
Record Sliders : Type := mkSliders {
  cardinalMask : Z -> option Z;
  ordinalMask : Z -> option Z;
  cardinalLookup : Z -> Z -> option Z;
  ordinalLookup : Z -> Z -> option Z
}.

Definition onBoard (square : Z) : bool := (0 <=? square) && (square <? 64).

Definition magicIndex (isCardinal : bool) (blockerBoard magicNumber : Z) : Z :=
  shr64 (wrap64 (blockerBoard * magicNumber)) (magicShift isCardinal).

(** The reads as the tables of a constructed [MoveGen] answer them. *)
Definition tableSliders (g : MoveGen) : Sliders :=
  mkSliders
    (fun square =>
       if onBoard square
       then Some (blockers (aget noMagic (cardinals g) square)) else None)
    (fun square =>
       if onBoard square
       then Some (blockers (aget noMagic (ordinals g) square)) else None)
    (fun square blockerBoard =>
       if onBoard square
       then Some (aget 0 (aget aempty (cardinalAttacks g) square)
                    (magicIndex true blockerBoard
                       (magic (aget noMagic (cardinals g) square))))
       else None)
    (fun square blockerBoard =>
       if onBoard square
       then Some (aget 0 (aget aempty (ordinalAttacks g) square)
                    (magicIndex false blockerBoard
                       (magic (aget noMagic (ordinals g) square))))
       else None).

Fixpoint mapM {A B : Type} (f : A -> option B) (l : list A) : option (list B) :=
  match l with
  | [] => Some []
  | a :: rest =>
      b <- f a ;;
      bs <- mapM f rest ;;
      Some (b :: bs)
  end.

(** A loop whose every round appends moves to [generated]. *)
Fixpoint concatM {A B : Type} (f : A -> option (list B)) (l : list A)
  : option (list B) :=
  match l with
  | [] => Some []
  | a :: rest =>
      bs <- f a ;;
      more <- concatM f rest ;;
      Some (bs ++ more)
  end.

Fixpoint foldM {A B : Type} (f : B -> A -> option B) (l : list A) (acc : B)
  : option B :=
  match l with
  | [] => Some acc
  | a :: rest =>
      acc <- f acc a ;;
      foldM f rest acc
  end.

(** [while (board) { piece = popLeastBitboard(board); ... }] *)
Fixpoint popBitboards (fuel : nat) (board : Z) : list Z :=
  match fuel with
  | O => []
  | S fuel' =>
      if board =? 0 then []
      else let '(least, board') := popLeastBitboard board in
           least :: popBitboards fuel' board'
  end.

Definition bitboardsOf (board : Z) : list Z := popBitboards 64 board.

Section Generation.

Variable sliders : Sliders.

(** [isEngine ? getPlayerPieceType(to) : getEnginePieceType(to)] *)
Definition capturedOn (isEngine : bool) (b : Board) (square : Z)
  : option PieceType :=
  if isEngine then getPlayerPieceType b square
  else getEnginePieceType b square.

(** [while (moves) { to = popLeastSquare(moves); generated.push_back(...) }] *)
Definition pushMoves (isEngine : bool) (b : Board) (from : Z)
    (mover : PieceType) (moves : Z) : option (list Move) :=
  mapM (fun to =>
          c <- capturedOn isEngine b to ;;
          Some (mkMove NORMAL from to mover c))
       (squaresOf moves).

Definition enemyCardinals (isEngine : bool) (p : Position) : Z :=
  if isEngine then Z.lor (piece p PLAYER_QUEEN) (piece p PLAYER_ROOK)
  else Z.lor (piece p ENGINE_QUEEN) (piece p ENGINE_ROOK).

Definition enemyOrdinals (isEngine : bool) (p : Position) : Z :=
  if isEngine then Z.lor (piece p PLAYER_QUEEN) (piece p PLAYER_BISHOP)
  else Z.lor (piece p ENGINE_QUEEN) (piece p ENGINE_BISHOP).

(** [(x & ~FILE7) << 9 & pawns] for the engine, [(x & ~FILE0) >> 9 & pawns]
    for the player *)
Definition leftPawnAttackers (isEngine : bool) (p : Position) (x : Z) : Z :=
  if isEngine
  then Z.land (shl64 (Z.land x (not64 FILE7)) 9) (piece p PLAYER_PAWN)
  else Z.land (shr64 (Z.land x (not64 FILE0)) 9) (piece p ENGINE_PAWN).

Definition rightPawnAttackers (isEngine : bool) (p : Position) (x : Z) : Z :=
  if isEngine
  then Z.land (shl64 (Z.land x (not64 FILE0)) 7) (piece p PLAYER_PAWN)
  else Z.land (shr64 (Z.land x (not64 FILE7)) 7) (piece p ENGINE_PAWN).

(** [MoveGen::getBlockerSquares<isEngine>] *)
Definition getBlockerSquares (isEngine : bool) (b : Board) : option Z :=
  let p := position b in
  let king := if isEngine then piece p ENGINE_KING else piece p PLAYER_KING in
  let kingSquare := getLeastSquare king in
  cm <- cardinalMask sliders kingSquare ;;
  om <- ordinalMask sliders kingSquare ;;
  let cardinalBlockers := Z.land (occupiedSquares b) cm in
  let ordinalBlockers := Z.land (occupiedSquares b) om in
  cardinalAttackRays <- cardinalLookup sliders kingSquare cardinalBlockers ;;
  ordinalAttackRays <- ordinalLookup sliders kingSquare ordinalBlockers ;;
  let cardinalAttackers :=
    Z.land cardinalAttackRays (enemyCardinals isEngine p) in
  let ordinalAttackers :=
    Z.land ordinalAttackRays (enemyOrdinals isEngine p) in
  let attackers := Z.lor cardinalAttackers ordinalAttackers in
  knightMoves <- tableAt KNIGHT_MOVES kingSquare ;;
  let attackers :=
    Z.lor attackers
      (Z.land knightMoves
         (if isEngine then piece p PLAYER_KNIGHT
          else piece p ENGINE_KNIGHT)) in
  let attackers := Z.lor attackers (leftPawnAttackers isEngine p king) in
  let attackers := Z.lor attackers (rightPawnAttackers isEngine p king) in
  if negb (nonzero attackers) then Some FILLED_BOARD
  else if countSetBits attackers =? 1 then
    if nonzero cardinalAttackers then
      let attacker := getLeastSquare cardinalAttackers in
      am <- cardinalMask sliders attacker ;;
      let cardinalBlockers := Z.land (occupiedSquares b) am in
      rays <- cardinalLookup sliders attacker cardinalBlockers ;;
      let cardinalAttackRays := Z.land cardinalAttackRays rays in
      Some (Z.lor cardinalAttackRays attackers)
    else if nonzero ordinalAttackers then
      let attacker := getLeastSquare ordinalAttackers in
      am <- ordinalMask sliders attacker ;;
      let ordinalBlockers := Z.land (occupiedSquares b) am in
      rays <- ordinalLookup sliders attacker ordinalBlockers ;;
      let ordinalAttackRays := Z.land ordinalAttackRays rays in
      Some (Z.lor ordinalAttackRays attackers)
    else Some attackers
  else Some 0.

(** [MoveGen::getOrdinalPins<isEngine>] *)
Definition getOrdinalPins (isEngine : bool) (b : Board) : option Z :=
  let p := position b in
  let king :=
    getLeastSquare (piece p (if isEngine then ENGINE_KING else PLAYER_KING)) in
  km <- ordinalMask sliders king ;;
  let ordinalBlockers := Z.land (occupiedSquares b) km in
  possiblyPinned <- ordinalLookup sliders king ordinalBlockers ;;
  let possiblyPinned :=
    Z.land possiblyPinned
      (if isEngine then enginePieces b else playerPieces b) in
  let ordinalBlockers := Z.land ordinalBlockers (not64 possiblyPinned) in
  pins <- ordinalLookup sliders king ordinalBlockers ;;
  let pinning := Z.land pins (enemyOrdinals isEngine p) in
  foldM (fun ordinalPins pinningSquare =>
           pm <- ordinalMask sliders pinningSquare ;;
           let ordinalBlockers :=
             Z.land (Z.land (occupiedSquares b) pm) (not64 possiblyPinned) in
           pin <- ordinalLookup sliders pinningSquare ordinalBlockers ;;
           let ordinalPins := Z.lor ordinalPins (Z.land pins pin) in
           Some (Z.lor ordinalPins (boardOf pinningSquare)))
        (squaresOf pinning) 0.

(** [MoveGen::getCardinalPins<isEngine>] *)
Definition getCardinalPins (isEngine : bool) (b : Board) : option Z :=
  let p := position b in
  let king :=
    getLeastSquare (piece p (if isEngine then ENGINE_KING else PLAYER_KING)) in
  km <- cardinalMask sliders king ;;
  let cardinalBlockers := Z.land (occupiedSquares b) km in
  possiblyPinned <- cardinalLookup sliders king cardinalBlockers ;;
  let possiblyPinned :=
    Z.land possiblyPinned
      (if isEngine then enginePieces b else playerPieces b) in
  let cardinalBlockers := Z.land cardinalBlockers (not64 possiblyPinned) in
  pins <- cardinalLookup sliders king cardinalBlockers ;;
  let pinning := Z.land pins (enemyCardinals isEngine p) in
  foldM (fun cardinalPins pinningSquare =>
           pm <- cardinalMask sliders pinningSquare ;;
           let cardinalBlockers :=
             Z.land (Z.land (occupiedSquares b) pm) (not64 possiblyPinned) in
           pin <- cardinalLookup sliders pinningSquare cardinalBlockers ;;
           let cardinalPins := Z.lor cardinalPins (Z.land pins pin) in
           Some (Z.lor cardinalPins (boardOf pinningSquare)))
        (squaresOf pinning) 0.

(** [MoveGen::isSafeSquare<isEngine>] *)
Definition isSafeSquare (isEngine : bool) (b : Board) (square : Z)
  : option bool :=
  let p := position b in
  let attacked := boardOf square in
  cm <- cardinalMask sliders square ;;
  om <- ordinalMask sliders square ;;
  let cardinalBlockers := Z.land (occupiedSquares b) cm in
  let ordinalBlockers := Z.land (occupiedSquares b) om in
  let ownKing := piece p (if isEngine then ENGINE_KING else PLAYER_KING) in
  let cardinalBlockers := Z.land cardinalBlockers (not64 ownKing) in
  let ordinalBlockers := Z.land ordinalBlockers (not64 ownKing) in
  cardinalAttackers <- cardinalLookup sliders square cardinalBlockers ;;
  ordinalAttackers <- ordinalLookup sliders square ordinalBlockers ;;
  let cardinalAttackers :=
    Z.land cardinalAttackers (enemyCardinals isEngine p) in
  let ordinalAttackers :=
    Z.land ordinalAttackers (enemyOrdinals isEngine p) in
  let attackers := Z.lor cardinalAttackers ordinalAttackers in
  knightMoves <- tableAt KNIGHT_MOVES square ;;
  let attackers :=
    Z.lor attackers
      (Z.land knightMoves
         (if isEngine then piece p PLAYER_KNIGHT
          else piece p ENGINE_KNIGHT)) in
  kingMoves <- tableAt KING_MOVES square ;;
  let attackers :=
    Z.lor attackers
      (Z.land kingMoves
         (if isEngine then piece p PLAYER_KING else piece p ENGINE_KING)) in
  let attackers := Z.lor attackers (leftPawnAttackers isEngine p attacked) in
  let attackers := Z.lor attackers (rightPawnAttackers isEngine p attacked) in
  Some (attackers =? 0).

(** [MoveGen::isKingInCheck] *)
Definition isKingInCheck (b : Board) (isEngine : bool) : option bool :=
  if isEngine then
    safe <- isSafeSquare true b
              (getLeastSquare (piece (position b) ENGINE_KING)) ;;
    Some (negb safe)
  else
    safe <- isSafeSquare false b
              (getLeastSquare (piece (position b) PLAYER_KING)) ;;
    Some (negb safe).

(** The pin and check bitboards a generation pass starts from. *)
Record Pins : Type := mkPins {
  blockerSquares : Z;
  cardinalPins : Z;
  ordinalPins : Z
}.

Definition ownOrEmptyTargets (isEngine : bool) (b : Board) : Z :=
  if isEngine then playerOrEmpty b else engineOrEmpty b.

(** [MoveGen::generateQueenMoves<isEngine>] *)
Definition generateQueenMoves (isEngine : bool) (b : Board) (k : Pins)
  : option (list Move) :=
  let queens :=
    piece (position b) (if isEngine then ENGINE_QUEEN else PLAYER_QUEEN) in
  concatM (fun queen =>
    let from := getLeastSquare queen in
    let moves := 0 in
    (* if we are unpinned horizontal/vertical *)
    moves <-
      (if nonzero (Z.land queen (not64 (cardinalPins k))) then
         om <- ordinalMask sliders from ;;
         let ordinalBlockers := Z.land (occupiedSquares b) om in
         att <- ordinalLookup sliders from ordinalBlockers ;;
         let moves := Z.lor moves att in
         if nonzero (Z.land queen (ordinalPins k))
         then Some (Z.land moves (ordinalPins k))
         else Some moves
       else Some moves) ;;
    (* if we are unpinned diagonally *)
    moves <-
      (if nonzero (Z.land queen (not64 (ordinalPins k))) then
         cm <- cardinalMask sliders from ;;
         let cardinalBlockers := Z.land (occupiedSquares b) cm in
         att <- cardinalLookup sliders from cardinalBlockers ;;
         let moves := Z.lor moves att in
         if nonzero (Z.land queen (cardinalPins k))
         then Some (Z.land moves (cardinalPins k))
         else Some moves
       else Some moves) ;;
    let moves := Z.land moves (ownOrEmptyTargets isEngine b) in
    let moves := Z.land moves (blockerSquares k) in
    pushMoves isEngine b from
      (if isEngine then ENGINE_QUEEN else PLAYER_QUEEN) moves)
    (bitboardsOf queens).

(** [MoveGen::generateRookMoves<isEngine>] *)
Definition generateRookMoves (isEngine : bool) (b : Board) (k : Pins)
  : option (list Move) :=
  let rooks :=
    piece (position b) (if isEngine then ENGINE_ROOK else PLAYER_ROOK) in
  let rooks := Z.land rooks (not64 (ordinalPins k)) in
  concatM (fun from =>
    cm <- cardinalMask sliders from ;;
    let blockerBoard := Z.land (occupiedSquares b) cm in
    moves <- cardinalLookup sliders from blockerBoard ;;
    let moves := Z.land moves (ownOrEmptyTargets isEngine b) in
    let moves := Z.land moves (blockerSquares k) in
    let moves :=
      if nonzero (Z.land (boardOf from) (cardinalPins k))
      then Z.land moves (cardinalPins k) else moves in
    pushMoves isEngine b from
      (if isEngine then ENGINE_ROOK else PLAYER_ROOK) moves)
    (squaresOf rooks).

(** [MoveGen::generateBishopMoves<isEngine>] *)
Definition generateBishopMoves (isEngine : bool) (b : Board) (k : Pins)
  : option (list Move) :=
  let bishops :=
    piece (position b) (if isEngine then ENGINE_BISHOP else PLAYER_BISHOP) in
  let bishops := Z.land bishops (not64 (cardinalPins k)) in
  concatM (fun from =>
    om <- ordinalMask sliders from ;;
    let blockerBoard := Z.land (occupiedSquares b) om in
    moves <- ordinalLookup sliders from blockerBoard ;;
    let moves := Z.land moves (ownOrEmptyTargets isEngine b) in
    let moves := Z.land moves (blockerSquares k) in
    let moves :=
      if nonzero (Z.land (boardOf from) (ordinalPins k))
      then Z.land moves (ordinalPins k) else moves in
    pushMoves isEngine b from
      (if isEngine then ENGINE_BISHOP else PLAYER_BISHOP) moves)
    (squaresOf bishops).

(** [MoveGen::generateKnightMoves<isEngine>] *)
Definition generateKnightMoves (isEngine : bool) (b : Board) (k : Pins)
  : option (list Move) :=
  let knights :=
    piece (position b) (if isEngine then ENGINE_KNIGHT else PLAYER_KNIGHT) in
  let knights :=
    Z.land knights (not64 (Z.lor (cardinalPins k) (ordinalPins k))) in
  concatM (fun from =>
    knightMoves <- tableAt KNIGHT_MOVES from ;;
    let moves := Z.land knightMoves (ownOrEmptyTargets isEngine b) in
    let moves := Z.land moves (blockerSquares k) in
    pushMoves isEngine b from
      (if isEngine then ENGINE_KNIGHT else PLAYER_KNIGHT) moves)
    (squaresOf knights).

(** The castling loop
    [while (path) { if (!isSafeSquare(popLeastSquare(path))) break;
                    if (!path) safeMoves |= destination; }]:
    whether it adds the destination. *)
Fixpoint castlePathSafe (fuel : nat) (isEngine : bool) (b : Board) (path : Z)
  : option bool :=
  match fuel with
  | O => Some false
  | S fuel' =>
      if path =? 0 then Some false
      else
        let '(square, path') := popLeastSquare path in
        safe <- isSafeSquare isEngine b square ;;
        if negb safe then Some false
        else if path' =? 0 then Some true
        else castlePathSafe fuel' isEngine b path'
  end.

(** [MoveGen::generateKingMoves<isEngine>] *)
Definition generateKingMoves (isEngine : bool) (b : Board)
  : option (list Move) :=
  let p := position b in
  let from :=
    getLeastSquare (piece p (if isEngine then ENGINE_KING else PLAYER_KING)) in
  kingMoves <- tableAt KING_MOVES from ;;
  let moves := Z.land kingMoves (ownOrEmptyTargets isEngine b) in
  (* don't let the king walk onto attacked squares *)
  safeMoves <-
    foldM (fun safeMoves square =>
             safe <- isSafeSquare isEngine b square ;;
             if safe then Some (Z.lor safeMoves (boardOf square))
             else Some safeMoves)
          (squaresOf moves) 0 ;;
  (* if we have not lost the right to castle queenside *)
  safeMoves <-
    (if castleQueenside isEngine p then
       let path :=
         if isEngine then ENGINE_QUEENSIDE_CASTLE
         else PLAYER_QUEENSIDE_CASTLE in
       let extraSquare :=
         if isEngine then ENGINE_QUEENSIDE_DESTINATION
         else PLAYER_QUEENSIDE_DESTINATION in
       let path :=
         Z.lor path (if ENGINE_IS_WHITE then shl64 extraSquare 1
                     else shr64 extraSquare 1) in
       let path := Z.land path (emptySquares b) in
       if countSetBits path =? 3 then
         let path :=
           if isEngine then ENGINE_QUEENSIDE_CASTLE
           else PLAYER_QUEENSIDE_CASTLE in
         ok <- castlePathSafe 64 isEngine b path ;;
         if ok then
           Some (Z.lor safeMoves
                   (if isEngine then ENGINE_QUEENSIDE_DESTINATION
                    else PLAYER_QUEENSIDE_DESTINATION))
         else Some safeMoves
       else Some safeMoves
     else Some safeMoves) ;;
  (* if we have not lost the right to castle kingside *)
  safeMoves <-
    (if castleKingside isEngine p then
       let path :=
         if isEngine then ENGINE_KINGSIDE_CASTLE
         else PLAYER_KINGSIDE_CASTLE in
       let path := Z.land path (emptySquares b) in
       if countSetBits path =? 2 then
         let path :=
           if isEngine then ENGINE_KINGSIDE_CASTLE
           else PLAYER_KINGSIDE_CASTLE in
         ok <- castlePathSafe 64 isEngine b path ;;
         if ok then
           Some (Z.lor safeMoves
                   (if isEngine then ENGINE_KINGSIDE_DESTINATION
                    else PLAYER_KINGSIDE_DESTINATION))
         else Some safeMoves
       else Some safeMoves
     else Some safeMoves) ;;
  pushMoves isEngine b from
    (if isEngine then ENGINE_KING else PLAYER_KING) safeMoves.

(** [(Board::MoveType)promotionChoice] for [promotionChoice = 0 .. 3] *)
Definition promotionTypes : list MoveType :=
  [QUEEN_PROMOTION; KNIGHT_PROMOTION; BISHOP_PROMOTION; ROOK_PROMOTION].

Definition ownPawn (isEngine : bool) : PieceType :=
  if isEngine then ENGINE_PAWN else PLAYER_PAWN.

(** The moves one pawn step to [to] from [from] pushes: four promotions on
    the last rank, one normal move elsewhere. *)
Definition pawnMovesTo (isEngine : bool) (from to : Z) (c : PieceType)
  : list Move :=
  if nonzero (Z.land (boardOf to) (if isEngine then RANK7 else RANK0))
  then map (fun promotionChoice =>
              mkMove promotionChoice from to (ownPawn isEngine) c)
           promotionTypes
  else [mkMove NORMAL from to (ownPawn isEngine) c].

(** The single-push loop. *)
Definition pawnSinglePushes (isEngine : bool) (k : Pins) (singlePush : Z)
  : list Move :=
  flat_map (fun to =>
    let from := wrap8 (to + (if isEngine then -8 else 8)) in
    let squareTo := boardOf to in
    if nonzero (Z.land (boardOf from) (cardinalPins k))
       && negb (nonzero (Z.land squareTo (cardinalPins k)))
    then []
    else pawnMovesTo isEngine from to NONE)
    (squaresOf singlePush).

(** The double-push loop. *)
Definition pawnDoublePushes (isEngine : bool) (k : Pins) (doublePush : Z)
  : list Move :=
  flat_map (fun to =>
    let from := wrap8 (to + (if isEngine then -16 else 16)) in
    if nonzero (Z.land (boardOf from) (cardinalPins k))
       && negb (nonzero (Z.land (boardOf to) (cardinalPins k)))
    then []
    else [mkMove NORMAL from to (ownPawn isEngine) NONE])
    (squaresOf doublePush).

(** The left and right capture loops; [back] is 9 or 7. *)
Definition pawnCaptures (isEngine : bool) (b : Board) (k : Pins)
    (back : Z) (attacks : Z) : option (list Move) :=
  concatM (fun to =>
    let from := wrap8 (to + (if isEngine then - back else back)) in
    let squareTo := boardOf to in
    let squareFrom := boardOf from in
    if nonzero (Z.land squareFrom (ordinalPins k))
       && negb (nonzero (Z.land squareTo (ordinalPins k)))
    then Some []
    else
      c <- capturedOn isEngine b to ;;
      Some (pawnMovesTo isEngine from to c))
    (squaresOf attacks).

(** The horizontal attacks from the capturing pawn, with the pawn it takes
    en passant lifted off the rank, cut down to our own king and the enemy
    rooks and queens. *)
Definition enPassantPin (isEngine : bool) (b : Board) (from : Z) : option Z :=
  let p := position b in
  cm <- cardinalMask sliders from ;;
  let blockerBoard :=
    Z.land (Z.land cm (occupiedSquares b)) (not64 (enPassantCapture p)) in
  att <- cardinalLookup sliders from blockerBoard ;;
  let pin := Z.land att (if isEngine then RANK4 else RANK3) in
  Some (Z.land pin
          (Z.lor (Z.lor (piece p (if isEngine then ENGINE_KING
                                  else PLAYER_KING))
                        (piece p (if isEngine then PLAYER_QUEEN
                                  else ENGINE_QUEEN)))
                 (piece p (if isEngine then PLAYER_ROOK else ENGINE_ROOK)))).

(** One of the two en passant branches, for a nonzero candidate board;
    [from] is the capturing pawn and [forward] is 7 or 9. *)
Definition enPassantMove (isEngine : bool) (b : Board) (k : Pins)
    (from forward : Z) : option (list Move) :=
  let to := wrap8 (from + (if isEngine then forward else - forward)) in
  pin <- enPassantPin isEngine b from ;;
  if nonzero (Z.land (boardOf from) (ordinalPins k))
     && negb (nonzero (Z.land (boardOf to) (ordinalPins k)))
  then Some []
  else if negb (countSetBits pin =? 2) then
    Some [mkMove EN_PASSANT from to (ownPawn isEngine)
            (if isEngine then PLAYER_PAWN else ENGINE_PAWN)]
  else Some [].

(** [MoveGen::generatePawnMoves<isEngine>] *)
Definition generatePawnMoves (isEngine : bool) (b : Board) (k : Pins)
  : option (list Move) :=
  let p := position b in
  let pawns := if isEngine then piece p ENGINE_PAWN else piece p PLAYER_PAWN in
  let singlePush :=
    Z.land (if isEngine
            then shl64 (Z.land pawns (not64 (ordinalPins k))) 8
            else shr64 (Z.land pawns (not64 (ordinalPins k))) 8)
           (emptySquares b) in
  let doublePush :=
    Z.land (if isEngine then shl64 (Z.land singlePush RANK2) 8
            else shr64 (Z.land singlePush RANK5) 8)
           (emptySquares b) in
  let singlePush := Z.land singlePush (blockerSquares k) in
  let doublePush := Z.land doublePush (blockerSquares k) in
  let pushes :=
    pawnSinglePushes isEngine k singlePush
    ++ pawnDoublePushes isEngine k doublePush in
  (* get rid of horizontal/vertical pinned pawns right away *)
  let pawns := Z.land pawns (not64 (cardinalPins k)) in
  let leftAttacks :=
    if isEngine then shl64 (Z.land pawns (not64 FILE7)) 9
    else shr64 (Z.land pawns (not64 FILE0)) 9 in
  let leftAttacks :=
    Z.land leftAttacks (if isEngine then playerPieces b else enginePieces b) in
  let leftAttacks := Z.land leftAttacks (blockerSquares k) in
  lefts <- pawnCaptures isEngine b k 9 leftAttacks ;;
  let rightAttacks :=
    if isEngine then shl64 (Z.land pawns (not64 FILE0)) 7
    else shr64 (Z.land pawns (not64 FILE7)) 7 in
  let rightAttacks :=
    Z.land rightAttacks
           (if isEngine then playerPieces b else enginePieces b) in
  let rightAttacks := Z.land rightAttacks (blockerSquares k) in
  rights <- pawnCaptures isEngine b k 7 rightAttacks ;;
  enPassants <-
    (if nonzero (enPassantCapture p) then
       let pawns := Z.land pawns (if isEngine then RANK4 else RANK3) in
       let rightEnPassant :=
         Z.land (Z.land (enPassantCapture p)
                        (if isEngine then shr64 pawns 1 else shl64 pawns 1))
                (blockerSquares k) in
       let leftEnPassant :=
         Z.land (Z.land (enPassantCapture p)
                        (if isEngine then shl64 pawns 1 else shr64 pawns 1))
                (blockerSquares k) in
       rightMoves <-
         (if nonzero rightEnPassant then
            enPassantMove isEngine b k
              (getLeastSquare (if isEngine then shl64 rightEnPassant 1
                               else shr64 rightEnPassant 1)) 7
          else Some []) ;;
       leftMoves <-
         (if nonzero leftEnPassant then
            enPassantMove isEngine b k
              (getLeastSquare (if isEngine then shr64 leftEnPassant 1
                               else shl64 leftEnPassant 1)) 9
          else Some []) ;;
       Some (rightMoves ++ leftMoves)
     else Some []) ;;
  Some (pushes ++ lefts ++ rights ++ enPassants).

(** The three bitboards [generateEngineMoves] / [generatePlayerMoves]
    compute first. *)
Definition getPins (isEngine : bool) (b : Board) : option Pins :=
  bs <- getBlockerSquares isEngine b ;;
  cp <- getCardinalPins isEngine b ;;
  op <- getOrdinalPins isEngine b ;;
  Some (mkPins bs cp op).

Definition generateMoves (isEngine : bool) (b : Board) : option (list Move) :=
  k <- getPins isEngine b ;;
  pawnMoves <- generatePawnMoves isEngine b k ;;
  knightMoves <- generateKnightMoves isEngine b k ;;
  kingMoves <- generateKingMoves isEngine b ;;
  bishopMoves <- generateBishopMoves isEngine b k ;;
  rookMoves <- generateRookMoves isEngine b k ;;
  queenMoves <- generateQueenMoves isEngine b k ;;
  Some (pawnMoves ++ knightMoves ++ kingMoves ++ bishopMoves ++ rookMoves
        ++ queenMoves).

(** [MoveGen::generateEngineMoves] and [MoveGen::generatePlayerMoves]: the
    contents of [generated] afterwards. *)
Definition generateEngineMoves (b : Board) : option (list Move) :=
  generateMoves true b.

Definition generatePlayerMoves (b : Board) : option (list Move) :=
  generateMoves false b.

End Generation.

(** ** MoveGen::getSortedMoves *)

Section MoveOrdering.

(** [getSortedMoves] reads [PIECE_VALUES[move.captured]] whenever the
    enumerator of [move.captured] is nonzero, so also for [NONE], one past
    the end of the 12-entry array.  What that read yields is not fixed by
    the source; it is a parameter here. *)
Variable pieceValuePastEnd : Z.

Definition pieceValue (t : PieceType) : Z :=
  nth (pieceIndex t) PIECE_VALUES pieceValuePastEnd.

(** The body of the [for] loop: the new value of [score]. *)
Definition moveScore (move : Move) (score : Z) : Z :=
  if negb (Nat.eqb (pieceIndex (captured move)) 0) then
    pieceValue ENGINE_QUEEN + pieceValue (captured move)
    - pieceValue (moving move)
  else if PieceType_eqb (moving move) PLAYER_PAWN
          || PieceType_eqb (moving move) ENGINE_PAWN then 0
  else score.

(** The [for] loop over [generated]: the final [bestMoveIndex]. *)
Fixpoint pickBest (moves : list Move) (index : nat) (score bestScore : Z)
    (bestMoveIndex : nat) : nat :=
  match moves with
  | [] => bestMoveIndex
  | move :: rest =>
      let score := moveScore move score in
      if score >? bestScore
      then pickBest rest (S index) score score index
      else pickBest rest (S index) score bestScore bestMoveIndex
  end.

(** [generated.erase(generated.begin() + index)] *)
Fixpoint erase (index : nat) (l : list Move) : list Move :=
  match l, index with
  | [], _ => []
  | _ :: rest, O => rest
  | x :: rest, S index' => x :: erase index' rest
  end.

(** The [while (!generated.empty())] loop; every round erases one move. *)
Fixpoint sortLoop (fuel : nat) (generated sorted : list Move)
  : list Move * list Move :=
  match fuel with
  | O => (sorted, generated)
  | S fuel' =>
      match generated with
      | [] => (sorted, generated)
      | first :: _ =>
          let bestMoveIndex := pickBest generated 0 0 (-1) 0 in
          sortLoop fuel' (erase bestMoveIndex generated)
                   (sorted ++ [nth bestMoveIndex generated first])
      end
  end.

(** [MoveGen::getSortedMoves]: the vector returned and what is left in
    [generated]. *)
Definition getSortedMoves (generated : list Move) : list Move * list Move :=
  let '(sorted, generated) := sortLoop (length generated) generated [] in
  (rev sorted, generated).

End MoveOrdering.

(** ** Evaluation.cpp *)

Definition valueOf (t : PieceType) : Z := nth (pieceIndex t) PIECE_VALUES 0.

(** [Evaluation::evaluate] *)
Definition evaluate (p : Position) : Z :=
  let score := 0 in
  let score :=
    fold_left (fun score t => score - countSetBits (piece p t) * valueOf t)
      [PLAYER_PAWN; PLAYER_KNIGHT; PLAYER_BISHOP; PLAYER_ROOK; PLAYER_QUEEN]
      score in
  let score :=
    fold_left (fun score t => score + countSetBits (piece p t) * valueOf t)
      [ENGINE_PAWN; ENGINE_KNIGHT; ENGINE_BISHOP; ENGINE_ROOK; ENGINE_QUEEN]
      score in
  let score :=
    score - countSetBits (Z.land (piece p PLAYER_KNIGHT) CENTER_16_SQUARES)
            * 70 in
  let score :=
    score + countSetBits (Z.land (piece p ENGINE_KNIGHT) CENTER_16_SQUARES)
            * 70 in
  let score :=
    score - countSetBits (Z.land (piece p PLAYER_BISHOP) CENTER_16_SQUARES)
            * 60 in
  let score :=
    score + countSetBits (Z.land (piece p ENGINE_BISHOP) CENTER_16_SQUARES)
            * 60 in
  let score :=
    score - countSetBits (Z.land (piece p PLAYER_PAWN) PAWN_CENTER) * 10 in
  let score :=
    score - countSetBits (Z.land (piece p PLAYER_PAWN) CENTER_4_SQUARES)
            * 30 in
  let score :=
    score - countSetBits (Z.land (piece p PLAYER_PAWN) PLAYER_ADVANCED_PAWNS)
            * 15 in
  let score :=
    score + countSetBits (Z.land (piece p ENGINE_PAWN) PAWN_CENTER) * 10 in
  let score :=
    score + countSetBits (Z.land (piece p ENGINE_PAWN) CENTER_4_SQUARES)
            * 30 in
  let score :=
    score + countSetBits (Z.land (piece p ENGINE_PAWN) ENGINE_ADVANCED_PAWNS)
            * 15 in
  score.

(** ** Search.cpp *)

(** The undo the searcher performs after a move:
    [board->position = clone; board->engineToMove = !board->engineToMove;] *)
Definition unmakeMove (b : Board) (clone : Position) : Board :=
  flipEngineToMove (setPosition b clone).

Section Search.

Variable sliders : Sliders.
Variable pieceValuePastEnd : Z.

(** The [for (Board::Move &move : moves)] loop of [maximize]; [child] is the
    call [minimize(ply + 1, alpha, beta)] on the board after the move. *)
Fixpoint maximizeLoop (child : Board -> Z -> Z -> option (Z * Board))
    (moves : list Move) (b : Board) (bestScore alpha beta : Z)
  : option (Z * Board) :=
  match moves with
  | [] => Some (bestScore, b)
  | move :: rest =>
      let clone := position b in
      let b := makeMove true b move in
      r <- child b alpha beta ;;
      let '(score, b) := r in
      let bestScore := if score >? bestScore then score else bestScore in
      (* unmake the move *)
      let b := unmakeMove b clone in
      let alpha := if bestScore >? alpha then bestScore else alpha in
      if beta <=? alpha then Some (bestScore, b)
      else maximizeLoop child rest b bestScore alpha beta
  end.

(** The loop of [minimize]; [child] is [maximize(ply + 1, alpha, beta)]. *)
Fixpoint minimizeLoop (child : Board -> Z -> Z -> option (Z * Board))
    (moves : list Move) (b : Board) (bestScore alpha beta : Z)
  : option (Z * Board) :=
  match moves with
  | [] => Some (bestScore, b)
  | move :: rest =>
      let clone := position b in
      let b := makeMove false b move in
      r <- child b alpha beta ;;
      let '(score, b) := r in
      let bestScore := if score <? bestScore then score else bestScore in
      (* unmake the move *)
      let b := unmakeMove b clone in
      let beta := if bestScore <? beta then bestScore else beta in
      if beta <=? alpha then Some (bestScore, b)
      else minimizeLoop child rest b bestScore alpha beta
  end.

(** [Search::maximize] and [Search::minimize]: the score returned and the
    board the call leaves behind.  The recursion stops once [ply] exceeds
    [SEARCH_DEPTH]; [fuel] bounds its depth and [None] is an abort of the
    generator (or an exhausted [fuel]). *)
Fixpoint maximize (fuel : nat) (b : Board) (ply alpha beta : Z)
  : option (Z * Board) :=
  match fuel with
  | O => None
  | S fuel' =>
      if ply >? SEARCH_DEPTH then Some (evaluate (position b), b)
      else
        let bestScore := MIN_EVAL in
        generated <- generateEngineMoves sliders b ;;
        let moves := fst (getSortedMoves pieceValuePastEnd generated) in
        match moves with
        | [] =>
            inCheck <- isKingInCheck sliders b true ;;
            if inCheck then Some (MIN_EVAL + ply, b) else Some (0, b)
        | _ =>
            maximizeLoop (fun b' alpha' beta' =>
                            minimize fuel' b' (ply + 1) alpha' beta')
                         moves b bestScore alpha beta
        end
  end
with minimize (fuel : nat) (b : Board) (ply alpha beta : Z)
  : option (Z * Board) :=
  match fuel with
  | O => None
  | S fuel' =>
      if ply >? SEARCH_DEPTH then Some (evaluate (position b), b)
      else
        let bestScore := MAX_EVAL in
        generated <- generatePlayerMoves sliders b ;;
        let moves := fst (getSortedMoves pieceValuePastEnd generated) in
        match moves with
        | [] =>
            inCheck <- isKingInCheck sliders b false ;;
            if inCheck then Some (MAX_EVAL - ply, b) else Some (0, b)
        | _ =>
            minimizeLoop (fun b' alpha' beta' =>
                            maximize fuel' b' (ply + 1) alpha' beta')
                         moves b bestScore alpha beta
        end
  end.

(** Fuel that covers every ply from [ply] to the leaves. *)
Definition searchFuel (ply : Z) : nat := S (Z.to_nat (SEARCH_DEPTH + 1 - ply)).

(** The loop of [Search::getBestMove]; [child] is the call
    [minimize(1, MIN_EVAL, MAX_EVAL)] on the board after the move.  [best]
    is [None] as long as the local [Board::Move best] has not been assigned.
    Printing the score calls [getMoveNotation], which asserts
    [move.moving != NONE]. *)
Fixpoint bestMoveLoop (child : Board -> option (Z * Board))
    (moves : list Move) (b : Board) (best : option Move) (bestScore : Z)
  : option (option Move * Board) :=
  match moves with
  | [] => Some (best, b)
  | move :: rest =>
      let clone := position b in
      (* make the move *)
      let b := makeMove true b move in
      r <- child b ;;
      let '(score, b) := r in
      if PieceType_eqb (moving move) NONE then None
      else
        let best := if score >? bestScore then Some move else best in
        let bestScore := if score >? bestScore then score else bestScore in
        (* unmake the move *)
        let b := unmakeMove b clone in
        bestMoveLoop child rest b best bestScore
  end.

(** [Search::getBestMove]: the move returned and the board the call leaves
    behind. *)
Definition getBestMove (fuel : nat) (b : Board)
  : option (option Move * Board) :=
  let bestScore := MIN_EVAL in
  generated <- generateEngineMoves sliders b ;;
  let moves := fst (getSortedMoves pieceValuePastEnd generated) in
  bestMoveLoop (fun b' => minimize fuel b' 1 MIN_EVAL MAX_EVAL)
               moves b None bestScore.

End Search.

(** * Properties *)

(** ** Bit-level facts *)

Definition u64 (x : Z) : Prop := 0 <= x < 2 ^ 64.

Lemma wrap64_mod (z : Z) : wrap64 z = z mod 2 ^ 64.
Proof.
  unfold wrap64. change 0xFFFFFFFFFFFFFFFF with (Z.ones 64).
  apply Z.land_ones. lia.
Qed.

Lemma wrap64_u64 (z : Z) : u64 (wrap64 z).
Proof. rewrite wrap64_mod. unfold u64. apply Z.mod_pos_bound. lia. Qed.

Lemma wrap64_id (z : Z) : u64 z -> wrap64 z = z.
Proof. intros H. rewrite wrap64_mod. apply Z.mod_small. exact H. Qed.

Lemma testbit_wrap64 (z i : Z) :
  0 <= i -> Z.testbit (wrap64 z) i = Z.testbit z i && (i <? 64).
Proof.
  intros Hi. unfold wrap64. change 0xFFFFFFFFFFFFFFFF with (Z.ones 64).
  rewrite Z.land_spec, Z.testbit_ones_nonneg by lia. reflexivity.
Qed.

Lemma u64_testbit_high (x i : Z) : u64 x -> 64 <= i -> Z.testbit x i = false.
Proof.
  intros [H0 H1] Hi. destruct (Z.eq_dec x 0) as [->|Hx].
  - apply Z.testbit_0_l.
  - apply Z.bits_above_log2; [lia|].
    assert (Z.log2 x < 64) by (apply Z.log2_lt_pow2; lia). lia.
Qed.

Lemma land_u64_r (x y : Z) : u64 y -> u64 (Z.land x y).
Proof.
  intros Hy. unfold u64.
  assert (H : Z.land x y = wrap64 (Z.land x y)).
  { apply Z.bits_inj'. intros n Hn. rewrite testbit_wrap64 by lia.
    rewrite Z.land_spec. destruct (Z.ltb_spec n 64).
    - now rewrite andb_true_r.
    - rewrite (u64_testbit_high y n Hy) by lia. now rewrite !andb_false_r. }
  rewrite H. apply wrap64_u64.
Qed.

Lemma land_u64_l (x y : Z) : u64 x -> u64 (Z.land x y).
Proof. intros H. rewrite Z.land_comm. now apply land_u64_r. Qed.

Lemma shl64_u64 (x n : Z) : u64 (shl64 x n).
Proof. apply wrap64_u64. Qed.

Lemma not64_u64 (x : Z) : u64 (not64 x).
Proof. apply wrap64_u64. Qed.

Lemma testbit_not64 (x i : Z) :
  0 <= i -> Z.testbit (not64 x) i = negb (Z.testbit x i) && (i <? 64).
Proof.
  intros Hi. unfold not64. rewrite testbit_wrap64 by lia.
  now rewrite Z.lnot_spec by lia.
Qed.

Lemma testbit_shl64 (x n i : Z) :
  0 <= i -> Z.testbit (shl64 x n) i = Z.testbit x (i - n) && (i <? 64).
Proof.
  intros Hi. unfold shl64. rewrite testbit_wrap64 by lia.
  now rewrite Z.shiftl_spec by lia.
Qed.

Lemma testbit_shr64 (x n i : Z) :
  0 <= i -> Z.testbit (shr64 x n) i = Z.testbit x (i + n).
Proof. intros Hi. unfold shr64. now rewrite Z.shiftr_spec by lia. Qed.

Lemma boardOf_pow2 (s : Z) : 0 <= s < 64 -> boardOf s = 2 ^ s.
Proof.
  intros Hs. unfold boardOf, shl64. rewrite Z.shiftl_1_l.
  apply wrap64_id. unfold u64. split; [lia|].
  apply Z.pow_lt_mono_r; lia.
Qed.

Lemma boardOf_u64 (s : Z) : u64 (boardOf s).
Proof. apply wrap64_u64. Qed.

Lemma testbit_boardOf (s i : Z) :
  0 <= s < 64 -> 0 <= i -> Z.testbit (boardOf s) i = (i =? s).
Proof.
  intros Hs Hi. rewrite boardOf_pow2 by lia.
  destruct (Z.eqb_spec i s) as [->|Hne].
  - apply Z.pow2_bits_true. lia.
  - apply Z.pow2_bits_false. lia.
Qed.

Lemma nonzero_true (x : Z) : nonzero x = true <-> x <> 0.
Proof. unfold nonzero. destruct (Z.eqb_spec x 0); simpl; intuition congruence. Qed.

Lemma nonzero_false (x : Z) : nonzero x = false <-> x = 0.
Proof. unfold nonzero. destruct (Z.eqb_spec x 0); simpl; intuition congruence. Qed.

(** A board meets the single-bit board of [s] exactly when its bit [s] is
    set. *)
Lemma nonzero_land_boardOf (x s : Z) :
  0 <= s < 64 -> nonzero (Z.land x (boardOf s)) = Z.testbit x s.
Proof.
  intros Hs. destruct (Z.testbit x s) eqn:Hb.
  - apply nonzero_true. intros H0.
    assert (Hc : Z.testbit (Z.land x (boardOf s)) s = true).
    { rewrite Z.land_spec, Hb, testbit_boardOf by lia. now rewrite Z.eqb_refl. }
    rewrite H0, Z.testbit_0_l in Hc. discriminate.
  - apply nonzero_false. apply Z.bits_inj'. intros n Hn.
    rewrite Z.land_spec, Z.testbit_0_l, testbit_boardOf by lia.
    destruct (Z.eqb_spec n s) as [->|]; [now rewrite Hb|apply andb_false_r].
Qed.

Lemma nonzero_land_boardOf_l (x s : Z) :
  0 <= s < 64 -> nonzero (Z.land (boardOf s) x) = Z.testbit x s.
Proof. intros Hs. rewrite Z.land_comm. now apply nonzero_land_boardOf. Qed.

(** Trailing zeros. *)
Lemma pos_ctz_nonneg (p : positive) : 0 <= pos_ctz p.
Proof. induction p; simpl; lia. Qed.

Lemma pos_ctz_testbit (p : positive) : Z.testbit (Zpos p) (pos_ctz p) = true.
Proof.
  induction p as [p IH|p IH|]; simpl pos_ctz; try reflexivity.
  pose proof (pos_ctz_nonneg p).
  change (Zpos p~0) with (2 * Zpos p).
  rewrite Z.testbit_even_succ by lia. exact IH.
Qed.

Lemma pos_ctz_below (p : positive) (i : Z) :
  0 <= i < pos_ctz p -> Z.testbit (Zpos p) i = false.
Proof.
  revert i. induction p as [p IH|p IH|]; simpl pos_ctz; intros i Hi; try lia.
  pose proof (pos_ctz_nonneg p).
  destruct (Z.eq_dec i 0) as [->|Hne]; [reflexivity|].
  replace i with (Z.succ (i - 1)) by lia.
  change (Zpos p~0) with (2 * Zpos p).
  rewrite Z.testbit_even_succ by lia. apply IH. lia.
Qed.

Lemma tzcnt64_range (b : Z) : u64 b -> b <> 0 -> 0 <= tzcnt64 b < 64.
Proof.
  intros Hb Hne. destruct b as [|p|p]; try congruence.
  - simpl. split; [apply pos_ctz_nonneg|].
    destruct (Z.lt_ge_cases (pos_ctz p) 64) as [|Hge]; [assumption|].
    pose proof (pos_ctz_testbit p) as Ht.
    rewrite (u64_testbit_high _ _ Hb Hge) in Ht. discriminate.
  - destruct Hb. lia.
Qed.

Lemma tzcnt64_testbit (b : Z) : 0 < b -> Z.testbit b (tzcnt64 b) = true.
Proof. destruct b; try lia. intros _. apply pos_ctz_testbit. Qed.

Lemma tzcnt64_below (b i : Z) :
  0 < b -> 0 <= i < tzcnt64 b -> Z.testbit b i = false.
Proof. destruct b; try lia. intros _. apply pos_ctz_below. Qed.

(** ** Board: piece lookups (C10) *)

(** The derived masks equal the unions implied by the piece bitboards. *)
Definition masksConsistent (b : Board) : Prop := update b = b.

(** The 12 piece bitboards are pairwise disjoint. *)
Definition disjointPieces (p : Position) : Prop :=
  forall t1 t2 : PieceType,
    t1 <> NONE -> t2 <> NONE -> t1 <> t2 ->
    Z.land (piece p t1) (piece p t2) = 0.

Lemma disjoint_bit (p : Position) (t t' : PieceType) (s : Z) :
  disjointPieces p -> t <> NONE -> t' <> NONE -> t <> t' ->
  Z.testbit (piece p t) s = true -> Z.testbit (piece p t') s = false.
Proof.
  intros D Ht Ht' Hne Hb. specialize (D t t' Ht Ht' Hne).
  apply (f_equal (fun x => Z.testbit x s)) in D.
  rewrite Z.land_spec, Hb, Z.testbit_0_l in D. exact D.
Qed.

Ltac each_piece_type H :=
  pose proof (H PLAYER_PAWN); pose proof (H PLAYER_KNIGHT);
  pose proof (H PLAYER_BISHOP); pose proof (H PLAYER_ROOK);
  pose proof (H PLAYER_QUEEN); pose proof (H PLAYER_KING);
  pose proof (H ENGINE_PAWN); pose proof (H ENGINE_KNIGHT);
  pose proof (H ENGINE_BISHOP); pose proof (H ENGINE_ROOK);
  pose proof (H ENGINE_QUEEN); pose proof (H ENGINE_KING).

Ltac bits_of_masks Hs :=
  repeat first
    [ rewrite nonzero_land_boardOf by exact Hs
    | rewrite testbit_not64 by (destruct Hs; assumption)
    | rewrite Z.lor_spec ].

Lemma lookups_on_empty (b : Board) (s : Z) :
  0 <= s < 64 -> masksConsistent b ->
  (forall t, t <> NONE -> Z.testbit (piece (position b) t) s = false) ->
  getPieceType b s = Some NONE /\ getPlayerPieceType b s = Some NONE
  /\ getEnginePieceType b s = Some NONE.
Proof.
  intros Hs Hm Hall.
  assert (He : nonzero (Z.land (emptySquares b) (boardOf s)) = true).
  { rewrite <- Hm. unfold update. cbn [emptySquares].
    bits_of_masks Hs.
    each_piece_type Hall.
    repeat match goal with
           | H : ?t <> NONE -> _ = false |- _ =>
               rewrite (H ltac:(discriminate)); clear H
           end.
    destruct Hs as [_ Hs]. apply Z.ltb_lt in Hs. rewrite Hs. reflexivity. }
  unfold getPieceType, getPlayerPieceType, getEnginePieceType.
  rewrite He. auto.
Qed.

Lemma lookups_on_piece (b : Board) (s : Z) (t : PieceType) :
  0 <= s < 64 -> masksConsistent b -> disjointPieces (position b) ->
  t <> NONE -> Z.testbit (piece (position b) t) s = true ->
  getPieceType b s = Some t
  /\ (In t playerTypes -> getPlayerPieceType b s = Some t)
  /\ (In t engineTypes -> getEnginePieceType b s = Some t).
Proof.
  intros Hs Hm Hd Ht Hb.
  assert (Hothers : forall t', t' <> NONE -> t <> t' ->
            Z.testbit (piece (position b) t') s = false).
  { intros t' Ht' Hne. now apply (disjoint_bit _ t t'). }
  unfold getPieceType, getPlayerPieceType, getEnginePieceType.
  rewrite <- Hm. unfold update.
  cbn [emptySquares playerPieces enginePieces position].
  unfold playerTypes, engineTypes, firstTypeOn.
  bits_of_masks Hs.
  each_piece_type Hothers.
  destruct t; try congruence;
    rewrite Hb;
    repeat match goal with
           | H : ?t' <> NONE -> _ <> ?t' -> _ = false |- _ =>
               first [ rewrite (H ltac:(discriminate) ltac:(discriminate))
                     | idtac ]; clear H
           end;
    cbn; (split; [reflexivity|]);
    (split; intros Hin; [|]);
    first [ reflexivity
          | exfalso; cbn in Hin; intuition discriminate ].
Qed.

(** C10.  With the derived masks consistent and the twelve piece bitboards
    pairwise disjoint, the three lookups return: [NONE] on a square no
    bitboard covers, and otherwise the one piece type whose bitboard covers
    the square ([getPlayerPieceType] and [getEnginePieceType] for the types
    of their own side); the [assert(false)] branches ([None]) are not
    reached. *)
Theorem getPieceType_total (b : Board) (s : Z) :
  0 <= s < 64 -> masksConsistent b -> disjointPieces (position b) ->
  ((forall t, t <> NONE -> Z.testbit (piece (position b) t) s = false) ->
   getPieceType b s = Some NONE /\ getPlayerPieceType b s = Some NONE
   /\ getEnginePieceType b s = Some NONE)
  /\ (forall t, t <> NONE -> Z.testbit (piece (position b) t) s = true ->
      getPieceType b s = Some t
      /\ (In t playerTypes -> getPlayerPieceType b s = Some t)
      /\ (In t engineTypes -> getEnginePieceType b s = Some t)).
Proof.
  intros Hs Hm Hd. split.
  - intros Hall. now apply lookups_on_empty.
  - intros t Ht Hb. now apply lookups_on_piece.
Qed.

Lemma newBoard_consistent : masksConsistent newBoard.
Proof. vm_compute. reflexivity. Qed.

Lemma newBoard_disjoint : disjointPieces (position newBoard).
Proof.
  intros t1 t2 H1 H2 Hne.
  destruct t1; try congruence; destruct t2; try congruence;
    vm_compute; reflexivity.
Qed.

Lemma getPieceType_total_witness :
  getPieceType newBoard 3 = Some ENGINE_KING
  /\ getEnginePieceType newBoard 3 = Some ENGINE_KING
  /\ getPieceType newBoard 60 = Some PLAYER_QUEEN.
Proof.
  assert (H3 : 0 <= 3 < 64) by lia.
  assert (H60 : 0 <= 60 < 64) by lia.
  destruct (getPieceType_total newBoard 3 H3 newBoard_consistent
              newBoard_disjoint) as [_ Hk].
  destruct (getPieceType_total newBoard 60 H60 newBoard_consistent
              newBoard_disjoint) as [_ Hq].
  destruct (Hk ENGINE_KING) as [Hk1 [_ Hk2]];
    [discriminate | vm_compute; reflexivity |].
  destruct (Hq PLAYER_QUEEN) as [Hq1 _];
    [discriminate | vm_compute; reflexivity |].
  split; [exact Hk1 | split; [apply Hk2; cbn; tauto | exact Hq1]].
Defined.

(** ** Search: the undo sequence (C3) *)

(** C3, as the code has it.  Saving [position], applying a move with
    [makeMove] and then restoring the saved [position] and flipping
    [engineToMove] gives back the twelve piece bitboards, the four castling
    rights, [enPassantCapture] and the side to move.  The six derived masks
    are fields of [Board], not of [Position]: the sequence leaves them as
    [update] computed them for the position after the move. *)
Theorem undo_restores_position (isEngine : bool) (b : Board) (m : Move) :
  let after := makeMove isEngine b m in
  let undone := unmakeMove after (position b) in
  position undone = position b
  /\ engineToMove undone = engineToMove b
  /\ enginePieces undone = enginePieces after
  /\ playerPieces undone = playerPieces after
  /\ occupiedSquares undone = occupiedSquares after
  /\ emptySquares undone = emptySquares after
  /\ playerOrEmpty undone = playerOrEmpty after
  /\ engineOrEmpty undone = engineOrEmpty after.
Proof.
  intros after undone. subst undone after.
  unfold unmakeMove, makeMove, flipEngineToMove, setPosition, update.
  cbn [position engineToMove enginePieces playerPieces occupiedSquares
       emptySquares playerOrEmpty engineOrEmpty].
  rewrite negb_involutive. repeat split.
Qed.

(** ** The lowest set bit *)

Lemma u64_of_wrap (x : Z) : wrap64 x = x -> u64 x.
Proof. intros H. rewrite <- H. apply wrap64_u64. Qed.

Lemma lor_u64 (x y : Z) : u64 x -> u64 y -> u64 (Z.lor x y).
Proof.
  intros Hx Hy. apply u64_of_wrap. apply Z.bits_inj'. intros n Hn.
  rewrite testbit_wrap64, Z.lor_spec by lia.
  destruct (Z.ltb_spec n 64); [apply andb_true_r|].
  now rewrite (u64_testbit_high x), (u64_testbit_high y) by (assumption || lia).
Qed.

Lemma lxor_u64 (x y : Z) : u64 x -> u64 y -> u64 (Z.lxor x y).
Proof.
  intros Hx Hy. apply u64_of_wrap. apply Z.bits_inj'. intros n Hn.
  rewrite testbit_wrap64, Z.lxor_spec by lia.
  destruct (Z.ltb_spec n 64); [apply andb_true_r|].
  now rewrite (u64_testbit_high x), (u64_testbit_high y) by (assumption || lia).
Qed.

Lemma lowbit_bits (p : positive) (i : Z) :
  0 <= i ->
  Z.testbit (Zpos p) i && Z.testbit (- Zpos p) i = (i =? pos_ctz p).
Proof.
  revert i. induction p as [q IH|q IH|]; intros i Hi; simpl pos_ctz.
  - replace (- Zpos q~1) with (2 * Z.lnot (Zpos q) + 1)
      by (unfold Z.lnot; lia).
    change (Zpos q~1) with (2 * Zpos q + 1).
    destruct (Z.eq_dec i 0) as [->|Hne].
    + now rewrite !Z.testbit_odd_0.
    + replace i with (Z.succ (i - 1)) by lia.
      rewrite !Z.testbit_odd_succ, Z.lnot_spec by lia.
      rewrite andb_negb_r. symmetry. apply Z.eqb_neq. lia.
  - pose proof (pos_ctz_nonneg q).
    replace (- Zpos q~0) with (2 * - Zpos q) by lia.
    change (Zpos q~0) with (2 * Zpos q).
    destruct (Z.eq_dec i 0) as [->|Hne].
    + rewrite !Z.testbit_even_0. symmetry. apply Z.eqb_neq. lia.
    + replace i with (Z.succ (i - 1)) at 1 2 by lia.
      rewrite !Z.testbit_even_succ, IH by lia.
      destruct (Z.eqb_spec (i - 1) (pos_ctz q));
        destruct (Z.eqb_spec i (Z.succ (pos_ctz q))); lia || reflexivity.
  - destruct (Z.eq_dec i 0) as [->|Hne]; [reflexivity|].
    replace i with (Z.succ (i - 1)) at 1 2 by lia.
    change 1 with (2 * 0 + 1) at 1.
    rewrite Z.testbit_odd_succ, Z.testbit_0_l by lia.
    symmetry. apply Z.eqb_neq. lia.
Qed.

(** [board & (~board + 1)] is the single-bit board of the lowest set bit. *)
Lemma popLeastBitboard_fst (m : Z) :
  u64 m -> m <> 0 -> fst (popLeastBitboard m) = boardOf (tzcnt64 m).
Proof.
  intros Hm Hne. pose proof (tzcnt64_range m Hm Hne) as Hk.
  unfold popLeastBitboard. cbn [fst].
  assert (Hneg : wrap64 (not64 m + 1) = (- m) mod 2 ^ 64).
  { unfold not64. rewrite !wrap64_mod, Z.add_mod_idemp_l by lia.
    f_equal. unfold Z.lnot. lia. }
  rewrite Hneg. apply Z.bits_inj'. intros i Hi.
  rewrite Z.land_spec, testbit_boardOf by lia.
  destruct (Z.ltb_spec i 64) as [Hlt|Hge].
  - rewrite Z.mod_pow2_bits_low by lia.
    destruct m as [|p|p]; [congruence| |destruct Hm; lia].
    now rewrite lowbit_bits.
  - rewrite (u64_testbit_high m) by (assumption || lia).
    symmetry. apply Z.eqb_neq. lia.
Qed.

(** Both pops leave the board with its lowest set bit cleared. *)
Definition clearLeast (m : Z) : Z := Z.lxor m (boardOf (tzcnt64 m)).

Lemma popLeastBitboard_eq (m : Z) :
  u64 m -> m <> 0 ->
  popLeastBitboard m = (boardOf (tzcnt64 m), clearLeast m).
Proof.
  intros Hm Hne. pose proof (popLeastBitboard_fst m Hm Hne) as H.
  unfold popLeastBitboard in *. cbn [fst] in H. unfold clearLeast.
  now rewrite H.
Qed.

Lemma popLeastSquare_eq (m : Z) :
  popLeastSquare m = (tzcnt64 m, clearLeast m).
Proof. reflexivity. Qed.

Lemma u64_pos (m : Z) : u64 m -> m <> 0 -> 0 < m.
Proof. intros [H _] Hne. lia. Qed.

Lemma testbit_clearLeast (m i : Z) :
  u64 m -> m <> 0 -> 0 <= i ->
  Z.testbit (clearLeast m) i = Z.testbit m i && negb (i =? tzcnt64 m).
Proof.
  intros Hm Hne Hi. pose proof (tzcnt64_range m Hm Hne).
  unfold clearLeast. rewrite Z.lxor_spec, testbit_boardOf by lia.
  destruct (Z.eqb_spec i (tzcnt64 m)) as [->|].
  - rewrite tzcnt64_testbit by now apply u64_pos. reflexivity.
  - now rewrite xorb_false_r, andb_true_r.
Qed.

Lemma clearLeast_u64 (m : Z) : u64 m -> u64 (clearLeast m).
Proof. intros Hm. apply lxor_u64; [assumption|apply boardOf_u64]. Qed.

Lemma clearLeast_sub (m : Z) :
  u64 m -> m <> 0 -> clearLeast m = m - 2 ^ tzcnt64 m.
Proof.
  intros Hm Hne. pose proof (tzcnt64_range m Hm Hne) as Hk.
  assert (Hd : Z.land (clearLeast m) (boardOf (tzcnt64 m)) = 0).
  { apply Z.bits_inj'. intros i Hi.
    rewrite Z.land_spec, testbit_clearLeast, testbit_boardOf, Z.testbit_0_l
      by (assumption || lia).
    destruct (i =? tzcnt64 m); [apply andb_false_l || now rewrite andb_false_r
                               |apply andb_false_r]. }
  apply Z.add_nocarry_lxor in Hd.
  unfold clearLeast in Hd at 2.
  rewrite Z.lxor_assoc, Z.lxor_nilpotent, Z.lxor_0_r in Hd.
  rewrite boardOf_pow2 in Hd by lia. lia.
Qed.

(** Population count. *)
Lemma pos_popcount_pos (p : positive) : 0 < pos_popcount p.
Proof. induction p; simpl; lia. Qed.

Lemma countSetBits_nonneg (m : Z) : 0 <= countSetBits m.
Proof. destruct m; simpl; try lia. pose proof (pos_popcount_pos p). lia. Qed.

Lemma countSetBits_zero (m : Z) : 0 <= m -> countSetBits m = 0 -> m = 0.
Proof.
  destruct m; simpl; try lia. pose proof (pos_popcount_pos p). lia.
Qed.

Lemma countSetBits_double (z : Z) : countSetBits (2 * z) = countSetBits z.
Proof. destruct z; reflexivity. Qed.

Lemma pos_popcount_clear (p : positive) :
  pos_popcount p = 1 + countSetBits (Zpos p - 2 ^ pos_ctz p).
Proof.
  induction p as [q IH|q IH|]; simpl pos_ctz; simpl pos_popcount.
  - change (Zpos q~1 - 2 ^ 0) with (Zpos q~0).
    change (countSetBits (Zpos q~0)) with (pos_popcount q). lia.
  - pose proof (pos_ctz_nonneg q).
    rewrite Z.pow_succ_r by lia.
    replace (Zpos q~0 - 2 * 2 ^ pos_ctz q)
      with (2 * (Zpos q - 2 ^ pos_ctz q)) by lia.
    now rewrite countSetBits_double.
  - reflexivity.
Qed.

Lemma countSetBits_clearLeast (m : Z) :
  u64 m -> m <> 0 -> countSetBits m = 1 + countSetBits (clearLeast m).
Proof.
  intros Hm Hne. rewrite clearLeast_sub by assumption.
  destruct m as [|p|p]; [congruence| |destruct Hm; lia].
  apply pos_popcount_clear.
Qed.

Lemma pos_popcount_log2 (p : positive) :
  pos_popcount p <= Z.log2 (Zpos p) + 1.
Proof.
  induction p as [q IH|q IH|]; simpl pos_popcount.
  - change (Zpos q~1) with (2 * Zpos q + 1).
    rewrite Z.log2_succ_double by lia. lia.
  - change (Zpos q~0) with (2 * Zpos q).
    rewrite Z.log2_double by lia. lia.
  - simpl. lia.
Qed.

Lemma countSetBits_le_64 (m : Z) : u64 m -> countSetBits m <= 64.
Proof.
  intros [H0 H1]. destruct m as [|p|p]; simpl; try lia.
  pose proof (pos_popcount_log2 p).
  assert (Z.log2 (Zpos p) < 64) by (apply Z.log2_lt_pow2; lia). lia.
Qed.

(** ** Every blocker board under a mask is enumerated *)

(** The permutation index whose spread over [m] gives [t & m]. *)
Fixpoint gatherLoop (fuel : nat) (m t : Z) : Z :=
  match fuel with
  | O => 0
  | S fuel' =>
      if m =? 0 then 0
      else
        let '(blocker, m') := popLeastBitboard m in
        (if nonzero (Z.land t blocker) then 1 else 0)
        + 2 * gatherLoop fuel' m' t
  end.

Lemma gatherLoop_range (fuel : nat) (m t : Z) :
  u64 m -> countSetBits m <= Z.of_nat fuel ->
  0 <= gatherLoop fuel m t < 2 ^ countSetBits m.
Proof.
  revert m. induction fuel as [|fuel IH]; intros m Hm Hc.
  - assert (m = 0) as ->.
    { apply countSetBits_zero; [apply Hm|].
      pose proof (countSetBits_nonneg m). lia. }
    simpl. lia.
  - cbn [gatherLoop]. destruct (Z.eqb_spec m 0) as [->|Hne]; [simpl; lia|].
    rewrite popLeastBitboard_eq by assumption.
    pose proof (countSetBits_clearLeast m Hm Hne) as Hcount.
    pose proof (countSetBits_nonneg (clearLeast m)).
    specialize (IH (clearLeast m) (clearLeast_u64 m Hm) ltac:(lia)).
    rewrite Hcount, Z.pow_add_r, Z.pow_1_r by lia.
    destruct (nonzero _); lia.
Qed.

Lemma land_boardOf_cases (t k : Z) :
  0 <= k < 64 ->
  Z.land t (boardOf k) = if nonzero (Z.land t (boardOf k)) then boardOf k else 0.
Proof.
  intros Hk. rewrite nonzero_land_boardOf by assumption.
  apply Z.bits_inj'. intros i Hi. rewrite Z.land_spec.
  destruct (Z.testbit t k) eqn:Hb; rewrite ?Z.testbit_0_l;
    rewrite testbit_boardOf by lia;
    destruct (Z.eqb_spec i k) as [->|]; rewrite ?Hb, ?andb_false_r;
    reflexivity.
Qed.

Lemma land_split_least (t m : Z) :
  u64 m -> m <> 0 ->
  Z.land t m
  = Z.lor (Z.land t (boardOf (tzcnt64 m))) (Z.land t (clearLeast m)).
Proof.
  intros Hm Hne. pose proof (tzcnt64_range m Hm Hne) as Hk.
  apply Z.bits_inj'. intros i Hi.
  rewrite Z.lor_spec, !Z.land_spec, testbit_clearLeast, testbit_boardOf
    by (assumption || lia).
  destruct (Z.eqb_spec i (tzcnt64 m)) as [->|].
  - rewrite tzcnt64_testbit by now apply u64_pos.
    now rewrite andb_false_r, orb_false_r.
  - now rewrite andb_false_r, andb_true_r.
Qed.

Lemma spread_gather (fuel : nat) (m t acc : Z) :
  u64 m -> countSetBits m <= Z.of_nat fuel ->
  spreadLoop fuel m (gatherLoop fuel m t) acc = Z.lor acc (Z.land t m).
Proof.
  revert m acc. induction fuel as [|fuel IH]; intros m acc Hm Hc.
  - assert (m = 0) as ->.
    { apply countSetBits_zero; [apply Hm|].
      pose proof (countSetBits_nonneg m). lia. }
    simpl. now rewrite Z.land_0_r, Z.lor_0_r.
  - cbn [spreadLoop gatherLoop].
    destruct (Z.eqb_spec m 0) as [->|Hne].
    { now rewrite Z.land_0_r, Z.lor_0_r. }
    rewrite popLeastBitboard_eq by assumption.
    pose proof (tzcnt64_range m Hm Hne) as Hk.
    pose proof (countSetBits_clearLeast m Hm Hne) as Hcount.
    pose proof (gatherLoop_range fuel (clearLeast m) t
                  (clearLeast_u64 m Hm) ltac:(lia)) as Hrange.
    set (rest := gatherLoop fuel (clearLeast m) t) in *.
    set (bit := nonzero (Z.land t (boardOf (tzcnt64 m)))).
    assert (Hmod : nonzero (((if bit then 1 else 0) + 2 * rest) mod 2) = bit).
    { rewrite (Z.mul_comm 2 rest), Z.mod_add by lia.
      destruct bit; reflexivity. }
    assert (Hshift : Z.shiftr ((if bit then 1 else 0) + 2 * rest) 1 = rest).
    { rewrite Z.shiftr_div_pow2 by lia. change (2 ^ 1) with 2.
      rewrite (Z.mul_comm 2 rest), Z.div_add by lia.
      destruct bit; reflexivity. }
    rewrite Hmod, Hshift. unfold rest.
    rewrite IH by (try apply clearLeast_u64; assumption || lia).
    rewrite (land_split_least t m) by assumption.
    rewrite (land_boardOf_cases t (tzcnt64 m)) by assumption.
    fold bit. destruct bit.
    + now rewrite Z.lor_assoc.
    + now rewrite Z.lor_0_l.
Qed.

(** The list of blocker permutations holds every [o & mask]. *)
Lemma blockerPermutations_complete (isCardinal : bool) (square mask o : Z) :
  u64 mask ->
  In (Z.land o mask, slidingAttacks isCardinal square (Z.land o mask))
     (blockerPermutations isCardinal square mask).
Proof.
  intros Hm. unfold blockerPermutations.
  pose proof (countSetBits_le_64 mask Hm) as H64.
  assert (Hfuel : countSetBits mask <= Z.of_nat 64)
    by (change (Z.of_nat 64) with 64; lia).
  pose proof (gatherLoop_range 64 mask o Hm Hfuel) as Hr.
  pose proof (spread_gather 64 mask o 0 Hm Hfuel) as Hs.
  rewrite Z.lor_0_l in Hs.
  apply in_map_iff. exists (Z.to_nat (gatherLoop 64 mask o)).
  rewrite Z2Nat.id by lia. rewrite Hs. split; [reflexivity|].
  apply in_seq. rewrite Z.shiftl_1_l. lia.
Qed.

(** ** Arrays *)

Lemma aget_aempty (A : Type) (d : A) (i : Z) : aget d aempty i = d.
Proof. unfold aget, aempty. now rewrite PositiveMap.gempty. Qed.

Lemma aget_aset_same (A : Type) (d : A) (a : Arr A) (i : Z) (v : A) :
  aget d (aset a i v) i = v.
Proof. unfold aget, aset. now rewrite PositiveMap.gss. Qed.

Lemma aget_aset_other (A : Type) (d : A) (a : Arr A) (i j : Z) (v : A) :
  0 <= i -> 0 <= j -> i <> j -> aget d (aset a i v) j = aget d a j.
Proof.
  intros Hi Hj Hne. unfold aget, aset. rewrite PositiveMap.gso; [reflexivity|].
  intros Heq. apply Z2Pos.inj in Heq; lia.
Qed.

(** ** Sliding attacks are never empty *)

Lemma rayLoop_keeps (fuel : nat) (inside : Z -> Z -> bool)
    (dRow dCol row col blk : Z) (captures : bool) (attacks i : Z) :
  Z.testbit attacks i = true ->
  Z.testbit (rayLoop fuel inside dRow dCol row col blk captures attacks) i
  = true.
Proof.
  revert row col attacks. induction fuel as [|fuel IH]; intros row col attacks H.
  - exact H.
  - cbn [rayLoop]. destruct (inside row col); [|exact H].
    assert (H1 : Z.testbit (if captures
                            then Z.lor attacks (boardOf (row * 8 + col))
                            else attacks) i = true).
    { destruct captures; [|exact H]. now rewrite Z.lor_spec, H. }
    destruct (nonzero _); [exact H1|].
    apply IH. now rewrite Z.lor_spec, H1.
Qed.

Lemma rayLoop_first (fuel : nat) (inside : Z -> Z -> bool)
    (dRow dCol row col blk attacks : Z) :
  inside row col = true -> 0 <= row * 8 + col < 64 ->
  Z.testbit (rayLoop (S fuel) inside dRow dCol row col blk true attacks)
            (row * 8 + col) = true.
Proof.
  intros Hin Hsq. cbn [rayLoop]. rewrite Hin.
  assert (H1 : Z.testbit (Z.lor attacks (boardOf (row * 8 + col)))
                 (row * 8 + col) = true).
  { rewrite Z.lor_spec, testbit_boardOf, Z.eqb_refl by lia.
    apply orb_true_r. }
  destruct (nonzero _); [exact H1|].
  apply rayLoop_keeps. now rewrite Z.lor_spec, H1.
Qed.

Lemma rayLoop_u64 (fuel : nat) (inside : Z -> Z -> bool)
    (dRow dCol row col blk : Z) (captures : bool) (attacks : Z) :
  u64 attacks ->
  u64 (rayLoop fuel inside dRow dCol row col blk captures attacks).
Proof.
  revert row col attacks. induction fuel as [|fuel IH]; intros row col attacks H.
  - exact H.
  - cbn [rayLoop]. destruct (inside row col); [|exact H].
    assert (H1 : u64 (if captures
                      then Z.lor attacks (boardOf (row * 8 + col))
                      else attacks)).
    { destruct captures; [|exact H]. apply lor_u64; [exact H|apply boardOf_u64]. }
    destruct (nonzero _); [exact H1|].
    apply IH. apply lor_u64; [exact H1|apply boardOf_u64].
Qed.

Lemma u64_0 : u64 0.
Proof. unfold u64. lia. Qed.

Lemma getRookAttacks_u64 (s blk : Z) (captures : bool) :
  u64 (getRookAttacks s blk captures).
Proof. unfold getRookAttacks. repeat apply rayLoop_u64. exact u64_0. Qed.

Lemma getBishopAttacks_u64 (s blk : Z) (captures : bool) :
  u64 (getBishopAttacks s blk captures).
Proof. unfold getBishopAttacks. repeat apply rayLoop_u64. exact u64_0. Qed.

Lemma square_row_col (s : Z) :
  0 <= s < 64 -> 0 <= s / 8 < 8 /\ 0 <= s mod 8 < 8 /\ s = s / 8 * 8 + s mod 8.
Proof.
  intros Hs. pose proof (Z.div_mod s 8 ltac:(lia)).
  pose proof (Z.mod_pos_bound s 8 ltac:(lia)).
  assert (0 <= s / 8) by (apply Z.div_pos; lia).
  assert (s / 8 < 8) by (apply Z.div_lt_upper_bound; lia).
  lia.
Qed.

Lemma testbit_nonzero (x i : Z) : Z.testbit x i = true -> x <> 0.
Proof. intros H ->. rewrite Z.testbit_0_l in H. discriminate. Qed.

Lemma getRookAttacks_nonzero (s blk : Z) :
  0 <= s < 64 -> getRookAttacks s blk true <> 0.
Proof.
  intros Hs. destruct (square_row_col s Hs) as (Hr & Hc & _).
  unfold getRookAttacks.
  destruct (Z.eq_dec (s / 8) 0) as [H0|H0].
  - apply (testbit_nonzero _ ((s / 8 + 1) * 8 + s mod 8)).
    apply rayLoop_keeps. apply rayLoop_first; [apply Z.ltb_lt|]; lia.
  - apply (testbit_nonzero _ ((s / 8 - 1) * 8 + s mod 8)).
    do 3 apply rayLoop_keeps. apply rayLoop_first; [apply Z.leb_le|]; lia.
Qed.

Lemma isOnBoard_true (row col : Z) :
  0 <= row < 8 -> 0 <= col < 8 -> isOnBoard row col = true.
Proof.
  intros Hr Hc. unfold isOnBoard.
  repeat (apply andb_true_intro; split);
    first [apply Z.leb_le | apply Z.ltb_lt]; lia.
Qed.

Lemma getBishopAttacks_nonzero (s blk : Z) :
  0 <= s < 64 -> getBishopAttacks s blk true <> 0.
Proof.
  intros Hs. destruct (square_row_col s Hs) as (Hr & Hc & _).
  unfold getBishopAttacks.
  destruct (Z.eq_dec (s / 8) 0) as [H0|H0];
    destruct (Z.eq_dec (s mod 8) 7) as [H7|H7].
  - apply (testbit_nonzero _ ((s / 8 + 1) * 8 + (s mod 8 - 1))).
    apply rayLoop_keeps. apply rayLoop_first; [apply isOnBoard_true|]; lia.
  - apply (testbit_nonzero _ ((s / 8 + 1) * 8 + (s mod 8 + 1))).
    do 2 apply rayLoop_keeps.
    apply rayLoop_first; [apply isOnBoard_true|]; lia.
  - apply (testbit_nonzero _ ((s / 8 - 1) * 8 + (s mod 8 - 1))).
    apply rayLoop_first; [apply isOnBoard_true|]; lia.
  - apply (testbit_nonzero _ ((s / 8 - 1) * 8 + (s mod 8 + 1))).
    do 3 apply rayLoop_keeps.
    apply rayLoop_first; [apply isOnBoard_true|]; lia.
Qed.

Lemma slidingAttacks_nonzero (isCardinal : bool) (s blk : Z) :
  0 <= s < 64 -> slidingAttacks isCardinal s blk <> 0.
Proof.
  intros Hs. destruct isCardinal; cbn [slidingAttacks];
    [now apply getRookAttacks_nonzero | now apply getBishopAttacks_nonzero].
Qed.

Lemma getRookBlockers_u64 (s : Z) : u64 (getRookBlockers s).
Proof. apply getRookAttacks_u64. Qed.

Lemma getBishopBlockers_u64 (s : Z) : u64 (getBishopBlockers s).
Proof. apply getBishopAttacks_u64. Qed.

(** ** A magic number that passes the test hashes perfectly *)

Lemma magicIndex_range (isCardinal : bool) (blk m : Z) :
  0 <= magicIndex isCardinal blk m < 2 ^ 12.
Proof.
  unfold magicIndex, shr64.
  pose proof (wrap64_u64 (blk * m)) as [H0 H1].
  rewrite Z.shiftr_div_pow2 by (destruct isCardinal; cbn; lia).
  split; [apply Z.div_pos; [lia|destruct isCardinal; cbn; lia]|].
  apply Z.div_lt_upper_bound; [destruct isCardinal; cbn; lia|].
  destruct isCardinal; cbn [magicShift]; lia.
Qed.

Lemma magicHash_index (isCardinal : bool) (blk m : Z) :
  magicHash isCardinal blk m = magicIndex isCardinal blk m.
Proof.
  unfold magicHash. fold (magicIndex isCardinal blk m).
  pose proof (magicIndex_range isCardinal blk m).
  unfold wrap16. change 0xFFFF with (Z.ones 16).
  rewrite Z.land_ones by lia. apply Z.mod_small. lia.
Qed.

Lemma testMagic_sound (isCardinal : bool) (perms : list (Z * Z))
    (m : Z) (seen : Arr Z) (found : Z) (seen' : Arr Z) :
  testMagic isCardinal perms m seen = (found, seen') ->
  found <> 0 ->
  (forall blk att, In (blk, att) perms -> att <> 0) ->
  found = m
  /\ (forall blk att, In (blk, att) perms ->
      aget 0 seen' (magicIndex isCardinal blk m) = att)
  /\ (forall h, 0 <= h -> aget 0 seen h <> 0 ->
      aget 0 seen' h = aget 0 seen h).
Proof.
  revert seen. induction perms as [|[blk att] rest IH]; intros seen Ht Hf Hnz.
  - cbn in Ht. injection Ht as <- <-.
    split; [reflexivity|]. split; [intros ? ? []|auto].
  - cbn [testMagic] in Ht. rewrite magicHash_index in Ht.
    pose proof (magicIndex_range isCardinal blk m) as Hh.
    set (h := magicIndex isCardinal blk m) in *.
    assert (Hatt : att <> 0) by (apply (Hnz blk); now left).
    assert (Hrest : forall b a, In (b, a) rest -> a <> 0)
      by (intros b a Hin; apply (Hnz b); now right).
    destruct (Z.eqb_spec (aget 0 seen h) 0) as [Hz|Hz].
    + destruct (IH _ Ht Hf Hrest) as (Hm & Hall & Hkeep).
      split; [exact Hm|]. split.
      * intros b a [Heq|Hin]; [|now apply Hall].
        injection Heq as <- <-. fold h.
        rewrite Hkeep by (rewrite ?aget_aset_same; assumption || lia).
        apply aget_aset_same.
      * intros h' Hh' Hne.
        assert (h' <> h) by congruence.
        rewrite Hkeep by (rewrite ?aget_aset_other; assumption || lia).
        apply aget_aset_other; lia.
    + destruct (Z.eqb_spec (aget 0 seen h) att) as [Heq|Hneq]; cbn [negb] in Ht.
      * destruct (IH _ Ht Hf Hrest) as (Hm & Hall & Hkeep).
        split; [exact Hm|]. split; [|exact Hkeep].
        intros b a [Heq'|Hin]; [|now apply Hall].
        injection Heq' as <- <-. fold h.
        rewrite Hkeep by (assumption || lia). exact Heq.
      * injection Ht as <- <-. congruence.
Qed.

(** ** What the constructor establishes *)

Definition maskOf (isCardinal : bool) (s : Z) : Z :=
  if isCardinal then getRookBlockers s else getBishopBlockers s.

Definition squareOf (isCardinal : bool) (g : MoveGen) (s : Z) : MagicSquare :=
  aget noMagic (if isCardinal then cardinals g else ordinals g) s.

Definition tableOf (isCardinal : bool) (g : MoveGen) (s : Z) : Arr Z :=
  aget aempty (if isCardinal then cardinalAttacks g else ordinalAttacks g) s.

(** The magic square of [s] holds the blocker mask of [s] and a nonzero
    magic number that passed [testMagic], and the attack table of [s] is
    the [attacksSeen] of that test. *)
Definition accepted (isCardinal : bool) (g : MoveGen) (s : Z) : Prop :=
  blockers (squareOf isCardinal g s) = maskOf isCardinal s
  /\ magic (squareOf isCardinal g s) <> 0
  /\ testMagic isCardinal
       (blockerPermutations isCardinal s (maskOf isCardinal s))
       (magic (squareOf isCardinal g s)) aempty
     = (magic (squareOf isCardinal g s), tableOf isCardinal g s).

Lemma maskOf_u64 (isCardinal : bool) (s : Z) : u64 (maskOf isCardinal s).
Proof.
  destruct isCardinal; [apply getRookBlockers_u64|apply getBishopBlockers_u64].
Qed.

Lemma blockerPermutations_nonzero (isCardinal : bool) (s mask blk att : Z) :
  0 <= s < 64 ->
  In (blk, att) (blockerPermutations isCardinal s mask) -> att <> 0.
Proof.
  intros Hs Hin. unfold blockerPermutations in Hin.
  apply in_map_iff in Hin. destruct Hin as (n & Heq & _).
  change att with (snd (blk, att)). rewrite <- Heq. cbv zeta. cbn [snd].
  apply slidingAttacks_nonzero. exact Hs.
Qed.

Lemma accepted_lookup (isCardinal : bool) (g : MoveGen) (s o : Z) :
  0 <= s < 64 -> accepted isCardinal g s ->
  aget 0 (tableOf isCardinal g s)
    (magicIndex isCardinal (Z.land o (maskOf isCardinal s))
       (magic (squareOf isCardinal g s)))
  = slidingAttacks isCardinal s (Z.land o (maskOf isCardinal s)).
Proof.
  intros Hs (_ & Hnz & Htest).
  destruct (testMagic_sound _ _ _ _ _ _ Htest Hnz) as (_ & Hall & _).
  { intros blk att. now apply blockerPermutations_nonzero. }
  apply Hall. apply blockerPermutations_complete. apply maskOf_u64.
Qed.

Section ConstructorFacts.

Variable rand : Z -> Z.

Lemma magicTries_sound (tries : nat) (isCardinal : bool)
    (perms : list (Z * Z)) (d : Z) (found : Z) (seen : Arr Z) (d' : Z) :
  magicTries rand tries isCardinal perms d = Some (found, seen, d') ->
  found <> 0
  /\ exists candidate, testMagic isCardinal perms candidate aempty
                       = (found, seen).
Proof.
  revert d. induction tries as [|tries IH]; intros d H; [discriminate|].
  cbn [magicTries random64] in H.
  match type of H with
  | context [testMagic isCardinal perms ?c aempty] =>
      destruct (testMagic isCardinal perms c aempty) as [f a] eqn:E
  end.
  destruct (nonzero f) eqn:Hf.
  - injection H as <- <- <-. split; [now apply nonzero_true|].
    eexists. exact E.
  - now apply IH in H.
Qed.

Lemma getMagicNumber_spec (g : MoveGen) (d s : Z) (isCardinal : bool)
    (found : Z) (g' : MoveGen) (d' : Z) :
  0 <= s < 64 ->
  getMagicNumber rand g d s isCardinal = Some (found, g', d') ->
  found <> 0
  /\ testMagic isCardinal
       (blockerPermutations isCardinal s
          (blockers (squareOf isCardinal g s))) found aempty
     = (found, tableOf isCardinal g' s)
  /\ cardinals g' = cardinals g /\ ordinals g' = ordinals g
  /\ (forall s', tableOf (negb isCardinal) g' s'
                 = tableOf (negb isCardinal) g s')
  /\ (forall s', 0 <= s' -> s' <> s ->
      tableOf isCardinal g' s' = tableOf isCardinal g s').
Proof.
  intros Hs H. unfold getMagicNumber in H.
  match type of H with
  | context [magicTries rand MAGIC_TRIES isCardinal ?p d] =>
      destruct (magicTries rand MAGIC_TRIES isCardinal p d)
        as [[[f a] dr]|] eqn:E; [|discriminate]
  end.
  cbn [bind] in H. injection H as <- <- <-.
  destruct (magicTries_sound _ _ _ _ _ _ _ E) as (Hnz & cand & Htest).
  assert (Hcand : f = cand).
  { destruct (testMagic_sound _ _ _ _ _ _ Htest Hnz) as (Hc & _); [|exact Hc].
    intros blk att. now apply blockerPermutations_nonzero. }
  subst cand. split; [exact Hnz|].
  unfold squareOf, tableOf.
  destruct isCardinal; cbn [cardinals ordinals cardinalAttacks ordinalAttacks
                            negb];
    rewrite aget_aset_same;
    (split; [exact Htest|]); (split; [reflexivity|]);
    (split; [reflexivity|]); (split; [reflexivity|]);
    intros s' Hs' Hne; apply aget_aset_other; lia.
Qed.

Definition acceptedBoth (g : MoveGen) (s : Z) : Prop :=
  accepted true g s /\ accepted false g s.

Lemma accepted_ext (isCardinal : bool) (g g' : MoveGen) (s : Z) :
  squareOf isCardinal g' s = squareOf isCardinal g s ->
  tableOf isCardinal g' s = tableOf isCardinal g s ->
  accepted isCardinal g s -> accepted isCardinal g' s.
Proof. unfold accepted. intros -> ->. auto. Qed.

Lemma initSquare_spec (g : MoveGen) (d s : Z) (g' : MoveGen) (d' : Z) :
  0 <= s < 64 ->
  initSquare rand g d s = Some (g', d') ->
  acceptedBoth g' s
  /\ (forall isCardinal s', 0 <= s' -> s' <> s ->
      squareOf isCardinal g' s' = squareOf isCardinal g s'
      /\ tableOf isCardinal g' s' = tableOf isCardinal g s').
Proof.
  intros Hs H. unfold initSquare in H.
  match type of H with
  | context [getMagicNumber rand ?g0 d s true] =>
      remember g0 as ga eqn:Ega;
      destruct (getMagicNumber rand ga d s true) as [[[f1 g1] d1]|] eqn:E1;
      [|discriminate]
  end.
  cbn [bind] in H.
  match type of H with
  | context [getMagicNumber rand ?g0 d1 s false] =>
      remember g0 as gb eqn:Egb;
      destruct (getMagicNumber rand gb d1 s false) as [[[f2 g2] d2]|] eqn:E2;
      [|discriminate]
  end.
  cbn [bind] in H. injection H as Hg' _.
  destruct (getMagicNumber_spec _ _ _ _ _ _ _ Hs E1)
    as (Hnz1 & Ht1 & Hc1 & Ho1 & Hother1 & Hsame1).
  destruct (getMagicNumber_spec _ _ _ _ _ _ _ Hs E2)
    as (Hnz2 & Ht2 & Hc2 & Ho2 & Hother2 & Hsame2).
  unfold acceptedBoth, accepted, squareOf, tableOf, maskOf in *.
  cbn [negb] in *.
  assert (Eca : cardinals ga
                = aset (cardinals g) s
                    (mkMagicSquare (getRookBlockers s)
                       (magic (aget noMagic (cardinals g) s))))
    by (subst ga; reflexivity).
  assert (Eoa : ordinals ga
                = aset (ordinals g) s
                    (mkMagicSquare (getBishopBlockers s)
                       (magic (aget noMagic (ordinals g) s))))
    by (subst ga; reflexivity).
  assert (Eta : cardinalAttacks ga = cardinalAttacks g
                /\ ordinalAttacks ga = ordinalAttacks g)
    by (subst ga; split; reflexivity).
  assert (Ecb : cardinals gb
                = aset (cardinals g1) s
                    (mkMagicSquare
                       (blockers (aget noMagic (cardinals g1) s)) f1))
    by (subst gb; reflexivity).
  assert (Etb : ordinals gb = ordinals g1
                /\ cardinalAttacks gb = cardinalAttacks g1
                /\ ordinalAttacks gb = ordinalAttacks g1)
    by (subst gb; repeat split; reflexivity).
  destruct Eta as [Eta1 Eta2]. destruct Etb as (Etb1 & Etb2 & Etb3).
  assert (Ec' : cardinals g' = cardinals g2
                /\ cardinalAttacks g' = cardinalAttacks g2
                /\ ordinalAttacks g' = ordinalAttacks g2
                /\ ordinals g'
                   = aset (ordinals g2) s
                       (mkMagicSquare
                          (blockers (aget noMagic (ordinals g2) s)) f2))
    by (subst g'; repeat split; reflexivity).
  destruct Ec' as (Ec'1 & Ec'2 & Ec'3 & Ec'4).
  clear Ega Egb Hg' E1 E2.
  rewrite Eca, aget_aset_same in Ht1. cbn [blockers] in Ht1.
  rewrite Etb1, Ho1, Eoa, aget_aset_same in Ht2. cbn [blockers] in Ht2.
  rewrite Etb2 in Hother2. rewrite Eta1 in Hsame1. rewrite Eta2 in Hother1.
  rewrite Etb3 in Hsame2.
  rewrite Ec'1, Ec'2, Ec'3, Ec'4, Hc2, Ecb, Hc1, Eca, Ho2, Etb1, Ho1, Eoa.
  rewrite !aget_aset_same. cbn [blockers magic].
  rewrite Hother2.
  split; [split; [split; [reflexivity|split; assumption]
                 |split; [reflexivity|split; assumption]]|].
  intros isCardinal s' Hs' Hne.
  destruct isCardinal; rewrite !aget_aset_other by lia.
  - rewrite Hother2, Hsame1 by assumption. auto.
  - rewrite Hsame2, Hother1 by assumption. auto.
Qed.

Lemma initSquares_spec (count : nat) (sq : Z) (g : MoveGen) (d : Z)
    (g' : MoveGen) (d' : Z) :
  0 <= sq -> sq + Z.of_nat count <= 64 ->
  initSquares rand count sq g d = Some (g', d') ->
  (forall s, 0 <= s < sq -> acceptedBoth g s) ->
  forall s, 0 <= s < sq + Z.of_nat count -> acceptedBoth g' s.
Proof.
  revert sq g d. induction count as [|count IH]; intros sq g d Hsq Hle H Hinv.
  - cbn in H. injection H as <- <-. intros s Hs. apply Hinv. lia.
  - cbn [initSquares] in H.
    destruct (initSquare rand g d sq) as [[g1 d1]|] eqn:E; [|discriminate].
    cbn [bind] in H.
    assert (Hsq64 : 0 <= sq < 64) by lia.
    destruct (initSquare_spec g d sq g1 d1 Hsq64 E) as (Hacc & Hsame).
    intros s Hs. apply (IH (sq + 1) g1 d1); try lia; try assumption.
    intros s0 Hs0. destruct (Z.eq_dec s0 sq) as [->|Hne]; [exact Hacc|].
    destruct (Hinv s0 ltac:(lia)) as [Ha Hb].
    split; (eapply accepted_ext; [| |eassumption]); apply Hsame; lia.
Qed.

Lemma newMoveGen_inv (g : MoveGen) :
  newMoveGen rand = Some g ->
  exists d, initSquares rand 64 0 (mkMoveGen aempty aempty aempty aempty) 0
            = Some (g, d).
Proof.
  unfold newMoveGen.
  destruct (initSquares rand 64 0 (mkMoveGen aempty aempty aempty aempty) 0)
    as [[g1 d1]|]; [|discriminate].
  unfold bind. unfold fst. intros H. exists d1. congruence.
Qed.

Lemma newMoveGen_accepted (g : MoveGen) (s : Z) :
  newMoveGen rand = Some g -> 0 <= s < 64 -> acceptedBoth g s.
Proof.
  intros H Hs. apply newMoveGen_inv in H. destruct H as [d E].
  assert (H64 : 0 + Z.of_nat 64 <= 64) by (change (Z.of_nat 64) with 64; lia).
  assert (Hs' : 0 <= s < 0 + Z.of_nat 64)
    by (change (Z.of_nat 64) with 64; lia).
  assert (H0 : 0 <= 0) by lia.
  apply (initSquares_spec 64 0 _ 0 g d H0 H64 E); [|exact Hs'].
  intros s0 Hs0. lia.
Qed.

End ConstructorFacts.

(** ** A run of the constructor *)

(** The blocker permutations again, with the bits of the mask popped once
    and the permutation counted in binary; the two enumerations agree. *)
Fixpoint spreadBits (bits : list Z) (blockerPermutation actualBlockers : Z)
  : Z :=
  match bits with
  | [] => actualBlockers
  | blocker :: rest =>
      spreadBits rest (Z.div2 blockerPermutation)
        (if Z.odd blockerPermutation then Z.lor actualBlockers blocker
         else actualBlockers)
  end.

Fixpoint countFrom (start : Z) (count : nat) : list Z :=
  match count with
  | O => []
  | S count' => start :: countFrom (start + 1) count'
  end.

Definition blockerPermutationsFast (isCardinal : bool)
    (square blockerMask : Z) : list (Z * Z) :=
  let bits := bitboardsOf blockerMask in
  let numPermutations := Z.shiftl 1 (countSetBits blockerMask) in
  map (fun permutation =>
         let actualBlockers := spreadBits bits permutation 0 in
         (actualBlockers, slidingAttacks isCardinal square actualBlockers))
      (countFrom 0 (Z.to_nat numPermutations)).

Lemma odd_mod2 (z : Z) : nonzero (z mod 2) = Z.odd z.
Proof. rewrite Zmod_odd. now destruct (Z.odd z). Qed.

Lemma spreadLoop_bits (fuel : nat) (m perm acc : Z) :
  spreadLoop fuel m perm acc = spreadBits (popBitboards fuel m) perm acc.
Proof.
  revert m perm acc. induction fuel as [|fuel IH]; intros m perm acc.
  - reflexivity.
  - cbn [spreadLoop popBitboards]. destruct (m =? 0); [reflexivity|].
    destruct (popLeastBitboard m) as [blocker m'].
    cbn [spreadBits]. rewrite IH, odd_mod2, Z.div2_spec. reflexivity.
Qed.

Lemma countFrom_seq (start count : nat) :
  countFrom (Z.of_nat start) count = map Z.of_nat (seq start count).
Proof.
  revert start. induction count as [|count IH]; intros start; [reflexivity|].
  cbn [countFrom seq map]. f_equal. rewrite <- IH. f_equal. lia.
Qed.

Lemma blockerPermutations_fast :
  blockerPermutations = blockerPermutationsFast.
Proof.
  apply functional_extensionality. intros isCardinal.
  apply functional_extensionality. intros square.
  apply functional_extensionality. intros mask.
  unfold blockerPermutations, blockerPermutationsFast, bitboardsOf.
  cbv zeta. change (countFrom 0) with (countFrom (Z.of_nat 0)).
  rewrite countFrom_seq, map_map. apply map_ext. intros n.
  now rewrite spreadLoop_bits.
Qed.
(** Magic numbers that pass the test, for the cardinals and ordinals of
    square 0, then of square 1, and so on. *)
Definition knownMagics : list Z :=
  [0x7080004004108060; 0x8001e0a046008002; 0x40084022011200;
   0x61110400888000; 0x42000c8200c00864; 0x401210d400010;
   0x110011006000804; 0x10082000430c000; 0x100080004101100;
   0xe420141400100186; 0x30080800922a0002; 0x800882004000094;
   0x4280008209204008; 0x80041411024000; 0x8480114224800100;
   0x2010031440608510; 0x16018000c0089320; 0x23c101008101010;
   0x8000300c0020c000; 0x200004808004640; 0x1142020004801030;
   0x4010102080118000; 0x23080800801000; 0x808010040892000;
   0x200082100454080; 0x90136008308800; 0x2800405001080200;
   0x400001802420889; 0x82200188080c60; 0xc0c0029050986128;
   0x12000125040062; 0x110000088008e249; 0xa940908000824004;
   0x983080400408400; 0x20710102001008; 0x4800610068822;
   0x8000060c00580228; 0x10022a8000404; 0x8000105000022020;
   0x20090202004000; 0x50010210008; 0x98200440404200; 0x6280802200821;
   0x101100101002100; 0x20004080010202; 0x8010209461c800; 0x2044000208100;
   0x104044009220014; 0x42002008102100; 0xa05100004088800;
   0x8c048080a1002002; 0x808028002020189; 0x408824010020810;
   0xc0c004061018; 0x2010000484880100; 0x6008008008002; 0x201500808002240;
   0x409010000104000; 0x84010820088010; 0x8142401044082000;
   0x246002180800300; 0x400083002060040; 0x914840600648100;
   0x1090080962010312; 0x1008284001800014; 0x40450c201498a0;
   0xa008805228040408; 0x85002000002100; 0x20521000080c80;
   0x400a0200130800; 0x8e01000418221824; 0x82004040040100;
   0x8062088001080200; 0x40088088020020; 0x2040280801410; 0x884042086240;
   0x800901810a881200; 0x8010110006010; 0x4000018010400121;
   0xa00100050044040a; 0x1400c00050248000; 0x800705401000040;
   0x428c0000c8405; 0x101848201c42400; 0x1500080408002020;
   0x4000180404080200; 0x6000800a00288014; 0x1102010848010020;
   0x481a20010c420008; 0x280882200048; 0x8800008404282400;
   0xc00201c811040220; 0xa0200208040a00; 0x4000801045000125;
   0x41003200080c010; 0x402521030408e491; 0x800801902204100;
   0x1010203011848014; 0xc0c0029050986128; 0x1020060449010080;
   0x4002080100100108; 0x110a00b0c3100; 0x20804100020; 0x84000081060401;
   0x104044009220014; 0x880002448020050; 0x2a00223880040062;
   0x408302a428820401; 0x200104024800848; 0x4010c90922014010;
   0x30800100402480; 0x220a0480a84400; 0x3048200a01142; 0x1000440121690200;
   0x800c00008103461; 0x40808a024006000; 0xc002004801200aa;
   0x42000010098140a; 0x10b2002003042; 0x9000000820826010;
   0x24220050110402; 0x10204210083090; 0x84000809000083; 0x40001008691010;
   0xc204060050900804; 0x90001a501006080; 0x8000240080a50042;
   0x1008024aa4040020].

(** A [rand()] whose draws make every call of [random64] in the [n]-th try
    return the [n]-th known magic number: a draw is even exactly where the
    number has a bit. *)
Definition knownRand (drawn : Z) : Z :=
  let try := Z.shiftr drawn 6 / 3 in
  if Z.testbit (nth (Z.to_nat try) knownMagics 0) (Z.land drawn 63)
  then 0 else 1.

Definition isSome {A : Type} (o : option A) : bool :=
  match o with
  | Some _ => true
  | None => false
  end.

Lemma knownRand_constructs : isSome (newMoveGen knownRand) = true.
Proof.
  unfold newMoveGen, initSquares, initSquare, getMagicNumber.
  rewrite blockerPermutations_fast.
  vm_compute. reflexivity.
Qed.

(** The generator the constructor builds from [knownRand]. *)
Lemma knownTables : { g : MoveGen | newMoveGen knownRand = Some g }.
Proof.
  pose proof knownRand_constructs as H.
  destruct (newMoveGen knownRand) as [g|]; [|discriminate].
  exists g. reflexivity.
Qed.

Definition knownMoveGen : MoveGen := proj1_sig knownTables.

Lemma knownMoveGen_built : newMoveGen knownRand = Some knownMoveGen.
Proof. exact (proj2_sig knownTables). Qed.

(** ** The magic lookup is exact (C9) *)

Lemma lookup_exact (rand : Z -> Z) (g : MoveGen) (isCardinal : bool)
    (s o : Z) :
  newMoveGen rand = Some g -> 0 <= s < 64 ->
  blockers (squareOf isCardinal g s) = maskOf isCardinal s
  /\ aget 0 (tableOf isCardinal g s)
       (magicIndex isCardinal (Z.land o (maskOf isCardinal s))
          (magic (squareOf isCardinal g s)))
     = slidingAttacks isCardinal s (Z.land o (maskOf isCardinal s)).
Proof.
  intros Hg Hs. destruct (newMoveGen_accepted rand g s Hg Hs) as [Hc Ho].
  assert (Ha : accepted isCardinal g s) by (destruct isCardinal; assumption).
  split; [apply Ha|]. now apply accepted_lookup.
Qed.

(** C9.  For every square and every occupancy, once the constructor has
    accepted its magic numbers, the table read
    [cardinalAttacks[s][((o & cardinals[s].blockers) * cardinals[s].magic) >> 52]]
    is [getRookAttacks(s, o & cardinals[s].blockers, true)], and the read of
    [ordinalAttacks] with a shift of 55 is the matching [getBishopAttacks]. *)
Theorem magic_lookup_exact (rand : Z -> Z) (g : MoveGen) (s o : Z) :
  newMoveGen rand = Some g -> 0 <= s < 64 ->
  let c := aget noMagic (cardinals g) s in
  let d := aget noMagic (ordinals g) s in
  aget 0 (aget aempty (cardinalAttacks g) s)
       (shr64 (wrap64 (Z.land o (blockers c) * magic c)) 52)
  = getRookAttacks s (Z.land o (blockers c)) true
  /\ aget 0 (aget aempty (ordinalAttacks g) s)
       (shr64 (wrap64 (Z.land o (blockers d) * magic d)) 55)
     = getBishopAttacks s (Z.land o (blockers d)) true.
Proof.
  intros Hg Hs c d.
  destruct (lookup_exact rand g true s o Hg Hs) as [Hm1 H1].
  destruct (lookup_exact rand g false s o Hg Hs) as [Hm2 H2].
  unfold squareOf, tableOf, maskOf, magicIndex, magicShift, slidingAttacks
    in *.
  subst c d. rewrite Hm1, Hm2. split; assumption.
Qed.

Lemma magic_lookup_exact_witness :
  let g := knownMoveGen in
  let o := occupiedSquares newBoard in
  let c := aget noMagic (cardinals g) 27 in
  let d := aget noMagic (ordinals g) 27 in
  aget 0 (aget aempty (cardinalAttacks g) 27)
       (shr64 (wrap64 (Z.land o (blockers c) * magic c)) 52)
  = getRookAttacks 27 (Z.land o (blockers c)) true
  /\ aget 0 (aget aempty (ordinalAttacks g) 27)
       (shr64 (wrap64 (Z.land o (blockers d) * magic d)) 55)
     = getBishopAttacks 27 (Z.land o (blockers d)) true.
Proof.
  apply (magic_lookup_exact knownRand knownMoveGen 27
           (occupiedSquares newBoard) knownMoveGen_built).
  lia.
Defined.

(** ** Table reads as ray walks *)

(** The reads of [tableSliders g], answered by the iterative ray walks
    wherever the blocker board lies under the mask of the square. *)
Definition raySliders (g : MoveGen) : Sliders :=
  mkSliders
    (fun square =>
       if onBoard square then Some (getRookBlockers square) else None)
    (fun square =>
       if onBoard square then Some (getBishopBlockers square) else None)
    (fun square blockerBoard =>
       if onBoard square then
         if Z.land blockerBoard (getRookBlockers square) =? blockerBoard
         then Some (getRookAttacks square blockerBoard true)
         else cardinalLookup (tableSliders g) square blockerBoard
       else None)
    (fun square blockerBoard =>
       if onBoard square then
         if Z.land blockerBoard (getBishopBlockers square) =? blockerBoard
         then Some (getBishopAttacks square blockerBoard true)
         else ordinalLookup (tableSliders g) square blockerBoard
       else None).

Lemma onBoard_true (s : Z) : onBoard s = true -> 0 <= s < 64.
Proof.
  unfold onBoard. intros H. apply andb_true_iff in H. destruct H as [H1 H2].
  apply Z.leb_le in H1. apply Z.ltb_lt in H2. lia.
Qed.

Lemma tableSliders_rays (rand : Z -> Z) (g : MoveGen) :
  newMoveGen rand = Some g -> tableSliders g = raySliders g.
Proof.
  intros Hg. unfold tableSliders, raySliders. f_equal.
  - apply functional_extensionality. intros s.
    destruct (onBoard s) eqn:Hs; [|reflexivity]. apply onBoard_true in Hs.
    destruct (lookup_exact rand g true s 0 Hg Hs) as [Hm _].
    unfold squareOf, maskOf in Hm. now rewrite Hm.
  - apply functional_extensionality. intros s.
    destruct (onBoard s) eqn:Hs; [|reflexivity]. apply onBoard_true in Hs.
    destruct (lookup_exact rand g false s 0 Hg Hs) as [Hm _].
    unfold squareOf, maskOf in Hm. now rewrite Hm.
  - apply functional_extensionality. intros s.
    apply functional_extensionality. intros b.
    cbn [cardinalLookup tableSliders].
    destruct (onBoard s) eqn:Hs; [|reflexivity].
    pose proof (onBoard_true s Hs) as Hs'.
    destruct (Z.eqb_spec (Z.land b (getRookBlockers s)) b) as [Hb|];
      [|reflexivity].
    destruct (lookup_exact rand g true s b Hg Hs') as [_ Hl].
    unfold squareOf, tableOf, maskOf, slidingAttacks in Hl.
    rewrite Hb in Hl. now rewrite Hl.
  - apply functional_extensionality. intros s.
    apply functional_extensionality. intros b.
    cbn [ordinalLookup tableSliders].
    destruct (onBoard s) eqn:Hs; [|reflexivity].
    pose proof (onBoard_true s Hs) as Hs'.
    destruct (Z.eqb_spec (Z.land b (getBishopBlockers s)) b) as [Hb|];
      [|reflexivity].
    destruct (lookup_exact rand g false s b Hg Hs') as [_ Hl].
    unfold squareOf, tableOf, maskOf, slidingAttacks in Hl.
    rewrite Hb in Hl. now rewrite Hl.
Qed.

(** ** The error monad *)

Lemma bind_Some (A B : Type) (m : option A) (k : A -> option B) (b : B) :
  bind m k = Some b -> exists a, m = Some a /\ k a = Some b.
Proof. destruct m as [a|]; [|discriminate]. intros H. now exists a. Qed.

Lemma mapM_length (A B : Type) (f : A -> option B) (l : list A)
    (bs : list B) :
  mapM f l = Some bs -> length bs = length l.
Proof.
  revert bs. induction l as [|a l IH]; intros bs H; cbn [mapM] in H.
  - now injection H as <-.
  - apply bind_Some in H. destruct H as (b & _ & H).
    apply bind_Some in H. destruct H as (bs' & Hbs & H).
    injection H as <-. cbn [length]. f_equal. now apply IH.
Qed.

(** ** The start position (C1) *)

Definition isPush (steps : Z) (m : Move) : bool :=
  PieceType_eqb (moving m) ENGINE_PAWN
  && (to m - from m =? steps)
  && PieceType_eqb (captured m) NONE
  && (moveTypeIndex (type m) =? moveTypeIndex NORMAL).

Definition isKnightMove (m : Move) : bool :=
  PieceType_eqb (moving m) ENGINE_KNIGHT.

(** The replies of the player to every move of a list. *)
Definition repliesTo (sliders : Sliders) (b : Board) (moves : list Move)
  : option (list (list Move)) :=
  mapM (fun m => generatePlayerMoves sliders (makeMove true b m)) moves.

(** Evaluate an [option] to its value and offer that value as the witness of the
    goal. *)
Ltac exists_value e :=
  let r := eval vm_compute in e in
  match r with
  | Some ?v => exists v
  end.

Lemma start_moves (rand : Z -> Z) (g : MoveGen) :
  newMoveGen rand = Some g ->
  exists moves replies,
    generateEngineMoves (tableSliders g) newBoard = Some moves
    /\ length moves = 20%nat
    /\ length (filter (isPush 8) moves) = 8%nat
    /\ length (filter (isPush 16) moves) = 8%nat
    /\ length (filter isKnightMove moves) = 4%nat
    /\ repliesTo (tableSliders g) newBoard moves = Some replies
    /\ length replies = 20%nat
    /\ length (concat replies) = 400%nat.
Proof.
  intros Hg. rewrite (tableSliders_rays rand g Hg).
  exists_value (generateEngineMoves (raySliders g) newBoard).
  match goal with
  | |- exists _, _ = Some ?ms /\ _ =>
      exists_value (repliesTo (raySliders g) newBoard ms)
  end.
  repeat (split; [vm_compute; reflexivity|]). vm_compute; reflexivity.
Qed.

(** C1.  The constructor leaves the engine to move; with the tables of a
    constructed generator, the engine has exactly 20 moves in the start
    position (8 single pawn pushes, 8 double pawn pushes, 4 knight moves),
    and the player's replies to those 20 moves number 400 in all. *)
Theorem start_position_perft (rand : Z -> Z) (g : MoveGen) :
  newMoveGen rand = Some g ->
  engineToMove newBoard = ENGINE_IS_WHITE
  /\ exists moves replies,
       generateEngineMoves (tableSliders g) newBoard = Some moves
       /\ length moves = 20%nat
       /\ length (filter (isPush 8) moves) = 8%nat
       /\ length (filter (isPush 16) moves) = 8%nat
       /\ length (filter isKnightMove moves) = 4%nat
       /\ repliesTo (tableSliders g) newBoard moves = Some replies
       /\ length replies = 20%nat
       /\ length (concat replies) = 400%nat.
Proof.
  intros Hg. split; [reflexivity|]. exact (start_moves rand g Hg).
Qed.

Lemma start_position_perft_witness :
  exists moves replies,
    generateEngineMoves (tableSliders knownMoveGen) newBoard = Some moves
    /\ length moves = 20%nat
    /\ repliesTo (tableSliders knownMoveGen) newBoard moves = Some replies
    /\ length (concat replies) = 400%nat.
Proof.
  destruct (start_position_perft knownRand knownMoveGen knownMoveGen_built)
    as (_ & moves & replies & H1 & H2 & _ & _ & _ & H3 & _ & H4).
  exists moves, replies. split; [exact H1|]. split; [exact H2|].
  split; [exact H3|exact H4].
Defined.

(** ** The undo sequence does not restore the derived masks (C3) *)

Definition Move_eqb (a b : Move) : bool :=
  (moveTypeIndex (type a) =? moveTypeIndex (type b))
  && (from a =? from b) && (to a =? to b)
  && PieceType_eqb (moving a) (moving b)
  && PieceType_eqb (captured a) (captured b).

(** The first move the engine has in the start position. *)
Definition firstPawnPush : Move := mkMove NORMAL 8 16 ENGINE_PAWN NONE.

Lemma start_first_move (rand : Z -> Z) (g : MoveGen) :
  newMoveGen rand = Some g ->
  exists rest,
    generateEngineMoves (tableSliders g) newBoard
    = Some (firstPawnPush :: rest).
Proof.
  intros Hg. rewrite (tableSliders_rays rand g Hg).
  let r := eval vm_compute in (generateEngineMoves (raySliders g) newBoard) in
  match r with
  | Some (_ :: ?rest) => exists rest
  end.
  vm_compute. reflexivity.
Qed.

Lemma undo_leaves_masks_counterexample :
  (exists rest,
     generateEngineMoves (tableSliders knownMoveGen) newBoard
     = Some (firstPawnPush :: rest))
  /\ masksConsistent newBoard
  /\ unmakeMove (makeMove true newBoard firstPawnPush) (position newBoard)
     <> newBoard
  /\ occupiedSquares
       (unmakeMove (makeMove true newBoard firstPawnPush) (position newBoard))
     <> occupiedSquares newBoard.
Proof.
  split; [exact (start_first_move knownRand knownMoveGen knownMoveGen_built)|].
  split; [exact newBoard_consistent|].
  assert (H : occupiedSquares
                (unmakeMove (makeMove true newBoard firstPawnPush)
                   (position newBoard))
              <> occupiedSquares newBoard).
  { vm_compute. discriminate. }
  split; [|exact H]. intros Heq. apply H. now rewrite Heq.
Qed.

(** ** Scenario 5: en passant beside a rook on the rank (C7) *)

(** White (the engine) has its king on e1 (square 3) and a pawn on e5
    (square 35); black (the player) has a rook on a5 (square 39) and a pawn
    on d7 (square 52), and is to move. *)
Definition scenario5Before : Board :=
  update
    (mkBoard false
       (mkPosition
          [boardOf 52; 0; 0; boardOf 39; 0; 0;
           boardOf 35; 0; 0; 0; 0; boardOf 3]
          false false false false 0)
       0 0 0 0 0 0).

(** The black pawn double-pushes d7 to d5 (square 36). *)
Definition scenario5 : Board :=
  makeMove false scenario5Before (mkMove NORMAL 52 36 PLAYER_PAWN NONE).

(** exd6: the pawn on e5 takes en passant and lands on d6 (square 44). *)
Definition exd6 : Move := mkMove EN_PASSANT 35 44 ENGINE_PAWN PLAYER_PAWN.

Lemma scenario5_position :
  enPassantCapture (position scenario5) = boardOf 36
  /\ piece (position scenario5) PLAYER_PAWN = boardOf 36
  /\ piece (position scenario5) PLAYER_ROOK = boardOf 39
  /\ piece (position scenario5) ENGINE_PAWN = boardOf 35
  /\ piece (position scenario5) ENGINE_KING = boardOf 3
  /\ occupiedSquares scenario5
     = Z.lor (Z.lor (boardOf 36) (boardOf 39)) (Z.lor (boardOf 35) (boardOf 3))
  /\ engineToMove scenario5 = true.
Proof. vm_compute. repeat split. Qed.

Lemma scenario5_moves (rand : Z -> Z) (g : MoveGen) :
  newMoveGen rand = Some g ->
  exists moves,
    generateEngineMoves (tableSliders g) scenario5 = Some moves
    /\ existsb (Move_eqb exd6) moves = true.
Proof.
  intros Hg. rewrite (tableSliders_rays rand g Hg).
  exists_value (generateEngineMoves (raySliders g) scenario5).
  split; vm_compute; reflexivity.
Qed.

Lemma Move_eqb_eq (a b : Move) : Move_eqb a b = true -> a = b.
Proof.
  unfold Move_eqb. intros H.
  repeat (apply andb_true_iff in H; destruct H as [H ?]).
  destruct a as [ta fa oa ma ca], b as [tb fb ob mb cb]. cbn in *.
  assert (ta = tb) by (destruct ta, tb; cbn in H; congruence || discriminate).
  assert (ma = mb)
    by (destruct ma, mb; cbn in *; congruence || discriminate).
  assert (ca = cb)
    by (destruct ca, cb; cbn in *; congruence || discriminate).
  f_equal; try assumption; now apply Z.eqb_eq.
Qed.

Lemma existsb_Move_In (m : Move) (moves : list Move) :
  existsb (Move_eqb m) moves = true -> In m moves.
Proof.
  intros H. apply existsb_exists in H. destruct H as (x & Hin & Heq).
  apply Move_eqb_eq in Heq. now subst x.
Qed.

Lemma scenario5_generates_exd6_counterexample :
  exists moves,
    generateEngineMoves (tableSliders knownMoveGen) scenario5 = Some moves
    /\ In exd6 moves.
Proof.
  destruct (scenario5_moves knownRand knownMoveGen knownMoveGen_built)
    as (moves & Hm & Hin).
  exists moves. split; [exact Hm|]. now apply existsb_Move_In.
Qed.

(** C7, as the code has it.  In scenario 5 the white king stands on e1, off
    the fifth rank, so the rank scan from e5 meets the rook on a5 alone;
    with the tables of any constructed generator, the moves generated for
    white include the en passant capture exd6. *)
Theorem scenario5_generates_exd6 (rand : Z -> Z) (g : MoveGen) :
  newMoveGen rand = Some g ->
  exists moves,
    generateEngineMoves (tableSliders g) scenario5 = Some moves
    /\ In exd6 moves.
Proof.
  intros Hg. destruct (scenario5_moves rand g Hg) as (moves & Hm & Hin).
  exists moves. split; [exact Hm|]. now apply existsb_Move_In.
Qed.

Lemma scenario5_generates_exd6_witness :
  exists moves,
    generateEngineMoves (tableSliders knownMoveGen) scenario5 = Some moves
    /\ In exd6 moves.
Proof.
  exact (scenario5_generates_exd6 knownRand knownMoveGen knownMoveGen_built).
Defined.

(** ** Move ordering (C2) *)

(** The engine king on square 0 is hemmed in by its own rook (1) and pawns
    (8, 9) and checked by a player knight on 17, which only the pawn on 8
    and the queen on 19 can take. *)
Definition knightCheck : Board :=
  update
    (mkBoard true
       (mkPosition
          [0; boardOf 17; 0; 0; 0; boardOf 63;
           Z.lor (boardOf 8) (boardOf 9); 0; 0; boardOf 1; boardOf 19;
           boardOf 0]
          false false false false 0)
       0 0 0 0 0 0).

Definition pawnTakesKnight : Move :=
  mkMove NORMAL 8 17 ENGINE_PAWN PLAYER_KNIGHT.
Definition queenTakesKnight : Move :=
  mkMove NORMAL 19 17 ENGINE_QUEEN PLAYER_KNIGHT.

Lemma knightCheck_moves (rand : Z -> Z) (g : MoveGen) :
  newMoveGen rand = Some g ->
  generateEngineMoves (tableSliders g) knightCheck
  = Some [pawnTakesKnight; queenTakesKnight].
Proof.
  intros Hg. rewrite (tableSliders_rays rand g Hg). vm_compute. reflexivity.
Qed.

(** C2, at a position where the claim fails.  The two moves generated for
    [knightCheck] are captures with the keys 1050 (pawn takes knight) and
    350 (queen takes knight).  [getSortedMoves] drains [generated] and
    returns the two moves, but with the lower key first: the selection
    loop picks the best move first and the closing [std::reverse] turns
    the order around. *)
Theorem getSortedMoves_ascending (rand : Z -> Z) (g : MoveGen)
    (pieceValuePastEnd : Z) :
  newMoveGen rand = Some g ->
  generateEngineMoves (tableSliders g) knightCheck
  = Some [pawnTakesKnight; queenTakesKnight]
  /\ moveScore pieceValuePastEnd pawnTakesKnight 0 = 1050
  /\ moveScore pieceValuePastEnd queenTakesKnight 0 = 350
  /\ getSortedMoves pieceValuePastEnd [pawnTakesKnight; queenTakesKnight]
     = ([queenTakesKnight; pawnTakesKnight], []).
Proof.
  intros Hg. split; [exact (knightCheck_moves rand g Hg)|].
  repeat split; vm_compute; reflexivity.
Qed.

Lemma getSortedMoves_ascending_witness :
  generateEngineMoves (tableSliders knownMoveGen) knightCheck
  = Some [pawnTakesKnight; queenTakesKnight]
  /\ getSortedMoves 0 [pawnTakesKnight; queenTakesKnight]
     = ([queenTakesKnight; pawnTakesKnight], []).
Proof.
  destruct (getSortedMoves_ascending knownRand knownMoveGen 0
              knownMoveGen_built) as (H1 & _ & _ & H2).
  split; [exact H1|exact H2].
Defined.

(** ** Terminal positions in the search (C4) *)

Lemma ply_not_leaf (ply : Z) :
  ply <= SEARCH_DEPTH -> (ply >? SEARCH_DEPTH) = false.
Proof. intros H. destruct (Z.gtb_spec ply SEARCH_DEPTH); [lia|reflexivity]. Qed.

Lemma maximize_no_moves (sliders : Sliders) (pieceValuePastEnd : Z)
    (fuel : nat) (b : Board) (ply alpha beta : Z) (inCheck : bool) :
  ply <= SEARCH_DEPTH ->
  generateEngineMoves sliders b = Some [] ->
  isKingInCheck sliders b true = Some inCheck ->
  maximize sliders pieceValuePastEnd (S fuel) b ply alpha beta
  = Some (if inCheck then MIN_EVAL + ply else 0, b).
Proof.
  intros Hply Hgen Hcheck. cbn [maximize].
  rewrite (ply_not_leaf ply Hply), Hgen. cbn [bind].
  change (fst (getSortedMoves pieceValuePastEnd [])) with (@nil Move).
  rewrite Hcheck. cbn [bind]. now destruct inCheck.
Qed.

Lemma minimize_no_moves (sliders : Sliders) (pieceValuePastEnd : Z)
    (fuel : nat) (b : Board) (ply alpha beta : Z) (inCheck : bool) :
  ply <= SEARCH_DEPTH ->
  generatePlayerMoves sliders b = Some [] ->
  isKingInCheck sliders b false = Some inCheck ->
  minimize sliders pieceValuePastEnd (S fuel) b ply alpha beta
  = Some (if inCheck then MAX_EVAL - ply else 0, b).
Proof.
  intros Hply Hgen Hcheck. cbn [minimize].
  rewrite (ply_not_leaf ply Hply), Hgen. cbn [bind].
  change (fst (getSortedMoves pieceValuePastEnd [])) with (@nil Move).
  rewrite Hcheck. cbn [bind]. now destruct inCheck.
Qed.

(** C4.  At a ply within the search depth, when the generator finds no move
    for the engine, [maximize] returns [MIN_EVAL + ply] if the engine's king
    is in check and [0] otherwise; when it finds no move for the player,
    [minimize] returns [MAX_EVAL - ply] if the player's king is in check and
    [0] otherwise.  Both leave the board as it was. *)
Theorem no_moves_score (sliders : Sliders) (pieceValuePastEnd : Z)
    (fuel : nat) (bEngine bPlayer : Board) (ply alpha beta : Z)
    (engineInCheck playerInCheck : bool) :
  ply <= SEARCH_DEPTH ->
  generateEngineMoves sliders bEngine = Some [] ->
  isKingInCheck sliders bEngine true = Some engineInCheck ->
  generatePlayerMoves sliders bPlayer = Some [] ->
  isKingInCheck sliders bPlayer false = Some playerInCheck ->
  maximize sliders pieceValuePastEnd (S fuel) bEngine ply alpha beta
  = Some (if engineInCheck then MIN_EVAL + ply else 0, bEngine)
  /\ minimize sliders pieceValuePastEnd (S fuel) bPlayer ply alpha beta
     = Some (if playerInCheck then MAX_EVAL - ply else 0, bPlayer).
Proof.
  intros Hply HgenE HcheckE HgenP HcheckP. split.
  - now apply maximize_no_moves.
  - now apply minimize_no_moves.
Qed.

(** The engine king on square 0 behind its pawns on 8 and 9, mated by a
    player rook on 7. *)
Definition engineMated : Board :=
  update
    (mkBoard true
       (mkPosition
          [0; 0; 0; boardOf 7; 0; boardOf 63;
           Z.lor (boardOf 8) (boardOf 9); 0; 0; 0; 0; boardOf 0]
          false false false false 0)
       0 0 0 0 0 0).

(** The player king on square 63 with no move and no check: the engine
    queen on 53 is a knight's jump away. *)
Definition playerStalemated : Board :=
  update
    (mkBoard false
       (mkPosition
          [0; 0; 0; 0; 0; boardOf 63;
           0; 0; 0; 0; boardOf 53; boardOf 0]
          false false false false 0)
       0 0 0 0 0 0).

Lemma terminal_fixtures (rand : Z -> Z) (g : MoveGen) :
  newMoveGen rand = Some g ->
  generateEngineMoves (tableSliders g) engineMated = Some []
  /\ isKingInCheck (tableSliders g) engineMated true = Some true
  /\ generatePlayerMoves (tableSliders g) playerStalemated = Some []
  /\ isKingInCheck (tableSliders g) playerStalemated false = Some false.
Proof.
  intros Hg. rewrite (tableSliders_rays rand g Hg).
  repeat split; vm_compute; reflexivity.
Qed.

Lemma no_moves_score_witness :
  maximize (tableSliders knownMoveGen) 0 1 engineMated 2 MIN_EVAL MAX_EVAL
  = Some (MIN_EVAL + 2, engineMated)
  /\ minimize (tableSliders knownMoveGen) 0 1 playerStalemated 2
       MIN_EVAL MAX_EVAL
     = Some (0, playerStalemated).
Proof.
  destruct (terminal_fixtures knownRand knownMoveGen knownMoveGen_built)
    as (H1 & H2 & H3 & H4).
  assert (Hply : 2 <= SEARCH_DEPTH) by (unfold SEARCH_DEPTH; lia).
  exact (no_moves_score (tableSliders knownMoveGen) 0 0 engineMated
           playerStalemated 2 MIN_EVAL MAX_EVAL true false
           Hply H1 H2 H3 H4).
Defined.

(** ** Score bounds of the search *)

Definition inBounds (score : Z) : Prop := - MAX_EVAL <= score <= MAX_EVAL.

Lemma MAX_EVAL_value : MAX_EVAL = 32768.
Proof. reflexivity. Qed.

Lemma makeMove_ext (isEngine : bool) (b1 b2 : Board) (m : Move) :
  position b1 = position b2 -> engineToMove b1 = engineToMove b2 ->
  makeMove isEngine b1 m = makeMove isEngine b2 m.
Proof.
  intros Hp He. unfold makeMove, flipEngineToMove, update, setPosition.
  cbn [position engineToMove]. now rewrite Hp, He.
Qed.

Lemma makeMove_engineToMove (isEngine : bool) (b : Board) (m : Move) :
  engineToMove (makeMove isEngine b m) = negb (engineToMove b).
Proof. reflexivity. Qed.

Lemma unmakeMove_fields (b : Board) (clone : Position) :
  position (unmakeMove b clone) = clone
  /\ engineToMove (unmakeMove b clone) = negb (engineToMove b).
Proof. split; reflexivity. Qed.

Lemma Some_pair (A B : Type) (a c : A) (b d : B) :
  Some (a, b) = Some (c, d) -> a = c /\ b = d.
Proof. intros H. split; congruence. Qed.

Definition scoreInBounds (score : Z) : bool :=
  (- MAX_EVAL <=? score) && (score <=? MAX_EVAL).

Lemma scoreInBounds_spec (score : Z) :
  scoreInBounds score = true <-> inBounds score.
Proof.
  unfold scoreInBounds, inBounds. rewrite andb_true_iff, !Z.leb_le.
  reflexivity.
Qed.

Section ScoreBounds.

Variable sliders : Sliders.
Variable pieceValuePastEnd : Z.

(** Every leaf of the move tree of the given depth below [b] has a static
    evaluation within the bounds. *)
Fixpoint leavesBounded (depth : nat) (isEngine : bool) (b : Board) : bool :=
  match depth with
  | O =>
      scoreInBounds (evaluate (position b))
  | S depth' =>
      match generateMoves sliders isEngine b with
      | None => true
      | Some generated =>
          forallb (fun m => leavesBounded depth' (negb isEngine)
                              (makeMove isEngine b m))
                  (fst (getSortedMoves pieceValuePastEnd generated))
      end
  end.

Lemma leavesBounded_leaf (isEngine : bool) (b : Board) :
  leavesBounded O isEngine b = scoreInBounds (evaluate (position b)).
Proof. reflexivity. Qed.

Lemma leavesBounded_inner (depth : nat) (isEngine : bool) (b : Board) :
  leavesBounded (S depth) isEngine b
  = match generateMoves sliders isEngine b with
    | None => true
    | Some generated =>
        forallb (fun m => leavesBounded depth (negb isEngine)
                            (makeMove isEngine b m))
                (fst (getSortedMoves pieceValuePastEnd generated))
    end.
Proof. reflexivity. Qed.

Definition restores (b b' : Board) : Prop :=
  position b' = position b /\ engineToMove b' = engineToMove b.

Lemma maximizeLoop_bounded
    (child : Board -> Z -> Z -> option (Z * Board))
    (moves : list Move) (b0 : Board) :
  (forall m a be s bc,
     In m moves -> child (makeMove true b0 m) a be = Some (s, bc) ->
     inBounds s /\ restores (makeMove true b0 m) bc) ->
  forall b best alpha beta score b',
    restores b0 b -> inBounds best ->
    maximizeLoop child moves b best alpha beta = Some (score, b') ->
    inBounds score /\ restores b0 b'.
Proof.
  induction moves as [|m rest IH]; intros Hchild b best alpha beta score b'
    Hb Hbest H; cbn [maximizeLoop] in H.
  - apply Some_pair in H. destruct H as [<- <-]. auto.
  - destruct Hb as [Hbp Hbe].
    rewrite (makeMove_ext true b b0 m Hbp Hbe) in H.
    apply bind_Some in H. destruct H as ([s bc] & Hc & H).
    destruct (Hchild m alpha beta s bc (or_introl eq_refl) Hc)
      as (Hs & Hcp & Hce).
    assert (Hun : restores b0 (unmakeMove bc (position b))).
    { split; cbn [unmakeMove]; [exact Hbp|].
      unfold unmakeMove, flipEngineToMove, setPosition.
      cbn [engineToMove]. rewrite Hce, makeMove_engineToMove.
      apply negb_involutive. }
    assert (Hbest' : inBounds (if s >? best then s else best))
      by (destruct (s >? best); assumption).
    destruct (beta <=? _) in H.
    + apply Some_pair in H. destruct H as [<- <-]. auto.
    + apply (IH (fun m' a be s' bc' Hin => Hchild m' a be s' bc'
                                            (or_intror Hin))
               _ _ _ _ _ _ Hun Hbest' H).
Qed.

Lemma minimizeLoop_bounded
    (child : Board -> Z -> Z -> option (Z * Board))
    (moves : list Move) (b0 : Board) :
  (forall m a be s bc,
     In m moves -> child (makeMove false b0 m) a be = Some (s, bc) ->
     inBounds s /\ restores (makeMove false b0 m) bc) ->
  forall b best alpha beta score b',
    restores b0 b -> inBounds best ->
    minimizeLoop child moves b best alpha beta = Some (score, b') ->
    inBounds score /\ restores b0 b'.
Proof.
  induction moves as [|m rest IH]; intros Hchild b best alpha beta score b'
    Hb Hbest H; cbn [minimizeLoop] in H.
  - apply Some_pair in H. destruct H as [<- <-]. auto.
  - destruct Hb as [Hbp Hbe].
    rewrite (makeMove_ext false b b0 m Hbp Hbe) in H.
    apply bind_Some in H. destruct H as ([s bc] & Hc & H).
    destruct (Hchild m alpha beta s bc (or_introl eq_refl) Hc)
      as (Hs & Hcp & Hce).
    assert (Hun : restores b0 (unmakeMove bc (position b))).
    { split; cbn [unmakeMove]; [exact Hbp|].
      unfold unmakeMove, flipEngineToMove, setPosition.
      cbn [engineToMove]. rewrite Hce, makeMove_engineToMove.
      apply negb_involutive. }
    assert (Hbest' : inBounds (if s <? best then s else best))
      by (destruct (s <? best); assumption).
    destruct (_ <=? alpha) in H.
    + apply Some_pair in H. destruct H as [<- <-]. auto.
    + apply (IH (fun m' a be s' bc' Hin => Hchild m' a be s' bc'
                                            (or_intror Hin))
               _ _ _ _ _ _ Hun Hbest' H).
Qed.

Definition depthBelow (ply : Z) : nat := Z.to_nat (SEARCH_DEPTH + 1 - ply).

Lemma depthBelow_leaf (ply : Z) :
  (ply >? SEARCH_DEPTH) = true -> depthBelow ply = O.
Proof.
  intros H. apply Z.gtb_lt in H. unfold depthBelow. lia.
Qed.

Lemma depthBelow_inner (ply : Z) :
  (ply >? SEARCH_DEPTH) = false -> depthBelow ply = S (depthBelow (ply + 1)).
Proof.
  intros H. destruct (Z.gtb_spec ply SEARCH_DEPTH); [discriminate|].
  unfold depthBelow. rewrite <- Z2Nat.inj_succ by lia. f_equal. lia.
Qed.

Lemma search_bounded (fuel : nat) :
  (forall b ply alpha beta score b',
     0 <= ply -> leavesBounded (depthBelow ply) true b = true ->
     maximize sliders pieceValuePastEnd fuel b ply alpha beta
     = Some (score, b') ->
     inBounds score /\ restores b b')
  /\ (forall b ply alpha beta score b',
        0 <= ply -> leavesBounded (depthBelow ply) false b = true ->
        minimize sliders pieceValuePastEnd fuel b ply alpha beta
        = Some (score, b') ->
        inBounds score /\ restores b b').
Proof.
  pose proof MAX_EVAL_value as HM.
  assert (HN : MIN_EVAL = -32768) by reflexivity.
  induction fuel as [|fuel [IHmax IHmin]]; [split; intros; discriminate|].
  split; intros b ply alpha beta score b' Hply Hl H.
  - cbn [maximize] in H. destruct (ply >? SEARCH_DEPTH) eqn:Hleaf.
    + apply Some_pair in H. destruct H as [<- <-].
      rewrite (depthBelow_leaf ply Hleaf), leavesBounded_leaf in Hl.
      apply scoreInBounds_spec in Hl. split; [exact Hl|split; reflexivity].
    + rewrite (depthBelow_inner ply Hleaf), leavesBounded_inner in Hl.
      destruct (Z.gtb_spec ply SEARCH_DEPTH) as [|Hle]; [discriminate|].
      unfold generateEngineMoves in H.
      apply bind_Some in H. destruct H as (generated & Hg & H).
      rewrite Hg in Hl. cbn [negb] in Hl.
      destruct (fst (getSortedMoves pieceValuePastEnd generated))
        as [|m ms] eqn:Hs.
      * apply bind_Some in H. destruct H as (inCheck & _ & H).
        unfold SEARCH_DEPTH in Hle.
        destruct inCheck; apply Some_pair in H; destruct H as [<- <-];
          (split; [unfold inBounds; rewrite ?HN, HM; lia
                  |split; reflexivity]).
      * refine (maximizeLoop_bounded _ _ b _ b MIN_EVAL alpha beta score b'
                  _ _ H).
        -- intros m' a be s bc Hin Hc.
           apply (IHmin _ (ply + 1) a be s bc); [lia| |exact Hc].
           rewrite forallb_forall in Hl. now apply Hl.
        -- split; reflexivity.
        -- unfold inBounds. rewrite HN, HM. lia.
  - cbn [minimize] in H. destruct (ply >? SEARCH_DEPTH) eqn:Hleaf.
    + apply Some_pair in H. destruct H as [<- <-].
      rewrite (depthBelow_leaf ply Hleaf), leavesBounded_leaf in Hl.
      apply scoreInBounds_spec in Hl. split; [exact Hl|split; reflexivity].
    + rewrite (depthBelow_inner ply Hleaf), leavesBounded_inner in Hl.
      destruct (Z.gtb_spec ply SEARCH_DEPTH) as [|Hle]; [discriminate|].
      unfold generatePlayerMoves in H.
      apply bind_Some in H. destruct H as (generated & Hg & H).
      rewrite Hg in Hl. cbn [negb] in Hl.
      destruct (fst (getSortedMoves pieceValuePastEnd generated))
        as [|m ms] eqn:Hs.
      * apply bind_Some in H. destruct H as (inCheck & _ & H).
        unfold SEARCH_DEPTH in Hle.
        destruct inCheck; apply Some_pair in H; destruct H as [<- <-];
          (split; [unfold inBounds; rewrite ?HN, HM; lia
                  |split; reflexivity]).
      * refine (minimizeLoop_bounded _ _ b _ b MAX_EVAL alpha beta score b'
                  _ _ H).
        -- intros m' a be s bc Hin Hc.
           apply (IHmax _ (ply + 1) a be s bc); [lia| |exact Hc].
           rewrite forallb_forall in Hl. now apply Hl.
        -- split; reflexivity.
        -- unfold inBounds. rewrite HM. lia.
Qed.

End ScoreBounds.

Lemma start_search (rand : Z -> Z) (g : MoveGen) :
  newMoveGen rand = Some g ->
  leavesBounded (tableSliders g) 0 (depthBelow 4) true newBoard = true
  /\ exists score b',
       maximize (tableSliders g) 0 3 newBoard 4 MIN_EVAL MAX_EVAL
       = Some (score, b').
Proof.
  intros Hg. rewrite (tableSliders_rays rand g Hg).
  split; [vm_compute; reflexivity|].
  let r := eval vm_compute in
    (maximize (raySliders g) 0 3 newBoard 4 MIN_EVAL MAX_EVAL) in
  match r with
  | Some (?score, ?b') => exists score, b'
  end.
  vm_compute. reflexivity.
Qed.

(** ** The en passant square after a move (C8) *)

Lemma enPassantCapture_if (c : bool) (p q : Position) :
  enPassantCapture (if c then p else q)
  = if c then enPassantCapture p else enPassantCapture q.
Proof. now destruct c. Qed.

Lemma enPassantCapture_xorPiece (p : Position) (t : PieceType) (mask : Z) :
  enPassantCapture (xorPiece p t mask) = enPassantCapture p.
Proof. reflexivity. Qed.

Lemma enPassantCapture_orPiece (p : Position) (t : PieceType) (mask : Z) :
  enPassantCapture (orPiece p t mask) = enPassantCapture p.
Proof. reflexivity. Qed.

Lemma enPassantCapture_forbidKingside (engine : bool) (p : Position) :
  enPassantCapture (forbidKingside engine p) = enPassantCapture p.
Proof. now destruct engine. Qed.

Lemma enPassantCapture_forbidQueenside (engine : bool) (p : Position) :
  enPassantCapture (forbidQueenside engine p) = enPassantCapture p.
Proof. now destruct engine. Qed.

Lemma enPassantCapture_setEnPassant (p : Position) (v : Z) :
  enPassantCapture (setEnPassant p v) = v.
Proof. reflexivity. Qed.

Lemma if_same (A : Type) (c : bool) (x : A) : (if c then x else x) = x.
Proof. now destruct c. Qed.

Definition enemyPawn (isEngine : bool) : PieceType :=
  if isEngine then PLAYER_PAWN else ENGINE_PAWN.

(** The test [makeMove] makes before it marks the en passant square: the
    move is a double push of a pawn of the side moving, and a pawn of the
    other side stands next to its destination on the double-push rank. *)
Definition marksEnPassant (isEngine : bool) (p : Position) (move : Move)
  : bool :=
  PieceType_eqb (moving move) (ownPawn isEngine)
  && (Z.abs (to move - from move) =? 16)
  && nonzero
       (Z.land
          (Z.land (Z.lor (shl64 (boardOf (to move)) 1)
                         (shr64 (boardOf (to move)) 1))
                  (if isEngine then RANK3 else RANK4))
          (piece p (enemyPawn isEngine))).

Lemma pieces_if (c : bool) (p q : Position) :
  pieces (if c then p else q) = if c then pieces p else pieces q.
Proof. now destruct c. Qed.

Lemma movePosition_enPassant (isEngine : bool) (p0 : Position) (move : Move) :
  enPassantCapture (movePosition isEngine p0 move)
  = if marksEnPassant isEngine (movePosition isEngine p0 move) move
    then boardOf (to move) else 0.
Proof.
  unfold marksEnPassant, piece, movePosition, ownPawn, enemyPawn.
  cbv zeta.
  match goal with
  | |- context [setEnPassant ?p (boardOf (to move))] => set (p3 := p)
  end.
  assert (H3 : enPassantCapture p3 = 0).
  { subst p3.
    repeat (rewrite ?enPassantCapture_if, ?enPassantCapture_xorPiece,
              ?enPassantCapture_orPiece, ?enPassantCapture_forbidKingside,
              ?enPassantCapture_forbidQueenside).
    destruct (type move);
    repeat (rewrite ?enPassantCapture_if, ?enPassantCapture_xorPiece,
              ?enPassantCapture_orPiece, ?enPassantCapture_forbidKingside,
              ?enPassantCapture_forbidQueenside, ?if_same);
    reflexivity. }
  clearbody p3.
  repeat (rewrite ?enPassantCapture_if, ?enPassantCapture_xorPiece,
            ?enPassantCapture_orPiece, ?enPassantCapture_forbidKingside,
            ?enPassantCapture_forbidQueenside,
            ?enPassantCapture_setEnPassant, ?H3, ?if_same).
  destruct isEngine, (moving move);
    cbn [PieceType_eqb pieceIndex Nat.eqb andb]; try reflexivity;
    (destruct (Z.abs (to move - from move) =? 16); cbn [andb];
     [|reflexivity]);
    rewrite pieces_if; cbn [setEnPassant pieces]; rewrite if_same;
    unfold piece; cbn [pieceIndex];
    match goal with
    | |- context [nonzero ?x] => destruct (nonzero x)
    end; reflexivity.
Qed.

(** *** What the loops over a bitboard visit *)

Lemma popSquares_In (fuel : nat) (x s : Z) :
  u64 x -> In s (popSquares fuel x) -> 0 <= s < 64 /\ Z.testbit x s = true.
Proof.
  revert x. induction fuel as [|fuel IH]; intros x Hx Hin;
    cbn [popSquares] in Hin; [contradiction|].
  destruct (Z.eqb_spec x 0) as [|Hne]; [contradiction|].
  rewrite popLeastSquare_eq in Hin. destruct Hin as [<-|Hin].
  - split; [now apply tzcnt64_range|].
    apply tzcnt64_testbit. now apply u64_pos.
  - destruct (IH _ (clearLeast_u64 x Hx) Hin) as [Hs Hb].
    split; [exact Hs|].
    rewrite testbit_clearLeast in Hb by (assumption || lia).
    now apply andb_true_iff in Hb.
Qed.

Lemma squaresOf_In (x s : Z) :
  u64 x -> In s (squaresOf x) -> 0 <= s < 64 /\ Z.testbit x s = true.
Proof. apply popSquares_In. Qed.

Lemma shr64_u64 (x n : Z) : u64 x -> 0 <= n -> u64 (shr64 x n).
Proof.
  intros [H0 H1] Hn. unfold shr64, u64. rewrite Z.shiftr_div_pow2 by lia.
  assert (0 < 2 ^ n) by (apply Z.pow_pos_nonneg; lia).
  split; [apply Z.div_pos; lia|].
  apply Z.div_lt_upper_bound; [lia|]. nia.
Qed.

Lemma land_boardOf_on (x s : Z) :
  0 <= s < 64 -> Z.testbit x s = true -> Z.land (boardOf s) x = boardOf s.
Proof.
  intros Hs Hb. rewrite Z.land_comm, land_boardOf_cases by assumption.
  now rewrite nonzero_land_boardOf, Hb by assumption.
Qed.

Lemma countSetBits_boardOf (s : Z) : 0 <= s < 64 -> countSetBits (boardOf s) = 1.
Proof.
  intros Hs. rewrite boardOf_pow2 by assumption.
  replace s with (Z.of_nat (Z.to_nat s)) by lia.
  induction (Z.to_nat s) as [|n IH]; [reflexivity|].
  rewrite Nat2Z.inj_succ, Z.pow_succ_r by lia.
  now rewrite countSetBits_double.
Qed.

(** *** Members of the lists the monadic loops build *)

Lemma Some_inj (A : Type) (a b : A) : Some a = Some b -> a = b.
Proof. intros H. congruence. Qed.

Lemma mapM_In (A B : Type) (f : A -> option B) (l : list A) (bs : list B)
    (b : B) :
  mapM f l = Some bs -> In b bs -> exists a, In a l /\ f a = Some b.
Proof.
  revert bs. induction l as [|a l IH]; intros bs H Hin; cbn [mapM] in H.
  - apply Some_inj in H. subst bs. contradiction.
  - apply bind_Some in H. destruct H as (b0 & Hb0 & H).
    apply bind_Some in H. destruct H as (bs0 & Hbs0 & H).
    apply Some_inj in H. subst bs. destruct Hin as [<-|Hin].
    + exists a. split; [now left|exact Hb0].
    + destruct (IH bs0 Hbs0 Hin) as (a' & Ha' & Hf).
      exists a'. split; [now right|exact Hf].
Qed.

Lemma concatM_In (A B : Type) (f : A -> option (list B)) (l : list A)
    (bs : list B) (b : B) :
  concatM f l = Some bs -> In b bs ->
  exists a cs, In a l /\ f a = Some cs /\ In b cs.
Proof.
  revert bs. induction l as [|a l IH]; intros bs H Hin; cbn [concatM] in H.
  - apply Some_inj in H. subst bs. contradiction.
  - apply bind_Some in H. destruct H as (cs & Hcs & H).
    apply bind_Some in H. destruct H as (more & Hmore & H).
    apply Some_inj in H. subst bs. apply in_app_or in Hin.
    destruct Hin as [Hin|Hin].
    + exists a, cs. split; [now left|]. split; assumption.
    + destruct (IH more Hmore Hin) as (a' & cs' & Ha' & Hf & Hb).
      exists a', cs'. split; [now right|]. split; assumption.
Qed.

(** *** The shape of the generated moves *)

Ltac peel_binds H :=
  repeat (apply bind_Some in H;
          let x := fresh "x" in
          let Hx := fresh "Hx" in
          destruct H as (x & Hx & H)).

Lemma pushMoves_In (isEngine : bool) (b : Board) (origin : Z)
    (mover : PieceType) (moves : Z) (l : list Move) (m : Move) :
  pushMoves isEngine b origin mover moves = Some l -> In m l ->
  type m = NORMAL /\ from m = origin /\ moving m = mover
  /\ In (to m) (squaresOf moves)
  /\ capturedOn isEngine b (to m) = Some (captured m).
Proof.
  intros H Hin. unfold pushMoves in H.
  destruct (mapM_In _ _ _ _ _ _ H Hin) as (s & Hs & Hm).
  apply bind_Some in Hm. destruct Hm as (c & Hc & Hm).
  apply Some_inj in Hm. subst m. cbn [type from to moving captured]. auto.
Qed.

Lemma pawnMovesTo_In (isEngine : bool) (origin target : Z) (c : PieceType)
    (m : Move) :
  In m (pawnMovesTo isEngine origin target c) ->
  type m <> EN_PASSANT /\ from m = origin /\ to m = target
  /\ moving m = ownPawn isEngine /\ captured m = c.
Proof.
  unfold pawnMovesTo, promotionTypes.
  destruct (nonzero _); cbn [map In]; intros H;
    repeat (destruct H as [<-|H];
            [cbn [type from to moving captured];
             repeat split; discriminate|]);
    contradiction.
Qed.

Lemma pawnSinglePushes_In (isEngine : bool) (k : Pins) (singlePush : Z)
    (m : Move) :
  In m (pawnSinglePushes isEngine k singlePush) ->
  type m <> EN_PASSANT /\ moving m = ownPawn isEngine /\ captured m = NONE
  /\ from m = wrap8 (to m + (if isEngine then -8 else 8))
  /\ In (to m) (squaresOf singlePush).
Proof.
  unfold pawnSinglePushes. rewrite in_flat_map.
  intros (s & Hs & Hin). destruct (_ && _); [contradiction|].
  destruct (pawnMovesTo_In _ _ _ _ _ Hin) as (Ht & Hf & Hto & Hm & Hc).
  rewrite Hf, Hto. auto.
Qed.

Lemma pawnDoublePushes_In (isEngine : bool) (k : Pins) (doublePush : Z)
    (m : Move) :
  In m (pawnDoublePushes isEngine k doublePush) ->
  type m = NORMAL /\ moving m = ownPawn isEngine /\ captured m = NONE
  /\ from m = wrap8 (to m + (if isEngine then -16 else 16))
  /\ In (to m) (squaresOf doublePush).
Proof.
  unfold pawnDoublePushes. rewrite in_flat_map.
  intros (s & Hs & Hin). destruct (_ && _); [contradiction|].
  destruct Hin as [<-|[]]. cbn [type from to moving captured]. auto.
Qed.

Lemma pawnCaptures_In (isEngine : bool) (b : Board) (k : Pins)
    (back attacks : Z) (l : list Move) (m : Move) :
  pawnCaptures isEngine b k back attacks = Some l -> In m l ->
  type m <> EN_PASSANT /\ moving m = ownPawn isEngine
  /\ capturedOn isEngine b (to m) = Some (captured m)
  /\ from m = wrap8 (to m + (if isEngine then - back else back))
  /\ In (to m) (squaresOf attacks).
Proof.
  intros H Hin. unfold pawnCaptures in H.
  destruct (concatM_In _ _ _ _ _ _ H Hin) as (s & cs & Hs & Hcs & Hm).
  destruct (_ && _).
  - apply Some_inj in Hcs. subst cs. contradiction.
  - apply bind_Some in Hcs. destruct Hcs as (c & Hc & Hcs).
    apply Some_inj in Hcs. subst cs.
    destruct (pawnMovesTo_In _ _ _ _ _ Hm) as (Ht & Hf & Hto & Hmv & Hcap).
    rewrite Hf, Hto, Hcap. auto.
Qed.

Lemma enPassantMove_In (sliders : Sliders) (isEngine : bool) (b : Board)
    (k : Pins) (origin forward : Z) (l : list Move) (m : Move) :
  enPassantMove sliders isEngine b k origin forward = Some l -> In m l ->
  m = mkMove EN_PASSANT origin
        (wrap8 (origin + (if isEngine then forward else - forward)))
        (ownPawn isEngine) (enemyPawn isEngine).
Proof.
  intros H Hin. unfold enPassantMove in H.
  apply bind_Some in H. destruct H as (pin & _ & H).
  destruct (_ && _); [apply Some_inj in H; subst l; contradiction|].
  destruct (negb _); apply Some_inj in H; subst l; [|contradiction].
  destruct Hin as [<-|[]]. reflexivity.
Qed.

(** [uint8_t] arithmetic never turns a step of 7, 8 or 9 squares into a
    distance of 16. *)
Lemma wrap8_step (s d : Z) :
  0 < Z.abs d < 16 ->
  Z.abs (s - wrap8 (s + d)) <> 16 /\ Z.abs (wrap8 (s + d) - s) <> 16.
Proof.
  intros Hd. unfold wrap8. change 0xFF with (Z.ones 8).
  rewrite Z.land_ones by lia. change (2 ^ 8) with 256.
  pose proof (Z.mod_eq (s + d) 256 ltac:(lia)). lia.
Qed.

(** A pawn move of the generator is a step of 7, 8 or 9 squares, a double
    push onto the double-push rank, or an en passant capture. *)
Definition pawnMoveShape (isEngine : bool) (m : Move) : Prop :=
  (type m <> EN_PASSANT
   /\ exists d, 0 < Z.abs d < 16 /\ from m = wrap8 (to m + d))
  \/ (type m = NORMAL
      /\ from m = wrap8 (to m + (if isEngine then -16 else 16))
      /\ 0 <= to m < 64
      /\ Z.testbit (if isEngine then RANK3 else RANK4) (to m) = true)
  \/ (type m = EN_PASSANT
      /\ exists d, 0 < Z.abs d < 16 /\ to m = wrap8 (from m + d)).

Lemma doublePush_rank (isEngine : bool) (singlePush empty blockers s : Z) :
  In s (squaresOf
          (Z.land
             (Z.land (if isEngine then shl64 (Z.land singlePush RANK2) 8
                      else shr64 (Z.land singlePush RANK5) 8)
                     empty)
             blockers)) ->
  0 <= s < 64
  /\ Z.testbit (if isEngine then RANK3 else RANK4) s = true.
Proof.
  intros Hin. apply squaresOf_In in Hin.
  - destruct Hin as [Hs Hb]. split; [exact Hs|].
    rewrite !Z.land_spec in Hb. apply andb_true_iff in Hb.
    destruct Hb as [Hb _]. apply andb_true_iff in Hb. destruct Hb as [Hb _].
    destruct isEngine.
    + rewrite testbit_shl64, Z.land_spec in Hb by lia.
      apply andb_true_iff in Hb. destruct Hb as [Hb _].
      apply andb_true_iff in Hb. destruct Hb as [_ Hb].
      unfold RANK3. rewrite testbit_shl64 by lia. rewrite Hb.
      destruct (Z.ltb_spec s 64); [reflexivity|lia].
    + rewrite testbit_shr64, Z.land_spec in Hb by lia.
      apply andb_true_iff in Hb. destruct Hb as [_ Hb].
      unfold RANK5 in Hb. rewrite testbit_shl64 in Hb by lia.
      apply andb_true_iff in Hb. destruct Hb as [Hb _].
      now replace (s + 8 - 8) with s in Hb by lia.
  - apply land_u64_l, land_u64_l. destruct isEngine.
    + apply shl64_u64.
    + apply shr64_u64; [|lia]. apply land_u64_r. apply wrap64_u64.
Qed.

Lemma generatePawnMoves_In (sliders : Sliders) (isEngine : bool) (b : Board)
    (k : Pins) (l : list Move) (m : Move) :
  generatePawnMoves sliders isEngine b k = Some l -> In m l ->
  moving m = ownPawn isEngine /\ pawnMoveShape isEngine m.
Proof.
  intros H Hin. unfold generatePawnMoves in H. cbv zeta in H.
  apply bind_Some in H. destruct H as (lefts & Hl & H).
  apply bind_Some in H. destruct H as (rights & Hr & H).
  apply bind_Some in H. destruct H as (enPassants & He & H).
  apply Some_inj in H. subst l.
  apply in_app_or in Hin. destruct Hin as [Hin|Hin].
  { apply in_app_or in Hin. destruct Hin as [Hin|Hin].
    - apply pawnSinglePushes_In in Hin.
      destruct Hin as (Ht & Hm & _ & Hf & _).
      split; [exact Hm|]. left. split; [exact Ht|].
      exists (if isEngine then -8 else 8).
      split; [destruct isEngine; lia|exact Hf].
    - apply pawnDoublePushes_In in Hin.
      destruct Hin as (Ht & Hm & _ & Hf & Hs).
      split; [exact Hm|]. right. left.
      apply doublePush_rank in Hs. tauto. }
  apply in_app_or in Hin. destruct Hin as [Hin|Hin].
  { destruct (pawnCaptures_In _ _ _ _ _ _ _ Hl Hin) as (Ht & Hm & _ & Hf & _).
    split; [exact Hm|]. left. split; [exact Ht|].
    exists (if isEngine then -9 else 9).
    split; [destruct isEngine; lia|exact Hf]. }
  apply in_app_or in Hin. destruct Hin as [Hin|Hin].
  { destruct (pawnCaptures_In _ _ _ _ _ _ _ Hr Hin) as (Ht & Hm & _ & Hf & _).
    split; [exact Hm|]. left. split; [exact Ht|].
    exists (if isEngine then -7 else 7).
    split; [destruct isEngine; lia|exact Hf]. }
  destruct (nonzero (enPassantCapture (position b)));
    [|apply Some_inj in He; subst enPassants; contradiction].
  apply bind_Some in He. destruct He as (rightMoves & Hrm & He).
  apply bind_Some in He. destruct He as (leftMoves & Hlm & He).
  apply Some_inj in He. subst enPassants.
  apply in_app_or in Hin. destruct Hin as [Hin|Hin].
  - destruct (nonzero _) in Hrm;
      [|apply Some_inj in Hrm; subst rightMoves; contradiction].
    rewrite (enPassantMove_In _ _ _ _ _ _ _ _ Hrm Hin).
    cbn [type from to moving captured].
    split; [reflexivity|]. right. right. split; [reflexivity|].
    exists (if isEngine then 7 else -7).
    split; [destruct isEngine; lia|reflexivity].
  - destruct (nonzero _) in Hlm;
      [|apply Some_inj in Hlm; subst leftMoves; contradiction].
    rewrite (enPassantMove_In _ _ _ _ _ _ _ _ Hlm Hin).
    cbn [type from to moving captured].
    split; [reflexivity|]. right. right. split; [reflexivity|].
    exists (if isEngine then 9 else -9).
    split; [destruct isEngine; lia|reflexivity].
Qed.

Definition ownKnight (isEngine : bool) : PieceType :=
  if isEngine then ENGINE_KNIGHT else PLAYER_KNIGHT.
Definition ownBishop (isEngine : bool) : PieceType :=
  if isEngine then ENGINE_BISHOP else PLAYER_BISHOP.
Definition ownRook (isEngine : bool) : PieceType :=
  if isEngine then ENGINE_ROOK else PLAYER_ROOK.
Definition ownQueen (isEngine : bool) : PieceType :=
  if isEngine then ENGINE_QUEEN else PLAYER_QUEEN.
Definition ownKing (isEngine : bool) : PieceType :=
  if isEngine then ENGINE_KING else PLAYER_KING.

(** What [pushMoves] gives every move of a piece that is not a pawn. *)
Definition pieceMoveShape (isEngine : bool) (b : Board) (mover : PieceType)
    (m : Move) : Prop :=
  type m = NORMAL /\ moving m = mover
  /\ capturedOn isEngine b (to m) = Some (captured m).

Lemma pushMoves_shape (isEngine : bool) (b : Board) (origin : Z)
    (mover : PieceType) (moves : Z) (l : list Move) (m : Move) :
  pushMoves isEngine b origin mover moves = Some l -> In m l ->
  pieceMoveShape isEngine b mover m.
Proof.
  intros H Hin. destruct (pushMoves_In _ _ _ _ _ _ _ H Hin) as (? & ? & ? & ? & ?).
  unfold pieceMoveShape. auto.
Qed.

Lemma generateKnightMoves_In (isEngine : bool) (b : Board) (k : Pins)
    (l : list Move) (m : Move) :
  generateKnightMoves isEngine b k = Some l -> In m l ->
  pieceMoveShape isEngine b (ownKnight isEngine) m.
Proof.
  intros H Hin. unfold generateKnightMoves in H. cbv zeta in H.
  destruct (concatM_In _ _ _ _ _ _ H Hin) as (s & cs & _ & Hcs & Hm).
  apply bind_Some in Hcs. destruct Hcs as (x & _ & Hcs).
  exact (pushMoves_shape _ _ _ _ _ _ _ Hcs Hm).
Qed.

Lemma generateBishopMoves_In (sliders : Sliders) (isEngine : bool)
    (b : Board) (k : Pins) (l : list Move) (m : Move) :
  generateBishopMoves sliders isEngine b k = Some l -> In m l ->
  pieceMoveShape isEngine b (ownBishop isEngine) m.
Proof.
  intros H Hin. unfold generateBishopMoves in H. cbv zeta in H.
  destruct (concatM_In _ _ _ _ _ _ H Hin) as (s & cs & _ & Hcs & Hm).
  apply bind_Some in Hcs. destruct Hcs as (x & _ & Hcs).
  apply bind_Some in Hcs. destruct Hcs as (y & _ & Hcs).
  exact (pushMoves_shape _ _ _ _ _ _ _ Hcs Hm).
Qed.

Lemma generateRookMoves_In (sliders : Sliders) (isEngine : bool)
    (b : Board) (k : Pins) (l : list Move) (m : Move) :
  generateRookMoves sliders isEngine b k = Some l -> In m l ->
  pieceMoveShape isEngine b (ownRook isEngine) m.
Proof.
  intros H Hin. unfold generateRookMoves in H. cbv zeta in H.
  destruct (concatM_In _ _ _ _ _ _ H Hin) as (s & cs & _ & Hcs & Hm).
  apply bind_Some in Hcs. destruct Hcs as (x & _ & Hcs).
  apply bind_Some in Hcs. destruct Hcs as (y & _ & Hcs).
  exact (pushMoves_shape _ _ _ _ _ _ _ Hcs Hm).
Qed.

Lemma generateQueenMoves_In (sliders : Sliders) (isEngine : bool)
    (b : Board) (k : Pins) (l : list Move) (m : Move) :
  generateQueenMoves sliders isEngine b k = Some l -> In m l ->
  pieceMoveShape isEngine b (ownQueen isEngine) m.
Proof.
  intros H Hin. unfold generateQueenMoves in H. cbv zeta in H.
  destruct (concatM_In _ _ _ _ _ _ H Hin) as (s & cs & _ & Hcs & Hm).
  apply bind_Some in Hcs. destruct Hcs as (x & _ & Hcs).
  apply bind_Some in Hcs. destruct Hcs as (y & _ & Hcs).
  exact (pushMoves_shape _ _ _ _ _ _ _ Hcs Hm).
Qed.

Lemma generateKingMoves_In (sliders : Sliders) (isEngine : bool)
    (b : Board) (l : list Move) (m : Move) :
  generateKingMoves sliders isEngine b = Some l -> In m l ->
  pieceMoveShape isEngine b (ownKing isEngine) m.
Proof.
  intros H Hin. unfold generateKingMoves in H. cbv zeta in H.
  apply bind_Some in H. destruct H as (x1 & _ & H).
  apply bind_Some in H. destruct H as (x2 & _ & H).
  apply bind_Some in H. destruct H as (x3 & _ & H).
  apply bind_Some in H. destruct H as (x4 & _ & H).
  exact (pushMoves_shape _ _ _ _ _ _ _ H Hin).
Qed.

(** Every generated move is a pawn move of one of the three shapes or a
    [NORMAL] move of a knight, king, bishop, rook or queen of the side
    moving. *)
Lemma generateMoves_In (sliders : Sliders) (isEngine : bool) (b : Board)
    (moves : list Move) (m : Move) :
  generateMoves sliders isEngine b = Some moves -> In m moves ->
  (moving m = ownPawn isEngine /\ pawnMoveShape isEngine m)
  \/ exists mover,
       In mover [ownKnight isEngine; ownKing isEngine; ownBishop isEngine;
                 ownRook isEngine; ownQueen isEngine]
       /\ pieceMoveShape isEngine b mover m.
Proof.
  intros H Hin. unfold generateMoves in H.
  apply bind_Some in H. destruct H as (k & _ & H).
  apply bind_Some in H. destruct H as (pawnMoves & Hp & H).
  apply bind_Some in H. destruct H as (knightMoves & Hn & H).
  apply bind_Some in H. destruct H as (kingMoves & Hk & H).
  apply bind_Some in H. destruct H as (bishopMoves & Hb & H).
  apply bind_Some in H. destruct H as (rookMoves & Hr & H).
  apply bind_Some in H. destruct H as (queenMoves & Hq & H).
  apply Some_inj in H. subst moves.
  apply in_app_or in Hin. destruct Hin as [Hin|Hin];
    [left; exact (generatePawnMoves_In _ _ _ _ _ _ Hp Hin)|].
  right.
  apply in_app_or in Hin. destruct Hin as [Hin|Hin];
    [exists (ownKnight isEngine); split;
       [cbn [In]; tauto|exact (generateKnightMoves_In _ _ _ _ _ Hn Hin)]|].
  apply in_app_or in Hin. destruct Hin as [Hin|Hin];
    [exists (ownKing isEngine); split;
       [cbn [In]; tauto|exact (generateKingMoves_In _ _ _ _ _ Hk Hin)]|].
  apply in_app_or in Hin. destruct Hin as [Hin|Hin];
    [exists (ownBishop isEngine); split;
       [cbn [In]; tauto|exact (generateBishopMoves_In _ _ _ _ _ _ Hb Hin)]|].
  apply in_app_or in Hin. destruct Hin as [Hin|Hin];
    [exists (ownRook isEngine); split;
       [cbn [In]; tauto|exact (generateRookMoves_In _ _ _ _ _ _ Hr Hin)]|].
  exists (ownQueen isEngine). split;
    [cbn [In]; tauto|exact (generateQueenMoves_In _ _ _ _ _ _ Hq Hin)].
Qed.

Lemma PieceType_eqb_true (a b : PieceType) :
  PieceType_eqb a b = true -> a = b.
Proof. destruct a, b; cbn; congruence. Qed.

(** A generated move that passes the test of [makeMove] is a double push,
    and it lands on the double-push rank. *)
Lemma marked_double_push (sliders : Sliders) (isEngine : bool) (b : Board)
    (moves : list Move) (move : Move) (p : Position) :
  generateMoves sliders isEngine b = Some moves -> In move moves ->
  marksEnPassant isEngine p move = true ->
  0 <= to move < 64
  /\ Z.testbit (if isEngine then RANK3 else RANK4) (to move) = true.
Proof.
  intros Hgen Hin Hmark. unfold marksEnPassant in Hmark.
  apply andb_true_iff in Hmark. destruct Hmark as [Hmark _].
  apply andb_true_iff in Hmark. destruct Hmark as [Hpawn Habs].
  apply PieceType_eqb_true in Hpawn. apply Z.eqb_eq in Habs.
  destruct (generateMoves_In _ _ _ _ _ Hgen Hin)
    as [[_ Hshape]|(mover & Hmover & _ & Hmoving & _)].
  - destruct Hshape as [(_ & d & Hd & Hfrom)|[(_ & _ & Hto & Hbit)
                                              |(_ & d & Hd & Hto)]].
    + destruct (wrap8_step (to move) d Hd) as [Hne _].
      rewrite <- Hfrom in Hne. contradiction.
    + split; assumption.
    + destruct (wrap8_step (from move) d Hd) as [_ Hne].
      rewrite <- Hto in Hne. contradiction.
  - rewrite Hpawn in Hmoving. subst mover.
    destruct isEngine; cbn [In ownPawn ownKnight ownKing ownBishop ownRook
                              ownQueen] in Hmover;
      repeat (destruct Hmover as [Hmover|Hmover]; [discriminate|]);
      contradiction.
Qed.

(** C8.  [makeMove] overwrites [enPassantCapture]: after the call it is the
    single-bit board of the destination when the move is a double push of
    a pawn of the side moving with a pawn of the other side next to the
    destination on the double-push rank, and 0 otherwise.  Hence, for every
    move the generator produces for the side moving, [enPassantCapture]
    has at most one bit set after [makeMove], and when it is not 0 it lies
    on [RANK3] after an engine move and on [RANK4] after a player move. *)
Theorem makeMove_enPassantCapture (sliders : Sliders) (isEngine : bool)
    (b : Board) (moves : list Move) (move : Move) :
  generateMoves sliders isEngine b = Some moves -> In move moves ->
  let after := position (makeMove isEngine b move) in
  enPassantCapture after
  = (if marksEnPassant isEngine after move then boardOf (to move) else 0)
  /\ countSetBits (enPassantCapture after) <= 1
  /\ (enPassantCapture after <> 0 ->
      Z.land (enPassantCapture after) (if isEngine then RANK3 else RANK4)
      = enPassantCapture after).
Proof.
  intros Hgen Hin after.
  assert (Hafter : after = movePosition isEngine (position b) move)
    by reflexivity.
  assert (Hep : enPassantCapture after
                = if marksEnPassant isEngine after move
                  then boardOf (to move) else 0).
  { rewrite Hafter. apply movePosition_enPassant. }
  split; [exact Hep|]. rewrite Hep.
  destruct (marksEnPassant isEngine after move) eqn:Hmark.
  - destruct (marked_double_push _ _ _ _ _ _ Hgen Hin Hmark) as [Hto Hbit].
    split; [rewrite countSetBits_boardOf by assumption; lia|].
    intros _. now apply land_boardOf_on.
  - split; [cbn; lia|]. intros H. contradiction.
Qed.

(** The engine, to move, has its king on square 3 and a pawn on its start
    square 11; the player has its king on square 59 and a pawn on square
    28, next to the square 27 the engine pawn reaches by a double push. *)
Definition besideDoublePush : Board :=
  update
    (mkBoard true
       (mkPosition
          [boardOf 28; 0; 0; 0; 0; boardOf 59;
           boardOf 11; 0; 0; 0; 0; boardOf 3]
          false false false false 0)
       0 0 0 0 0 0).

Definition doublePush : Move := mkMove NORMAL 11 27 ENGINE_PAWN NONE.

Lemma besideDoublePush_moves (rand : Z -> Z) (g : MoveGen) :
  newMoveGen rand = Some g ->
  exists moves,
    generateMoves (tableSliders g) true besideDoublePush = Some moves
    /\ existsb (Move_eqb doublePush) moves = true.
Proof.
  intros Hg. rewrite (tableSliders_rays rand g Hg).
  exists_value (generateMoves (raySliders g) true besideDoublePush).
  split; vm_compute; reflexivity.
Qed.

Lemma makeMove_enPassantCapture_witness :
  enPassantCapture (position (makeMove true besideDoublePush doublePush))
  = boardOf 27
  /\ Z.land
       (enPassantCapture (position (makeMove true besideDoublePush doublePush)))
       RANK3
     = enPassantCapture (position (makeMove true besideDoublePush doublePush)).
Proof.
  destruct (besideDoublePush_moves knownRand knownMoveGen knownMoveGen_built)
    as (moves & Hgen & Hin).
  apply existsb_Move_In in Hin.
  destruct (makeMove_enPassantCapture (tableSliders knownMoveGen) true
              besideDoublePush moves doublePush Hgen Hin)
    as (Hep & _ & Hrank).
  split; [vm_compute; reflexivity|].
  apply Hrank. vm_compute. discriminate.
Defined.

(** ** En passant and the scan along the rank (C6) *)

(** The two candidate boards of [generatePawnMoves]: the en passant square
    when a pawn of the side moving, not pinned along a rank or file, stands
    on the en passant rank to its right ([right = true]) or to its left. *)
Definition enPassantCandidate (isEngine : bool) (b : Board) (k : Pins)
    (right : bool) : Z :=
  let p := position b in
  let pawns := if isEngine then piece p ENGINE_PAWN else piece p PLAYER_PAWN in
  let pawns := Z.land pawns (not64 (cardinalPins k)) in
  let pawns := Z.land pawns (if isEngine then RANK4 else RANK3) in
  if right
  then Z.land (Z.land (enPassantCapture p)
                      (if isEngine then shr64 pawns 1 else shl64 pawns 1))
              (blockerSquares k)
  else Z.land (Z.land (enPassantCapture p)
                      (if isEngine then shl64 pawns 1 else shr64 pawns 1))
              (blockerSquares k).

(** The square of the capturing pawn. *)
Definition enPassantOrigin (isEngine : bool) (candidate : Z) (right : bool)
  : Z :=
  if right
  then getLeastSquare (if isEngine then shl64 candidate 1
                       else shr64 candidate 1)
  else getLeastSquare (if isEngine then shr64 candidate 1
                       else shl64 candidate 1).

(** The en passant capture from [origin]. *)
Definition enPassantFrom (isEngine : bool) (origin : Z) (right : bool)
  : Move :=
  let forward := if right then 7 else 9 in
  mkMove EN_PASSANT origin
    (wrap8 (origin + (if isEngine then forward else - forward)))
    (ownPawn isEngine) (enemyPawn isEngine).

Lemma generatePawnMoves_enPassants (sliders : Sliders) (isEngine : bool)
    (b : Board) (k : Pins) (l : list Move) :
  generatePawnMoves sliders isEngine b k = Some l ->
  nonzero (enPassantCapture (position b)) = true ->
  exists others rightMoves leftMoves,
    l = others ++ rightMoves ++ leftMoves
    /\ (forall m, In m others -> type m <> EN_PASSANT)
    /\ (if nonzero (enPassantCandidate isEngine b k true)
        then enPassantMove sliders isEngine b k
               (enPassantOrigin isEngine
                  (enPassantCandidate isEngine b k true) true) 7
        else Some []) = Some rightMoves
    /\ (if nonzero (enPassantCandidate isEngine b k false)
        then enPassantMove sliders isEngine b k
               (enPassantOrigin isEngine
                  (enPassantCandidate isEngine b k false) false) 9
        else Some []) = Some leftMoves.
Proof.
  intros H Hep. unfold generatePawnMoves in H. cbv zeta in H.
  apply bind_Some in H. destruct H as (lefts & Hl & H).
  apply bind_Some in H. destruct H as (rights & Hr & H).
  apply bind_Some in H. destruct H as (enPassants & He & H).
  apply Some_inj in H. rewrite Hep in He.
  apply bind_Some in He. destruct He as (rightMoves & Hrm & He).
  apply bind_Some in He. destruct He as (leftMoves & Hlm & He).
  apply Some_inj in He. subst enPassants.
  eexists _, rightMoves, leftMoves.
  split; [rewrite <- H, !app_assoc; reflexivity|].
  split; [|split; [exact Hrm|exact Hlm]].
  intros m Hin.
  apply in_app_or in Hin. destruct Hin as [Hin|Hin].
  - apply in_app_or in Hin. destruct Hin as [Hin|Hin].
    + apply in_app_or in Hin. destruct Hin as [Hin|Hin].
      * now apply pawnSinglePushes_In in Hin.
      * apply pawnDoublePushes_In in Hin. destruct Hin as [Ht _].
        rewrite Ht. discriminate.
    + now destruct (pawnCaptures_In _ _ _ _ _ _ _ Hl Hin).
  - now destruct (pawnCaptures_In _ _ _ _ _ _ _ Hr Hin).
Qed.

Lemma generateMoves_pawnMoves (sliders : Sliders) (isEngine : bool)
    (b : Board) (k : Pins) (moves : list Move) :
  getPins sliders isEngine b = Some k ->
  generateMoves sliders isEngine b = Some moves ->
  exists pawnMoves,
    generatePawnMoves sliders isEngine b k = Some pawnMoves
    /\ forall m, type m = EN_PASSANT -> In m moves <-> In m pawnMoves.
Proof.
  intros Hk H. unfold generateMoves in H. rewrite Hk in H. cbn [bind] in H.
  apply bind_Some in H. destruct H as (pawnMoves & Hp & H).
  apply bind_Some in H. destruct H as (knightMoves & Hn & H).
  apply bind_Some in H. destruct H as (kingMoves & Hg & H).
  apply bind_Some in H. destruct H as (bishopMoves & Hb & H).
  apply bind_Some in H. destruct H as (rookMoves & Hr & H).
  apply bind_Some in H. destruct H as (queenMoves & Hq & H).
  apply Some_inj in H. subst moves.
  exists pawnMoves. split; [exact Hp|]. intros m Ht.
  split; [|intros Hin; apply in_or_app; now left].
  intros Hin. apply in_app_or in Hin. destruct Hin as [Hin|Hin]; [exact Hin|].
  exfalso.
  assert (Hnormal : type m = NORMAL).
  { apply in_app_or in Hin. destruct Hin as [Hin|Hin];
      [exact (proj1 (generateKnightMoves_In _ _ _ _ _ Hn Hin))|].
    apply in_app_or in Hin. destruct Hin as [Hin|Hin];
      [exact (proj1 (generateKingMoves_In _ _ _ _ _ Hg Hin))|].
    apply in_app_or in Hin. destruct Hin as [Hin|Hin];
      [exact (proj1 (generateBishopMoves_In _ _ _ _ _ _ Hb Hin))|].
    apply in_app_or in Hin. destruct Hin as [Hin|Hin];
      [exact (proj1 (generateRookMoves_In _ _ _ _ _ _ Hr Hin))|].
    exact (proj1 (generateQueenMoves_In _ _ _ _ _ _ Hq Hin)). }
  congruence.
Qed.

Lemma enPassantMove_unpinned (sliders : Sliders) (isEngine : bool)
    (b : Board) (k : Pins) (origin : Z) (right : bool) (pin : Z) :
  nonzero (Z.land (boardOf origin) (ordinalPins k)) = false ->
  enPassantPin sliders isEngine b origin = Some pin ->
  enPassantMove sliders isEngine b k origin (if right then 7 else 9)
  = Some (if negb (countSetBits pin =? 2)
          then [enPassantFrom isEngine origin right] else []).
Proof.
  intros Hfree Hpin. unfold enPassantMove. rewrite Hpin. cbn [bind].
  rewrite Hfree. cbn [andb]. unfold enPassantFrom, enemyPawn.
  now destruct (negb _).
Qed.

Lemma wrap8_7_9 (s : Z) :
  wrap8 (s + 7) <> wrap8 (s + 9) /\ wrap8 (s + - 7) <> wrap8 (s + - 9).
Proof.
  unfold wrap8. change 0xFF with (Z.ones 8).
  rewrite !Z.land_ones by lia. change (2 ^ 8) with 256.
  pose proof (Z.mod_eq (s + 7) 256 ltac:(lia)).
  pose proof (Z.mod_eq (s + 9) 256 ltac:(lia)).
  pose proof (Z.mod_eq (s + - 7) 256 ltac:(lia)).
  pose proof (Z.mod_eq (s + - 9) 256 ltac:(lia)).
  pose proof (Z.mod_pos_bound (s + 7) 256 ltac:(lia)).
  pose proof (Z.mod_pos_bound (s + 9) 256 ltac:(lia)).
  pose proof (Z.mod_pos_bound (s + - 7) 256 ltac:(lia)).
  pose proof (Z.mod_pos_bound (s + - 9) 256 ltac:(lia)).
  lia.
Qed.

(** The capture from one side is never among the moves of the other
    branch. *)
Lemma enPassant_other_branch (sliders : Sliders) (isEngine : bool)
    (b : Board) (k : Pins) (candidate : bool) (origin origin' : Z)
    (right : bool) (l : list Move) :
  (if candidate
   then enPassantMove sliders isEngine b k origin'
          (if negb right then 7 else 9)
   else Some []) = Some l ->
  ~ In (enPassantFrom isEngine origin right) l.
Proof.
  intros H Hin. destruct candidate;
    [|apply Some_inj in H; subst l; contradiction].
  pose proof (enPassantMove_In _ _ _ _ _ _ _ _ H Hin) as Heq.
  unfold enPassantFrom in Heq. injection Heq as Ho Hto. subst origin'.
  destruct (wrap8_7_9 origin) as [Hp Hn].
  destruct isEngine, right; cbn [negb Z.opp] in Hto; congruence.
Qed.

(** The test as the code makes it.  Let [enPassantCapture] be nonzero and
    let a pawn of the side moving stand beside the en passant square (a
    candidate, on either side), not on an ordinal pin.  The en passant
    capture by that pawn is among the generated moves exactly when the
    board [enPassantPin] computes does not have exactly two bits set. *)
Lemma enPassant_generated_iff (sliders : Sliders) (isEngine : bool)
    (b : Board) (k : Pins) (moves : list Move) (right : bool) (pin : Z) :
  getPins sliders isEngine b = Some k ->
  generateMoves sliders isEngine b = Some moves ->
  nonzero (enPassantCapture (position b)) = true ->
  let candidate := enPassantCandidate isEngine b k right in
  let origin := enPassantOrigin isEngine candidate right in
  nonzero candidate = true ->
  nonzero (Z.land (boardOf origin) (ordinalPins k)) = false ->
  enPassantPin sliders isEngine b origin = Some pin ->
  In (enPassantFrom isEngine origin right) moves <-> countSetBits pin <> 2.
Proof.
  intros Hk Hgen Hep candidate origin Hcand Hfree Hpin.
  destruct (generateMoves_pawnMoves _ _ _ _ _ Hk Hgen)
    as (pawnMoves & Hpawn & Hmoves).
  rewrite (Hmoves (enPassantFrom isEngine origin right) eq_refl).
  destruct (generatePawnMoves_enPassants _ _ _ _ _ Hpawn Hep)
    as (others & rightMoves & leftMoves & -> & Hothers & Hrm & Hlm).
  pose proof (enPassantMove_unpinned sliders isEngine b k origin right pin
                Hfree Hpin) as Hmove.
  assert (Hcount : In (enPassantFrom isEngine origin right)
                      (if negb (countSetBits pin =? 2)
                       then [enPassantFrom isEngine origin right] else [])
                   <-> countSetBits pin <> 2).
  { destruct (Z.eqb_spec (countSetBits pin) 2); cbn [negb In]; tauto. }
  rewrite <- Hcount.
  assert (Hno : ~ In (enPassantFrom isEngine origin right) others).
  { intros Hin. now apply (Hothers _ Hin). }
  subst candidate origin. destruct right.
  - rewrite Hcand, Hmove in Hrm. apply Some_inj in Hrm. subst rightMoves.
    pose proof (enPassant_other_branch sliders isEngine b k _
                  (enPassantOrigin isEngine
                     (enPassantCandidate isEngine b k true) true)
                  _ true _ Hlm) as Hleft.
    rewrite !in_app_iff. tauto.
  - rewrite Hcand, Hmove in Hlm. apply Some_inj in Hlm. subst leftMoves.
    pose proof (enPassant_other_branch sliders isEngine b k _
                  (enPassantOrigin isEngine
                     (enPassantCandidate isEngine b k false) false)
                  _ false _ Hrm) as Hright.
    rewrite !in_app_iff. tauto.
Qed.

(** Scenario 5 with the white king moved to h5 (square 32), on the rank of
    the two pawns and the rook. *)
Definition rankPinned : Board :=
  makeMove false
    (update
       (mkBoard false
          (mkPosition
             [boardOf 52; 0; 0; boardOf 39; 0; 0;
              boardOf 35; 0; 0; 0; 0; boardOf 32]
             false false false false 0)
          0 0 0 0 0 0))
    (mkMove NORMAL 52 36 PLAYER_PAWN NONE).

(** What the theorem asks of a board, for the candidate to the left of the
    engine pawn; [count] is the number of hits of the scan. *)
Definition leftCandidateFacts (sliders : Sliders) (b : Board) (count : Z)
  : Prop :=
  exists k moves pin,
    getPins sliders true b = Some k
    /\ generateMoves sliders true b = Some moves
    /\ nonzero (enPassantCapture (position b)) = true
    /\ nonzero (enPassantCandidate true b k false) = true
    /\ nonzero
         (Z.land
            (boardOf (enPassantOrigin true (enPassantCandidate true b k false)
                        false))
            (ordinalPins k)) = false
    /\ enPassantPin sliders true b
         (enPassantOrigin true (enPassantCandidate true b k false) false)
       = Some pin
    /\ countSetBits pin = count
    /\ enPassantFrom true
         (enPassantOrigin true (enPassantCandidate true b k false) false)
         false
       = exd6.

Lemma scenario5_facts (rand : Z -> Z) (g : MoveGen) :
  newMoveGen rand = Some g ->
  leftCandidateFacts (tableSliders g) scenario5 1
  /\ leftCandidateFacts (tableSliders g) rankPinned 2.
Proof.
  intros Hg. rewrite (tableSliders_rays rand g Hg).
  unfold leftCandidateFacts. split.
  - exists_value (getPins (raySliders g) true scenario5).
    exists_value (generateMoves (raySliders g) true scenario5).
    exists_value (enPassantPin (raySliders g) true scenario5 35).
    repeat (split; [vm_compute; reflexivity|]). vm_compute; reflexivity.
  - exists_value (getPins (raySliders g) true rankPinned).
    exists_value (generateMoves (raySliders g) true rankPinned).
    exists_value (enPassantPin (raySliders g) true rankPinned 35).
    repeat (split; [vm_compute; reflexivity|]). vm_compute; reflexivity.
Qed.

Lemma enPassant_generated_examples :
  (exists moves,
     generateMoves (tableSliders knownMoveGen) true scenario5 = Some moves
     /\ In exd6 moves)
  /\ (exists moves,
        generateMoves (tableSliders knownMoveGen) true rankPinned = Some moves
        /\ ~ In exd6 moves).
Proof.
  destruct (scenario5_facts knownRand knownMoveGen knownMoveGen_built)
    as [(k & moves & pin & Hk & Hgen & Hep & Hcand & Hfree & Hpin & Hcount
         & Hmove)
        (k' & moves' & pin' & Hk' & Hgen' & Hep' & Hcand' & Hfree' & Hpin'
         & Hcount' & Hmove')].
  split.
  - exists moves. split; [exact Hgen|]. rewrite <- Hmove.
    apply (enPassant_generated_iff (tableSliders knownMoveGen) true scenario5
             k moves false pin Hk Hgen Hep Hcand Hfree Hpin).
    rewrite Hcount. discriminate.
  - exists moves'. split; [exact Hgen'|]. rewrite <- Hmove'. intros Hin.
    apply (enPassant_generated_iff (tableSliders knownMoveGen) true rankPinned
             k' moves' false pin' Hk' Hgen' Hep' Hcand' Hfree' Hpin') in Hin.
    apply Hin. exact Hcount'.
Qed.

(** ** An en passant capture between two rooks (C6) *)

(** The positions of a game: the board the constructor sets up, and every
    board [makeMove] leaves after a move the generator produced for the
    side to move. *)
Inductive reachable (sliders : Sliders) : Board -> Prop :=
| reachable_start : reachable sliders newBoard
| reachable_move (b : Board) (moves : list Move) (m : Move) :
    reachable sliders b ->
    generateMoves sliders (engineToMove b) b = Some moves ->
    In m moves ->
    reachable sliders (makeMove (engineToMove b) b m).

(** The board after the moves of [game], made in turn. *)
Definition playMoves (b : Board) (game : list Move) : Board :=
  fold_left (fun b m => makeMove (engineToMove b) b m) game b.

(** Every move of [game] is among the moves generated for the side to move
    on the board it is made on. *)
Fixpoint generatedGame (sliders : Sliders) (b : Board) (game : list Move)
  : bool :=
  match game with
  | [] => true
  | m :: rest =>
      match generateMoves sliders (engineToMove b) b with
      | Some moves =>
          existsb (Move_eqb m) moves
          && generatedGame sliders (makeMove (engineToMove b) b m) rest
      | None => false
      end
  end.

Lemma generatedGame_reachable (sliders : Sliders) (game : list Move) :
  forall b, reachable sliders b -> generatedGame sliders b game = true ->
            reachable sliders (playMoves b game).
Proof.
  induction game as [|m rest IH]; intros b Hb H; [exact Hb|].
  cbn [generatedGame] in H.
  destruct (generateMoves sliders (engineToMove b) b) as [moves|] eqn:Hgen;
    [|discriminate].
  apply andb_true_iff in H. destruct H as [Hin Hrest].
  apply existsb_Move_In in Hin.
  change (playMoves b (m :: rest))
    with (playMoves (makeMove (engineToMove b) b m) rest).
  apply IH; [|exact Hrest].
  exact (reachable_move sliders b moves m Hb Hgen Hin).
Qed.

(** 1. e4 a5 2. e5 Ra6 3. Nf3 Rc6 4. Ng1 Rc5 5. Nf3 h5 6. Ng1 Rh6 7. Nf3 Rg6
    8. Ng1 Rg5 9. Nf3 d5: white (the engine) has a pawn on e5 (square 35)
    and its king on e1 (square 3); black has rooks on c5 (square 37) and
    g5 (square 33) and has just double-pushed d7 to d5 (square 36). *)
Definition rooksGame : list Move :=
  [mkMove NORMAL 11 27 ENGINE_PAWN NONE; mkMove NORMAL 55 39 PLAYER_PAWN NONE;
   mkMove NORMAL 27 35 ENGINE_PAWN NONE; mkMove NORMAL 63 47 PLAYER_ROOK NONE;
   mkMove NORMAL 1 18 ENGINE_KNIGHT NONE; mkMove NORMAL 47 45 PLAYER_ROOK NONE;
   mkMove NORMAL 18 1 ENGINE_KNIGHT NONE; mkMove NORMAL 45 37 PLAYER_ROOK NONE;
   mkMove NORMAL 1 18 ENGINE_KNIGHT NONE; mkMove NORMAL 48 32 PLAYER_PAWN NONE;
   mkMove NORMAL 18 1 ENGINE_KNIGHT NONE; mkMove NORMAL 56 40 PLAYER_ROOK NONE;
   mkMove NORMAL 1 18 ENGINE_KNIGHT NONE; mkMove NORMAL 40 41 PLAYER_ROOK NONE;
   mkMove NORMAL 18 1 ENGINE_KNIGHT NONE; mkMove NORMAL 41 33 PLAYER_ROOK NONE;
   mkMove NORMAL 1 18 ENGINE_KNIGHT NONE; mkMove NORMAL 52 36 PLAYER_PAWN NONE].

Definition betweenRooks : Board := playMoves newBoard rooksGame.

(** The pin the scan is meant to find, in the words of the specification:
    among the hits of the scan are the king of the side moving and a rook
    or queen of the other side.  The scan stops at the first piece on
    either side, so the two then stand on opposite sides of the pawn. *)
Definition kingFacesSlider (isEngine : bool) (p : Position) (pin : Z)
  : bool :=
  nonzero (Z.land pin (piece p (ownKing isEngine)))
  && nonzero (Z.land pin
                (Z.lor (piece p (if isEngine then PLAYER_QUEEN
                                 else ENGINE_QUEEN))
                       (piece p (if isEngine then PLAYER_ROOK
                                 else ENGINE_ROOK)))).

Lemma betweenRooks_position :
  engineToMove betweenRooks = true
  /\ enPassantCapture (position betweenRooks) = boardOf 36
  /\ Z.testbit (piece (position betweenRooks) PLAYER_PAWN) 36 = true
  /\ Z.testbit (piece (position betweenRooks) ENGINE_PAWN) 35 = true
  /\ Z.testbit (emptySquares betweenRooks) 44 = true
  /\ piece (position betweenRooks) PLAYER_ROOK
     = Z.lor (boardOf 33) (boardOf 37)
  /\ piece (position betweenRooks) ENGINE_KING = boardOf 3.
Proof. vm_compute. repeat split. Qed.

Lemma betweenRooks_generation (rand : Z -> Z) (g : MoveGen) :
  newMoveGen rand = Some g ->
  generatedGame (tableSliders g) newBoard rooksGame = true
  /\ exists k pin moves,
       getPins (tableSliders g) true betweenRooks = Some k
       /\ blockerSquares k = not64 0
       /\ cardinalPins k = 0 /\ ordinalPins k = 0
       /\ enPassantCandidate true betweenRooks k false = boardOf 36
       /\ enPassantOrigin true (boardOf 36) false = 35
       /\ enPassantPin (tableSliders g) true betweenRooks 35 = Some pin
       /\ pin = Z.lor (boardOf 33) (boardOf 37)
       /\ kingFacesSlider true (position betweenRooks) pin = false
       /\ countSetBits pin = 2
       /\ generateEngineMoves (tableSliders g) betweenRooks = Some moves
       /\ forallb (fun m => negb (moveTypeIndex (type m) =? 4)) moves = true
       /\ isKingInCheck (tableSliders g) (makeMove true betweenRooks exd6)
            true = Some false.
Proof.
  intros Hg. rewrite (tableSliders_rays rand g Hg).
  split; [vm_compute; reflexivity|].
  exists_value (getPins (raySliders g) true betweenRooks).
  exists_value (enPassantPin (raySliders g) true betweenRooks 35).
  exists_value (generateEngineMoves (raySliders g) betweenRooks).
  repeat (split; [vm_compute; reflexivity|]). vm_compute; reflexivity.
Qed.

(** C6, where the code parts from it.  After 1. e4 a5 2. e5 Ra6 3. Nf3 Rc6
    4. Ng1 Rc5 5. Nf3 h5 6. Ng1 Rh6 7. Nf3 Rg6 8. Ng1 Rg5 9. Nf3 d5, a
    position of a game, white is to move and [enPassantCapture] marks d5.
    The pawn on e5 is a candidate for the capture exd6: it stands beside
    d5, d6 is empty, the king is not in check and nothing is pinned.  The
    scan along the rank from e5, with the pawn on d5 lifted, meets the
    rook on c5 on one side and the rook on g5 on the other, and not the
    white king, which stands on e1: there is no pin.  But the scan has two
    hits, so [generatePawnMoves] leaves exd6 out: no en passant capture is
    among the moves generated for white, although the white king is not in
    check after exd6. *)
Theorem enPassant_between_rooks (rand : Z -> Z) (g : MoveGen) :
  newMoveGen rand = Some g ->
  reachable (tableSliders g) betweenRooks
  /\ engineToMove betweenRooks = true
  /\ enPassantCapture (position betweenRooks) = boardOf 36
  /\ Z.testbit (piece (position betweenRooks) PLAYER_PAWN) 36 = true
  /\ Z.testbit (piece (position betweenRooks) ENGINE_PAWN) 35 = true
  /\ Z.testbit (emptySquares betweenRooks) 44 = true
  /\ piece (position betweenRooks) PLAYER_ROOK
     = Z.lor (boardOf 33) (boardOf 37)
  /\ piece (position betweenRooks) ENGINE_KING = boardOf 3
  /\ exists k pin moves,
       getPins (tableSliders g) true betweenRooks = Some k
       /\ blockerSquares k = not64 0
       /\ cardinalPins k = 0 /\ ordinalPins k = 0
       /\ enPassantCandidate true betweenRooks k false = boardOf 36
       /\ enPassantOrigin true (boardOf 36) false = 35
       /\ enPassantPin (tableSliders g) true betweenRooks 35 = Some pin
       /\ pin = Z.lor (boardOf 33) (boardOf 37)
       /\ kingFacesSlider true (position betweenRooks) pin = false
       /\ countSetBits pin = 2
       /\ generateEngineMoves (tableSliders g) betweenRooks = Some moves
       /\ (forall m, In m moves -> type m <> EN_PASSANT)
       /\ ~ In exd6 moves
       /\ isKingInCheck (tableSliders g) (makeMove true betweenRooks exd6)
            true = Some false.
Proof.
  intros Hg.
  destruct (betweenRooks_generation rand g Hg)
    as (Hgame & k & pin & moves & Hk & Hblock & Hcard & Hord & Hcand
        & Horigin & Hpin & Hhits & Hfaces & Hcount & Hgen & Hnone & Hlegal).
  destruct betweenRooks_position
    as (Hturn & Hep & Hblack & Hwhite & Hempty & Hrooks & Hking).
  assert (Hno : forall m, In m moves -> type m <> EN_PASSANT).
  { intros m Hin Hty.
    pose proof (proj1 (forallb_forall _ _) Hnone m Hin) as Hm.
    cbv beta in Hm. rewrite Hty in Hm. discriminate Hm. }
  split.
  { unfold betweenRooks.
    exact (generatedGame_reachable (tableSliders g) rooksGame newBoard
             (reachable_start _) Hgame). }
  split; [exact Hturn|]. split; [exact Hep|]. split; [exact Hblack|].
  split; [exact Hwhite|]. split; [exact Hempty|]. split; [exact Hrooks|].
  split; [exact Hking|].
  exists k, pin, moves.
  split; [exact Hk|]. split; [exact Hblock|]. split; [exact Hcard|].
  split; [exact Hord|]. split; [exact Hcand|]. split; [exact Horigin|].
  split; [exact Hpin|]. split; [exact Hhits|]. split; [exact Hfaces|].
  split; [exact Hcount|]. split; [exact Hgen|]. split; [exact Hno|].
  split; [|exact Hlegal]. intros Hin. exact (Hno exd6 Hin eq_refl).
Qed.

Lemma enPassant_between_rooks_witness :
  reachable (tableSliders knownMoveGen) betweenRooks
  /\ exists moves,
       generateEngineMoves (tableSliders knownMoveGen) betweenRooks
       = Some moves
       /\ ~ In exd6 moves
       /\ isKingInCheck (tableSliders knownMoveGen)
            (makeMove true betweenRooks exd6) true = Some false.
Proof.
  destruct (enPassant_between_rooks knownRand knownMoveGen knownMoveGen_built)
    as (Hreach & _ & _ & _ & _ & _ & _ & _ & k & pin & moves & _ & _ & _ & _
        & _ & _ & _ & _ & _ & _ & Hgen & _ & Hnot & Hlegal).
  split; [exact Hreach|]. exists moves.
  split; [exact Hgen|]. split; [exact Hnot|exact Hlegal].
Defined.

(** * Further properties of the code *)

(** ** Sliding attacks do not depend on the squares the masks leave out *)

Lemma rayLoop_outside (fuel : nat) (inside : Z -> Z -> bool)
    (dRow dCol row col blk : Z) (captures : bool) (attacks : Z) :
  inside row col = false ->
  rayLoop fuel inside dRow dCol row col blk captures attacks = attacks.
Proof. intros H. destruct fuel; cbn [rayLoop]; [|rewrite H]; reflexivity. Qed.

(** Two blocker boards that agree on every square of a ray but the last
    give the same attacks along it. *)
Lemma rayLoop_agree (inside : Z -> Z -> bool) (dRow dCol blk blk' : Z)
    (fuel : nat) (row col attacks : Z) :
  (forall i : nat, (i < fuel)%nat ->
     let r := row + Z.of_nat i * dRow in
     let c := col + Z.of_nat i * dCol in
     inside r c = true -> inside (r + dRow) (c + dCol) = true ->
     nonzero (Z.land (boardOf (r * 8 + c)) blk)
     = nonzero (Z.land (boardOf (r * 8 + c)) blk')) ->
  rayLoop fuel inside dRow dCol row col blk true attacks
  = rayLoop fuel inside dRow dCol row col blk' true attacks.
Proof.
  revert row col attacks.
  induction fuel as [|fuel IH]; intros row col attacks H; [reflexivity|].
  cbn [rayLoop]. destruct (inside row col) eqn:Hin; [|reflexivity].
  destruct (inside (row + dRow) (col + dCol)) eqn:Hnext.
  - pose proof (H O ltac:(lia)) as H0. cbv zeta in H0.
    rewrite !Z.mul_0_l, !Z.add_0_r in H0. rewrite (H0 Hin Hnext).
    clear H0. destruct (nonzero (Z.land _ blk')); [reflexivity|]. apply IH.
    intros i Hi r c Hr Hc.
    pose proof (H (S i) ltac:(lia)) as HS. cbv zeta in HS.
    replace (row + Z.of_nat (S i) * dRow) with r in HS by (subst r; lia).
    replace (col + Z.of_nat (S i) * dCol) with c in HS by (subst c; lia).
    exact (HS Hr Hc).
  - rewrite !(rayLoop_outside fuel inside dRow dCol _ _ _ true _ Hnext).
    rewrite <- !Z.lor_assoc, Z.lor_diag.
    now destruct (nonzero _), (nonzero _).
Qed.

(** Whether [mask] holds every square of the ray from [(row, col)] that has
    a further square of the ray behind it. *)
Definition rayCovered (inside : Z -> Z -> bool) (dRow dCol row col mask : Z)
  : bool :=
  forallb (fun i : nat =>
             let r := row + Z.of_nat i * dRow in
             let c := col + Z.of_nat i * dCol in
             implb (inside r c && inside (r + dRow) (c + dCol))
                   (onBoard (r * 8 + c) && Z.testbit mask (r * 8 + c)))
          (seq 0 8).

Lemma rayLoop_masked (inside : Z -> Z -> bool) (dRow dCol row col mask : Z)
    (o attacks : Z) :
  rayCovered inside dRow dCol row col mask = true ->
  rayLoop 8 inside dRow dCol row col (Z.land o mask) true attacks
  = rayLoop 8 inside dRow dCol row col o true attacks.
Proof.
  intros Hcov. apply rayLoop_agree. intros i Hi r c Hr Hc.
  unfold rayCovered in Hcov. rewrite forallb_forall in Hcov.
  specialize (Hcov i). cbv zeta in Hcov. fold r c in Hcov.
  rewrite Hr, Hc in Hcov. cbn [andb implb] in Hcov.
  assert (Hin : In i (seq 0 8)) by (apply in_seq; lia).
  specialize (Hcov Hin). apply andb_true_iff in Hcov.
  destruct Hcov as [Hon Hbit]. apply onBoard_true in Hon.
  rewrite !nonzero_land_boardOf_l by assumption.
  now rewrite Z.land_spec, Hbit, andb_true_r.
Qed.

Definition rookRaysCovered (s : Z) : bool :=
  let mask := getRookBlockers s in
  rayCovered (fun row _ => 0 <=? row) (-1) 0 (s / 8 - 1) (s mod 8) mask
  && rayCovered (fun _ col => col <? 8) 0 1 (s / 8) (s mod 8 + 1) mask
  && rayCovered (fun row _ => row <? 8) 1 0 (s / 8 + 1) (s mod 8) mask
  && rayCovered (fun _ col => 0 <=? col) 0 (-1) (s / 8) (s mod 8 - 1) mask.

Definition bishopRaysCovered (s : Z) : bool :=
  let mask := getBishopBlockers s in
  rayCovered isOnBoard (-1) 1 (s / 8 - 1) (s mod 8 + 1) mask
  && rayCovered isOnBoard 1 1 (s / 8 + 1) (s mod 8 + 1) mask
  && rayCovered isOnBoard 1 (-1) (s / 8 + 1) (s mod 8 - 1) mask
  && rayCovered isOnBoard (-1) (-1) (s / 8 - 1) (s mod 8 - 1) mask.

Lemma masks_cover_rays :
  forallb (fun n : nat =>
             rookRaysCovered (Z.of_nat n) && bishopRaysCovered (Z.of_nat n))
          (seq 0 64) = true.
Proof. vm_compute. reflexivity. Qed.

Lemma mask_covers_rays (s : Z) :
  0 <= s < 64 -> rookRaysCovered s = true /\ bishopRaysCovered s = true.
Proof.
  intros Hs. pose proof masks_cover_rays as H.
  rewrite forallb_forall in H. specialize (H (Z.to_nat s)).
  rewrite Z2Nat.id in H by lia. apply andb_true_iff. apply H.
  apply in_seq. lia.
Qed.

Lemma getRookAttacks_masked (s o : Z) :
  0 <= s < 64 ->
  getRookAttacks s (Z.land o (getRookBlockers s)) true
  = getRookAttacks s o true.
Proof.
  intros Hs. destruct (mask_covers_rays s Hs) as [H _].
  unfold rookRaysCovered in H. cbv zeta in H.
  apply andb_true_iff in H. destruct H as [H H4].
  apply andb_true_iff in H. destruct H as [H H3].
  apply andb_true_iff in H. destruct H as [H1 H2].
  unfold getRookAttacks. cbv zeta.
  now rewrite (rayLoop_masked _ _ _ _ _ _ _ _ H1),
    (rayLoop_masked _ _ _ _ _ _ _ _ H2), (rayLoop_masked _ _ _ _ _ _ _ _ H3),
    (rayLoop_masked _ _ _ _ _ _ _ _ H4).
Qed.

Lemma getBishopAttacks_masked (s o : Z) :
  0 <= s < 64 ->
  getBishopAttacks s (Z.land o (getBishopBlockers s)) true
  = getBishopAttacks s o true.
Proof.
  intros Hs. destruct (mask_covers_rays s Hs) as [_ H].
  unfold bishopRaysCovered in H. cbv zeta in H.
  apply andb_true_iff in H. destruct H as [H H4].
  apply andb_true_iff in H. destruct H as [H H3].
  apply andb_true_iff in H. destruct H as [H1 H2].
  unfold getBishopAttacks. cbv zeta.
  now rewrite (rayLoop_masked _ _ _ _ _ _ _ _ H1),
    (rayLoop_masked _ _ _ _ _ _ _ _ H2), (rayLoop_masked _ _ _ _ _ _ _ _ H3),
    (rayLoop_masked _ _ _ _ _ _ _ _ H4).
Qed.

(** With the tables the constructor builds, reading the attack table with
    the occupancy cut to the blocker mask gives the rook (bishop) attacks
    for the whole occupancy: the squares the mask leaves out never change
    them. *)
Theorem table_lookup_full_occupancy (rand : Z -> Z) (g : MoveGen) (s o : Z) :
  newMoveGen rand = Some g -> 0 <= s < 64 ->
  exists cm om,
    cardinalMask (tableSliders g) s = Some cm
    /\ ordinalMask (tableSliders g) s = Some om
    /\ cardinalLookup (tableSliders g) s (Z.land o cm)
       = Some (getRookAttacks s o true)
    /\ ordinalLookup (tableSliders g) s (Z.land o om)
       = Some (getBishopAttacks s o true).
Proof.
  intros Hg Hs. rewrite (tableSliders_rays rand g Hg).
  assert (Hon : onBoard s = true).
  { unfold onBoard. apply andb_true_iff. split; [apply Z.leb_le|apply Z.ltb_lt];
      lia. }
  exists (getRookBlockers s), (getBishopBlockers s).
  cbn [cardinalMask ordinalMask cardinalLookup ordinalLookup raySliders].
  rewrite Hon. split; [reflexivity|]. split; [reflexivity|].
  rewrite <- !Z.land_assoc, !Z.land_diag, !Z.eqb_refl.
  rewrite getRookAttacks_masked, getBishopAttacks_masked by assumption.
  split; reflexivity.
Qed.

Lemma table_lookup_full_occupancy_witness :
  exists cm om,
    cardinalMask (tableSliders knownMoveGen) 27 = Some cm
    /\ ordinalMask (tableSliders knownMoveGen) 27 = Some om
    /\ cardinalLookup (tableSliders knownMoveGen) 27 (Z.land FILLED_BOARD cm)
       = Some (getRookAttacks 27 FILLED_BOARD true)
    /\ ordinalLookup (tableSliders knownMoveGen) 27 (Z.land FILLED_BOARD om)
       = Some (getBishopAttacks 27 FILLED_BOARD true).
Proof.
  assert (H : 0 <= 27 < 64) by lia.
  exact (table_lookup_full_occupancy knownRand knownMoveGen 27 FILLED_BOARD
           knownMoveGen_built H).
Defined.

(** ** Bitboards.h: the loops that pop the lowest bit *)

Lemma popSquares_complete (fuel : nat) (x s : Z) :
  u64 x -> countSetBits x <= Z.of_nat fuel -> 0 <= s ->
  Z.testbit x s = true -> In s (popSquares fuel x).
Proof.
  revert x. induction fuel as [|fuel IH]; intros x Hx Hc Hs Hb.
  - assert (x = 0) as ->.
    { apply countSetBits_zero; [apply Hx|].
      pose proof (countSetBits_nonneg x). lia. }
    rewrite Z.testbit_0_l in Hb. discriminate.
  - cbn [popSquares]. destruct (Z.eqb_spec x 0) as [->|Hne].
    { rewrite Z.testbit_0_l in Hb. discriminate. }
    rewrite popLeastSquare_eq.
    destruct (Z.eq_dec s (tzcnt64 x)) as [->|Hd]; [now left|right].
    pose proof (countSetBits_clearLeast x Hx Hne).
    apply IH; [now apply clearLeast_u64|lia|exact Hs|].
    rewrite testbit_clearLeast, Hb by assumption.
    destruct (Z.eqb_spec s (tzcnt64 x)); [contradiction|reflexivity].
Qed.

Lemma popSquares_sorted (fuel : nat) (x : Z) :
  u64 x -> StronglySorted Z.lt (popSquares fuel x).
Proof.
  revert x. induction fuel as [|fuel IH]; intros x Hx; cbn [popSquares];
    [constructor|].
  destruct (Z.eqb_spec x 0) as [|Hne]; [constructor|].
  rewrite popLeastSquare_eq. constructor.
  - apply IH. now apply clearLeast_u64.
  - apply Forall_forall. intros s Hin.
    destruct (popSquares_In _ _ _ (clearLeast_u64 x Hx) Hin) as [Hs Hb].
    rewrite testbit_clearLeast in Hb by (assumption || lia).
    apply andb_true_iff in Hb. destruct Hb as [Hb Hd].
    destruct (Z.eqb_spec s (tzcnt64 x)); [discriminate|].
    destruct (Z.lt_ge_cases s (tzcnt64 x)) as [Hlt|]; [|lia].
    rewrite (tzcnt64_below x s) in Hb; [discriminate|now apply u64_pos|lia].
Qed.

Lemma popSquares_length (fuel : nat) (x : Z) :
  u64 x -> countSetBits x <= Z.of_nat fuel ->
  Z.of_nat (length (popSquares fuel x)) = countSetBits x.
Proof.
  revert x. induction fuel as [|fuel IH]; intros x Hx Hc.
  - assert (x = 0) as ->.
    { apply countSetBits_zero; [apply Hx|].
      pose proof (countSetBits_nonneg x). lia. }
    reflexivity.
  - cbn [popSquares]. destruct (Z.eqb_spec x 0) as [->|Hne]; [reflexivity|].
    rewrite popLeastSquare_eq. cbn [length].
    pose proof (countSetBits_clearLeast x Hx Hne).
    rewrite Nat2Z.inj_succ, IH; [lia|now apply clearLeast_u64|lia].
Qed.

(** The loop [while (board) { square = popLeastSquare(board); ... }] visits
    exactly the squares whose bit is set, each once, lowest first; their
    number is [countSetBits(board)]. *)
Theorem squaresOf_spec (board : Z) :
  u64 board ->
  (forall s, In s (squaresOf board)
             <-> 0 <= s < 64 /\ Z.testbit board s = true)
  /\ StronglySorted Z.lt (squaresOf board)
  /\ Z.of_nat (length (squaresOf board)) = countSetBits board.
Proof.
  intros Hb. pose proof (countSetBits_le_64 board Hb) as H64.
  assert (Hfuel : countSetBits board <= Z.of_nat 64)
    by (change (Z.of_nat 64) with 64; lia).
  split; [|split].
  - intros s. split; [now apply squaresOf_In|].
    intros [Hs Hbit]. apply popSquares_complete; assumption || lia.
  - now apply popSquares_sorted.
  - now apply popSquares_length.
Qed.

Lemma squaresOf_spec_witness :
  (forall s, In s (squaresOf RANK1) <-> 0 <= s < 64 /\ Z.testbit RANK1 s = true)
  /\ StronglySorted Z.lt (squaresOf RANK1)
  /\ Z.of_nat (length (squaresOf RANK1)) = countSetBits RANK1.
Proof.
  apply (squaresOf_spec RANK1). unfold RANK1. apply shl64_u64.
Defined.

(** [popLeastBitboard] and [popLeastSquare] take the same bit off a nonzero
    board: the lowest one set.  The board returned by the first is the
    single-bit board of the square returned by the second, no lower bit of
    the board is set, and the board left behind has that bit cleared and
    one bit fewer. *)
Theorem popLeast_spec (board : Z) :
  u64 board -> board <> 0 ->
  let '(square, rest) := popLeastSquare board in
  popLeastBitboard board = (boardOf square, rest)
  /\ 0 <= square < 64
  /\ Z.testbit board square = true
  /\ (forall i, 0 <= i < square -> Z.testbit board i = false)
  /\ (forall i, 0 <= i ->
      Z.testbit rest i = Z.testbit board i && negb (i =? square))
  /\ countSetBits rest = countSetBits board - 1.
Proof.
  intros Hb Hne. rewrite popLeastSquare_eq.
  split; [now apply popLeastBitboard_eq|].
  split; [now apply tzcnt64_range|].
  split; [apply tzcnt64_testbit; now apply u64_pos|].
  split; [intros i Hi; apply tzcnt64_below; [now apply u64_pos|exact Hi]|].
  split; [intros i Hi; now apply testbit_clearLeast|].
  pose proof (countSetBits_clearLeast board Hb Hne). lia.
Qed.

Lemma popLeast_spec_witness :
  popLeastBitboard 40 = (boardOf 3, 32)
  /\ countSetBits 32 = countSetBits 40 - 1.
Proof.
  assert (Hu : u64 40) by (unfold u64; lia).
  assert (Hne : 40 <> 0) by lia.
  pose proof (popLeast_spec 40 Hu Hne) as H.
  change (popLeastSquare 40) with (3, 32) in H.
  destruct H as (H1 & _ & _ & _ & _ & H2). split; assumption.
Defined.

(** ** getSortedMoves keeps every generated move *)

Section SortedMoves.

Variable pieceValuePastEnd : Z.

Lemma pickBest_index (moves : list Move) (index : nat) (score bestScore : Z)
    (bestMoveIndex : nat) :
  pickBest pieceValuePastEnd moves index score bestScore bestMoveIndex
  = bestMoveIndex
  \/ (index
      <= pickBest pieceValuePastEnd moves index score bestScore bestMoveIndex
      < index + length moves)%nat.
Proof.
  revert index score bestScore bestMoveIndex.
  induction moves as [|m rest IH]; intros index score bestScore bestMoveIndex;
    cbn [pickBest length]; [now left|].
  destruct (_ >? bestScore).
  - right.
    destruct (IH (S index) (moveScore pieceValuePastEnd m score)
                (moveScore pieceValuePastEnd m score) index) as [->|H]; lia.
  - destruct (IH (S index) (moveScore pieceValuePastEnd m score) bestScore
                bestMoveIndex) as [H|H]; [now left|right; lia].
Qed.

Lemma erase_nth (index : nat) (l : list Move) (d : Move) :
  (index < length l)%nat -> Permutation (nth index l d :: erase index l) l.
Proof.
  revert index. induction l as [|x l IH]; intros index H; cbn [length] in H;
    [lia|].
  destruct index as [|index]; cbn [nth erase]; [reflexivity|].
  rewrite perm_swap. apply perm_skip. apply IH. lia.
Qed.

Lemma erase_length (index : nat) (l : list Move) :
  (index < length l)%nat -> length (erase index l) = pred (length l).
Proof.
  revert index. induction l as [|x l IH]; intros index H; cbn [length] in H;
    [lia|].
  destruct index as [|index]; cbn [erase length]; [reflexivity|].
  rewrite IH by lia. destruct l; cbn [length] in *; lia.
Qed.

Lemma sortLoop_spec (fuel : nat) (generated sorted : list Move) :
  Permutation
    (fst (sortLoop pieceValuePastEnd fuel generated sorted)
     ++ snd (sortLoop pieceValuePastEnd fuel generated sorted))
    (sorted ++ generated)
  /\ ((length generated <= fuel)%nat ->
      snd (sortLoop pieceValuePastEnd fuel generated sorted) = []).
Proof.
  revert generated sorted.
  induction fuel as [|fuel IH]; intros generated sorted; cbn [sortLoop].
  - cbn [fst snd]. split; [reflexivity|].
    destruct generated; cbn [length]; [reflexivity|lia].
  - destruct generated as [|first rest] eqn:Hg.
    { cbn [fst snd]. split; reflexivity. }
    rewrite <- Hg.
    set (i := pickBest pieceValuePastEnd generated 0 0 (-1) 0).
    assert (Hi : (i < length generated)%nat).
    { destruct (pickBest_index generated 0 0 (-1) 0) as [H|H]; fold i in H;
        [rewrite H, Hg; cbn [length]; lia|lia]. }
    destruct (IH (erase i generated) (sorted ++ [nth i generated first]))
      as [Hperm Hdrain].
    split.
    + rewrite Hperm, <- app_assoc. apply Permutation_app_head.
      cbn [app]. now apply erase_nth.
    + intros Hlen. apply Hdrain. rewrite erase_length by exact Hi. lia.
Qed.

Lemma sortedMoves_perm (generated : list Move) :
  Permutation (fst (getSortedMoves pieceValuePastEnd generated)) generated
  /\ snd (getSortedMoves pieceValuePastEnd generated) = [].
Proof.
  unfold getSortedMoves.
  destruct (sortLoop_spec (length generated) generated []) as [Hperm Hdrain].
  destruct (sortLoop pieceValuePastEnd (length generated) generated [])
    as [sorted left'] eqn:Hs.
  cbn [fst snd] in *. specialize (Hdrain (Nat.le_refl _)). subst left'.
  split; [|reflexivity].
  rewrite app_nil_r in Hperm. rewrite <- Hperm. symmetry. apply Permutation_rev.
Qed.

(** [getSortedMoves] returns the generated moves in some order, none lost
    and none repeated, and leaves [generated] empty. *)
Theorem getSortedMoves_permutation (generated : list Move) :
  Permutation (fst (getSortedMoves pieceValuePastEnd generated)) generated
  /\ length (fst (getSortedMoves pieceValuePastEnd generated))
     = length generated
  /\ snd (getSortedMoves pieceValuePastEnd generated) = [].
Proof.
  destruct (sortedMoves_perm generated) as [Hperm Hempty].
  split; [exact Hperm|]. split; [|exact Hempty].
  apply Permutation_length. exact Hperm.
Qed.

End SortedMoves.

(** ** The search leaves the position as it found it *)

Lemma unmakeMove_restores (b0 b bc : Board) (m : Move) (isEngine : bool) :
  restores b0 b -> restores (makeMove isEngine b0 m) bc ->
  restores b0 (unmakeMove bc (position b)).
Proof.
  intros [Hbp Hbe] [_ Hce]. split; [exact Hbp|].
  unfold unmakeMove, flipEngineToMove, setPosition. cbn [engineToMove].
  rewrite Hce, makeMove_engineToMove. apply negb_involutive.
Qed.

Lemma maximizeLoop_restores
    (child : Board -> Z -> Z -> option (Z * Board))
    (moves : list Move) (b0 : Board) :
  (forall m a be s bc,
     In m moves -> child (makeMove true b0 m) a be = Some (s, bc) ->
     restores (makeMove true b0 m) bc) ->
  forall b best alpha beta score b',
    restores b0 b ->
    maximizeLoop child moves b best alpha beta = Some (score, b') ->
    restores b0 b'.
Proof.
  induction moves as [|m rest IH]; intros Hchild b best alpha beta score b'
    Hb H; cbn [maximizeLoop] in H.
  - apply Some_pair in H. destruct H as [_ <-]. exact Hb.
  - pose proof Hb as [Hbp Hbe].
    rewrite (makeMove_ext true b b0 m Hbp Hbe) in H.
    apply bind_Some in H. destruct H as ([s bc] & Hc & H).
    pose proof (Hchild m alpha beta s bc (or_introl eq_refl) Hc) as Hr.
    pose proof (unmakeMove_restores b0 b bc m true Hb Hr) as Hun.
    destruct (beta <=? _) in H.
    + apply Some_pair in H. destruct H as [_ <-]. exact Hun.
    + apply (IH (fun m' a be s' bc' Hin => Hchild m' a be s' bc'
                                            (or_intror Hin))
               _ _ _ _ _ _ Hun H).
Qed.

Lemma minimizeLoop_restores
    (child : Board -> Z -> Z -> option (Z * Board))
    (moves : list Move) (b0 : Board) :
  (forall m a be s bc,
     In m moves -> child (makeMove false b0 m) a be = Some (s, bc) ->
     restores (makeMove false b0 m) bc) ->
  forall b best alpha beta score b',
    restores b0 b ->
    minimizeLoop child moves b best alpha beta = Some (score, b') ->
    restores b0 b'.
Proof.
  induction moves as [|m rest IH]; intros Hchild b best alpha beta score b'
    Hb H; cbn [minimizeLoop] in H.
  - apply Some_pair in H. destruct H as [_ <-]. exact Hb.
  - pose proof Hb as [Hbp Hbe].
    rewrite (makeMove_ext false b b0 m Hbp Hbe) in H.
    apply bind_Some in H. destruct H as ([s bc] & Hc & H).
    pose proof (Hchild m alpha beta s bc (or_introl eq_refl) Hc) as Hr.
    pose proof (unmakeMove_restores b0 b bc m false Hb Hr) as Hun.
    destruct (_ <=? alpha) in H.
    + apply Some_pair in H. destruct H as [_ <-]. exact Hun.
    + apply (IH (fun m' a be s' bc' Hin => Hchild m' a be s' bc'
                                            (or_intror Hin))
               _ _ _ _ _ _ Hun H).
Qed.

Lemma restores_refl (b : Board) : restores b b.
Proof. split; reflexivity. Qed.

Lemma search_restores (sliders : Sliders) (pieceValuePastEnd : Z)
    (fuel : nat) :
  (forall b ply alpha beta score b',
     maximize sliders pieceValuePastEnd fuel b ply alpha beta
     = Some (score, b') -> restores b b')
  /\ (forall b ply alpha beta score b',
        minimize sliders pieceValuePastEnd fuel b ply alpha beta
        = Some (score, b') -> restores b b').
Proof.
  induction fuel as [|fuel [IHmax IHmin]]; [split; intros; discriminate|].
  split; intros b ply alpha beta score b' H.
  - cbn [maximize] in H. destruct (ply >? SEARCH_DEPTH).
    + apply Some_pair in H. destruct H as [_ <-]. apply restores_refl.
    + apply bind_Some in H. destruct H as (generated & _ & H).
      destruct (fst (getSortedMoves pieceValuePastEnd generated))
        as [|m ms].
      * apply bind_Some in H. destruct H as (inCheck & _ & H).
        destruct inCheck; apply Some_pair in H; destruct H as [_ <-];
          apply restores_refl.
      * refine (maximizeLoop_restores _ _ b _ b MIN_EVAL alpha beta score b'
                  (restores_refl b) H).
        intros m' a be s bc _ Hc. exact (IHmin _ _ _ _ _ _ Hc).
  - cbn [minimize] in H. destruct (ply >? SEARCH_DEPTH).
    + apply Some_pair in H. destruct H as [_ <-]. apply restores_refl.
    + apply bind_Some in H. destruct H as (generated & _ & H).
      destruct (fst (getSortedMoves pieceValuePastEnd generated))
        as [|m ms].
      * apply bind_Some in H. destruct H as (inCheck & _ & H).
        destruct inCheck; apply Some_pair in H; destruct H as [_ <-];
          apply restores_refl.
      * refine (minimizeLoop_restores _ _ b _ b MAX_EVAL alpha beta score b'
                  (restores_refl b) H).
        intros m' a be s bc _ Hc. exact (IHmax _ _ _ _ _ _ Hc).
Qed.

(** Whatever [maximize] or [minimize] returns, the board it leaves behind
    has the position (piece bitboards, castling rights, en passant square)
    and the side to move it was called with. *)
Theorem search_leaves_position (sliders : Sliders) (pieceValuePastEnd : Z)
    (fuel : nat) (b : Board) (ply alpha beta score : Z) (b' : Board) :
  maximize sliders pieceValuePastEnd fuel b ply alpha beta = Some (score, b')
  \/ minimize sliders pieceValuePastEnd fuel b ply alpha beta
     = Some (score, b') ->
  position b' = position b /\ engineToMove b' = engineToMove b.
Proof.
  destruct (search_restores sliders pieceValuePastEnd fuel) as [Hmax Hmin].
  intros [H|H]; [exact (Hmax _ _ _ _ _ _ H)|exact (Hmin _ _ _ _ _ _ H)].
Qed.

Lemma search_leaves_position_witness :
  exists score b',
    maximize (tableSliders knownMoveGen) 0 3 newBoard 4 MIN_EVAL MAX_EVAL
    = Some (score, b')
    /\ position b' = position newBoard
    /\ engineToMove b' = engineToMove newBoard.
Proof.
  destruct (start_search knownRand knownMoveGen knownMoveGen_built)
    as (_ & score & b' & H).
  exists score, b'. split; [exact H|].
  exact (search_leaves_position (tableSliders knownMoveGen) 0 3 newBoard 4
           MIN_EVAL MAX_EVAL score b' (or_introl H)).
Defined.

(** ** Search::getBestMove *)

Lemma bestMoveLoop_spec (child : Board -> option (Z * Board)) (b0 : Board)
    (moves : list Move) :
  (forall m s bc,
     In m moves -> child (makeMove true b0 m) = Some (s, bc) ->
     restores (makeMove true b0 m) bc) ->
  forall b best bestScore r b',
    restores b0 b ->
    bestMoveLoop child moves b best bestScore = Some (r, b') ->
    restores b0 b'
    /\ exists final,
         bestScore <= final
         /\ (forall m, In m moves ->
             exists s bc,
               child (makeMove true b0 m) = Some (s, bc) /\ s <= final)
         /\ ((r = best /\ final = bestScore)
             \/ exists m s bc,
                  r = Some m /\ In m moves
                  /\ child (makeMove true b0 m) = Some (s, bc)
                  /\ s = final /\ bestScore < final).
Proof.
  induction moves as [|m rest IH]; intros Hchild b best bestScore r b' Hb H;
    cbn [bestMoveLoop] in H.
  - apply Some_pair in H. destruct H as [<- <-]. split; [exact Hb|].
    exists bestScore. split; [lia|]. split; [intros m []|now left].
  - pose proof Hb as [Hbp Hbe].
    rewrite (makeMove_ext true b b0 m Hbp Hbe) in H.
    apply bind_Some in H. destruct H as ([s bc] & Hc & H).
    destruct (PieceType_eqb (moving m) NONE); [discriminate|].
    pose proof (Hchild m s bc (or_introl eq_refl) Hc) as Hr.
    pose proof (unmakeMove_restores b0 b bc m true Hb Hr) as Hun.
    destruct (IH (fun m' s' bc' Hin => Hchild m' s' bc' (or_intror Hin))
                _ _ _ _ _ Hun H)
      as (Hres & final & Hle & Hall & Hbest).
    split; [exact Hres|]. exists final.
    destruct (Z.gtb_spec s bestScore) as [Hgt|Hngt].
    + split; [lia|]. split.
      * intros m' [<-|Hin]; [exists s, bc; split; [exact Hc|lia]|].
        now apply Hall.
      * right. destruct Hbest as [[-> ->]|(m' & s' & bc' & -> & Hin & Hc'
                                            & Hs' & Hlt)].
        -- exists m, s, bc.
           repeat split; try assumption; try lia; now left.
        -- exists m', s', bc'.
           repeat split; try assumption; try lia; now right.
    + split; [lia|]. split.
      * intros m' [<-|Hin]; [exists s, bc; split; [exact Hc|lia]|].
        now apply Hall.
      * destruct Hbest as [[-> ->]|(m' & s' & bc' & -> & Hin & Hc' & Hs'
                                     & Hlt)]; [now left|right].
        exists m', s', bc'. repeat split; try assumption; try lia; now right.
Qed.

(** The score [getBestMove] gives a move at the root. *)
Definition rootScore (sliders : Sliders) (pieceValuePastEnd : Z) (fuel : nat)
    (b : Board) (m : Move) : option (Z * Board) :=
  minimize sliders pieceValuePastEnd fuel (makeMove true b m) 1
           MIN_EVAL MAX_EVAL.

(** When [getBestMove] returns, the position and the side to move are as
    before the call.  The move returned is one of the moves generated for
    the engine, its score is above [MIN_EVAL] and no generated move scores
    higher.  If no score is above [MIN_EVAL], in particular if the engine
    has no move, the local [best] is returned without ever having been
    assigned. *)
Theorem getBestMove_spec (sliders : Sliders) (pieceValuePastEnd : Z)
    (fuel : nat) (b : Board) (best : option Move) (b' : Board) :
  getBestMove sliders pieceValuePastEnd fuel b = Some (best, b') ->
  exists generated,
    generateEngineMoves sliders b = Some generated
    /\ position b' = position b /\ engineToMove b' = engineToMove b
    /\ match best with
       | Some m =>
           In m generated
           /\ exists s bc,
                rootScore sliders pieceValuePastEnd fuel b m = Some (s, bc)
                /\ MIN_EVAL < s
                /\ forall m', In m' generated ->
                   exists s' bc',
                     rootScore sliders pieceValuePastEnd fuel b m'
                     = Some (s', bc')
                     /\ s' <= s
       | None =>
           forall m', In m' generated ->
           exists s' bc',
             rootScore sliders pieceValuePastEnd fuel b m' = Some (s', bc')
             /\ s' <= MIN_EVAL
       end.
Proof.
  intros H. unfold getBestMove in H. cbv zeta in H.
  apply bind_Some in H. destruct H as (generated & Hg & H).
  exists generated. split; [exact Hg|].
  destruct (sortedMoves_perm pieceValuePastEnd generated) as [Hperm _].
  assert (Hin : forall m,
             In m (fst (getSortedMoves pieceValuePastEnd generated))
             <-> In m generated).
  { intros m. split; apply Permutation_in;
      [exact Hperm|symmetry; exact Hperm]. }
  destruct (search_restores sliders pieceValuePastEnd fuel) as [_ Hmin].
  destruct (bestMoveLoop_spec _ b _
              (fun m s bc _ Hc => Hmin _ _ _ _ _ _ Hc)
              b None MIN_EVAL best b' (restores_refl b) H)
    as ([Hp He] & final & Hle & Hall & Hbest).
  split; [exact Hp|]. split; [exact He|].
  destruct Hbest as [[-> ->]|(m & s & bc & -> & Hm & Hc & Hs & Hlt)].
  - intros m' Hm'. apply Hall. now apply Hin.
  - split; [now apply Hin|]. exists s, bc. split; [exact Hc|].
    split; [lia|]. intros m' Hm'. rewrite Hs. apply Hall. now apply Hin.
Qed.

(** Both kings shuttle between two squares behind locked pawns: the engine
    king between 0 and 1, the player king between 63 and 62.  Neither side
    ever has another move. *)
Definition shuttle : Board :=
  update
    (mkBoard true
       (mkPosition
          [Z.lor (Z.lor (Z.lor (Z.lor (boardOf 16) (boardOf 18)) (boardOf 55))
                        (boardOf 53)) (boardOf 61);
           0; 0; 0; 0; boardOf 63;
           Z.lor (Z.lor (Z.lor (Z.lor (boardOf 8) (boardOf 10)) (boardOf 2))
                        (boardOf 47)) (boardOf 45);
           0; 0; 0; 0; boardOf 0]
          false false false false 0)
       0 0 0 0 0 0).

Lemma shuttle_best (rand : Z -> Z) (g : MoveGen) :
  newMoveGen rand = Some g ->
  exists b',
    getBestMove (tableSliders g) 0 6 shuttle
    = Some (Some (mkMove NORMAL 0 1 ENGINE_KING NONE), b').
Proof.
  intros Hg. rewrite (tableSliders_rays rand g Hg).
  let r := eval vm_compute in (getBestMove (raySliders g) 0 6 shuttle) in
  match r with
  | Some (_, ?b') => exists b'
  end.
  vm_compute. reflexivity.
Qed.

Lemma getBestMove_spec_witness :
  exists generated b',
    generateEngineMoves (tableSliders knownMoveGen) shuttle = Some generated
    /\ In (mkMove NORMAL 0 1 ENGINE_KING NONE) generated
    /\ position b' = position shuttle.
Proof.
  destruct (shuttle_best knownRand knownMoveGen knownMoveGen_built)
    as (b' & H).
  destruct (getBestMove_spec (tableSliders knownMoveGen) 0 6 shuttle _ b' H)
    as (generated & Hg & Hp & _ & Hin & _).
  exists generated, b'. split; [exact Hg|]. split; [exact Hin|exact Hp].
Defined.

(** ** Castling rights under makeMove *)

(** Every right [p] has, [q] has too. *)
Definition rightsLe (p q : Position) : Prop :=
  (playerCastleQueenside p = true -> playerCastleQueenside q = true)
  /\ (playerCastleKingside p = true -> playerCastleKingside q = true)
  /\ (engineCastleQueenside p = true -> engineCastleQueenside q = true)
  /\ (engineCastleKingside p = true -> engineCastleKingside q = true).

Lemma rightsLe_refl (p : Position) : rightsLe p p.
Proof. unfold rightsLe. tauto. Qed.

Lemma rightsLe_trans (p q r : Position) :
  rightsLe p q -> rightsLe q r -> rightsLe p r.
Proof. unfold rightsLe. tauto. Qed.

Lemma rightsLe_if (c : bool) (p p' q : Position) :
  rightsLe p q -> rightsLe p' q -> rightsLe (if c then p else p') q.
Proof. now destruct c. Qed.

Lemma rightsLe_xorPiece (p q : Position) (t : PieceType) (mask : Z) :
  rightsLe p q -> rightsLe (xorPiece p t mask) q.
Proof. exact (fun H => H). Qed.

Lemma rightsLe_orPiece (p q : Position) (t : PieceType) (mask : Z) :
  rightsLe p q -> rightsLe (orPiece p t mask) q.
Proof. exact (fun H => H). Qed.

Lemma rightsLe_setEnPassant (p q : Position) (v : Z) :
  rightsLe p q -> rightsLe (setEnPassant p v) q.
Proof. exact (fun H => H). Qed.

Lemma rightsLe_forbidKingside (engine : bool) (p q : Position) :
  rightsLe p q -> rightsLe (forbidKingside engine p) q.
Proof.
  unfold rightsLe. destruct engine;
    cbn [forbidKingside playerCastleQueenside playerCastleKingside
         engineCastleQueenside engineCastleKingside];
    intuition discriminate.
Qed.

Lemma rightsLe_forbidQueenside (engine : bool) (p q : Position) :
  rightsLe p q -> rightsLe (forbidQueenside engine p) q.
Proof.
  unfold rightsLe. destruct engine;
    cbn [forbidQueenside playerCastleQueenside playerCastleKingside
         engineCastleQueenside engineCastleKingside];
    intuition discriminate.
Qed.

Ltac rights_step :=
  match goal with
  | |- rightsLe (if _ then _ else _) _ => apply rightsLe_if
  | |- rightsLe (forbidKingside _ _) _ => apply rightsLe_forbidKingside
  | |- rightsLe (forbidQueenside _ _) _ => apply rightsLe_forbidQueenside
  | |- rightsLe (xorPiece _ _ _) _ => apply rightsLe_xorPiece
  | |- rightsLe (orPiece _ _ _) _ => apply rightsLe_orPiece
  | |- rightsLe (setEnPassant _ _) _ => apply rightsLe_setEnPassant
  | H : rightsLe ?p ?q |- rightsLe ?p ?q => exact H
  | |- rightsLe ?p ?p => apply rightsLe_refl
  end.

(** [makeMove] never gives a castling right back. *)
Lemma movePosition_rights (isEngine : bool) (p0 : Position) (move : Move) :
  rightsLe (movePosition isEngine p0 move) p0.
Proof.
  unfold movePosition. cbv zeta.
  match goal with
  | |- context [setEnPassant ?p (boardOf (to move))] => set (p3 := p)
  end.
  assert (H3 : rightsLe p3 p0).
  { subst p3.
    match goal with
    | |- context [xorPiece ?p (captured move) _] => set (p2 := p)
    end.
    assert (H2 : rightsLe p2 p0)
      by (subst p2; destruct (type move); repeat rights_step).
    clearbody p2. repeat rights_step. }
  clearbody p3. repeat rights_step.
Qed.

Lemma rightsLe_kingside (engine : bool) (p q : Position) :
  rightsLe p q -> castleKingside engine q = false ->
  castleKingside engine p = false.
Proof.
  unfold rightsLe, castleKingside. intros (_ & H1 & _ & H2) Hq.
  destruct engine.
  - destruct (engineCastleKingside p); [|reflexivity].
    rewrite H2 in Hq by reflexivity. discriminate.
  - destruct (playerCastleKingside p); [|reflexivity].
    rewrite H1 in Hq by reflexivity. discriminate.
Qed.

Lemma rightsLe_queenside (engine : bool) (p q : Position) :
  rightsLe p q -> castleQueenside engine q = false ->
  castleQueenside engine p = false.
Proof.
  unfold rightsLe, castleQueenside. intros (H1 & _ & H2 & _) Hq.
  destruct engine.
  - destruct (engineCastleQueenside p); [|reflexivity].
    rewrite H2 in Hq by reflexivity. discriminate.
  - destruct (playerCastleQueenside p); [|reflexivity].
    rewrite H1 in Hq by reflexivity. discriminate.
Qed.

Lemma castleKingside_forbidden (engine : bool) (p : Position) :
  castleKingside engine (forbidKingside engine p) = false.
Proof. now destruct engine. Qed.

Lemma castleQueenside_forbidden (engine : bool) (p : Position) :
  castleQueenside engine (forbidQueenside engine p) = false.
Proof. now destruct engine. Qed.

Lemma castleKingside_forbidQueenside (engine engine' : bool) (p : Position) :
  castleKingside engine (forbidQueenside engine' p) = castleKingside engine p.
Proof. now destruct engine, engine'. Qed.

Lemma castleQueenside_forbidKingside (engine engine' : bool) (p : Position) :
  castleQueenside engine (forbidKingside engine' p)
  = castleQueenside engine p.
Proof. now destruct engine, engine'. Qed.

Lemma castleKingside_if_forbid (engine c : bool) (p : Position) :
  castleKingside engine
    (if castleKingside engine p
     then if c then forbidKingside engine p else p
     else p) = negb c && castleKingside engine p.
Proof.
  destruct (castleKingside engine p) eqn:E, c; cbn [negb andb];
    rewrite ?castleKingside_forbidden, ?E; reflexivity.
Qed.

Lemma castleQueenside_if_forbid (engine c : bool) (p : Position) :
  castleQueenside engine
    (if castleQueenside engine p
     then if c then forbidQueenside engine p else p
     else p) = negb c && castleQueenside engine p.
Proof.
  destruct (castleQueenside engine p) eqn:E, c; cbn [negb andb];
    rewrite ?castleQueenside_forbidden, ?E; reflexivity.
Qed.

(** A move of the king takes both castling rights of its side away. *)
Lemma movePosition_king (isEngine : bool) (p0 : Position) (move : Move) :
  moving move = ownKing isEngine ->
  castleKingside isEngine (movePosition isEngine p0 move) = false
  /\ castleQueenside isEngine (movePosition isEngine p0 move) = false.
Proof.
  intros Hking. unfold movePosition. cbv zeta.
  match goal with
  | |- context [setEnPassant ?p (boardOf (to move))] => set (p3 := p)
  end.
  clearbody p3. rewrite Hking.
  replace (PieceType_eqb (ownKing isEngine)
             (if isEngine then ENGINE_KING else PLAYER_KING)) with true
    by (now destruct isEngine).
  destruct (castleKingside isEngine p3 || castleQueenside isEngine p3) eqn:E.
  - split.
    + rewrite castleKingside_forbidQueenside. apply castleKingside_forbidden.
    + apply castleQueenside_forbidden.
  - apply orb_false_iff in E. exact E.
Qed.

Lemma castleKingside_queenside_step (engine engine' c : bool) (p : Position) :
  castleKingside engine
    (if castleQueenside engine' p
     then if c then forbidQueenside engine' p else p
     else p) = castleKingside engine p.
Proof.
  destruct (castleQueenside engine' p), c;
    rewrite ?castleKingside_forbidQueenside; reflexivity.
Qed.

Lemma castleQueenside_kingside_step (engine engine' c : bool) (p : Position) :
  castleQueenside engine
    (if castleKingside engine' p
     then if c then forbidKingside engine' p else p
     else p) = castleQueenside engine p.
Proof.
  destruct (castleKingside engine' p), c;
    rewrite ?castleQueenside_forbidKingside; reflexivity.
Qed.

(** A rook that leaves its corner takes the right to castle on that side
    away. *)
Lemma movePosition_rook (isEngine : bool) (p0 : Position) (move : Move) :
  moving move = ownRook isEngine ->
  (nonzero (Z.land (boardOf (from move))
              (if isEngine then ENGINE_KINGSIDE_ROOK
               else PLAYER_KINGSIDE_ROOK)) = true ->
   castleKingside isEngine (movePosition isEngine p0 move) = false)
  /\ (nonzero (Z.land (boardOf (from move))
                 (if isEngine then ENGINE_QUEENSIDE_ROOK
                  else PLAYER_QUEENSIDE_ROOK)) = true ->
      castleQueenside isEngine (movePosition isEngine p0 move) = false).
Proof.
  intros Hrook. unfold movePosition. cbv zeta.
  match goal with
  | |- context [setEnPassant ?p (boardOf (to move))] => set (p3 := p)
  end.
  clearbody p3. rewrite Hrook.
  replace (PieceType_eqb (ownRook isEngine)
             (if isEngine then ENGINE_KING else PLAYER_KING)) with false
    by (now destruct isEngine).
  replace (PieceType_eqb (ownRook isEngine)
             (if isEngine then ENGINE_ROOK else PLAYER_ROOK)) with true
    by (now destruct isEngine).
  split; intros Hnz.
  - rewrite castleKingside_queenside_step, castleKingside_if_forbid, Hnz.
    reflexivity.
  - rewrite castleQueenside_if_forbid, Hnz. reflexivity.
Qed.

(** Taking a rook on its corner takes the other side's right to castle
    there away. *)
Lemma movePosition_takes_rook (isEngine : bool) (p0 : Position)
    (move : Move) :
  captured move = ownRook (negb isEngine) ->
  (nonzero (Z.land (boardOf (to move))
              (if isEngine then PLAYER_KINGSIDE_ROOK
               else ENGINE_KINGSIDE_ROOK)) = true ->
   castleKingside (negb isEngine) (movePosition isEngine p0 move) = false)
  /\ (nonzero (Z.land (boardOf (to move))
                 (if isEngine then PLAYER_QUEENSIDE_ROOK
                  else ENGINE_QUEENSIDE_ROOK)) = true ->
      castleQueenside (negb isEngine) (movePosition isEngine p0 move)
      = false).
Proof.
  intros Hcap. unfold movePosition. cbv zeta.
  match goal with
  | |- context [setEnPassant ?p (boardOf (to move))] => set (p3 := p)
  end.
  assert (H3 : (nonzero (Z.land (boardOf (to move))
                           (if isEngine then PLAYER_KINGSIDE_ROOK
                            else ENGINE_KINGSIDE_ROOK)) = true ->
                castleKingside (negb isEngine) p3 = false)
               /\ (nonzero (Z.land (boardOf (to move))
                              (if isEngine then PLAYER_QUEENSIDE_ROOK
                               else ENGINE_QUEENSIDE_ROOK)) = true ->
                   castleQueenside (negb isEngine) p3 = false)).
  { subst p3.
    match goal with
    | |- context [xorPiece ?p (captured move) ?x] =>
        set (p2 := xorPiece p (captured move) x)
    end.
    clearbody p2. rewrite Hcap.
    replace (PieceType_eqb (ownRook (negb isEngine)) NONE) with false
      by (now destruct isEngine).
    replace (PieceType_eqb (ownRook (negb isEngine))
               (if isEngine then PLAYER_ROOK else ENGINE_ROOK)) with true
      by (now destruct isEngine).
    cbn [negb]. split; intros Hnz.
    - rewrite castleKingside_queenside_step, castleKingside_if_forbid, Hnz.
      reflexivity.
    - rewrite castleQueenside_if_forbid, Hnz. reflexivity. }
  clearbody p3. destruct H3 as [HK HQ].
  split; intros Hnz.
  - apply (rightsLe_kingside _ _ p3); [repeat rights_step|exact (HK Hnz)].
  - apply (rightsLe_queenside _ _ p3); [repeat rights_step|exact (HQ Hnz)].
Qed.

(** [makeMove] only ever takes castling rights away: no right comes back;
    a move of the king clears both rights of the side moving; a rook move
    from a corner, or the capture of a rook on a corner, clears the right
    that belongs to that corner. *)
Theorem makeMove_castling_rights (isEngine : bool) (b : Board) (move : Move) :
  let before := position b in
  let after := position (makeMove isEngine b move) in
  (forall side,
     (castleKingside side after = true -> castleKingside side before = true)
     /\ (castleQueenside side after = true ->
         castleQueenside side before = true))
  /\ (moving move = ownKing isEngine ->
      castleKingside isEngine after = false
      /\ castleQueenside isEngine after = false)
  /\ (moving move = ownRook isEngine ->
      (nonzero (Z.land (boardOf (from move))
                  (if isEngine then ENGINE_KINGSIDE_ROOK
                   else PLAYER_KINGSIDE_ROOK)) = true ->
       castleKingside isEngine after = false)
      /\ (nonzero (Z.land (boardOf (from move))
                     (if isEngine then ENGINE_QUEENSIDE_ROOK
                      else PLAYER_QUEENSIDE_ROOK)) = true ->
          castleQueenside isEngine after = false))
  /\ (captured move = ownRook (negb isEngine) ->
      (nonzero (Z.land (boardOf (to move))
                  (if isEngine then PLAYER_KINGSIDE_ROOK
                   else ENGINE_KINGSIDE_ROOK)) = true ->
       castleKingside (negb isEngine) after = false)
      /\ (nonzero (Z.land (boardOf (to move))
                     (if isEngine then PLAYER_QUEENSIDE_ROOK
                      else ENGINE_QUEENSIDE_ROOK)) = true ->
          castleQueenside (negb isEngine) after = false)).
Proof.
  intros before after.
  assert (Hafter : after = movePosition isEngine before move) by reflexivity.
  rewrite Hafter. clear Hafter after.
  split; [|split; [|split]].
  - intros side.
    destruct (movePosition_rights isEngine before move)
      as (H1 & H2 & H3 & H4).
    destruct side; unfold castleKingside, castleQueenside; auto.
  - apply movePosition_king.
  - apply movePosition_rook.
  - apply movePosition_takes_rook.
Qed.

Lemma makeMove_castling_rights_witness :
  castleKingside true (position newBoard) = true
  /\ castleKingside true
       (position (makeMove true newBoard
                    (mkMove NORMAL 0 16 ENGINE_ROOK NONE))) = false
  /\ castleQueenside true
       (position (makeMove true newBoard
                    (mkMove NORMAL 3 4 ENGINE_KING NONE))) = false.
Proof.
  destruct (makeMove_castling_rights true newBoard
              (mkMove NORMAL 0 16 ENGINE_ROOK NONE))
    as (_ & _ & Hrook & _).
  destruct (makeMove_castling_rights true newBoard
              (mkMove NORMAL 3 4 ENGINE_KING NONE))
    as (_ & Hking & _).
  split; [reflexivity|]. split.
  - apply Hrook; reflexivity.
  - apply Hking. reflexivity.
Defined.

(** ** Evaluation::evaluate stays within the material on the board *)

Lemma countSetBits_Ndouble (n : N) :
  countSetBits (Z.of_N (Pos.Ndouble n)) = countSetBits (Z.of_N n).
Proof. destruct n; reflexivity. Qed.

Lemma countSetBits_Nsucc_double (n : N) :
  countSetBits (Z.of_N (Pos.Nsucc_double n)) = 1 + countSetBits (Z.of_N n).
Proof.
  destruct n; cbn [Pos.Nsucc_double Z.of_N countSetBits pos_popcount]; lia.
Qed.

Lemma pos_land_popcount (p q : positive) :
  countSetBits (Z.of_N (Pos.land p q)) <= pos_popcount p.
Proof.
  revert q. induction p as [p IH|p IH|]; intros q; destruct q as [q|q|];
    cbn [Pos.land pos_popcount];
    rewrite ?countSetBits_Ndouble, ?countSetBits_Nsucc_double;
    try specialize (IH q); try pose proof (pos_popcount_pos p);
    cbn [countSetBits Z.of_N pos_popcount]; lia.
Qed.

(** Masking a board never raises its number of set bits. *)
Lemma countSetBits_land (x mask : Z) :
  0 <= x -> 0 <= mask ->
  0 <= countSetBits (Z.land x mask) <= countSetBits x.
Proof.
  intros Hx Hm. split; [apply countSetBits_nonneg|].
  destruct x as [|p|p]; [reflexivity| |lia].
  destruct mask as [|q|q]; [cbn; pose proof (pos_popcount_pos p); lia| |lia].
  apply pos_land_popcount.
Qed.

(** The pieces of one side that carry material value. *)
Definition pieceCount (p : Position) (engine : bool) : Z :=
  if engine
  then countSetBits (piece p ENGINE_PAWN) + countSetBits (piece p ENGINE_KNIGHT)
       + countSetBits (piece p ENGINE_BISHOP)
       + countSetBits (piece p ENGINE_ROOK)
       + countSetBits (piece p ENGINE_QUEEN)
  else countSetBits (piece p PLAYER_PAWN) + countSetBits (piece p PLAYER_KNIGHT)
       + countSetBits (piece p PLAYER_BISHOP)
       + countSetBits (piece p PLAYER_ROOK)
       + countSetBits (piece p PLAYER_QUEEN).

Lemma evaluate_material (p : Position) :
  (forall t, 0 <= piece p t) ->
  - 800 * pieceCount p false <= evaluate p <= 800 * pieceCount p true.
Proof.
  intros Hp. unfold evaluate, pieceCount. cbv zeta. cbn [fold_left].
  change (valueOf PLAYER_PAWN) with 100.
  change (valueOf PLAYER_KNIGHT) with 350.
  change (valueOf PLAYER_BISHOP) with 400.
  change (valueOf PLAYER_ROOK) with 500.
  change (valueOf PLAYER_QUEEN) with 800.
  change (valueOf ENGINE_PAWN) with 100.
  change (valueOf ENGINE_KNIGHT) with 350.
  change (valueOf ENGINE_BISHOP) with 400.
  change (valueOf ENGINE_ROOK) with 500.
  change (valueOf ENGINE_QUEEN) with 800.
  assert (Hm : forall t mask, 0 <= mask ->
                0 <= countSetBits (Z.land (piece p t) mask)
                <= countSetBits (piece p t)).
  { intros t mask Hmask. apply countSetBits_land; [apply Hp|exact Hmask]. }
  assert (H16 : 0 <= CENTER_16_SQUARES) by (unfold CENTER_16_SQUARES; lia).
  assert (H4 : 0 <= CENTER_4_SQUARES) by (unfold CENTER_4_SQUARES; lia).
  assert (Hc : 0 <= PAWN_CENTER) by (unfold PAWN_CENTER; lia).
  assert (He : 0 <= ENGINE_ADVANCED_PAWNS)
    by (unfold ENGINE_ADVANCED_PAWNS; lia).
  assert (Hq : 0 <= PLAYER_ADVANCED_PAWNS)
    by (unfold PLAYER_ADVANCED_PAWNS; lia).
  pose proof (Hm PLAYER_KNIGHT _ H16). pose proof (Hm ENGINE_KNIGHT _ H16).
  pose proof (Hm PLAYER_BISHOP _ H16). pose proof (Hm ENGINE_BISHOP _ H16).
  pose proof (Hm PLAYER_PAWN _ Hc). pose proof (Hm PLAYER_PAWN _ H4).
  pose proof (Hm PLAYER_PAWN _ Hq). pose proof (Hm ENGINE_PAWN _ Hc).
  pose proof (Hm ENGINE_PAWN _ H4). pose proof (Hm ENGINE_PAWN _ He).
  pose proof (countSetBits_nonneg (piece p PLAYER_ROOK)).
  pose proof (countSetBits_nonneg (piece p PLAYER_QUEEN)).
  pose proof (countSetBits_nonneg (piece p ENGINE_ROOK)).
  pose proof (countSetBits_nonneg (piece p ENGINE_QUEEN)).
  lia.
Qed.

(** The static evaluation lies between minus 800 times the number of the
    player's pawns, knights, bishops, rooks and queens and 800 times the
    number of the engine's.  It therefore fits the [int] it is returned in,
    and it is within [- MAX_EVAL .. MAX_EVAL] as long as neither side has
    more than 40 such pieces. *)
Theorem evaluate_bounds (p : Position) :
  (forall t, u64 (piece p t)) ->
  - 800 * pieceCount p false <= evaluate p <= 800 * pieceCount p true
  /\ - 2 ^ 31 <= evaluate p < 2 ^ 31
  /\ (pieceCount p true <= 40 -> pieceCount p false <= 40 ->
      inBounds (evaluate p)).
Proof.
  intros Hu.
  assert (Hm : - 800 * pieceCount p false <= evaluate p
               <= 800 * pieceCount p true).
  { apply evaluate_material. intros t. apply (Hu t). }
  split; [exact Hm|]. split.
  - assert (He : 0 <= pieceCount p true <= 320).
    { unfold pieceCount.
      pose proof (countSetBits_le_64 _ (Hu ENGINE_PAWN)).
      pose proof (countSetBits_le_64 _ (Hu ENGINE_KNIGHT)).
      pose proof (countSetBits_le_64 _ (Hu ENGINE_BISHOP)).
      pose proof (countSetBits_le_64 _ (Hu ENGINE_ROOK)).
      pose proof (countSetBits_le_64 _ (Hu ENGINE_QUEEN)).
      pose proof (countSetBits_nonneg (piece p ENGINE_PAWN)).
      pose proof (countSetBits_nonneg (piece p ENGINE_KNIGHT)).
      pose proof (countSetBits_nonneg (piece p ENGINE_BISHOP)).
      pose proof (countSetBits_nonneg (piece p ENGINE_ROOK)).
      pose proof (countSetBits_nonneg (piece p ENGINE_QUEEN)). lia. }
    assert (Hq : 0 <= pieceCount p false <= 320).
    { unfold pieceCount.
      pose proof (countSetBits_le_64 _ (Hu PLAYER_PAWN)).
      pose proof (countSetBits_le_64 _ (Hu PLAYER_KNIGHT)).
      pose proof (countSetBits_le_64 _ (Hu PLAYER_BISHOP)).
      pose proof (countSetBits_le_64 _ (Hu PLAYER_ROOK)).
      pose proof (countSetBits_le_64 _ (Hu PLAYER_QUEEN)).
      pose proof (countSetBits_nonneg (piece p PLAYER_PAWN)).
      pose proof (countSetBits_nonneg (piece p PLAYER_KNIGHT)).
      pose proof (countSetBits_nonneg (piece p PLAYER_BISHOP)).
      pose proof (countSetBits_nonneg (piece p PLAYER_ROOK)).
      pose proof (countSetBits_nonneg (piece p PLAYER_QUEEN)). lia. }
    change (2 ^ 31) with 2147483648. lia.
  - intros He Hq. unfold inBounds. rewrite MAX_EVAL_value. lia.
Qed.

Lemma newBoard_u64 (t : PieceType) : u64 (piece (position newBoard) t).
Proof.
  unfold u64. destruct t;
    (split; [vm_compute; discriminate|vm_compute; reflexivity]).
Qed.

Lemma evaluate_bounds_witness :
  - 2 ^ 31 <= evaluate (position newBoard) < 2 ^ 31
  /\ inBounds (evaluate (position newBoard)).
Proof.
  destruct (evaluate_bounds (position newBoard) newBoard_u64)
    as (_ & Hint & Hin).
  split; [exact Hint|]. apply Hin; vm_compute; discriminate.
Defined.

(** ** getMagicNumber: the arrays are indexed within their bounds *)

(** [maxPermutations], the length of [attacks], [blockers] and
    [attacksSeen], and of a row of the attack tables. *)
Definition maxPermutations (isCardinal : bool) : Z :=
  if isCardinal then 4096 else 512.

Lemma mask_sizes :
  forallb (fun n : nat =>
             (countSetBits (getRookBlockers (Z.of_nat n)) <=? 12)
             && (countSetBits (getBishopBlockers (Z.of_nat n)) <=? 9))
          (seq 0 64) = true.
Proof. vm_compute. reflexivity. Qed.

Lemma mask_size (isCardinal : bool) (s : Z) :
  0 <= s < 64 ->
  0 <= countSetBits (maskOf isCardinal s) <= (if isCardinal then 12 else 9).
Proof.
  intros Hs. split; [apply countSetBits_nonneg|].
  pose proof mask_sizes as H. rewrite forallb_forall in H.
  specialize (H (Z.to_nat s)). rewrite Z2Nat.id in H by lia.
  assert (Hin : In (Z.to_nat s) (seq 0 64)) by (apply in_seq; lia).
  apply H in Hin. apply andb_true_iff in Hin. destruct Hin as [Hr Hb].
  apply Z.leb_le in Hr, Hb. destruct isCardinal; assumption.
Qed.

Lemma magicHash_range (isCardinal : bool) (blk m : Z) :
  0 <= magicHash isCardinal blk m < maxPermutations isCardinal.
Proof.
  rewrite magicHash_index. unfold magicIndex, shr64, maxPermutations.
  pose proof (wrap64_u64 (blk * m)) as [H0 H1].
  rewrite Z.shiftr_div_pow2 by (destruct isCardinal; cbn; lia).
  destruct isCardinal; cbn [magicShift];
    (split; [apply Z.div_pos; lia|apply Z.div_lt_upper_bound; lia]).
Qed.

(** For every square, the number of blocker permutations is at most
    [maxPermutations] (the mask of a rook has at most 12 bits, that of a
    bishop at most 9), the list of permutations has exactly that many
    entries, and the hash of any blocker board under any magic number is
    below [maxPermutations]. *)
Theorem magic_arrays_in_bounds (isCardinal : bool) (s blk m : Z) :
  0 <= s < 64 ->
  let numPermutations := Z.shiftl 1 (countSetBits (maskOf isCardinal s)) in
  0 < numPermutations <= maxPermutations isCardinal
  /\ Z.of_nat (length (blockerPermutations isCardinal s (maskOf isCardinal s)))
     = numPermutations
  /\ 0 <= magicHash isCardinal blk m < maxPermutations isCardinal.
Proof.
  intros Hs numPermutations. pose proof (mask_size isCardinal s Hs) as Hc.
  assert (Hn : 0 < numPermutations <= maxPermutations isCardinal).
  { subst numPermutations. rewrite Z.shiftl_1_l. split.
    - apply Z.pow_pos_nonneg; lia.
    - unfold maxPermutations. destruct isCardinal.
      + change 4096 with (2 ^ 12). apply Z.pow_le_mono_r; lia.
      + change 512 with (2 ^ 9). apply Z.pow_le_mono_r; lia. }
  split; [exact Hn|]. split; [|apply magicHash_range].
  unfold blockerPermutations. rewrite length_map, length_seq.
  fold numPermutations. lia.
Qed.

Lemma magic_arrays_in_bounds_witness :
  Z.shiftl 1 (countSetBits (maskOf true 0)) = 4096
  /\ 0 <= magicHash true FILLED_BOARD FILLED_BOARD < 4096.
Proof.
  assert (H : 0 <= 0 < 64) by lia.
  destruct (magic_arrays_in_bounds true 0 FILLED_BOARD FILLED_BOARD H)
    as (_ & _ & Hh).
  split; [vm_compute; reflexivity|exact Hh].
Defined.

(** ** getMagicNumber enumerates the subsets of the mask *)

Lemma pair_inv (A B : Type) (a c : A) (b d : B) :
  (a, b) = (c, d) -> a = c /\ b = d.
Proof. intros H. split; congruence. Qed.

Lemma spreadLoop_within (fuel : nat) (m perm acc i : Z) :
  u64 m -> 0 <= i ->
  Z.testbit (spreadLoop fuel m perm acc) i = true ->
  Z.testbit acc i = true \/ Z.testbit m i = true.
Proof.
  revert m perm acc.
  induction fuel as [|fuel IH]; intros m perm acc Hm Hi H;
    cbn [spreadLoop] in H; [now left|].
  destruct (Z.eqb_spec m 0) as [|Hne]; [now left|].
  rewrite popLeastBitboard_eq in H by assumption.
  pose proof (tzcnt64_range m Hm Hne) as Hk.
  apply IH in H; [|now apply clearLeast_u64|exact Hi].
  destruct H as [H|H].
  - destruct (nonzero _); [|now left].
    rewrite Z.lor_spec in H. apply orb_true_iff in H.
    destruct H as [H|H]; [now left|right].
    rewrite testbit_boardOf in H by assumption. apply Z.eqb_eq in H.
    subst i. apply tzcnt64_testbit. now apply u64_pos.
  - right. rewrite testbit_clearLeast in H by assumption.
    now apply andb_true_iff in H.
Qed.

(** The blocker boards [getMagicNumber] lists are exactly the subsets of
    the mask: each entry is a subset, paired with its attack set, and
    every [o & mask] is an entry. *)
Theorem blockerPermutations_exact (isCardinal : bool) (s mask : Z) :
  u64 mask ->
  (forall blk att,
     In (blk, att) (blockerPermutations isCardinal s mask) ->
     Z.land blk mask = blk /\ att = slidingAttacks isCardinal s blk)
  /\ (forall o,
        In (Z.land o mask, slidingAttacks isCardinal s (Z.land o mask))
           (blockerPermutations isCardinal s mask)).
Proof.
  intros Hm. split; [|intros o; now apply blockerPermutations_complete].
  intros blk att Hin. unfold blockerPermutations in Hin.
  apply in_map_iff in Hin. destruct Hin as (n & Heq & _).
  apply pair_inv in Heq. destruct Heq as [H1 H2].
  subst blk. split; [|symmetry; exact H2].
  apply Z.bits_inj'. intros i Hi. rewrite Z.land_spec.
  destruct (Z.testbit (spreadLoop 64 mask (Z.of_nat n) 0) i) eqn:Hb;
    [|reflexivity].
  destruct (spreadLoop_within 64 mask (Z.of_nat n) 0 i Hm Hi Hb) as [H0|H1].
  - rewrite Z.testbit_0_l in H0. discriminate.
  - now rewrite H1.
Qed.

Lemma blockerPermutations_exact_witness :
  In (Z.land FILLED_BOARD (getRookBlockers 0),
      slidingAttacks true 0 (Z.land FILLED_BOARD (getRookBlockers 0)))
     (blockerPermutations true 0 (getRookBlockers 0)).
Proof.
  apply (blockerPermutations_exact true 0 (getRookBlockers 0)).
  apply getRookBlockers_u64.
Defined.

(** ** The knight and king tables *)

Definition knightJump (s t : Z) : bool :=
  let dRow := Z.abs (s / 8 - t / 8) in
  let dCol := Z.abs (s mod 8 - t mod 8) in
  ((dRow =? 1) && (dCol =? 2)) || ((dRow =? 2) && (dCol =? 1)).

Definition kingStep (s t : Z) : bool :=
  Z.max (Z.abs (s / 8 - t / 8)) (Z.abs (s mod 8 - t mod 8)) =? 1.

Definition tableRowOk (s : Z) : bool :=
  match tableAt KNIGHT_MOVES s, tableAt KING_MOVES s with
  | Some n, Some k =>
      (0 <=? n) && (n <? 2 ^ 64) && (0 <=? k) && (k <? 2 ^ 64)
      && forallb (fun i : nat =>
                    Bool.eqb (Z.testbit n (Z.of_nat i))
                             (knightJump s (Z.of_nat i))
                    && Bool.eqb (Z.testbit k (Z.of_nat i))
                                (kingStep s (Z.of_nat i)))
                 (seq 0 64)
  | _, _ => false
  end.

Lemma move_tables_ok :
  forallb (fun n : nat => tableRowOk (Z.of_nat n)) (seq 0 64) = true.
Proof. vm_compute. reflexivity. Qed.

(** [KNIGHT_MOVES[s]] holds exactly the squares a knight's jump away from
    [s], and [KING_MOVES[s]] exactly the squares next to [s]; reading
    either table at a square past 63 is out of bounds. *)
Theorem move_tables_spec (s t : Z) :
  0 <= s < 64 -> 0 <= t < 64 ->
  exists n k,
    tableAt KNIGHT_MOVES s = Some n /\ tableAt KING_MOVES s = Some k
    /\ u64 n /\ u64 k
    /\ Z.testbit n t = knightJump s t
    /\ Z.testbit k t = kingStep s t.
Proof.
  intros Hs Ht. pose proof move_tables_ok as H.
  rewrite forallb_forall in H. specialize (H (Z.to_nat s)).
  rewrite Z2Nat.id in H by lia.
  assert (Hin : In (Z.to_nat s) (seq 0 64)) by (apply in_seq; lia).
  apply H in Hin. clear H. unfold tableRowOk in Hin.
  destruct (tableAt KNIGHT_MOVES s) as [n|]; [|discriminate].
  destruct (tableAt KING_MOVES s) as [k|]; [|discriminate].
  exists n, k.
  apply andb_true_iff in Hin. destruct Hin as [Hin Hall].
  apply andb_true_iff in Hin. destruct Hin as [Hin Hk1].
  apply andb_true_iff in Hin. destruct Hin as [Hin Hk0].
  apply andb_true_iff in Hin. destruct Hin as [Hn0 Hn1].
  apply Z.leb_le in Hn0, Hk0. apply Z.ltb_lt in Hn1, Hk1.
  rewrite forallb_forall in Hall. specialize (Hall (Z.to_nat t)).
  rewrite Z2Nat.id in Hall by lia.
  assert (Hint : In (Z.to_nat t) (seq 0 64)) by (apply in_seq; lia).
  apply Hall in Hint. apply andb_true_iff in Hint.
  destruct Hint as [H1 H2]. apply Bool.eqb_prop in H1, H2.
  unfold u64. repeat split; assumption.
Qed.

Lemma move_tables_spec_witness :
  exists n k,
    tableAt KNIGHT_MOVES 1 = Some n /\ tableAt KING_MOVES 1 = Some k
    /\ Z.testbit n 16 = true /\ Z.testbit k 16 = false.
Proof.
  assert (H1 : 0 <= 1 < 64) by lia. assert (H16 : 0 <= 16 < 64) by lia.
  destruct (move_tables_spec 1 16 H1 H16)
    as (n & k & Hn & Hk & _ & _ & Hbn & Hbk).
  exists n, k. repeat split; assumption.
Defined.

(** ** Move generation needs the king of the side moving *)

Lemma getBlockerSquares_no_king (g : MoveGen) (isEngine : bool) (b : Board) :
  piece (position b) (ownKing isEngine) = 0 ->
  getBlockerSquares (tableSliders g) isEngine b = None.
Proof.
  intros H. unfold getBlockerSquares. cbv zeta.
  replace (if isEngine then piece (position b) ENGINE_KING
           else piece (position b) PLAYER_KING) with 0
    by (destruct isEngine; symmetry; exact H).
  reflexivity.
Qed.

Lemma isSafeSquare_off_board (g : MoveGen) (isEngine : bool) (b : Board) :
  isSafeSquare (tableSliders g) isEngine b 64 = None.
Proof. reflexivity. Qed.

(** With no king of the side moving on the board, [getLeastSquare] answers
    64 and the generator and [isKingInCheck] index [cardinals[64]], past
    the end of the array. *)
Theorem generation_needs_king (g : MoveGen) (isEngine : bool) (b : Board) :
  piece (position b) (ownKing isEngine) = 0 ->
  generateMoves (tableSliders g) isEngine b = None
  /\ isKingInCheck (tableSliders g) b isEngine = None.
Proof.
  intros H. split.
  - unfold generateMoves, getPins.
    rewrite (getBlockerSquares_no_king g isEngine b H). reflexivity.
  - unfold isKingInCheck.
    destruct isEngine; cbn [ownKing] in H; rewrite H;
      change (getLeastSquare 0) with 64;
      rewrite isSafeSquare_off_board; reflexivity.
Qed.

Lemma generation_needs_king_witness :
  generateMoves (tableSliders knownMoveGen) false scenario5Before = None.
Proof.
  apply (generation_needs_king knownMoveGen false scenario5Before).
  reflexivity.
Defined.

(** ** The piece types in the generated moves *)

Definition ownTypes (isEngine : bool) : list PieceType :=
  if isEngine then engineTypes else playerTypes.

Lemma firstTypeOn_In (p : Position) (mask : Z) (types : list PieceType)
    (t : PieceType) :
  firstTypeOn p mask types = Some t -> In t types.
Proof.
  induction types as [|x types IH]; cbn [firstTypeOn]; [discriminate|].
  destruct (nonzero _).
  - intros H. apply Some_inj in H. now left.
  - intros H. right. now apply IH.
Qed.

Lemma capturedOn_types (isEngine : bool) (b : Board) (square : Z)
    (c : PieceType) :
  capturedOn isEngine b square = Some c ->
  c = NONE \/ In c (ownTypes (negb isEngine)).
Proof.
  unfold capturedOn, getPlayerPieceType, getEnginePieceType.
  destruct isEngine; cbv zeta; destruct (nonzero _);
    intros H;
    try (apply Some_inj in H; now left);
    right; exact (firstTypeOn_In _ _ _ _ H).
Qed.

Lemma generatePawnMoves_captured (sliders : Sliders) (isEngine : bool)
    (b : Board) (k : Pins) (l : list Move) (m : Move) :
  generatePawnMoves sliders isEngine b k = Some l -> In m l ->
  (type m = EN_PASSANT -> captured m = enemyPawn isEngine)
  /\ (captured m = NONE \/ In (captured m) (ownTypes (negb isEngine))).
Proof.
  intros H Hin. unfold generatePawnMoves in H. cbv zeta in H.
  apply bind_Some in H. destruct H as (lefts & Hl & H).
  apply bind_Some in H. destruct H as (rights & Hr & H).
  apply bind_Some in H. destruct H as (enPassants & He & H).
  apply Some_inj in H. subst l.
  apply in_app_or in Hin. destruct Hin as [Hin|Hin].
  { apply in_app_or in Hin. destruct Hin as [Hin|Hin].
    - apply pawnSinglePushes_In in Hin.
      destruct Hin as (Ht & _ & Hc & _). split; [congruence|now left].
    - apply pawnDoublePushes_In in Hin.
      destruct Hin as (Ht & _ & Hc & _). split; [congruence|now left]. }
  apply in_app_or in Hin. destruct Hin as [Hin|Hin].
  { destruct (pawnCaptures_In _ _ _ _ _ _ _ Hl Hin) as (Ht & _ & Hc & _).
    split; [congruence|exact (capturedOn_types _ _ _ _ Hc)]. }
  apply in_app_or in Hin. destruct Hin as [Hin|Hin].
  { destruct (pawnCaptures_In _ _ _ _ _ _ _ Hr Hin) as (Ht & _ & Hc & _).
    split; [congruence|exact (capturedOn_types _ _ _ _ Hc)]. }
  assert (Hep : m = mkMove EN_PASSANT (from m) (to m) (ownPawn isEngine)
                      (enemyPawn isEngine)).
  { destruct (nonzero (enPassantCapture (position b)));
      [|apply Some_inj in He; subst enPassants; contradiction].
    apply bind_Some in He. destruct He as (rightMoves & Hrm & He).
    apply bind_Some in He. destruct He as (leftMoves & Hlm & He).
    apply Some_inj in He. subst enPassants.
    apply in_app_or in Hin. destruct Hin as [Hin|Hin].
    - destruct (nonzero _) in Hrm;
        [|apply Some_inj in Hrm; subst rightMoves; contradiction].
      rewrite (enPassantMove_In _ _ _ _ _ _ _ _ Hrm Hin). reflexivity.
    - destruct (nonzero _) in Hlm;
        [|apply Some_inj in Hlm; subst leftMoves; contradiction].
      rewrite (enPassantMove_In _ _ _ _ _ _ _ _ Hlm Hin). reflexivity. }
  rewrite Hep. cbn [type captured]. split; [reflexivity|right].
  destruct isEngine; cbn; tauto.
Qed.

Lemma generateMoves_types (sliders : Sliders) (isEngine : bool)
    (b : Board) (moves : list Move) (m : Move) :
  generateMoves sliders isEngine b = Some moves -> In m moves ->
  In (moving m) (ownTypes isEngine)
  /\ (captured m = NONE \/ In (captured m) (ownTypes (negb isEngine)))
  /\ (type m <> NORMAL -> moving m = ownPawn isEngine)
  /\ (type m = EN_PASSANT -> captured m = enemyPawn isEngine).
Proof.
  intros H Hin.
  destruct (generateMoves_In _ _ _ _ _ H Hin)
    as [[Hpawn _]|(mover & Hmover & Ht & Hm & Hc)].
  - unfold generateMoves in H.
    apply bind_Some in H. destruct H as (k & _ & H).
    apply bind_Some in H. destruct H as (pawnMoves & Hp & H).
    apply bind_Some in H. destruct H as (knightMoves & Hn & H).
    apply bind_Some in H. destruct H as (kingMoves & Hk & H).
    apply bind_Some in H. destruct H as (bishopMoves & Hb & H).
    apply bind_Some in H. destruct H as (rookMoves & Hr & H).
    apply bind_Some in H. destruct H as (queenMoves & Hq & H).
    apply Some_inj in H. subst moves.
    split; [rewrite Hpawn; destruct isEngine; cbn; tauto|].
    apply in_app_or in Hin. destruct Hin as [Hin|Hin].
    + destruct (generatePawnMoves_captured _ _ _ _ _ _ Hp Hin) as [He Hc].
      split; [exact Hc|]. split; [intros _; exact Hpawn|exact He].
    + assert (Hshape : exists mover, pieceMoveShape isEngine b mover m
                                     /\ mover <> ownPawn isEngine).
      { apply in_app_or in Hin. destruct Hin as [Hin|Hin];
          [exists (ownKnight isEngine); split;
             [exact (generateKnightMoves_In _ _ _ _ _ Hn Hin)
             |destruct isEngine; discriminate]|].
        apply in_app_or in Hin. destruct Hin as [Hin|Hin];
          [exists (ownKing isEngine); split;
             [exact (generateKingMoves_In _ _ _ _ _ Hk Hin)
             |destruct isEngine; discriminate]|].
        apply in_app_or in Hin. destruct Hin as [Hin|Hin];
          [exists (ownBishop isEngine); split;
             [exact (generateBishopMoves_In _ _ _ _ _ _ Hb Hin)
             |destruct isEngine; discriminate]|].
        apply in_app_or in Hin. destruct Hin as [Hin|Hin];
          [exists (ownRook isEngine); split;
             [exact (generateRookMoves_In _ _ _ _ _ _ Hr Hin)
             |destruct isEngine; discriminate]|].
        exists (ownQueen isEngine). split;
          [exact (generateQueenMoves_In _ _ _ _ _ _ Hq Hin)
          |destruct isEngine; discriminate]. }
      destruct Hshape as (mover & (_ & Hm & _) & Hne). congruence.
  - split.
    { rewrite Hm. destruct isEngine;
        cbn [In ownKnight ownKing ownBishop ownRook ownQueen] in Hmover;
        cbn; intuition (subst; auto). }
    split; [exact (capturedOn_types _ _ _ _ Hc)|].
    split; intros Hty; congruence.
Qed.

(** Every generated move moves a piece type of the side moving and takes
    nothing or a piece type of the other side; promotions and en passant
    captures are pawn moves, and an en passant capture takes a pawn. *)
Theorem generated_move_types (sliders : Sliders) (isEngine : bool)
    (b : Board) (moves : list Move) (m : Move) :
  generateMoves sliders isEngine b = Some moves -> In m moves ->
  In (moving m) (ownTypes isEngine)
  /\ (captured m = NONE \/ In (captured m) (ownTypes (negb isEngine)))
  /\ (type m <> NORMAL -> moving m = ownPawn isEngine)
  /\ (type m = EN_PASSANT -> captured m = enemyPawn isEngine).
Proof. exact (generateMoves_types sliders isEngine b moves m). Qed.

Lemma generated_move_types_witness :
  exists moves,
    generateMoves (tableSliders knownMoveGen) true besideDoublePush
    = Some moves
    /\ In (moving doublePush) (ownTypes true).
Proof.
  destruct (besideDoublePush_moves knownRand knownMoveGen knownMoveGen_built)
    as (moves & Hgen & Hin).
  apply existsb_Move_In in Hin. exists moves. split; [exact Hgen|].
  exact (proj1 (generated_move_types (tableSliders knownMoveGen) true
                  besideDoublePush moves doublePush Hgen Hin)).
Defined.

(** ** Sliding attacks stay on the lines and shrink under blockers *)

Definition subBoard (x y : Z) : Prop :=
  forall i, 0 <= i -> Z.testbit x i = true -> Z.testbit y i = true.

Lemma nonzero_land_sub (a blk blk' : Z) :
  subBoard blk blk' -> nonzero (Z.land a blk) = true ->
  nonzero (Z.land a blk') = true.
Proof.
  intros Hsub H. apply nonzero_true in H. apply nonzero_true. intros H0.
  apply H. apply Z.bits_inj'. intros i Hi. rewrite Z.bits_0, Z.land_spec.
  destruct (Z.testbit a i) eqn:Ha; [|reflexivity].
  destruct (Z.testbit blk i) eqn:Hb; [|reflexivity].
  pose proof (f_equal (fun z => Z.testbit z i) H0) as Hc. cbv beta in Hc.
  rewrite Z.land_spec, Ha, (Hsub i Hi Hb), Z.bits_0 in Hc. discriminate.
Qed.

(** More blockers and fewer squares to start with give fewer attacks. *)
Lemma rayLoop_mono (inside : Z -> Z -> bool) (dRow dCol blk blk' : Z)
    (fuel : nat) (row col attacks attacks' : Z) :
  subBoard blk blk' -> subBoard attacks' attacks ->
  subBoard (rayLoop fuel inside dRow dCol row col blk' true attacks')
           (rayLoop fuel inside dRow dCol row col blk true attacks).
Proof.
  intros Hblk. revert row col attacks attacks'.
  induction fuel as [|fuel IH]; intros row col attacks attacks' Hatt;
    cbn [rayLoop]; [exact Hatt|].
  destruct (inside row col); [|exact Hatt].
  assert (H1 : subBoard (Z.lor attacks' (boardOf (row * 8 + col)))
                        (Z.lor attacks (boardOf (row * 8 + col)))).
  { intros i Hi. rewrite !Z.lor_spec. intros H.
    apply orb_true_iff in H. apply orb_true_iff.
    destruct H as [H|H]; [left; now apply Hatt|now right]. }
  assert (H2 : subBoard
                 (Z.lor (Z.lor attacks' (boardOf (row * 8 + col)))
                        (boardOf (row * 8 + col)))
                 (Z.lor (Z.lor attacks (boardOf (row * 8 + col)))
                        (boardOf (row * 8 + col)))).
  { rewrite <- !Z.lor_assoc, Z.lor_diag. exact H1. }
  destruct (nonzero (Z.land (boardOf (row * 8 + col)) blk)) eqn:Hb.
  - rewrite (nonzero_land_sub _ _ _ Hblk Hb). exact H1.
  - destruct (nonzero (Z.land (boardOf (row * 8 + col)) blk')).
    + intros i Hi H. apply rayLoop_keeps.
      rewrite <- Z.lor_assoc, Z.lor_diag. now apply H1.
    + now apply IH.
Qed.

Lemma subBoard_refl (x : Z) : subBoard x x.
Proof. intros i _ H. exact H. Qed.

Lemma getRookAttacks_mono (s blk blk' : Z) :
  subBoard blk blk' ->
  subBoard (getRookAttacks s blk' true) (getRookAttacks s blk true).
Proof.
  intros H. unfold getRookAttacks. cbv zeta.
  repeat apply rayLoop_mono; try exact H. apply subBoard_refl.
Qed.

Lemma getBishopAttacks_mono (s blk blk' : Z) :
  subBoard blk blk' ->
  subBoard (getBishopAttacks s blk' true) (getBishopAttacks s blk true).
Proof.
  intros H. unfold getBishopAttacks. cbv zeta.
  repeat apply rayLoop_mono; try exact H. apply subBoard_refl.
Qed.

(** [t] is on the row or the column of [s], and is not [s]. *)
Definition onRookLine (s t : Z) : bool :=
  negb (s =? t) && ((s / 8 =? t / 8) || (s mod 8 =? t mod 8)).

(** [t] is on a diagonal through [s], and is not [s]. *)
Definition onBishopLine (s t : Z) : bool :=
  negb (s =? t)
  && (Z.abs (s / 8 - t / 8) =? Z.abs (s mod 8 - t mod 8)).

Lemma open_board_attacks :
  forallb (fun n : nat =>
    let s := Z.of_nat n in
    forallb (fun i : nat =>
               let t := Z.of_nat i in
               Bool.eqb (Z.testbit (getRookAttacks s 0 true) t)
                        (onRookLine s t)
               && Bool.eqb (Z.testbit (getBishopAttacks s 0 true) t)
                           (onBishopLine s t))
            (seq 0 64))
    (seq 0 64) = true.
Proof. vm_compute. reflexivity. Qed.

Lemma open_board_attack (s t : Z) :
  0 <= s < 64 -> 0 <= t < 64 ->
  Z.testbit (getRookAttacks s 0 true) t = onRookLine s t
  /\ Z.testbit (getBishopAttacks s 0 true) t = onBishopLine s t.
Proof.
  intros Hs Ht. pose proof open_board_attacks as H.
  rewrite forallb_forall in H. specialize (H (Z.to_nat s)).
  assert (Hin : In (Z.to_nat s) (seq 0 64)) by (apply in_seq; lia).
  apply H in Hin. clear H. cbv zeta in Hin. rewrite Z2Nat.id in Hin by lia.
  rewrite forallb_forall in Hin. specialize (Hin (Z.to_nat t)).
  assert (Hint : In (Z.to_nat t) (seq 0 64)) by (apply in_seq; lia).
  apply Hin in Hint. rewrite Z2Nat.id in Hint by lia.
  apply andb_true_iff in Hint. destruct Hint as [H1 H2].
  apply Bool.eqb_prop in H1, H2. split; assumption.
Qed.

(** On an empty board a rook attacks its row and column and a bishop its
    diagonals, without the square it stands on.  Blockers only take squares
    away: whatever the blockers, the attacks are among those squares, and a
    larger set of blockers never gives more attacks. *)
Theorem sliding_attacks_confined (s blk blk' t : Z) :
  0 <= s < 64 -> 0 <= t < 64 ->
  (forall i, 0 <= i -> Z.testbit blk i = true -> Z.testbit blk' i = true) ->
  Z.testbit (getRookAttacks s 0 true) t = onRookLine s t
  /\ Z.testbit (getBishopAttacks s 0 true) t = onBishopLine s t
  /\ (Z.testbit (getRookAttacks s blk' true) t = true ->
      Z.testbit (getRookAttacks s blk true) t = true
      /\ onRookLine s t = true)
  /\ (Z.testbit (getBishopAttacks s blk' true) t = true ->
      Z.testbit (getBishopAttacks s blk true) t = true
      /\ onBishopLine s t = true).
Proof.
  intros Hs Ht Hsub. destruct (open_board_attack s t Hs Ht) as [Hr Hb].
  assert (H0 : forall x, subBoard 0 x).
  { intros x i _ H. rewrite Z.bits_0 in H. discriminate. }
  split; [exact Hr|]. split; [exact Hb|]. split; intros H.
  - split; [apply (getRookAttacks_mono s blk blk' Hsub t); lia || exact H|].
    rewrite <- Hr. apply (getRookAttacks_mono s 0 blk' (H0 blk') t);
      lia || exact H.
  - split; [apply (getBishopAttacks_mono s blk blk' Hsub t); lia || exact H|].
    rewrite <- Hb. apply (getBishopAttacks_mono s 0 blk' (H0 blk') t);
      lia || exact H.
Qed.

Lemma sliding_attacks_confined_witness :
  Z.testbit (getRookAttacks 27 (boardOf 29) true) 29 = true
  /\ Z.testbit (getRookAttacks 27 0 true) 29 = true
  /\ onRookLine 27 29 = true.
Proof.
  assert (Hs : 0 <= 27 < 64) by lia. assert (Ht : 0 <= 29 < 64) by lia.
  assert (Hsub : forall i, 0 <= i -> Z.testbit 0 i = true ->
                 Z.testbit (boardOf 29) i = true).
  { intros i _ H. rewrite Z.bits_0 in H. discriminate. }
  assert (Hattacked : Z.testbit (getRookAttacks 27 (boardOf 29) true) 29
                      = true) by (vm_compute; reflexivity).
  destruct (sliding_attacks_confined 27 0 (boardOf 29) 29 Hs Ht Hsub)
    as (_ & _ & H2 & _).
  split; [exact Hattacked|exact (H2 Hattacked)].
Defined.

(** ** random64 *)

Lemma random64Loop_bits (rand : Z -> Z) (count : nat)
    (index drawn generated i : Z) :
  0 <= index -> index + Z.of_nat count <= 64 -> 0 <= i ->
  Z.testbit (random64Loop rand count index drawn generated) i
  = Z.testbit generated i
    || ((index <=? i) && (i <? index + Z.of_nat count)
        && (rand (drawn + (i - index)) mod 2 =? 0)).
Proof.
  revert index drawn generated.
  induction count as [|count IH]; intros index drawn generated H0 H64 Hi.
  - cbn [random64Loop]. rewrite Z.add_0_r.
    destruct (Z.leb_spec index i), (Z.ltb_spec i index); try lia;
      now rewrite orb_false_r.
  - cbn [random64Loop]. rewrite IH by lia.
    rewrite Nat2Z.inj_succ.
    assert (Hbit : Z.testbit (shl64 1 index) i = (i =? index)).
    { apply (testbit_boardOf index i); lia. }
    destruct (Z.eq_dec i index) as [->|Hne].
    + replace (index - index) with 0 by lia. rewrite Z.add_0_r.
      destruct (Z.leb_spec (index + 1) index); [lia|].
      destruct (Z.leb_spec index index); [|lia].
      destruct (Z.ltb_spec index (index + Z.succ (Z.of_nat count))); [|lia].
      cbn [andb]. rewrite orb_false_r.
      destruct (rand drawn mod 2 =? 0).
      * rewrite Z.lor_spec, Hbit, Z.eqb_refl. now rewrite orb_true_r.
      * now rewrite orb_false_r.
    + replace (drawn + 1 + (i - (index + 1))) with (drawn + (i - index))
        by lia.
      assert (Hg : Z.testbit (if rand drawn mod 2 =? 0
                              then Z.lor generated (shl64 1 index)
                              else generated) i = Z.testbit generated i).
      { destruct (rand drawn mod 2 =? 0); [|reflexivity].
        rewrite Z.lor_spec, Hbit.
        destruct (Z.eqb_spec i index); [contradiction|apply orb_false_r]. }
      rewrite Hg. f_equal. f_equal.
      destruct (Z.leb_spec (index + 1) i), (Z.leb_spec index i),
        (Z.ltb_spec i (index + 1 + Z.of_nat count)),
        (Z.ltb_spec i (index + Z.succ (Z.of_nat count))); try lia;
        reflexivity.
Qed.

(** [random64] makes 64 draws of [rand()] and returns the 64-bit value
    whose bit [i] is set exactly when the draw number [i] of them is
    even. *)
Theorem random64_spec (rand : Z -> Z) (drawn : Z) :
  snd (random64 rand drawn) = drawn + 64
  /\ (forall i, 0 <= i ->
      Z.testbit (fst (random64 rand drawn)) i
      = (i <? 64) && (rand (drawn + i) mod 2 =? 0)).
Proof.
  split; [reflexivity|]. intros i Hi. unfold random64.
  change (fst (random64Loop rand 64 0 drawn 0, drawn + 64))
    with (random64Loop rand 64 0 drawn 0).
  rewrite random64Loop_bits by (change (Z.of_nat 64) with 64; lia).
  change (Z.of_nat 64) with 64.
  rewrite Z.bits_0, Z.sub_0_r, Z.add_0_l. cbn [orb].
  destruct (Z.leb_spec 0 i); [reflexivity|lia].
Qed.

Lemma random64_spec_witness :
  Z.testbit (fst (random64 (fun n => 3 * n) 10)) 2
  = (2 <? 64) && ((3 * (10 + 2)) mod 2 =? 0).
Proof.
  apply (proj2 (random64_spec (fun n => 3 * n) 10) 2). lia.
Defined.

(** ** Where the generated moves start and land *)

(** The bitboards of the board are [uint64_t] values. *)
Definition boards64 (b : Board) : Prop :=
  (forall t, u64 (piece (position b) t))
  /\ u64 (emptySquares b) /\ u64 (playerPieces b) /\ u64 (enginePieces b)
  /\ u64 (playerOrEmpty b) /\ u64 (engineOrEmpty b).

Definition enemyBoard (isEngine : bool) (b : Board) : Z :=
  if isEngine then playerPieces b else enginePieces b.

Ltac split_land H :=
  repeat (rewrite Z.land_spec in H; apply andb_true_iff in H;
          let H' := fresh "Hbit" in destruct H as [H H']).

Lemma wrap8_small (z : Z) : 0 <= z < 256 -> wrap8 z = z.
Proof.
  intros H. unfold wrap8. change 0xFF with (Z.ones 8).
  rewrite Z.land_ones by lia. apply Z.mod_small. exact H.
Qed.

Lemma testbit_true_nonneg (x i : Z) : Z.testbit x i = true -> 0 <= i.
Proof.
  intros H. destruct (Z.lt_ge_cases i 0) as [Hneg|]; [|assumption].
  rewrite Z.testbit_neg_r in H by exact Hneg. discriminate.
Qed.

Lemma u64_testbit_range (x i : Z) :
  u64 x -> Z.testbit x i = true -> 0 <= i < 64.
Proof.
  intros Hx H. split; [exact (testbit_true_nonneg x i H)|].
  destruct (Z.lt_ge_cases i 64) as [|Hge]; [assumption|].
  rewrite (u64_testbit_high x i Hx Hge) in H. discriminate.
Qed.

(** A set bit of the pawns shifted forward comes from a pawn that many
    squares behind it. *)
Lemma shifted_origin (isEngine : bool) (x d target : Z) :
  u64 x -> 0 < d -> 0 <= target ->
  Z.testbit (if isEngine then shl64 x d else shr64 x d) target = true ->
  let origin := target + (if isEngine then - d else d) in
  0 <= origin < 64 /\ Z.testbit x origin = true.
Proof.
  intros Hx Hd Ht H origin. subst origin. destruct isEngine.
  - rewrite testbit_shl64 in H by exact Ht.
    apply andb_true_iff in H. destruct H as [H _].
    replace (target + - d) with (target - d) by lia.
    split; [exact (u64_testbit_range x _ Hx H)|exact H].
  - rewrite testbit_shr64 in H by exact Ht.
    split; [exact (u64_testbit_range x _ Hx H)|exact H].
Qed.

Lemma popBitboards_In (fuel : nat) (x q : Z) :
  u64 x -> In q (popBitboards fuel x) ->
  exists s, 0 <= s < 64 /\ q = boardOf s /\ Z.testbit x s = true.
Proof.
  revert x. induction fuel as [|fuel IH]; intros x Hx Hin;
    cbn [popBitboards] in Hin; [contradiction|].
  destruct (Z.eqb_spec x 0) as [|Hne]; [contradiction|].
  rewrite popLeastBitboard_eq in Hin by assumption.
  destruct Hin as [<-|Hin].
  - exists (tzcnt64 x). split; [now apply tzcnt64_range|].
    split; [reflexivity|]. apply tzcnt64_testbit. now apply u64_pos.
  - destruct (IH _ (clearLeast_u64 x Hx) Hin) as (s & Hs & Hq & Hb).
    exists s. split; [exact Hs|]. split; [exact Hq|].
    rewrite testbit_clearLeast in Hb by (assumption || lia).
    now apply andb_true_iff in Hb.
Qed.

Lemma getLeastSquare_boardOf (s : Z) :
  0 <= s < 64 -> getLeastSquare (boardOf s) = s.
Proof.
  intros Hs. unfold getLeastSquare.
  assert (Hne : boardOf s <> 0).
  { rewrite boardOf_pow2 by exact Hs.
    pose proof (Z.pow_pos_nonneg 2 s ltac:(lia) ltac:(lia)). lia. }
  pose proof (tzcnt64_range _ (boardOf_u64 s) Hne) as Hr.
  pose proof (tzcnt64_testbit (boardOf s)
                (u64_pos _ (boardOf_u64 s) Hne)) as Hb.
  rewrite testbit_boardOf in Hb by lia. now apply Z.eqb_eq in Hb.
Qed.

Lemma targets_sub (reach targets blockerBoard : Z) :
  u64 targets ->
  u64 (Z.land (Z.land reach targets) blockerBoard)
  /\ subBoard (Z.land (Z.land reach targets) blockerBoard) targets.
Proof.
  intros Hu. split; [apply land_u64_l, land_u64_r; exact Hu|].
  intros i _ H. split_land H. assumption.
Qed.

Lemma targets_sub_pinned (c : bool) (reach targets blockerBoard pins : Z) :
  u64 targets ->
  u64 (if c
       then Z.land (Z.land (Z.land reach targets) blockerBoard) pins
       else Z.land (Z.land reach targets) blockerBoard)
  /\ subBoard (if c
               then Z.land (Z.land (Z.land reach targets) blockerBoard) pins
               else Z.land (Z.land reach targets) blockerBoard)
              targets.
Proof.
  intros Hu. destruct (targets_sub reach targets blockerBoard Hu) as [H1 H2].
  destruct c; [|split; assumption].
  split; [now apply land_u64_l|].
  intros i Hi H. rewrite Z.land_spec in H. apply andb_true_iff in H.
  destruct H as [H _]. now apply H2.
Qed.

Lemma targets_u64 (isEngine : bool) (b : Board) :
  boards64 b -> u64 (ownOrEmptyTargets isEngine b).
Proof. intros (_ & _ & _ & _ & Hp & He). now destruct isEngine. Qed.

(** A move [pushMoves] makes from a board of target squares. *)
Lemma pushMoves_squares (isEngine : bool) (b : Board) (origin : Z)
    (mover : PieceType) (moves targets : Z) (l : list Move) (m : Move) :
  u64 moves /\ subBoard moves targets ->
  pushMoves isEngine b origin mover moves = Some l -> In m l ->
  from m = origin /\ moving m = mover
  /\ 0 <= to m < 64 /\ Z.testbit targets (to m) = true.
Proof.
  intros [Hu Hsub] H Hin.
  destruct (pushMoves_In _ _ _ _ _ _ _ H Hin) as (_ & Hf & Hm & Hto & _).
  split; [exact Hf|]. split; [exact Hm|].
  destruct (squaresOf_In _ _ Hu Hto) as [Hr Hb].
  split; [exact Hr|]. apply Hsub; [lia|exact Hb].
Qed.

(** What the theorem says of a move of a knight, bishop, rook or queen. *)
Definition pieceSquares (isEngine : bool) (b : Board) (mover : PieceType)
    (m : Move) : Prop :=
  moving m = mover
  /\ 0 <= from m < 64
  /\ Z.testbit (piece (position b) mover) (from m) = true
  /\ 0 <= to m < 64
  /\ Z.testbit (ownOrEmptyTargets isEngine b) (to m) = true.

Lemma generateKnightMoves_squares (isEngine : bool) (b : Board) (k : Pins)
    (l : list Move) (m : Move) :
  boards64 b ->
  generateKnightMoves isEngine b k = Some l -> In m l ->
  pieceSquares isEngine b (ownKnight isEngine) m.
Proof.
  intros Hb H Hin. pose proof (targets_u64 isEngine b Hb) as Hu.
  destruct Hb as (Hp & _).
  unfold generateKnightMoves in H. cbv zeta in H.
  destruct (concatM_In _ _ _ _ _ _ H Hin) as (s & cs & Hs & Hcs & Hm).
  apply bind_Some in Hcs. destruct Hcs as (x & _ & Hcs).
  destruct (pushMoves_squares _ _ _ _ _ _ _ _ (targets_sub _ _ _ Hu) Hcs Hm)
    as (Hf & Hmv & Hto & Hbit).
  apply squaresOf_In in Hs;
    [|apply land_u64_l; destruct isEngine; apply Hp].
  destruct Hs as [Hr Hsb]. split_land Hsb.
  unfold pieceSquares. rewrite Hf.
  repeat split;
    first [assumption | lia | (destruct isEngine; exact Hsb)].
Qed.

Lemma generateBishopMoves_squares (sliders : Sliders) (isEngine : bool)
    (b : Board) (k : Pins) (l : list Move) (m : Move) :
  boards64 b ->
  generateBishopMoves sliders isEngine b k = Some l -> In m l ->
  pieceSquares isEngine b (ownBishop isEngine) m.
Proof.
  intros Hb H Hin. pose proof (targets_u64 isEngine b Hb) as Hu.
  destruct Hb as (Hp & _).
  unfold generateBishopMoves in H. cbv zeta in H.
  destruct (concatM_In _ _ _ _ _ _ H Hin) as (s & cs & Hs & Hcs & Hm).
  apply bind_Some in Hcs. destruct Hcs as (x & _ & Hcs).
  apply bind_Some in Hcs. destruct Hcs as (y & _ & Hcs).
  destruct (pushMoves_squares _ _ _ _ _ _ _ _
              (targets_sub_pinned _ _ _ _ _ Hu) Hcs Hm)
    as (Hf & Hmv & Hto & Hbit).
  apply squaresOf_In in Hs;
    [|apply land_u64_l; destruct isEngine; apply Hp].
  destruct Hs as [Hr Hsb]. split_land Hsb.
  unfold pieceSquares. rewrite Hf.
  repeat split;
    first [assumption | lia | (destruct isEngine; exact Hsb)].
Qed.

Lemma generateRookMoves_squares (sliders : Sliders) (isEngine : bool)
    (b : Board) (k : Pins) (l : list Move) (m : Move) :
  boards64 b ->
  generateRookMoves sliders isEngine b k = Some l -> In m l ->
  pieceSquares isEngine b (ownRook isEngine) m.
Proof.
  intros Hb H Hin. pose proof (targets_u64 isEngine b Hb) as Hu.
  destruct Hb as (Hp & _).
  unfold generateRookMoves in H. cbv zeta in H.
  destruct (concatM_In _ _ _ _ _ _ H Hin) as (s & cs & Hs & Hcs & Hm).
  apply bind_Some in Hcs. destruct Hcs as (x & _ & Hcs).
  apply bind_Some in Hcs. destruct Hcs as (y & _ & Hcs).
  destruct (pushMoves_squares _ _ _ _ _ _ _ _
              (targets_sub_pinned _ _ _ _ _ Hu) Hcs Hm)
    as (Hf & Hmv & Hto & Hbit).
  apply squaresOf_In in Hs;
    [|apply land_u64_l; destruct isEngine; apply Hp].
  destruct Hs as [Hr Hsb]. split_land Hsb.
  unfold pieceSquares. rewrite Hf.
  repeat split;
    first [assumption | lia | (destruct isEngine; exact Hsb)].
Qed.

Lemma generateQueenMoves_squares (sliders : Sliders) (isEngine : bool)
    (b : Board) (k : Pins) (l : list Move) (m : Move) :
  boards64 b ->
  generateQueenMoves sliders isEngine b k = Some l -> In m l ->
  pieceSquares isEngine b (ownQueen isEngine) m.
Proof.
  intros Hb H Hin. pose proof (targets_u64 isEngine b Hb) as Hu.
  destruct Hb as (Hp & _).
  unfold generateQueenMoves in H. cbv zeta in H.
  destruct (concatM_In _ _ _ _ _ _ H Hin) as (q & cs & Hq & Hcs & Hm).
  apply bind_Some in Hcs. destruct Hcs as (x & _ & Hcs).
  apply bind_Some in Hcs. destruct Hcs as (y & _ & Hcs).
  destruct (pushMoves_squares _ _ _ _ _ _ _ _ (targets_sub _ _ _ Hu) Hcs Hm)
    as (Hf & Hmv & Hto & Hbit).
  apply popBitboards_In in Hq; [|destruct isEngine; apply Hp].
  destruct Hq as (s & Hs & -> & Hsb).
  rewrite getLeastSquare_boardOf in Hf by exact Hs.
  unfold pieceSquares. rewrite Hf.
  repeat split;
    first [assumption | lia | (destruct isEngine; exact Hsb)].
Qed.

Lemma tzcnt64_on_board (x : Z) :
  tzcnt64 x < 64 -> Z.testbit x (tzcnt64 x) = true.
Proof.
  destruct x as [|p|p]; cbn [tzcnt64]; try lia. intros _.
  apply pos_ctz_testbit.
Qed.

Lemma tableAt_Some (table : list Z) (square v : Z) :
  tableAt table square = Some v -> 0 <= square < 64.
Proof.
  unfold tableAt. destruct (_ && _) eqn:E; [|discriminate]. intros _.
  apply andb_true_iff in E. destruct E as [E1 E2].
  apply Z.leb_le in E1. apply Z.ltb_lt in E2. lia.
Qed.

Lemma generateKingMoves_from (sliders : Sliders) (isEngine : bool)
    (b : Board) (l : list Move) (m : Move) :
  generateKingMoves sliders isEngine b = Some l -> In m l ->
  moving m = ownKing isEngine
  /\ 0 <= from m < 64
  /\ Z.testbit (piece (position b) (ownKing isEngine)) (from m) = true.
Proof.
  intros H Hin. unfold generateKingMoves in H. cbv zeta in H.
  apply bind_Some in H. destruct H as (x1 & Ht & H).
  apply bind_Some in H. destruct H as (x2 & _ & H).
  apply bind_Some in H. destruct H as (x3 & _ & H).
  apply bind_Some in H. destruct H as (x4 & _ & H).
  destruct (pushMoves_In _ _ _ _ _ _ _ H Hin) as (_ & Hf & Hm & _).
  apply tableAt_Some in Ht. rewrite Hf.
  split; [exact Hm|]. split; [exact Ht|].
  apply tzcnt64_on_board. unfold getLeastSquare in Ht. lia.
Qed.

(** The capturing pawn of an en passant move, when the candidate board was
    found by shifting the pawns down ([shr64]) and the origin by shifting
    it back up. *)
Lemma enPassant_origin_up (ep pawns blockerBoard : Z) :
  u64 pawns ->
  let candidate := Z.land (Z.land ep (shr64 pawns 1)) blockerBoard in
  nonzero candidate = true ->
  let origin := getLeastSquare (shl64 candidate 1) in
  0 <= origin < 64 /\ Z.testbit pawns origin = true.
Proof.
  intros Hp candidate Hnz origin.
  assert (Hc : u64 candidate).
  { apply land_u64_l, land_u64_r, shr64_u64; [exact Hp|lia]. }
  apply nonzero_true in Hnz.
  assert (Hsub : forall i, Z.testbit (shl64 candidate 1) i = true ->
                 Z.testbit pawns i = true).
  { intros i H. pose proof (testbit_true_nonneg _ _ H) as Hi.
    rewrite testbit_shl64 in H by exact Hi.
    apply andb_true_iff in H. destruct H as [H _].
    pose proof (testbit_true_nonneg _ _ H) as Hi1.
    subst candidate. split_land H.
    rewrite testbit_shr64 in Hbit0 by exact Hi1.
    now replace (i - 1 + 1) with i in Hbit0 by lia. }
  assert (Hne : shl64 candidate 1 <> 0).
  { pose proof (tzcnt64_range _ Hc Hnz) as Hr.
    pose proof (tzcnt64_testbit _ (u64_pos _ Hc Hnz)) as Hb.
    set (j := tzcnt64 candidate) in *.
    assert (Hj : Z.testbit pawns (j + 1) = true).
    { subst candidate. split_land Hb.
      now rewrite testbit_shr64 in Hbit0 by lia. }
    pose proof (u64_testbit_range _ _ Hp Hj) as Hj1.
    apply (testbit_nonzero _ (j + 1)).
    rewrite testbit_shl64 by lia. replace (j + 1 - 1) with j by lia.
    rewrite Hb. apply Z.ltb_lt. lia. }
  pose proof (tzcnt64_range _ (shl64_u64 candidate 1) Hne) as Hr.
  split; [exact Hr|]. apply Hsub. apply tzcnt64_testbit.
  apply u64_pos; [apply shl64_u64|exact Hne].
Qed.

(** The same when the candidate was found by shifting the pawns up and the
    origin by shifting it back down. *)
Lemma enPassant_origin_down (ep pawns blockerBoard : Z) :
  u64 pawns ->
  let candidate := Z.land (Z.land ep (shl64 pawns 1)) blockerBoard in
  nonzero candidate = true ->
  let origin := getLeastSquare (shr64 candidate 1) in
  0 <= origin < 64 /\ Z.testbit pawns origin = true.
Proof.
  intros Hp candidate Hnz origin.
  assert (Hc : u64 candidate).
  { apply land_u64_l, land_u64_r, shl64_u64. }
  apply nonzero_true in Hnz.
  assert (Hsub : forall i, Z.testbit (shr64 candidate 1) i = true ->
                 Z.testbit pawns i = true).
  { intros i H. pose proof (testbit_true_nonneg _ _ H) as Hi.
    rewrite testbit_shr64 in H by exact Hi.
    subst candidate. split_land H.
    rewrite testbit_shl64 in Hbit0 by lia.
    apply andb_true_iff in Hbit0. destruct Hbit0 as [Hb _].
    now replace (i + 1 - 1) with i in Hb by lia. }
  assert (Hu : u64 (shr64 candidate 1)) by (apply shr64_u64; [exact Hc|lia]).
  assert (Hne : shr64 candidate 1 <> 0).
  { pose proof (tzcnt64_range _ Hc Hnz) as Hr.
    pose proof (tzcnt64_testbit _ (u64_pos _ Hc Hnz)) as Hb.
    set (j := tzcnt64 candidate) in *.
    assert (Hj : Z.testbit pawns (j - 1) = true).
    { subst candidate. split_land Hb.
      rewrite testbit_shl64 in Hbit0 by lia.
      now apply andb_true_iff in Hbit0. }
    pose proof (u64_testbit_range _ _ Hp Hj) as Hj1.
    apply (testbit_nonzero _ (j - 1)).
    rewrite testbit_shr64 by lia. replace (j - 1 + 1) with j by lia.
    exact Hb. }
  pose proof (tzcnt64_range _ Hu Hne) as Hr.
  split; [exact Hr|]. apply Hsub. apply tzcnt64_testbit.
  apply u64_pos; assumption.
Qed.

(** What the theorem says of a pawn move. *)
Definition pawnSquares (isEngine : bool) (b : Board) (m : Move) : Prop :=
  moving m = ownPawn isEngine
  /\ 0 <= from m < 64
  /\ Z.testbit (piece (position b) (ownPawn isEngine)) (from m) = true
  /\ (type m <> EN_PASSANT ->
      0 <= to m < 64
      /\ (Z.testbit (emptySquares b) (to m) = true
          \/ Z.testbit (enemyBoard isEngine b) (to m) = true)).

Lemma rank_u64 : u64 RANK2 /\ u64 RANK5.
Proof. split; apply shl64_u64. Qed.

Lemma pawn_single_push_squares (isEngine : bool) (b : Board) (k : Pins)
    (pawns : Z) (m : Move) :
  u64 pawns -> u64 (emptySquares b) ->
  In m (pawnSinglePushes isEngine k
          (Z.land
             (Z.land (if isEngine
                      then shl64 (Z.land pawns (not64 (ordinalPins k))) 8
                      else shr64 (Z.land pawns (not64 (ordinalPins k))) 8)
                     (emptySquares b))
             (blockerSquares k))) ->
  moving m = ownPawn isEngine /\ type m <> EN_PASSANT
  /\ 0 <= from m < 64 /\ Z.testbit pawns (from m) = true
  /\ 0 <= to m < 64 /\ Z.testbit (emptySquares b) (to m) = true.
Proof.
  intros Hp He Hin. apply pawnSinglePushes_In in Hin.
  destruct Hin as (Ht & Hm & _ & Hf & Hto).
  apply squaresOf_In in Hto; [|apply land_u64_l, land_u64_r; exact He].
  destruct Hto as [Hr Hb]. split_land Hb.
  destruct (shifted_origin isEngine _ 8 (to m)
              (land_u64_l _ (not64 (ordinalPins k)) Hp)
              ltac:(lia) ltac:(lia) Hb) as [Ho Hob].
  cbn [Z.opp] in Ho, Hob. split_land Hob.
  rewrite wrap8_small in Hf by (destruct isEngine; lia).
  rewrite Hf. repeat split; assumption || lia.
Qed.

Lemma pawn_double_push_squares (isEngine : bool) (b : Board) (k : Pins)
    (pawns : Z) (m : Move) :
  u64 pawns -> u64 (emptySquares b) ->
  In m (pawnDoublePushes isEngine k
          (Z.land
             (Z.land
                (if isEngine
                 then shl64
                        (Z.land
                           (Z.land
                              (shl64 (Z.land pawns (not64 (ordinalPins k))) 8)
                              (emptySquares b)) RANK2) 8
                 else shr64
                        (Z.land
                           (Z.land
                              (shr64 (Z.land pawns (not64 (ordinalPins k))) 8)
                              (emptySquares b)) RANK5) 8)
                (emptySquares b))
             (blockerSquares k))) ->
  moving m = ownPawn isEngine /\ type m <> EN_PASSANT
  /\ 0 <= from m < 64 /\ Z.testbit pawns (from m) = true
  /\ 0 <= to m < 64 /\ Z.testbit (emptySquares b) (to m) = true.
Proof.
  intros Hp He Hin. apply pawnDoublePushes_In in Hin.
  destruct Hin as (Ht & Hm & _ & Hf & Hto).
  apply squaresOf_In in Hto; [|apply land_u64_l, land_u64_r; exact He].
  destruct Hto as [Hr Hb]. split_land Hb.
  destruct rank_u64 as [H2 H5].
  assert (Hmid : 0 <= to m + (if isEngine then -8 else 8) < 64
                 /\ Z.testbit
                      (if isEngine
                       then shl64 (Z.land pawns (not64 (ordinalPins k))) 8
                       else shr64 (Z.land pawns (not64 (ordinalPins k))) 8)
                      (to m + (if isEngine then -8 else 8)) = true).
  { destruct isEngine.
    - destruct (shifted_origin true _ 8 (to m)
                  (land_u64_r (Z.land (shl64 (Z.land pawns
                                                (not64 (ordinalPins k))) 8)
                                      (emptySquares b)) RANK2 H2)
                  ltac:(lia) ltac:(lia) Hb) as [Ho Hob].
      cbn [Z.opp] in Ho, Hob. split_land Hob. split; assumption.
    - destruct (shifted_origin false _ 8 (to m)
                  (land_u64_r (Z.land (shr64 (Z.land pawns
                                                (not64 (ordinalPins k))) 8)
                                      (emptySquares b)) RANK5 H5)
                  ltac:(lia) ltac:(lia) Hb) as [Ho Hob].
      cbn [Z.opp] in Ho, Hob. split_land Hob. split; assumption. }
  destruct Hmid as [Hmr Hmb].
  destruct (shifted_origin isEngine _ 8
              (to m + (if isEngine then -8 else 8))
              (land_u64_l _ (not64 (ordinalPins k)) Hp)
              ltac:(lia) ltac:(lia) Hmb) as [Ho Hob].
  cbn [Z.opp] in Ho, Hob. split_land Hob.
  assert (Hfrom : from m = to m + (if isEngine then -8 else 8)
                           + (if isEngine then -8 else 8)).
  { rewrite Hf. rewrite wrap8_small by (destruct isEngine; lia).
    destruct isEngine; lia. }
  rewrite Hfrom. rewrite Ht.
  repeat split; first [assumption | lia | discriminate].
Qed.

Lemma pawn_capture_squares (isEngine : bool) (b : Board) (k : Pins)
    (pawns back edge : Z) (l : list Move) (m : Move) :
  u64 pawns -> u64 (enemyBoard isEngine b) -> 0 < back < 16 ->
  pawnCaptures isEngine b k back
    (Z.land
       (Z.land (if isEngine
                then shl64 (Z.land (Z.land pawns (not64 (cardinalPins k)))
                                   (not64 edge)) back
                else shr64 (Z.land (Z.land pawns (not64 (cardinalPins k)))
                                   (not64 edge)) back)
               (enemyBoard isEngine b))
       (blockerSquares k)) = Some l ->
  In m l ->
  moving m = ownPawn isEngine /\ type m <> EN_PASSANT
  /\ 0 <= from m < 64 /\ Z.testbit pawns (from m) = true
  /\ 0 <= to m < 64 /\ Z.testbit (enemyBoard isEngine b) (to m) = true.
Proof.
  intros Hp He Hback H Hin.
  destruct (pawnCaptures_In _ _ _ _ _ _ _ H Hin) as (Ht & Hm & _ & Hf & Hto).
  apply squaresOf_In in Hto; [|apply land_u64_l, land_u64_r; exact He].
  destruct Hto as [Hr Hb]. split_land Hb.
  destruct (shifted_origin isEngine _ back (to m)
              (land_u64_l _ (not64 edge)
                 (land_u64_l _ (not64 (cardinalPins k)) Hp))
              ltac:(lia) ltac:(lia) Hb) as [Ho Hob].
  cbn [Z.opp] in Ho, Hob. split_land Hob.
  rewrite wrap8_small in Hf by (destruct isEngine; lia).
  rewrite Hf. repeat split; assumption || lia.
Qed.

Lemma enPassant_branch_squares (sliders : Sliders) (isEngine : bool)
    (b : Board) (k : Pins) (candidate origin forward pawns : Z)
    (l : list Move) (m : Move) :
  (nonzero candidate = true ->
   0 <= origin < 64 /\ Z.testbit pawns origin = true) ->
  (if nonzero candidate
   then enPassantMove sliders isEngine b k origin forward
   else Some []) = Some l ->
  In m l ->
  moving m = ownPawn isEngine /\ type m = EN_PASSANT
  /\ 0 <= from m < 64 /\ Z.testbit pawns (from m) = true.
Proof.
  intros Horigin H Hin. destruct (nonzero candidate);
    [|apply Some_inj in H; subst l; contradiction].
  destruct (Horigin eq_refl) as [Hr Hb].
  rewrite (enPassantMove_In _ _ _ _ _ _ _ _ H Hin).
  cbn [moving type from]. repeat split; try assumption; lia.
Qed.

Lemma generatePawnMoves_squares (sliders : Sliders) (isEngine : bool)
    (b : Board) (k : Pins) (l : list Move) (m : Move) :
  boards64 b ->
  generatePawnMoves sliders isEngine b k = Some l -> In m l ->
  pawnSquares isEngine b m.
Proof.
  intros (Hp & He & Hpp & Hep & _) H Hin.
  unfold generatePawnMoves in H. cbv zeta in H.
  apply bind_Some in H. destruct H as (lefts & Hl & H).
  apply bind_Some in H. destruct H as (rights & Hr & H).
  apply bind_Some in H. destruct H as (enPassants & Hen & H).
  apply Some_inj in H. subst l.
  assert (Henemy : u64 (enemyBoard isEngine b))
    by (destruct isEngine; assumption).
  assert (Hpawns : u64 (piece (position b) (ownPawn isEngine))) by apply Hp.
  assert (Hfinish :
    forall target,
      moving m = ownPawn isEngine /\ type m <> EN_PASSANT
      /\ 0 <= from m < 64
      /\ Z.testbit (piece (position b) (ownPawn isEngine)) (from m) = true
      /\ 0 <= to m < 64 /\ Z.testbit target (to m) = true ->
      target = emptySquares b \/ target = enemyBoard isEngine b ->
      pawnSquares isEngine b m).
  { intros target (H1 & H2 & H3 & H4 & H5 & H6) Ht.
    unfold pawnSquares. split; [exact H1|]. split; [exact H3|].
    split; [exact H4|]. intros _. split; [exact H5|].
    destruct Ht as [->| ->]; [now left|now right]. }
  apply in_app_or in Hin. destruct Hin as [Hin|Hin].
  { apply in_app_or in Hin. destruct Hin as [Hin|Hin].
    - apply (Hfinish (emptySquares b)); [|now left].
      destruct isEngine;
        exact (pawn_single_push_squares _ b k _ m Hpawns He Hin).
    - apply (Hfinish (emptySquares b)); [|now left].
      destruct isEngine;
        exact (pawn_double_push_squares _ b k _ m Hpawns He Hin). }
  apply in_app_or in Hin. destruct Hin as [Hin|Hin].
  { apply (Hfinish (enemyBoard isEngine b)); [|now right].
    destruct isEngine;
      exact (pawn_capture_squares _ b k _ 9 _ lefts m Hpawns Henemy
               ltac:(lia) Hl Hin). }
  apply in_app_or in Hin. destruct Hin as [Hin|Hin].
  { apply (Hfinish (enemyBoard isEngine b)); [|now right].
    destruct isEngine;
      exact (pawn_capture_squares _ b k _ 7 _ rights m Hpawns Henemy
               ltac:(lia) Hr Hin). }
  destruct (nonzero (enPassantCapture (position b)));
    [|apply Some_inj in Hen; subst enPassants; contradiction].
  apply bind_Some in Hen. destruct Hen as (rightMoves & Hrm & Hen).
  apply bind_Some in Hen. destruct Hen as (leftMoves & Hlm & Hen).
  apply Some_inj in Hen. subst enPassants.
  assert (Hrank : forall rank,
            u64 (Z.land (Z.land (piece (position b) (ownPawn isEngine))
                                (not64 (cardinalPins k))) rank)).
  { intros rank. apply land_u64_l, land_u64_l. exact Hpawns. }
  assert (Hresult :
    moving m = ownPawn isEngine /\ type m = EN_PASSANT
    /\ 0 <= from m < 64
    /\ Z.testbit
         (Z.land (Z.land (piece (position b) (ownPawn isEngine))
                         (not64 (cardinalPins k)))
                 (if isEngine then RANK4 else RANK3)) (from m) = true).
  { apply in_app_or in Hin. destruct Hin as [Hin|Hin].
    - destruct isEngine.
      + refine (enPassant_branch_squares _ _ _ _ _ _ _ _ _ _ _ Hrm Hin).
        exact (enPassant_origin_up _ _ _ (Hrank RANK4)).
      + refine (enPassant_branch_squares _ _ _ _ _ _ _ _ _ _ _ Hrm Hin).
        exact (enPassant_origin_down _ _ _ (Hrank RANK3)).
    - destruct isEngine.
      + refine (enPassant_branch_squares _ _ _ _ _ _ _ _ _ _ _ Hlm Hin).
        exact (enPassant_origin_down _ _ _ (Hrank RANK4)).
      + refine (enPassant_branch_squares _ _ _ _ _ _ _ _ _ _ _ Hlm Hin).
        exact (enPassant_origin_up _ _ _ (Hrank RANK3)). }
  destruct Hresult as (H1 & H2 & H3 & H4). split_land H4.
  unfold pawnSquares. split; [exact H1|]. split; [exact H3|].
  split; [exact H4|]. intros Hne. congruence.
Qed.

Lemma generateMoves_squares (sliders : Sliders) (isEngine : bool)
    (b : Board) (moves : list Move) (m : Move) :
  boards64 b ->
  generateMoves sliders isEngine b = Some moves -> In m moves ->
  0 <= from m < 64
  /\ Z.testbit (piece (position b) (moving m)) (from m) = true
  /\ (moving m <> ownKing isEngine -> type m <> EN_PASSANT ->
      0 <= to m < 64
      /\ Z.testbit
           (Z.lor (Z.lor (emptySquares b) (enemyBoard isEngine b))
                  (ownOrEmptyTargets isEngine b))
           (to m) = true).
Proof.
  intros Hb H Hin. unfold generateMoves in H.
  apply bind_Some in H. destruct H as (k & _ & H).
  apply bind_Some in H. destruct H as (pawnMoves & Hp & H).
  apply bind_Some in H. destruct H as (knightMoves & Hn & H).
  apply bind_Some in H. destruct H as (kingMoves & Hk & H).
  apply bind_Some in H. destruct H as (bishopMoves & Hbi & H).
  apply bind_Some in H. destruct H as (rookMoves & Hr & H).
  apply bind_Some in H. destruct H as (queenMoves & Hq & H).
  apply Some_inj in H. subst moves.
  assert (Hpiece : forall mover,
            pieceSquares isEngine b mover m ->
            0 <= from m < 64
            /\ Z.testbit (piece (position b) (moving m)) (from m) = true
            /\ (moving m <> ownKing isEngine -> type m <> EN_PASSANT ->
                0 <= to m < 64
                /\ Z.testbit
                     (Z.lor (Z.lor (emptySquares b) (enemyBoard isEngine b))
                            (ownOrEmptyTargets isEngine b))
                     (to m) = true)).
  { intros mover (Hm & Hf & Hfb & Ht & Htb). rewrite Hm.
    split; [exact Hf|]. split; [exact Hfb|]. intros _ _.
    split; [exact Ht|]. rewrite Z.lor_spec, Htb. apply orb_true_r. }
  apply in_app_or in Hin. destruct Hin as [Hin|Hin].
  { destruct (generatePawnMoves_squares _ _ _ _ _ _ Hb Hp Hin)
      as (Hm & Hf & Hfb & Hto).
    rewrite Hm. split; [exact Hf|]. split; [exact Hfb|]. intros _ Hty.
    destruct (Hto Hty) as [Ht Htb]. split; [exact Ht|].
    rewrite !Z.lor_spec.
    destruct Htb as [-> | ->]; [reflexivity|].
    now rewrite orb_true_r. }
  apply in_app_or in Hin. destruct Hin as [Hin|Hin];
    [exact (Hpiece _ (generateKnightMoves_squares _ _ _ _ _ Hb Hn Hin))|].
  apply in_app_or in Hin. destruct Hin as [Hin|Hin].
  { destruct (generateKingMoves_from _ _ _ _ _ Hk Hin) as (Hm & Hf & Hfb).
    rewrite Hm. split; [exact Hf|]. split; [exact Hfb|].
    intros Hne. contradiction. }
  apply in_app_or in Hin. destruct Hin as [Hin|Hin];
    [exact (Hpiece _ (generateBishopMoves_squares _ _ _ _ _ _ Hb Hbi Hin))|].
  apply in_app_or in Hin. destruct Hin as [Hin|Hin];
    [exact (Hpiece _ (generateRookMoves_squares _ _ _ _ _ _ Hb Hr Hin))|].
  exact (Hpiece _ (generateQueenMoves_squares _ _ _ _ _ _ Hb Hq Hin)).
Qed.

(** Every generated move starts on a square that holds the moving piece.
    Unless it is a king move or an en passant capture, it lands on a square
    of the board that is marked empty, enemy-occupied, or open to the side
    moving ([playerOrEmpty] for the engine, [engineOrEmpty] for the
    player). *)
Theorem generated_move_squares (sliders : Sliders) (isEngine : bool)
    (b : Board) (moves : list Move) (m : Move) :
  boards64 b ->
  generateMoves sliders isEngine b = Some moves -> In m moves ->
  0 <= from m < 64
  /\ Z.testbit (piece (position b) (moving m)) (from m) = true
  /\ (moving m <> ownKing isEngine -> type m <> EN_PASSANT ->
      0 <= to m < 64
      /\ Z.testbit
           (Z.lor (Z.lor (emptySquares b) (enemyBoard isEngine b))
                  (ownOrEmptyTargets isEngine b))
           (to m) = true).
Proof. exact (generateMoves_squares sliders isEngine b moves m). Qed.

Lemma besideDoublePush_boards64 : boards64 besideDoublePush.
Proof.
  unfold boards64, u64.
  split; [intros t; destruct t|repeat split];
    first [vm_compute; discriminate | vm_compute; reflexivity
          | (split; [vm_compute; discriminate|vm_compute; reflexivity])].
Qed.

Lemma generated_move_squares_witness :
  Z.testbit (piece (position besideDoublePush) ENGINE_PAWN) 11 = true
  /\ Z.testbit
       (Z.lor (Z.lor (emptySquares besideDoublePush)
                     (enemyBoard true besideDoublePush))
              (ownOrEmptyTargets true besideDoublePush)) 27 = true.
Proof.
  destruct (besideDoublePush_moves knownRand knownMoveGen knownMoveGen_built)
    as (moves & Hgen & Hin).
  apply existsb_Move_In in Hin.
  destruct (generated_move_squares (tableSliders knownMoveGen) true
              besideDoublePush moves doublePush besideDoublePush_boards64
              Hgen Hin) as (_ & Hfrom & Hto).
  split; [exact Hfrom|].
  apply Hto; discriminate.
Defined.

(** ** The cut-off of the search does not change the score *)

Section AlphaBeta.

Variable sliders : Sliders.
Variable pieceValuePastEnd : Z.

(** [maximize] and [minimize] with the [if (beta <= alpha) break;] taken
    out: every move is searched, and the score is the largest (smallest) of
    the scores of the moves, starting from [MIN_EVAL] ([MAX_EVAL]). *)
Fixpoint exhaustiveMax (fuel : nat) (b : Board) (ply : Z) : option Z :=
  match fuel with
  | O => None
  | S fuel' =>
      if ply >? SEARCH_DEPTH then Some (evaluate (position b))
      else
        generated <- generateEngineMoves sliders b ;;
        let moves := fst (getSortedMoves pieceValuePastEnd generated) in
        match moves with
        | [] =>
            inCheck <- isKingInCheck sliders b true ;;
            if inCheck then Some (MIN_EVAL + ply) else Some 0
        | _ =>
            scores <- mapM (fun m => exhaustiveMin fuel' (makeMove true b m)
                                       (ply + 1)) moves ;;
            Some (fold_left Z.max scores MIN_EVAL)
        end
  end
with exhaustiveMin (fuel : nat) (b : Board) (ply : Z) : option Z :=
  match fuel with
  | O => None
  | S fuel' =>
      if ply >? SEARCH_DEPTH then Some (evaluate (position b))
      else
        generated <- generatePlayerMoves sliders b ;;
        let moves := fst (getSortedMoves pieceValuePastEnd generated) in
        match moves with
        | [] =>
            inCheck <- isKingInCheck sliders b false ;;
            if inCheck then Some (MAX_EVAL - ply) else Some 0
        | _ =>
            scores <- mapM (fun m => exhaustiveMax fuel' (makeMove false b m)
                                       (ply + 1)) moves ;;
            Some (fold_left Z.min scores MAX_EVAL)
        end
  end.

(** How a returned score [r] stands to the exhaustive score [v] for the
    window [(alpha, beta)]: exact inside the window, a bound outside. *)
Definition boundsFor (alpha beta r v : Z) : Prop :=
  (r <= alpha -> v <= r) /\ (beta <= r -> r <= v)
  /\ (alpha < r < beta -> r = v).

Definition window (alpha beta : Z) : Prop :=
  MIN_EVAL <= alpha /\ alpha < beta /\ beta <= MAX_EVAL.

Lemma fold_max_ge (l : list Z) (a : Z) : a <= fold_left Z.max l a.
Proof.
  revert a. induction l as [|x l IH]; intros a; cbn [fold_left]; [lia|].
  specialize (IH (Z.max a x)). lia.
Qed.

Lemma fold_min_le (l : list Z) (a : Z) : fold_left Z.min l a <= a.
Proof.
  revert a. induction l as [|x l IH]; intros a; cbn [fold_left]; [lia|].
  specialize (IH (Z.min a x)). lia.
Qed.

Lemma maximizeLoop_agrees
    (child : Board -> Z -> Z -> option (Z * Board))
    (full : Move -> option Z) (b0 : Board) (alpha0 beta : Z) :
  MIN_EVAL <= alpha0 -> beta <= MAX_EVAL ->
  (forall m a v, window a beta -> full m = Some v ->
     exists s bc,
       child (makeMove true b0 m) a beta = Some (s, bc)
       /\ restores (makeMove true b0 m) bc /\ boundsFor a beta s v) ->
  forall moves scores b best alpha V,
    restores b0 b -> mapM full moves = Some scores ->
    alpha = Z.max alpha0 best -> alpha < beta ->
    (best <= alpha0 -> V <= best) -> (alpha0 < best -> best = V) ->
    exists r b',
      maximizeLoop child moves b best alpha beta = Some (r, b')
      /\ boundsFor alpha0 beta r (fold_left Z.max scores V).
Proof.
  intros Hmin Hmax Hchild.
  induction moves as [|m rest IH];
    intros scores b best alpha V Hb Hscores Halpha Hlt Ha Hc;
    cbn [mapM] in Hscores.
  - apply Some_inj in Hscores. subst scores. cbn [maximizeLoop fold_left].
    exists best, b. split; [reflexivity|]. unfold boundsFor. lia.
  - apply bind_Some in Hscores. destruct Hscores as (v & Hv & Hscores).
    apply bind_Some in Hscores. destruct Hscores as (vs & Hvs & Hscores).
    apply Some_inj in Hscores. subst scores.
    cbn [maximizeLoop fold_left].
    destruct Hb as [Hbp Hbe].
    rewrite (makeMove_ext true b b0 m Hbp Hbe).
    assert (Hw : window alpha beta) by (unfold window; lia).
    destruct (Hchild m alpha v Hw Hv) as (s & bc & Hs & Hr & H1 & H2 & H3).
    rewrite Hs. cbn [bind].
    pose proof (unmakeMove_restores b0 b bc m true (conj Hbp Hbe) Hr) as Hun.
    pose proof (fold_max_ge vs (Z.max V v)) as Hfold.
    destruct (Z.gtb_spec s best) as [Hsb|Hsb];
      [destruct (Z.gtb_spec s alpha) as [Hsa|Hsa]
      |destruct (Z.gtb_spec best alpha) as [Hsa|Hsa]];
      match goal with
      | |- context [beta <=? ?a] => destruct (Z.leb_spec beta a) as [Hcut|Hcut]
      end;
      try (eexists _, _; split; [reflexivity|]; unfold boundsFor; lia);
      (apply IH; [exact Hun|exact Hvs|lia|lia|lia|lia]).
Qed.

Lemma minimizeLoop_agrees
    (child : Board -> Z -> Z -> option (Z * Board))
    (full : Move -> option Z) (b0 : Board) (alpha beta0 : Z) :
  MIN_EVAL <= alpha -> beta0 <= MAX_EVAL ->
  (forall m be v, window alpha be -> full m = Some v ->
     exists s bc,
       child (makeMove false b0 m) alpha be = Some (s, bc)
       /\ restores (makeMove false b0 m) bc /\ boundsFor alpha be s v) ->
  forall moves scores b best beta V,
    restores b0 b -> mapM full moves = Some scores ->
    beta = Z.min beta0 best -> alpha < beta ->
    (beta0 <= best -> best <= V) -> (best < beta0 -> best = V) ->
    exists r b',
      minimizeLoop child moves b best alpha beta = Some (r, b')
      /\ boundsFor alpha beta0 r (fold_left Z.min scores V).
Proof.
  intros Hmin Hmax Hchild.
  induction moves as [|m rest IH];
    intros scores b best beta V Hb Hscores Hbeta Hlt Ha Hc;
    cbn [mapM] in Hscores.
  - apply Some_inj in Hscores. subst scores. cbn [minimizeLoop fold_left].
    exists best, b. split; [reflexivity|]. unfold boundsFor. lia.
  - apply bind_Some in Hscores. destruct Hscores as (v & Hv & Hscores).
    apply bind_Some in Hscores. destruct Hscores as (vs & Hvs & Hscores).
    apply Some_inj in Hscores. subst scores.
    cbn [minimizeLoop fold_left].
    destruct Hb as [Hbp Hbe].
    rewrite (makeMove_ext false b b0 m Hbp Hbe).
    assert (Hw : window alpha beta) by (unfold window; lia).
    destruct (Hchild m beta v Hw Hv) as (s & bc & Hs & Hr & H1 & H2 & H3).
    rewrite Hs. cbn [bind].
    pose proof (unmakeMove_restores b0 b bc m false (conj Hbp Hbe) Hr)
      as Hun.
    pose proof (fold_min_le vs (Z.min V v)) as Hfold.
    destruct (Z.ltb_spec s best) as [Hsb|Hsb];
      [destruct (Z.ltb_spec s beta) as [Hsa|Hsa]
      |destruct (Z.ltb_spec best beta) as [Hsa|Hsa]];
      match goal with
      | |- context [?a <=? alpha] =>
          destruct (Z.leb_spec a alpha) as [Hcut|Hcut]
      end;
      try (eexists _, _; split; [reflexivity|]; unfold boundsFor; lia);
      (apply IH; [exact Hun|exact Hvs|lia|lia|lia|lia]).
Qed.

End AlphaBeta.

Lemma search_agrees (sliders : Sliders) (pieceValuePastEnd : Z)
    (fuel : nat) :
  (forall b ply alpha beta v,
     window alpha beta ->
     exhaustiveMax sliders pieceValuePastEnd fuel b ply = Some v ->
     exists r b',
       maximize sliders pieceValuePastEnd fuel b ply alpha beta
       = Some (r, b')
       /\ boundsFor alpha beta r v)
  /\ (forall b ply alpha beta v,
        window alpha beta ->
        exhaustiveMin sliders pieceValuePastEnd fuel b ply = Some v ->
        exists r b',
          minimize sliders pieceValuePastEnd fuel b ply alpha beta
          = Some (r, b')
          /\ boundsFor alpha beta r v).
Proof.
  induction fuel as [|fuel [IHmax IHmin]]; [split; intros; discriminate|].
  split; intros b ply alpha beta v Hw H.
  - cbn [exhaustiveMax] in H. cbn [maximize].
    destruct (ply >? SEARCH_DEPTH).
    + apply Some_inj in H. subst v. eexists _, _. split; [reflexivity|].
      unfold boundsFor. lia.
    + apply bind_Some in H. destruct H as (generated & Hgen & H).
      rewrite Hgen. cbn [bind].
      destruct (fst (getSortedMoves pieceValuePastEnd generated))
        as [|m ms].
      * apply bind_Some in H. destruct H as (inCheck & Hin & H).
        rewrite Hin. cbn [bind].
        destruct inCheck; apply Some_inj in H; subst v;
          (eexists _, _; split; [reflexivity|]; unfold boundsFor; lia).
      * apply bind_Some in H. destruct H as (scores & Hscores & H).
        apply Some_inj in H. subst v.
        destruct Hw as (Hlo & Hlt & Hhi).
        refine (maximizeLoop_agrees _ _ b alpha beta Hlo Hhi _
                  (m :: ms) scores b MIN_EVAL alpha MIN_EVAL
                  (restores_refl b) Hscores _ Hlt _ _); [|lia|lia|lia].
        intros m' a v' Hw' Hv'.
        destruct (IHmin _ _ a beta v' Hw' Hv') as (s & bc & Hs & Hbd).
        exists s, bc. split; [exact Hs|]. split; [|exact Hbd].
        exact (proj2 (search_restores sliders pieceValuePastEnd fuel)
                 _ _ _ _ _ _ Hs).
  - cbn [exhaustiveMin] in H. cbn [minimize].
    destruct (ply >? SEARCH_DEPTH).
    + apply Some_inj in H. subst v. eexists _, _. split; [reflexivity|].
      unfold boundsFor. lia.
    + apply bind_Some in H. destruct H as (generated & Hgen & H).
      rewrite Hgen. cbn [bind].
      destruct (fst (getSortedMoves pieceValuePastEnd generated))
        as [|m ms].
      * apply bind_Some in H. destruct H as (inCheck & Hin & H).
        rewrite Hin. cbn [bind].
        destruct inCheck; apply Some_inj in H; subst v;
          (eexists _, _; split; [reflexivity|]; unfold boundsFor; lia).
      * apply bind_Some in H. destruct H as (scores & Hscores & H).
        apply Some_inj in H. subst v.
        destruct Hw as (Hlo & Hlt & Hhi).
        refine (minimizeLoop_agrees _ _ b alpha beta Hlo Hhi _
                  (m :: ms) scores b MAX_EVAL beta MAX_EVAL
                  (restores_refl b) Hscores _ Hlt _ _); [|lia|lia|lia].
        intros m' be v' Hw' Hv'.
        destruct (IHmax _ _ alpha be v' Hw' Hv') as (s & bc & Hs & Hbd).
        exists s, bc. split; [exact Hs|]. split; [|exact Hbd].
        exact (proj1 (search_restores sliders pieceValuePastEnd fuel)
                 _ _ _ _ _ _ Hs).
Qed.

(** Cutting a loop of the search short ([if (beta <= alpha) break;])
    never changes a score that lies inside the window: whenever the search
    of every move returns [v], [maximize] (and likewise [minimize]) called
    with [MIN_EVAL <= alpha < beta <= MAX_EVAL] returns a score [r] too,
    and [r = v] if [alpha < r < beta], [v <= r] if [r <= alpha], and
    [r <= v] if [beta <= r]. *)
Theorem cutoff_keeps_score (sliders : Sliders) (pieceValuePastEnd : Z)
    (fuel : nat) (b : Board) (ply alpha beta v : Z) :
  MIN_EVAL <= alpha -> alpha < beta -> beta <= MAX_EVAL ->
  (exhaustiveMax sliders pieceValuePastEnd fuel b ply = Some v ->
   exists r b',
     maximize sliders pieceValuePastEnd fuel b ply alpha beta = Some (r, b')
     /\ (alpha < r < beta -> r = v)
     /\ (r <= alpha -> v <= r) /\ (beta <= r -> r <= v))
  /\ (exhaustiveMin sliders pieceValuePastEnd fuel b ply = Some v ->
      exists r b',
        minimize sliders pieceValuePastEnd fuel b ply alpha beta
        = Some (r, b')
        /\ (alpha < r < beta -> r = v)
        /\ (r <= alpha -> v <= r) /\ (beta <= r -> r <= v)).
Proof.
  intros Hlo Hlt Hhi.
  assert (Hw : window alpha beta) by (unfold window; lia).
  destruct (search_agrees sliders pieceValuePastEnd fuel) as [Hmax Hmin].
  split; intros H.
  - destruct (Hmax b ply alpha beta v Hw H) as (r & b' & Hr & H1 & H2 & H3).
    exists r, b'. repeat split; assumption.
  - destruct (Hmin b ply alpha beta v Hw H) as (r & b' & Hr & H1 & H2 & H3).
    exists r, b'. repeat split; assumption.
Qed.

Lemma besideDoublePush_exhaustive (rand : Z -> Z) (g : MoveGen) :
  newMoveGen rand = Some g ->
  exists v,
    exhaustiveMax (tableSliders g) 0 3 besideDoublePush 4 = Some v.
Proof.
  intros Hg. rewrite (tableSliders_rays rand g Hg).
  exists_value (exhaustiveMax (raySliders g) 0 3 besideDoublePush 4).
  vm_compute. reflexivity.
Qed.

Lemma cutoff_keeps_score_witness :
  exists v r b',
    exhaustiveMax (tableSliders knownMoveGen) 0 3 besideDoublePush 4 = Some v
    /\ maximize (tableSliders knownMoveGen) 0 3 besideDoublePush 4
         MIN_EVAL MAX_EVAL = Some (r, b')
    /\ (MIN_EVAL < r < MAX_EVAL -> r = v).
Proof.
  destruct (besideDoublePush_exhaustive knownRand knownMoveGen
              knownMoveGen_built) as (v & Hv).
  assert (Hlo : MIN_EVAL <= MIN_EVAL) by lia.
  assert (Hlt : MIN_EVAL < MAX_EVAL) by (vm_compute; reflexivity).
  assert (Hhi : MAX_EVAL <= MAX_EVAL) by lia.
  destruct (cutoff_keeps_score (tableSliders knownMoveGen) 0 3
              besideDoublePush 4 MIN_EVAL MAX_EVAL v Hlo Hlt Hhi)
    as [Hmax _].
  destruct (Hmax Hv) as (r & b' & Hr & Hin & _).
  exists v, r, b'. split; [exact Hv|]. split; [exact Hr|exact Hin].
Defined.

(** ** Where the king may go *)

Lemma safeSquares_fold (sliders : Sliders) (isEngine : bool) (b : Board)
    (l : list Z) (acc r : Z) :
  foldM (fun safeMoves square =>
           safe <- isSafeSquare sliders isEngine b square ;;
           if safe then Some (Z.lor safeMoves (boardOf square))
           else Some safeMoves) l acc = Some r ->
  (forall s, In s l -> 0 <= s < 64) -> u64 acc ->
  u64 r
  /\ (forall i, Z.testbit r i = true ->
      Z.testbit acc i = true
      \/ (In i l /\ isSafeSquare sliders isEngine b i = Some true)).
Proof.
  revert acc. induction l as [|s l IH]; intros acc H Hl Hacc;
    cbn [foldM] in H.
  - apply Some_inj in H. subst r. split; [exact Hacc|]. intros i Hi.
    left. exact Hi.
  - apply bind_Some in H. destruct H as (acc' & Hstep & H).
    apply bind_Some in Hstep. destruct Hstep as (safe & Hsafe & Hstep).
    assert (Hs : 0 <= s < 64) by (apply Hl; left; reflexivity).
    assert (Hl' : forall s', In s' l -> 0 <= s' < 64)
      by (intros s' Hs'; apply Hl; right; exact Hs').
    destruct safe; apply Some_inj in Hstep; subst acc'.
    + destruct (IH _ H Hl' (lor_u64 _ _ Hacc (boardOf_u64 s)))
        as [Hu Hbits].
      split; [exact Hu|]. intros i Hi.
      destruct (Hbits i Hi) as [Hacc'|[Hin Hsf]].
      * rewrite Z.lor_spec in Hacc'. apply orb_true_iff in Hacc'.
        destruct Hacc' as [Hacc'|Hb]; [left; exact Hacc'|].
        rewrite testbit_boardOf in Hb
          by (try exact Hs; exact (testbit_true_nonneg _ _ Hi)).
        apply Z.eqb_eq in Hb. subst i. right. split; [left; reflexivity|].
        exact Hsafe.
      * right. split; [right; exact Hin|exact Hsf].
    + destruct (IH _ H Hl' Hacc) as [Hu Hbits].
      split; [exact Hu|]. intros i Hi.
      destruct (Hbits i Hi) as [Hacc'|[Hin Hsf]]; [left; exact Hacc'|].
      right. split; [right; exact Hin|exact Hsf].
Qed.

Lemma castlePathSafe_all (sliders : Sliders) (isEngine : bool) (b : Board)
    (fuel : nat) (path : Z) :
  u64 path ->
  castlePathSafe sliders fuel isEngine b path = Some true ->
  forall s, Z.testbit path s = true ->
            isSafeSquare sliders isEngine b s = Some true.
Proof.
  revert path. induction fuel as [|fuel IH]; intros path Hu H s Hs;
    cbn [castlePathSafe] in H; [discriminate|].
  destruct (Z.eqb_spec path 0) as [|Hne]; [discriminate|].
  rewrite popLeastSquare_eq in H.
  apply bind_Some in H. destruct H as (safe & Hsafe & H).
  pose proof (testbit_clearLeast path s Hu Hne
                (testbit_true_nonneg _ _ Hs)) as Hclear.
  rewrite Hs in Hclear. cbn [andb] in Hclear.
  destruct safe; cbn [negb] in H; [|discriminate].
  destruct (Z.eqb_spec s (tzcnt64 path)) as [->|Hother];
    [exact Hsafe|].
  cbn [negb] in Hclear.
  destruct (Z.eqb_spec (clearLeast path) 0) as [Hz|Hnz].
  - rewrite Hz, Z.testbit_0_l in Hclear. discriminate.
  - exact (IH _ (clearLeast_u64 path Hu) H s Hclear).
Qed.

Lemma castle_step (right : bool) (count n : Z) (check : option bool)
    (safeMoves destination safeMoves' : Z) :
  (if right then
     if count =? n then
       ok <- check ;;
       if ok then Some (Z.lor safeMoves destination) else Some safeMoves
     else Some safeMoves
   else Some safeMoves) = Some safeMoves' ->
  safeMoves' = safeMoves
  \/ (right = true /\ count = n /\ check = Some true
      /\ safeMoves' = Z.lor safeMoves destination).
Proof.
  intros H. destruct right; [|left; symmetry; exact (Some_inj _ _ _ H)].
  destruct (Z.eqb_spec count n) as [Hc|];
    [|left; symmetry; exact (Some_inj _ _ _ H)].
  apply bind_Some in H. destruct H as (ok & Hok & H).
  destruct ok; apply Some_inj in H; [|left; symmetry; exact H].
  right. repeat split; try assumption. symmetry. exact H.
Qed.

Lemma land_testbit_sub (x y s : Z) :
  Z.land x y = x -> Z.testbit x s = true -> Z.testbit y s = true.
Proof.
  intros H Hx. rewrite <- H, Z.land_spec in Hx.
  apply andb_true_iff in Hx. exact (proj2 Hx).
Qed.

Lemma queenside_destination_on_path (isEngine : bool) (s : Z) :
  Z.testbit (if isEngine then ENGINE_QUEENSIDE_DESTINATION
             else PLAYER_QUEENSIDE_DESTINATION) s = true ->
  Z.testbit (if isEngine then ENGINE_QUEENSIDE_CASTLE
             else PLAYER_QUEENSIDE_CASTLE) s = true.
Proof. destruct isEngine; apply land_testbit_sub; reflexivity. Qed.

Lemma kingside_destination_on_path (isEngine : bool) (s : Z) :
  Z.testbit (if isEngine then ENGINE_KINGSIDE_DESTINATION
             else PLAYER_KINGSIDE_DESTINATION) s = true ->
  Z.testbit (if isEngine then ENGINE_KINGSIDE_CASTLE
             else PLAYER_KINGSIDE_CASTLE) s = true.
Proof. destruct isEngine; apply land_testbit_sub; reflexivity. Qed.

Lemma castle_constants_u64 (isEngine : bool) :
  u64 (if isEngine then ENGINE_QUEENSIDE_DESTINATION
       else PLAYER_QUEENSIDE_DESTINATION)
  /\ u64 (if isEngine then ENGINE_KINGSIDE_DESTINATION
          else PLAYER_KINGSIDE_DESTINATION)
  /\ u64 (if isEngine then ENGINE_QUEENSIDE_CASTLE
          else PLAYER_QUEENSIDE_CASTLE)
  /\ u64 (if isEngine then ENGINE_KINGSIDE_CASTLE
          else PLAYER_KINGSIDE_CASTLE).
Proof. destruct isEngine; repeat split; vm_compute; congruence. Qed.

(** A step of the king to a neighbouring square. *)
Definition kingStepTo (isEngine : bool) (b : Board) (m : Move) : Prop :=
  exists kingMoves,
    tableAt KING_MOVES (from m) = Some kingMoves
    /\ Z.testbit kingMoves (to m) = true
    /\ Z.testbit (ownOrEmptyTargets isEngine b) (to m) = true.

(** The squares of a castling move, read off [*_DESTINATION], [*_ROOK] and
    the shift of [squareTo] by one: where the king lands, the corner the
    rook leaves and the square beside the king where the rook lands. *)
Definition castleKingTo (isEngine kingside : bool) : Z :=
  if isEngine then (if kingside then 1 else 5)
  else (if kingside then 57 else 61).
Definition castleRookFrom (isEngine kingside : bool) : Z :=
  if isEngine then (if kingside then 0 else 7)
  else (if kingside then 56 else 63).
Definition castleRookTo (isEngine kingside : bool) : Z :=
  if isEngine then (if kingside then 2 else 4)
  else (if kingside then 58 else 60).

(** The first square of the king: the square [*_KINGSIDE_CASTLE] and
    [*_QUEENSIDE_CASTLE] have in common. *)
Definition kingHome (isEngine : bool) : Z := if isEngine then 3 else 59.

(** Castling to the queen's side: the right is held; of the four squares
    from the king's first square to the square beside the rook, three are
    marked empty; every square of [*_QUEENSIDE_CASTLE] (the king's first
    square, the square it crosses and its destination) is safe.  If the
    derived masks are up to date and the king stands on its first square,
    the three squares between king and rook are all marked empty. *)
Definition castlesQueenside (sliders : Sliders) (isEngine : bool)
    (b : Board) (m : Move) : Prop :=
  let path :=
    if isEngine then ENGINE_QUEENSIDE_CASTLE else PLAYER_QUEENSIDE_CASTLE in
  let destination :=
    if isEngine then ENGINE_QUEENSIDE_DESTINATION
    else PLAYER_QUEENSIDE_DESTINATION in
  castleQueenside isEngine (position b) = true
  /\ Z.testbit destination (to m) = true
  /\ countSetBits
       (Z.land (Z.lor path (if ENGINE_IS_WHITE then shl64 destination 1
                            else shr64 destination 1))
               (emptySquares b)) = 3
  /\ (forall s, Z.testbit path s = true ->
                isSafeSquare sliders isEngine b s = Some true)
  /\ (masksConsistent b -> from m = kingHome isEngine ->
      forall s, kingHome isEngine < s < castleRookFrom isEngine false ->
                Z.testbit (emptySquares b) s = true).

(** Castling to the king's side, likewise: two of the three squares of
    [*_KINGSIDE_CASTLE] are marked empty, and with the king on its first
    square these are the two squares between king and rook. *)
Definition castlesKingside (sliders : Sliders) (isEngine : bool)
    (b : Board) (m : Move) : Prop :=
  let path :=
    if isEngine then ENGINE_KINGSIDE_CASTLE else PLAYER_KINGSIDE_CASTLE in
  let destination :=
    if isEngine then ENGINE_KINGSIDE_DESTINATION
    else PLAYER_KINGSIDE_DESTINATION in
  castleKingside isEngine (position b) = true
  /\ Z.testbit destination (to m) = true
  /\ countSetBits (Z.land path (emptySquares b)) = 2
  /\ (forall s, Z.testbit path s = true ->
                isSafeSquare sliders isEngine b s = Some true)
  /\ (masksConsistent b -> from m = kingHome isEngine ->
      forall s, castleRookFrom isEngine true < s < kingHome isEngine ->
                Z.testbit (emptySquares b) s = true).

(** A square that holds the king is not marked empty. *)
Lemma king_square_occupied (isEngine : bool) (b : Board) (s : Z) :
  masksConsistent b -> 0 <= s ->
  Z.testbit (piece (position b) (ownKing isEngine)) s = true ->
  Z.testbit (emptySquares b) s = false.
Proof.
  intros Hm Hs Hk. rewrite <- Hm. unfold update. cbn [emptySquares].
  rewrite testbit_not64 by exact Hs. rewrite !Z.lor_spec.
  destruct isEngine; cbn [ownKing] in Hk; rewrite Hk;
    rewrite ?orb_true_r; reflexivity.
Qed.

Lemma land_boardOf_bit (s e : Z) :
  0 <= s < 64 ->
  Z.land (boardOf s) e = if Z.testbit e s then boardOf s else 0.
Proof.
  intros Hs. rewrite Z.land_comm, land_boardOf_cases by exact Hs.
  now rewrite nonzero_land_boardOf by exact Hs.
Qed.

(** With the king's first square not marked empty, the count of empty
    squares that [generateKingMoves] asks for leaves no square between
    king and rook occupied. *)
Lemma castle_gap_kingside (isEngine : bool) (e : Z) :
  countSetBits
    (Z.land (if isEngine then ENGINE_KINGSIDE_CASTLE
             else PLAYER_KINGSIDE_CASTLE) e) = 2 ->
  Z.testbit e (kingHome isEngine) = false ->
  forall s, castleRookFrom isEngine true < s < kingHome isEngine ->
            Z.testbit e s = true.
Proof.
  intros Hc Hhome s Hs. destruct isEngine;
    cbn [kingHome castleRookFrom] in Hhome, Hs.
  - change ENGINE_KINGSIDE_CASTLE
      with (Z.lor (boardOf 1) (Z.lor (boardOf 2) (boardOf 3))) in Hc.
    rewrite !Z.land_lor_distr_l, !land_boardOf_bit, Hhome in Hc by lia.
    assert (Hcase : s = 1 \/ s = 2) by lia.
    destruct (Z.testbit e 1) eqn:E1, (Z.testbit e 2) eqn:E2;
      try (vm_compute in Hc; discriminate).
    destruct Hcase as [-> | ->]; assumption.
  - change PLAYER_KINGSIDE_CASTLE
      with (Z.lor (boardOf 57) (Z.lor (boardOf 58) (boardOf 59))) in Hc.
    rewrite !Z.land_lor_distr_l, !land_boardOf_bit, Hhome in Hc by lia.
    assert (Hcase : s = 57 \/ s = 58) by lia.
    destruct (Z.testbit e 57) eqn:E1, (Z.testbit e 58) eqn:E2;
      try (vm_compute in Hc; discriminate).
    destruct Hcase as [-> | ->]; assumption.
Qed.

Lemma castle_gap_queenside (isEngine : bool) (e : Z) :
  countSetBits
    (Z.land
       (Z.lor (if isEngine then ENGINE_QUEENSIDE_CASTLE
               else PLAYER_QUEENSIDE_CASTLE)
          (if ENGINE_IS_WHITE
           then shl64 (if isEngine then ENGINE_QUEENSIDE_DESTINATION
                       else PLAYER_QUEENSIDE_DESTINATION) 1
           else shr64 (if isEngine then ENGINE_QUEENSIDE_DESTINATION
                       else PLAYER_QUEENSIDE_DESTINATION) 1)) e) = 3 ->
  Z.testbit e (kingHome isEngine) = false ->
  forall s, kingHome isEngine < s < castleRookFrom isEngine false ->
            Z.testbit e s = true.
Proof.
  intros Hc Hhome s Hs. destruct isEngine;
    cbn [kingHome castleRookFrom] in Hhome, Hs.
  - change (Z.lor ENGINE_QUEENSIDE_CASTLE
              (if ENGINE_IS_WHITE then shl64 ENGINE_QUEENSIDE_DESTINATION 1
               else shr64 ENGINE_QUEENSIDE_DESTINATION 1))
      with (Z.lor (boardOf 3)
              (Z.lor (boardOf 4) (Z.lor (boardOf 5) (boardOf 6)))) in Hc.
    rewrite !Z.land_lor_distr_l, !land_boardOf_bit, Hhome in Hc by lia.
    assert (Hcase : s = 4 \/ s = 5 \/ s = 6) by lia.
    destruct (Z.testbit e 4) eqn:E1, (Z.testbit e 5) eqn:E2,
      (Z.testbit e 6) eqn:E3;
      try (vm_compute in Hc; discriminate).
    destruct Hcase as [-> | [-> | ->]]; assumption.
  - change (Z.lor PLAYER_QUEENSIDE_CASTLE
              (if ENGINE_IS_WHITE then shl64 PLAYER_QUEENSIDE_DESTINATION 1
               else shr64 PLAYER_QUEENSIDE_DESTINATION 1))
      with (Z.lor (boardOf 59)
              (Z.lor (boardOf 60) (Z.lor (boardOf 61) (boardOf 62)))) in Hc.
    rewrite !Z.land_lor_distr_l, !land_boardOf_bit, Hhome in Hc by lia.
    assert (Hcase : s = 60 \/ s = 61 \/ s = 62) by lia.
    destruct (Z.testbit e 60) eqn:E1, (Z.testbit e 61) eqn:E2,
      (Z.testbit e 62) eqn:E3;
      try (vm_compute in Hc; discriminate).
    destruct Hcase as [-> | [-> | ->]]; assumption.
Qed.

(** Every move [generateKingMoves] makes lands on a square of the board
    that [isSafeSquare] reports safe.  It is a step to a neighbouring
    square that is empty or holds a piece of the other side, or one of the
    two castling moves.  A castling move is made only while the right is
    held and the king's first square, the square it crosses and its
    destination are all safe; and if the derived masks are up to date and
    the king stands on its first square, every square between king and
    rook is marked empty. *)
Theorem king_moves_safe (sliders : Sliders) (isEngine : bool) (b : Board)
    (moves : list Move) (m : Move) :
  boards64 b ->
  generateKingMoves sliders isEngine b = Some moves -> In m moves ->
  0 <= to m < 64
  /\ isSafeSquare sliders isEngine b (to m) = Some true
  /\ (kingStepTo isEngine b m
      \/ castlesQueenside sliders isEngine b m
      \/ castlesKingside sliders isEngine b m).
Proof.
  intros Hb H Hin.
  destruct (generateKingMoves_from _ _ _ _ _ H Hin)
    as (_ & Horigin & Hkingbit).
  assert (Hhome : masksConsistent b -> from m = kingHome isEngine ->
            Z.testbit (emptySquares b) (kingHome isEngine) = false).
  { intros Hm Hf. rewrite <- Hf.
    apply (king_square_occupied isEngine b (from m) Hm);
      [lia|exact Hkingbit]. }
  unfold generateKingMoves in H. cbv zeta in H.
  apply bind_Some in H. destruct H as (kingMoves & Htable & H).
  apply bind_Some in H. destruct H as (safe1 & Hfold & H).
  apply bind_Some in H. destruct H as (safe2 & Hq & H).
  apply bind_Some in H. destruct H as (safe3 & Hk & H).
  destruct (pushMoves_In _ _ _ _ _ _ _ H Hin) as (_ & Hfrom & _ & Hto & _).
  clear H.
  destruct (castle_constants_u64 isEngine) as (Hqd & Hkd & Hqp & Hkp).
  assert (Htargets : u64 (Z.land kingMoves (ownOrEmptyTargets isEngine b)))
    by (apply land_u64_r, targets_u64; exact Hb).
  destruct (safeSquares_fold _ _ _ _ _ _ Hfold) as [Hu1 Hbits1].
  { intros s Hs. exact (proj1 (squaresOf_In _ _ Htargets Hs)). }
  { unfold u64. lia. }
  apply castle_step in Hq. apply castle_step in Hk.
  assert (Hu2 : u64 safe2).
  { destruct Hq as [->|(_ & _ & _ & ->)];
      [exact Hu1|exact (lor_u64 _ _ Hu1 Hqd)]. }
  assert (Hu3 : u64 safe3).
  { destruct Hk as [->|(_ & _ & _ & ->)];
      [exact Hu2|exact (lor_u64 _ _ Hu2 Hkd)]. }
  destruct (squaresOf_In _ _ Hu3 Hto) as [Hrange Hbit3].
  split; [exact Hrange|].
  assert (Hstep : Z.testbit safe1 (to m) = true ->
            isSafeSquare sliders isEngine b (to m) = Some true
            /\ kingStepTo isEngine b m).
  { intros Hbit. destruct (Hbits1 _ Hbit) as [H0|[Hl Hsafe]].
    - rewrite Z.testbit_0_l in H0. discriminate.
    - split; [exact Hsafe|]. exists kingMoves.
      destruct (squaresOf_In _ _ Htargets Hl) as [_ Hland].
      rewrite Z.land_spec in Hland. apply andb_true_iff in Hland.
      rewrite Hfrom. split; [exact Htable|exact Hland]. }
  assert (Hqueen : Z.testbit safe2 (to m) = true ->
            isSafeSquare sliders isEngine b (to m) = Some true
            /\ (kingStepTo isEngine b m
                \/ castlesQueenside sliders isEngine b m)).
  { intros Hbit. destruct Hq as [->|(Hright & Hcount & Hcheck & ->)].
    - destruct (Hstep Hbit) as [Hs Hk']. split; [exact Hs|left; exact Hk'].
    - rewrite Z.lor_spec in Hbit. apply orb_true_iff in Hbit.
      destruct Hbit as [Hbit|Hbit].
      + destruct (Hstep Hbit) as [Hs Hk'].
        split; [exact Hs|left; exact Hk'].
      + pose proof (castlePathSafe_all _ _ _ _ _ Hqp Hcheck) as Hall.
        split.
        * apply Hall. apply queenside_destination_on_path. exact Hbit.
        * right. unfold castlesQueenside. cbv zeta.
          split; [exact Hright|]. split; [exact Hbit|].
          split; [exact Hcount|]. split; [exact Hall|].
          intros Hm Hf.
          exact (castle_gap_queenside isEngine _ Hcount (Hhome Hm Hf)). }
  destruct Hk as [->|(Hright & Hcount & Hcheck & ->)].
  - destruct (Hqueen Hbit3) as [Hs [Hk'|Hq']].
    + split; [exact Hs|left; exact Hk'].
    + split; [exact Hs|right; left; exact Hq'].
  - rewrite Z.lor_spec in Hbit3. apply orb_true_iff in Hbit3.
    destruct Hbit3 as [Hbit|Hbit].
    + destruct (Hqueen Hbit) as [Hs [Hk'|Hq']].
      * split; [exact Hs|left; exact Hk'].
      * split; [exact Hs|right; left; exact Hq'].
    + pose proof (castlePathSafe_all _ _ _ _ _ Hkp Hcheck) as Hall.
      split.
      * apply Hall. apply kingside_destination_on_path. exact Hbit.
      * right. right. unfold castlesKingside. cbv zeta.
        split; [exact Hright|]. split; [exact Hbit|].
        split; [exact Hcount|]. split; [exact Hall|].
        intros Hm Hf.
        exact (castle_gap_kingside isEngine _ Hcount (Hhome Hm Hf)).
Qed.

(** The engine may castle to either side: its king and both rooks stand on
    their first squares with nothing in between, and the player has only a
    king. *)
Definition castleReady : Board :=
  update
    (mkBoard true
       (mkPosition
          [0; 0; 0; 0; 0; boardOf 59;
           0; 0; 0; Z.lor (boardOf 0) (boardOf 7); 0; boardOf 3]
          false false true true 0)
       0 0 0 0 0 0).

Lemma castleReady_boards64 : boards64 castleReady.
Proof.
  unfold boards64, u64.
  split; [intros t; destruct t|repeat split];
    first [vm_compute; discriminate | vm_compute; reflexivity
          | (split; [vm_compute; discriminate|vm_compute; reflexivity])].
Qed.

Lemma castleReady_moves (rand : Z -> Z) (g : MoveGen) :
  newMoveGen rand = Some g ->
  exists moves,
    generateKingMoves (tableSliders g) true castleReady = Some moves
    /\ existsb (Move_eqb (mkMove NORMAL 3 1 ENGINE_KING NONE)) moves = true
    /\ existsb (Move_eqb (mkMove NORMAL 3 5 ENGINE_KING NONE)) moves = true.
Proof.
  intros Hg. rewrite (tableSliders_rays rand g Hg).
  exists_value (generateKingMoves (raySliders g) true castleReady).
  repeat split; vm_compute; reflexivity.
Qed.

Lemma castleReady_consistent : masksConsistent castleReady.
Proof. vm_compute. reflexivity. Qed.

Lemma king_moves_safe_witness :
  isSafeSquare (tableSliders knownMoveGen) true castleReady 1 = Some true
  /\ isSafeSquare (tableSliders knownMoveGen) true castleReady 3 = Some true
  /\ Z.testbit (emptySquares castleReady) 1 = true
  /\ Z.testbit (emptySquares castleReady) 2 = true.
Proof.
  destruct (castleReady_moves knownRand knownMoveGen knownMoveGen_built)
    as (moves & Hgen & Hin & _).
  apply existsb_Move_In in Hin.
  destruct (king_moves_safe (tableSliders knownMoveGen) true castleReady
              moves (mkMove NORMAL 3 1 ENGINE_KING NONE)
              castleReady_boards64 Hgen Hin)
    as (_ & Hsafe & [Hstep|[Hqueen|Hking]]).
  - exfalso. destruct Hstep as (kingMoves & Htable & Hbit & _).
    vm_compute in Htable. apply Some_inj in Htable. subst kingMoves.
    vm_compute in Hbit. discriminate.
  - exfalso. destruct Hqueen as (_ & Hbit & _).
    vm_compute in Hbit. discriminate.
  - split; [exact Hsafe|].
    destruct Hking as (_ & _ & _ & Hall & Hgap).
    split; [apply Hall; reflexivity|].
    pose proof (Hgap castleReady_consistent eq_refl) as Hempty.
    split; apply Hempty; cbn; lia.
Defined.

(** ** Where makeMove puts the pieces *)

Lemma setNth_length (n : nat) (v : Z) (l : list Z) :
  length (setNth n v l) = length l.
Proof.
  revert n. induction l as [|x l IH]; intros n; [now destruct n|].
  destruct n; cbn [setNth length]; [reflexivity|]. now rewrite IH.
Qed.

Lemma nth_setNth (n n' : nat) (v : Z) (l : list Z) :
  (n < length l)%nat ->
  nth n' (setNth n v l) 0 = if Nat.eqb n' n then v else nth n' l 0.
Proof.
  revert n n'. induction l as [|x l IH]; intros n n' Hn;
    [cbn [length] in Hn; lia|].
  destruct n, n'; cbn [setNth nth Nat.eqb]; try reflexivity.
  apply IH. cbn [length] in Hn. lia.
Qed.

Lemma pieceIndex_inner (t : PieceType) :
  t <> NONE -> (pieceIndex t < 12)%nat.
Proof. destruct t; cbn [pieceIndex]; try lia. congruence. Qed.

Lemma piece_setPiece (p : Position) (t t' : PieceType) (v : Z) :
  length (pieces p) = 12%nat -> t <> NONE ->
  piece (setPiece p t v) t' = if PieceType_eqb t' t then v else piece p t'.
Proof.
  intros Hl Ht. unfold piece, setPiece, PieceType_eqb. cbn [pieces].
  apply nth_setNth. rewrite Hl. now apply pieceIndex_inner.
Qed.

(** The bits of a bitboard after [pieces[t] ^= mask] and after
    [pieces[t] |= mask]. *)
Lemma testbit_xorPiece (p : Position) (t t' : PieceType) (mask i : Z) :
  length (pieces p) = 12%nat -> t <> NONE ->
  Z.testbit (piece (xorPiece p t mask) t') i
  = xorb (Z.testbit (piece p t') i) (PieceType_eqb t' t && Z.testbit mask i).
Proof.
  intros Hl Ht. unfold xorPiece. rewrite piece_setPiece by assumption.
  destruct (PieceType_eqb t' t) eqn:E; cbn [andb].
  - apply PieceType_eqb_true in E. subst t'. apply Z.lxor_spec.
  - now rewrite xorb_false_r.
Qed.

Lemma testbit_orPiece (p : Position) (t t' : PieceType) (mask i : Z) :
  length (pieces p) = 12%nat -> t <> NONE ->
  Z.testbit (piece (orPiece p t mask) t') i
  = Z.testbit (piece p t') i || (PieceType_eqb t' t && Z.testbit mask i).
Proof.
  intros Hl Ht. unfold orPiece. rewrite piece_setPiece by assumption.
  destruct (PieceType_eqb t' t) eqn:E; cbn [andb].
  - apply PieceType_eqb_true in E. subst t'. apply Z.lor_spec.
  - now rewrite orb_false_r.
Qed.

Lemma xorPiece_length (p : Position) (t : PieceType) (mask : Z) :
  length (pieces (xorPiece p t mask)) = length (pieces p).
Proof. apply setNth_length. Qed.

Lemma orPiece_length (p : Position) (t : PieceType) (mask : Z) :
  length (pieces (orPiece p t mask)) = length (pieces p).
Proof. apply setNth_length. Qed.

(** The type of piece a move puts on its destination: the promoted piece
    for the four promotions, the moving piece otherwise. *)
Definition placedType (isEngine : bool) (m : Move) : PieceType :=
  match type m with
  | QUEEN_PROMOTION => ownQueen isEngine
  | ROOK_PROMOTION => ownRook isEngine
  | BISHOP_PROMOTION => ownBishop isEngine
  | KNIGHT_PROMOTION => ownKnight isEngine
  | _ => moving m
  end.

(** The board [makeMove] removes the captured piece with. *)
Definition captureMask (p0 : Position) (m : Move) : Z :=
  match type m with
  | EN_PASSANT => enPassantCapture p0
  | _ => boardOf (to m)
  end.

(** The first three steps of [makeMove]: lift the piece, put it (or the
    promoted piece) down, take the captured piece away. *)
Definition relocated (isEngine : bool) (p0 : Position) (m : Move)
  : Position :=
  let p := xorPiece (setEnPassant p0 0) (moving m) (boardOf (from m)) in
  let p := orPiece p (placedType isEngine m) (boardOf (to m)) in
  if negb (PieceType_eqb (captured m) NONE)
  then xorPiece p (captured m) (captureMask p0 m) else p.

(** A king move that brings the rook along: the king's side still holds a
    castling right and the king lands on a castling destination. *)
Definition castlingMove (isEngine : bool) (p0 : Position) (m : Move)
  : bool :=
  PieceType_eqb (moving m) (ownKing isEngine)
  && (castleKingside isEngine p0 || castleQueenside isEngine p0)
  && (nonzero (Z.land (boardOf (to m))
                 (if isEngine then ENGINE_KINGSIDE_DESTINATION
                  else PLAYER_KINGSIDE_DESTINATION))
      || nonzero (Z.land (boardOf (to m))
                    (if isEngine then ENGINE_QUEENSIDE_DESTINATION
                     else PLAYER_QUEENSIDE_DESTINATION))).

Definition samePieces (p q : Position) : Prop := pieces p = pieces q.

Lemma samePieces_if (c : bool) (p p' q : Position) :
  samePieces p q -> samePieces p' q -> samePieces (if c then p else p') q.
Proof. now destruct c. Qed.

Lemma samePieces_forbidKingside (engine : bool) (p q : Position) :
  samePieces p q -> samePieces (forbidKingside engine p) q.
Proof. now destruct engine. Qed.

Lemma samePieces_forbidQueenside (engine : bool) (p q : Position) :
  samePieces p q -> samePieces (forbidQueenside engine p) q.
Proof. now destruct engine. Qed.

Lemma samePieces_setEnPassant (p q : Position) (v : Z) :
  samePieces p q -> samePieces (setEnPassant p v) q.
Proof. exact (fun H => H). Qed.

Ltac pieces_step :=
  match goal with
  | H : samePieces ?p ?q |- samePieces ?p ?q => exact H
  | |- samePieces ?p ?p => reflexivity
  | |- samePieces (if _ then _ else _) _ => apply samePieces_if
  | |- samePieces (forbidKingside _ _) _ => apply samePieces_forbidKingside
  | |- samePieces (forbidQueenside _ _) _ =>
      apply samePieces_forbidQueenside
  | |- samePieces (setEnPassant _ _) _ => apply samePieces_setEnPassant
  end.

(** Unless the move is a castling move, the bitboards [makeMove] leaves
    are those of the first three steps. *)
Lemma movePosition_pieces (isEngine : bool) (p0 : Position) (m : Move) :
  castlingMove isEngine p0 m = false ->
  samePieces (movePosition isEngine p0 m) (relocated isEngine p0 m).
Proof.
  intros Hcastling. unfold movePosition. cbv zeta.
  match goal with
  | |- context [setEnPassant ?p (boardOf (to m))] => set (p3 := p)
  end.
  assert (H3 : samePieces p3 (relocated isEngine p0 m)
               /\ rightsLe p3 p0).
  { subst p3.
    match goal with
    | |- context [xorPiece ?p (captured m) _] => set (p2 := p)
    end.
    assert (H2 : p2 = orPiece (xorPiece (setEnPassant p0 0) (moving m)
                                 (boardOf (from m)))
                        (placedType isEngine m) (boardOf (to m))).
    { subst p2. unfold placedType, ownQueen, ownRook, ownBishop, ownKnight.
      destruct (type m); reflexivity. }
    assert (Hr2 : rightsLe p2 p0)
      by (subst p2; destruct (type m); repeat rights_step).
    unfold relocated. cbv zeta. rewrite <- H2. clearbody p2.
    unfold captureMask.
    split; [|repeat rights_step].
    destruct (negb (PieceType_eqb (captured m) NONE));
      repeat pieces_step. }
  destruct H3 as [H3 Hr3]. clearbody p3.
  unfold castlingMove, ownKing in Hcastling.
  destruct (PieceType_eqb (moving m)
              (if isEngine then ENGINE_KING else PLAYER_KING)).
  - cbn [andb] in Hcastling.
    destruct (castleKingside isEngine p3 || castleQueenside isEngine p3)
      eqn:E3; [|exact H3].
    assert (E0 : castleKingside isEngine p0 || castleQueenside isEngine p0
                 = true).
    { destruct (castleKingside isEngine p0) eqn:Ek; [reflexivity|].
      destruct (castleQueenside isEngine p0) eqn:Eq; [reflexivity|].
      rewrite (rightsLe_kingside _ _ _ Hr3 Ek),
        (rightsLe_queenside _ _ _ Hr3 Eq) in E3. discriminate. }
    rewrite E0 in Hcastling. cbn [andb] in Hcastling.
    apply orb_false_iff in Hcastling. destruct Hcastling as [Hk Hq].
    rewrite Hk, Hq. repeat pieces_step.
  - repeat pieces_step.
Qed.

Lemma placedType_inner (isEngine : bool) (m : Move) :
  moving m <> NONE -> placedType isEngine m <> NONE.
Proof.
  intros Hm. unfold placedType. destruct (type m), isEngine;
    first [exact Hm | discriminate].
Qed.

Lemma PieceType_eqb_refl (t : PieceType) : PieceType_eqb t t = true.
Proof. apply Nat.eqb_refl. Qed.

Lemma PieceType_eqb_false (a b : PieceType) :
  a <> b -> PieceType_eqb a b = false.
Proof.
  intros H. destruct (PieceType_eqb a b) eqn:E; [|reflexivity].
  apply PieceType_eqb_true in E. contradiction.
Qed.

(** The bits of the bitboards after the first three steps. *)
Lemma relocated_bits (isEngine : bool) (p0 : Position) (m : Move)
    (t : PieceType) (i : Z) :
  length (pieces p0) = 12%nat -> moving m <> NONE ->
  Z.testbit (piece (relocated isEngine p0 m) t) i
  = xorb (xorb (Z.testbit (piece p0 t) i)
               (PieceType_eqb t (moving m)
                && Z.testbit (boardOf (from m)) i)
          || (PieceType_eqb t (placedType isEngine m)
              && Z.testbit (boardOf (to m)) i))
         (negb (PieceType_eqb (captured m) NONE)
          && (PieceType_eqb t (captured m)
              && Z.testbit (captureMask p0 m) i)).
Proof.
  intros Hl Hm. unfold relocated. cbv zeta.
  pose proof (placedType_inner isEngine m Hm) as Hp.
  assert (Hl1 : length (pieces (setEnPassant p0 0)) = 12%nat) by exact Hl.
  assert (Hl2 : length (pieces (xorPiece (setEnPassant p0 0) (moving m)
                                  (boardOf (from m)))) = 12%nat)
    by (rewrite xorPiece_length; exact Hl1).
  assert (Hl3 : length (pieces
                  (orPiece (xorPiece (setEnPassant p0 0) (moving m)
                              (boardOf (from m)))
                     (placedType isEngine m) (boardOf (to m)))) = 12%nat)
    by (rewrite orPiece_length; exact Hl2).
  destruct (PieceType_eqb (captured m) NONE) eqn:Ec; cbn [negb andb].
  - rewrite xorb_false_r.
    rewrite (testbit_orPiece _ _ _ _ _ Hl2 Hp).
    rewrite (testbit_xorPiece _ _ _ _ _ Hl1 Hm). reflexivity.
  - assert (Hc : captured m <> NONE).
    { intros E. rewrite E in Ec. discriminate. }
    rewrite (testbit_xorPiece _ _ _ _ _ Hl3 Hc).
    rewrite (testbit_orPiece _ _ _ _ _ Hl2 Hp).
    rewrite (testbit_xorPiece _ _ _ _ _ Hl1 Hm). reflexivity.
Qed.

(** The bits of the twelve bitboards after a move that is not a castling
    move. *)
Lemma movePosition_bits (isEngine : bool) (p0 : Position) (m : Move)
    (s : Z) :
  length (pieces p0) = 12%nat ->
  0 <= from m < 64 -> 0 <= to m < 64 -> from m <> to m ->
  moving m <> NONE ->
  castlingMove isEngine p0 m = false ->
  Z.testbit (piece p0 (moving m)) (from m) = true ->
  captured m <> moving m -> captured m <> placedType isEngine m ->
  (captured m <> NONE ->
   0 <= s < 64 /\ captureMask p0 m = boardOf s
   /\ Z.testbit (piece p0 (captured m)) s = true) ->
  forall t i, t <> NONE -> 0 <= i ->
    Z.testbit (piece (movePosition isEngine p0 m) t) i
    = if PieceType_eqb t (placedType isEngine m) && (i =? to m) then true
      else if PieceType_eqb t (moving m) && (i =? from m) then false
      else if PieceType_eqb t (captured m) && (i =? s) then false
      else Z.testbit (piece p0 t) i.
Proof.
  intros Hl Hfrom Hto Hne Hm Hcastling Hbit Hcm Hcp Hcap t i Ht Hi.
  unfold piece at 1. rewrite (movePosition_pieces _ _ _ Hcastling).
  change (nth (pieceIndex t) (pieces (relocated isEngine p0 m)) 0)
    with (piece (relocated isEngine p0 m) t).
  rewrite (relocated_bits _ _ _ _ _ Hl Hm).
  rewrite !testbit_boardOf by assumption.
  destruct (PieceType_eqb (captured m) NONE) eqn:Ec; cbn [negb andb].
  - apply PieceType_eqb_true in Ec.
    rewrite Ec, (PieceType_eqb_false t NONE Ht). cbn [andb].
    rewrite xorb_false_r.
    destruct (PieceType_eqb t (placedType isEngine m)) eqn:Ep,
      (PieceType_eqb t (moving m)) eqn:Em,
      (Z.eqb_spec i (to m)) as [Hit|Hit],
      (Z.eqb_spec i (from m)) as [Hif|Hif];
      cbn [andb orb xorb]; try reflexivity; try lia;
      try (apply PieceType_eqb_true in Em; subst t; subst i;
           rewrite Hbit; reflexivity);
      try (rewrite orb_false_r, xorb_false_r; reflexivity);
      try (rewrite orb_true_r; reflexivity);
      try (rewrite xorb_false_r, orb_false_r; reflexivity).
  - assert (Hc : captured m <> NONE).
    { intros E. rewrite E in Ec. discriminate. }
    destruct (Hcap Hc) as (Hs & Hmask & Hcbit).
    rewrite Hmask, testbit_boardOf by assumption.
    destruct (PieceType_eqb t (captured m)) eqn:Et.
    + apply PieceType_eqb_true in Et. subst t.
      rewrite (PieceType_eqb_false _ _ Hcp), (PieceType_eqb_false _ _ Hcm).
      cbn [andb orb]. rewrite xorb_false_r.
      destruct (Z.eqb_spec i s) as [->|Hother]; cbn [andb].
      * rewrite Hcbit. reflexivity.
      * rewrite orb_false_r, !xorb_false_r. reflexivity.
    + cbn [andb]. rewrite xorb_false_r.
      destruct (PieceType_eqb t (placedType isEngine m)) eqn:Ep,
        (PieceType_eqb t (moving m)) eqn:Em,
        (Z.eqb_spec i (to m)) as [Hit|Hit],
        (Z.eqb_spec i (from m)) as [Hif|Hif];
        cbn [andb orb xorb]; try reflexivity; try lia;
        try (apply PieceType_eqb_true in Em; subst t; subst i;
             rewrite Hbit; reflexivity);
        try (rewrite orb_false_r, xorb_false_r; reflexivity);
        try (rewrite orb_true_r; reflexivity);
        try (rewrite xorb_false_r, orb_false_r; reflexivity).
Qed.

(** A move that is not a castling move takes the moving piece off [from]
    and puts it, or the piece the pawn is promoted to, on [to]; it takes
    the captured piece off the square [s] it stands on ([to], or the square
    [enPassantCapture] marks for an en-passant capture); every other bit of
    the twelve bitboards stays as it was. *)
Theorem makeMove_moves_piece (isEngine : bool) (b : Board) (m : Move)
    (s : Z) :
  length (pieces (position b)) = 12%nat ->
  0 <= from m < 64 -> 0 <= to m < 64 -> from m <> to m ->
  moving m <> NONE ->
  castlingMove isEngine (position b) m = false ->
  Z.testbit (piece (position b) (moving m)) (from m) = true ->
  captured m <> moving m -> captured m <> placedType isEngine m ->
  (captured m <> NONE ->
   0 <= s < 64 /\ captureMask (position b) m = boardOf s
   /\ Z.testbit (piece (position b) (captured m)) s = true) ->
  forall t i, t <> NONE -> 0 <= i ->
    Z.testbit (piece (position (makeMove isEngine b m)) t) i
    = if PieceType_eqb t (placedType isEngine m) && (i =? to m) then true
      else if PieceType_eqb t (moving m) && (i =? from m) then false
      else if PieceType_eqb t (captured m) && (i =? s) then false
      else Z.testbit (piece (position b) t) i.
Proof.
  intros Hl Hfrom Hto Hne Hm Hcastling Hbit Hcm Hcp Hcap t i Ht Hi.
  change (position (makeMove isEngine b m))
    with (movePosition isEngine (position b) m).
  apply (movePosition_bits isEngine (position b) m s); assumption.
Qed.

Lemma makeMove_moves_piece_witness :
  Z.testbit (piece (position (makeMove true scenario5 exd6)) ENGINE_PAWN) 44
  = true
  /\ Z.testbit (piece (position (makeMove true scenario5 exd6)) ENGINE_PAWN)
       35 = false
  /\ Z.testbit (piece (position (makeMove true scenario5 exd6)) PLAYER_PAWN)
       36 = false.
Proof.
  assert (Hl : length (pieces (position scenario5)) = 12%nat)
    by reflexivity.
  assert (Hfrom : 0 <= from exd6 < 64) by (cbn [from exd6]; lia).
  assert (Hto : 0 <= to exd6 < 64) by (cbn [to exd6]; lia).
  assert (Hne : from exd6 <> to exd6) by (cbn [from to exd6]; lia).
  assert (Hm : moving exd6 <> NONE) by discriminate.
  assert (Hcastling : castlingMove true (position scenario5) exd6 = false)
    by reflexivity.
  assert (Hbit : Z.testbit (piece (position scenario5) (moving exd6))
                   (from exd6) = true) by (vm_compute; reflexivity).
  assert (Hcm : captured exd6 <> moving exd6) by discriminate.
  assert (Hcp : captured exd6 <> placedType true exd6) by discriminate.
  assert (Hcap : captured exd6 <> NONE ->
            0 <= 36 < 64
            /\ captureMask (position scenario5) exd6 = boardOf 36
            /\ Z.testbit (piece (position scenario5) (captured exd6)) 36
               = true).
  { intros _. split; [lia|]. split; vm_compute; reflexivity. }
  pose proof (makeMove_moves_piece true scenario5 exd6 36 Hl Hfrom Hto Hne
                Hm Hcastling Hbit Hcm Hcp Hcap) as H.
  assert (Hep : ENGINE_PAWN <> NONE) by discriminate.
  assert (Hpp : PLAYER_PAWN <> NONE) by discriminate.
  split; [|split].
  - rewrite (H ENGINE_PAWN 44 Hep) by lia. reflexivity.
  - rewrite (H ENGINE_PAWN 35 Hep) by lia. reflexivity.
  - rewrite (H PLAYER_PAWN 36 Hpp) by lia. reflexivity.
Defined.

(** ** Castling moves the rook *)

Lemma castle_squares (isEngine : bool) :
  boardOf (castleKingTo isEngine true)
  = (if isEngine then ENGINE_KINGSIDE_DESTINATION
     else PLAYER_KINGSIDE_DESTINATION)
  /\ boardOf (castleKingTo isEngine false)
     = (if isEngine then ENGINE_QUEENSIDE_DESTINATION
        else PLAYER_QUEENSIDE_DESTINATION)
  /\ boardOf (castleRookFrom isEngine true)
     = (if isEngine then ENGINE_KINGSIDE_ROOK else PLAYER_KINGSIDE_ROOK)
  /\ boardOf (castleRookFrom isEngine false)
     = (if isEngine then ENGINE_QUEENSIDE_ROOK else PLAYER_QUEENSIDE_ROOK)
  /\ boardOf (castleRookTo isEngine true)
     = (if ENGINE_IS_WHITE
        then shl64 (boardOf (castleKingTo isEngine true)) 1
        else shr64 (boardOf (castleKingTo isEngine true)) 1)
  /\ boardOf (castleRookTo isEngine false)
     = (if ENGINE_IS_WHITE
        then shr64 (boardOf (castleKingTo isEngine false)) 1
        else shl64 (boardOf (castleKingTo isEngine false)) 1).
Proof. destruct isEngine; repeat split; vm_compute; reflexivity. Qed.

(** The bitboards after a castling move: king and rook both relocated. *)
Definition castled (isEngine kingside : bool) (p0 : Position) (origin : Z)
  : Position :=
  let king := ownKing isEngine in
  let rook := ownRook isEngine in
  let p := xorPiece (setEnPassant p0 0) king (boardOf origin) in
  let p := orPiece p king (boardOf (castleKingTo isEngine kingside)) in
  let p := xorPiece p rook (boardOf (castleRookFrom isEngine kingside)) in
  orPiece p rook (boardOf (castleRookTo isEngine kingside)).

Lemma movePosition_castle (isEngine kingside : bool) (p0 : Position)
    (origin : Z) :
  castleKingside isEngine p0 || castleQueenside isEngine p0 = true ->
  samePieces
    (movePosition isEngine p0
       (mkMove NORMAL origin (castleKingTo isEngine kingside)
          (ownKing isEngine) NONE))
    (castled isEngine kingside p0 origin).
Proof.
  intros Hright. unfold movePosition. cbv zeta.
  cbn [type from to moving captured].
  change (moveTypeIndex NORMAL <? 4) with false. cbv iota.
  change (PieceType_eqb NONE NONE) with true. cbn [negb].
  replace (PieceType_eqb (ownKing isEngine)
             (if isEngine then ENGINE_KING else PLAYER_KING)) with true
    by (now destruct isEngine).
  set (p3 := orPiece _ (ownKing isEngine) _).
  change (castleKingside isEngine p3) with (castleKingside isEngine p0).
  change (castleQueenside isEngine p3) with (castleQueenside isEngine p0).
  rewrite Hright.
  assert (Hk : nonzero
                 (Z.land (boardOf (castleKingTo isEngine kingside))
                    (if isEngine then ENGINE_KINGSIDE_DESTINATION
                     else PLAYER_KINGSIDE_DESTINATION)) = kingside)
    by (destruct isEngine, kingside; vm_compute; reflexivity).
  assert (Hq : nonzero
                 (Z.land (boardOf (castleKingTo isEngine kingside))
                    (if isEngine then ENGINE_QUEENSIDE_DESTINATION
                     else PLAYER_QUEENSIDE_DESTINATION)) = negb kingside)
    by (destruct isEngine, kingside; vm_compute; reflexivity).
  rewrite Hk, Hq.
  apply samePieces_forbidQueenside, samePieces_forbidKingside.
  destruct (castle_squares isEngine) as (_ & _ & Hkr & Hqr & Hkt & Hqt).
  unfold castled. cbv zeta. fold p3. unfold ownRook.
  destruct kingside; cbn [negb]; cbv iota.
  - rewrite Hkr, Hkt. reflexivity.
  - rewrite Hqr, Hqt. reflexivity.
Qed.

Lemma castle_square_ranges (isEngine kingside : bool) :
  0 <= castleKingTo isEngine kingside < 64
  /\ 0 <= castleRookFrom isEngine kingside < 64
  /\ 0 <= castleRookTo isEngine kingside < 64
  /\ castleRookFrom isEngine kingside <> castleRookTo isEngine kingside.
Proof. destruct isEngine, kingside; cbn; lia. Qed.

(** A king move to a castling destination, made while the side holds a
    castling right, moves the rook as well: it takes the king from [from]
    to [to] and the rook from its corner to the square beside the king,
    and leaves every other bit of the twelve bitboards as it was.  (The
    code tests that one of the two rights is held, not the right of the
    side castled to.) *)
Theorem makeMove_castles (isEngine kingside : bool) (b : Board) (m : Move) :
  length (pieces (position b)) = 12%nat ->
  type m = NORMAL -> moving m = ownKing isEngine -> captured m = NONE ->
  to m = castleKingTo isEngine kingside ->
  0 <= from m < 64 -> from m <> to m ->
  castleKingside isEngine (position b)
  || castleQueenside isEngine (position b) = true ->
  Z.testbit (piece (position b) (ownKing isEngine)) (from m) = true ->
  Z.testbit (piece (position b) (ownRook isEngine))
    (castleRookFrom isEngine kingside) = true ->
  forall t i, t <> NONE -> 0 <= i ->
    Z.testbit (piece (position (makeMove isEngine b m)) t) i
    = if PieceType_eqb t (ownKing isEngine) && (i =? to m) then true
      else if PieceType_eqb t (ownKing isEngine) && (i =? from m)
      then false
      else if PieceType_eqb t (ownRook isEngine)
              && (i =? castleRookTo isEngine kingside) then true
      else if PieceType_eqb t (ownRook isEngine)
              && (i =? castleRookFrom isEngine kingside) then false
      else Z.testbit (piece (position b) t) i.
Proof.
  intros Hl Htype Hmoving Hcaptured Hto Hfrom Hne Hright Hking Hrook
    t i Ht Hi.
  destruct m as [ty origin target mover taken].
  cbn [type from to moving captured] in *. subst ty mover taken target.
  change (position (makeMove isEngine b
            (mkMove NORMAL origin (castleKingTo isEngine kingside)
               (ownKing isEngine) NONE)))
    with (movePosition isEngine (position b)
            (mkMove NORMAL origin (castleKingTo isEngine kingside)
               (ownKing isEngine) NONE)).
  unfold piece at 1. rewrite (movePosition_castle _ _ _ _ Hright).
  change (nth (pieceIndex t)
            (pieces (castled isEngine kingside (position b) origin)) 0)
    with (piece (castled isEngine kingside (position b) origin) t).
  unfold castled. cbv zeta.
  destruct (castle_square_ranges isEngine kingside)
    as (Hkt & Hrf & Hrt & Hrne).
  assert (Hk : ownKing isEngine <> NONE) by (destruct isEngine; discriminate).
  assert (Hr : ownRook isEngine <> NONE) by (destruct isEngine; discriminate).
  assert (Hkr : PieceType_eqb (ownKing isEngine) (ownRook isEngine) = false)
    by (now destruct isEngine).
  rewrite testbit_orPiece
    by (rewrite ?xorPiece_length, ?orPiece_length, ?xorPiece_length,
          ?orPiece_length; assumption).
  rewrite testbit_xorPiece
    by (rewrite ?xorPiece_length, ?orPiece_length, ?xorPiece_length,
          ?orPiece_length; assumption).
  rewrite testbit_orPiece
    by (rewrite ?xorPiece_length, ?orPiece_length, ?xorPiece_length,
          ?orPiece_length; assumption).
  rewrite testbit_xorPiece by assumption.
  rewrite !testbit_boardOf by assumption.
  change (piece (setEnPassant (position b) 0) t) with (piece (position b) t).
  destruct (PieceType_eqb t (ownKing isEngine)) eqn:Ek.
  - apply PieceType_eqb_true in Ek. subst t. rewrite Hkr. cbn [andb].
    rewrite orb_false_r, xorb_false_r.
    destruct (Z.eqb_spec i (castleKingTo isEngine kingside)) as [Hit|Hit],
      (Z.eqb_spec i origin) as [Hif|Hif]; cbn [andb orb xorb];
      first [ lia
            | apply orb_true_r
            | subst i; rewrite Hking; reflexivity
            | rewrite xorb_false_r, orb_false_r; reflexivity ].
  - cbn [andb]. rewrite xorb_false_r, orb_false_r.
    destruct (PieceType_eqb t (ownRook isEngine)) eqn:Er; cbn [andb].
    + apply PieceType_eqb_true in Er. subst t.
      destruct (Z.eqb_spec i (castleRookTo isEngine kingside)) as [Hit|Hit],
        (Z.eqb_spec i (castleRookFrom isEngine kingside)) as [Hif|Hif];
        cbn [andb orb xorb];
        first [ lia
              | apply orb_true_r
              | subst i; rewrite Hrook; reflexivity
              | rewrite xorb_false_r, orb_false_r; reflexivity ].
    + rewrite xorb_false_r, orb_false_r. reflexivity.
Qed.

Lemma makeMove_castles_witness :
  Z.testbit
    (piece (position (makeMove true castleReady
                        (mkMove NORMAL 3 1 ENGINE_KING NONE))) ENGINE_ROOK) 2
  = true
  /\ Z.testbit
       (piece (position (makeMove true castleReady
                           (mkMove NORMAL 3 1 ENGINE_KING NONE)))
          ENGINE_ROOK) 0
     = false.
Proof.
  assert (Hl : length (pieces (position castleReady)) = 12%nat)
    by reflexivity.
  assert (Hfrom : 0 <= from (mkMove NORMAL 3 1 ENGINE_KING NONE) < 64)
    by (cbn [from]; lia).
  assert (Hne : from (mkMove NORMAL 3 1 ENGINE_KING NONE)
                <> to (mkMove NORMAL 3 1 ENGINE_KING NONE))
    by (cbn [from to]; lia).
  assert (Hking : Z.testbit (piece (position castleReady) (ownKing true))
                    (from (mkMove NORMAL 3 1 ENGINE_KING NONE)) = true)
    by (vm_compute; reflexivity).
  assert (Hrook : Z.testbit (piece (position castleReady) (ownRook true))
                    (castleRookFrom true true) = true)
    by (vm_compute; reflexivity).
  pose proof (makeMove_castles true true castleReady
                (mkMove NORMAL 3 1 ENGINE_KING NONE) Hl eq_refl eq_refl
                eq_refl eq_refl Hfrom Hne eq_refl Hking Hrook) as H.
  assert (Hr : ENGINE_ROOK <> NONE) by discriminate.
  split.
  - rewrite (H ENGINE_ROOK 2 Hr) by lia. reflexivity.
  - rewrite (H ENGINE_ROOK 0 Hr) by lia. reflexivity.
Defined.

(** ** Moves that answer a check *)

Lemma blockers_sub (reach targets blockerBoard : Z) :
  u64 targets ->
  u64 (Z.land (Z.land reach targets) blockerBoard)
  /\ subBoard (Z.land (Z.land reach targets) blockerBoard) blockerBoard.
Proof.
  intros Hu. split; [apply land_u64_l, land_u64_r; exact Hu|].
  intros i _ H. rewrite Z.land_spec in H. apply andb_true_iff in H.
  exact (proj2 H).
Qed.

Lemma blockers_sub_pinned (c : bool) (reach targets blockerBoard pins : Z) :
  u64 targets ->
  u64 (if c
       then Z.land (Z.land (Z.land reach targets) blockerBoard) pins
       else Z.land (Z.land reach targets) blockerBoard)
  /\ subBoard (if c
               then Z.land (Z.land (Z.land reach targets) blockerBoard) pins
               else Z.land (Z.land reach targets) blockerBoard)
              blockerBoard.
Proof.
  intros Hu.
  destruct (blockers_sub reach targets blockerBoard Hu) as [H1 H2].
  destruct c; [|split; assumption].
  split; [now apply land_u64_l|].
  intros i Hi H. rewrite Z.land_spec in H. apply andb_true_iff in H.
  destruct H as [H _]. now apply H2.
Qed.

Lemma generateKnightMoves_blockers (isEngine : bool) (b : Board) (k : Pins)
    (l : list Move) (m : Move) :
  boards64 b ->
  generateKnightMoves isEngine b k = Some l -> In m l ->
  type m = NORMAL /\ Z.testbit (blockerSquares k) (to m) = true.
Proof.
  intros Hb H Hin. pose proof (targets_u64 isEngine b Hb) as Hu.
  unfold generateKnightMoves in H. cbv zeta in H.
  destruct (concatM_In _ _ _ _ _ _ H Hin) as (s & cs & _ & Hcs & Hm).
  apply bind_Some in Hcs. destruct Hcs as (x & _ & Hcs).
  split; [exact (proj1 (pushMoves_In _ _ _ _ _ _ _ Hcs Hm))|].
  exact (proj2 (proj2 (proj2
           (pushMoves_squares _ _ _ _ _ _ _ _ (blockers_sub _ _ _ Hu)
              Hcs Hm)))).
Qed.

Lemma generateBishopMoves_blockers (sliders : Sliders) (isEngine : bool)
    (b : Board) (k : Pins) (l : list Move) (m : Move) :
  boards64 b ->
  generateBishopMoves sliders isEngine b k = Some l -> In m l ->
  type m = NORMAL /\ Z.testbit (blockerSquares k) (to m) = true.
Proof.
  intros Hb H Hin. pose proof (targets_u64 isEngine b Hb) as Hu.
  unfold generateBishopMoves in H. cbv zeta in H.
  destruct (concatM_In _ _ _ _ _ _ H Hin) as (s & cs & _ & Hcs & Hm).
  apply bind_Some in Hcs. destruct Hcs as (x & _ & Hcs).
  apply bind_Some in Hcs. destruct Hcs as (y & _ & Hcs).
  split; [exact (proj1 (pushMoves_In _ _ _ _ _ _ _ Hcs Hm))|].
  exact (proj2 (proj2 (proj2
           (pushMoves_squares _ _ _ _ _ _ _ _
              (blockers_sub_pinned _ _ _ _ _ Hu) Hcs Hm)))).
Qed.

Lemma generateRookMoves_blockers (sliders : Sliders) (isEngine : bool)
    (b : Board) (k : Pins) (l : list Move) (m : Move) :
  boards64 b ->
  generateRookMoves sliders isEngine b k = Some l -> In m l ->
  type m = NORMAL /\ Z.testbit (blockerSquares k) (to m) = true.
Proof.
  intros Hb H Hin. pose proof (targets_u64 isEngine b Hb) as Hu.
  unfold generateRookMoves in H. cbv zeta in H.
  destruct (concatM_In _ _ _ _ _ _ H Hin) as (s & cs & _ & Hcs & Hm).
  apply bind_Some in Hcs. destruct Hcs as (x & _ & Hcs).
  apply bind_Some in Hcs. destruct Hcs as (y & _ & Hcs).
  split; [exact (proj1 (pushMoves_In _ _ _ _ _ _ _ Hcs Hm))|].
  exact (proj2 (proj2 (proj2
           (pushMoves_squares _ _ _ _ _ _ _ _
              (blockers_sub_pinned _ _ _ _ _ Hu) Hcs Hm)))).
Qed.

Lemma generateQueenMoves_blockers (sliders : Sliders) (isEngine : bool)
    (b : Board) (k : Pins) (l : list Move) (m : Move) :
  boards64 b ->
  generateQueenMoves sliders isEngine b k = Some l -> In m l ->
  type m = NORMAL /\ Z.testbit (blockerSquares k) (to m) = true.
Proof.
  intros Hb H Hin. pose proof (targets_u64 isEngine b Hb) as Hu.
  unfold generateQueenMoves in H. cbv zeta in H.
  destruct (concatM_In _ _ _ _ _ _ H Hin) as (q & cs & _ & Hcs & Hm).
  apply bind_Some in Hcs. destruct Hcs as (x & _ & Hcs).
  apply bind_Some in Hcs. destruct Hcs as (y & _ & Hcs).
  split; [exact (proj1 (pushMoves_In _ _ _ _ _ _ _ Hcs Hm))|].
  exact (proj2 (proj2 (proj2
           (pushMoves_squares _ _ _ _ _ _ _ _ (blockers_sub _ _ _ Hu)
              Hcs Hm)))).
Qed.

Lemma squaresOf_blockers (x blockerBoard s : Z) :
  u64 x -> In s (squaresOf (Z.land x blockerBoard)) ->
  Z.testbit blockerBoard s = true.
Proof.
  intros Hx Hin. apply squaresOf_In in Hin; [|now apply land_u64_l].
  destruct Hin as [_ Hb]. rewrite Z.land_spec in Hb.
  apply andb_true_iff in Hb. exact (proj2 Hb).
Qed.

Lemma land_blockers_nonzero (capture shifted blockerBoard : Z) :
  nonzero (Z.land (Z.land capture shifted) blockerBoard) = true ->
  nonzero (Z.land capture blockerBoard) = true.
Proof.
  intros H. apply nonzero_true in H. apply nonzero_true. intros H0.
  apply H. rewrite (Z.land_comm capture shifted), <- Z.land_assoc, H0.
  apply Z.land_0_r.
Qed.

Lemma enPassant_branch_blockers (sliders : Sliders) (isEngine : bool)
    (b : Board) (k : Pins) (candidate origin forward : Z)
    (l : list Move) (m : Move) :
  (if nonzero candidate
   then enPassantMove sliders isEngine b k origin forward
   else Some []) = Some l ->
  In m l -> nonzero candidate = true.
Proof.
  intros H Hin. destruct (nonzero candidate); [reflexivity|].
  apply Some_inj in H. subst l. contradiction.
Qed.

Lemma generatePawnMoves_blockers (sliders : Sliders) (isEngine : bool)
    (b : Board) (k : Pins) (l : list Move) (m : Move) :
  boards64 b ->
  generatePawnMoves sliders isEngine b k = Some l -> In m l ->
  (type m <> EN_PASSANT /\ Z.testbit (blockerSquares k) (to m) = true)
  \/ (type m = EN_PASSANT
      /\ nonzero (Z.land (enPassantCapture (position b))
                    (blockerSquares k)) = true).
Proof.
  intros (Hp & He & Hpp & Hep & _) H Hin.
  unfold generatePawnMoves in H. cbv zeta in H.
  apply bind_Some in H. destruct H as (lefts & Hl & H).
  apply bind_Some in H. destruct H as (rights & Hr & H).
  apply bind_Some in H. destruct H as (enPassants & Hen & H).
  apply Some_inj in H. subst l.
  assert (Henemy : u64 (if isEngine then playerPieces b
                        else enginePieces b))
    by (destruct isEngine; assumption).
  apply in_app_or in Hin. destruct Hin as [Hin|Hin].
  { left. apply in_app_or in Hin. destruct Hin as [Hin|Hin].
    - apply pawnSinglePushes_In in Hin.
      destruct Hin as (Ht & _ & _ & _ & Hto). split; [exact Ht|].
      refine (squaresOf_blockers _ _ _ _ Hto). now apply land_u64_r.
    - apply pawnDoublePushes_In in Hin.
      destruct Hin as (Ht & _ & _ & _ & Hto).
      split; [rewrite Ht; discriminate|].
      refine (squaresOf_blockers _ _ _ _ Hto). now apply land_u64_r. }
  apply in_app_or in Hin. destruct Hin as [Hin|Hin].
  { left.
    destruct (pawnCaptures_In _ _ _ _ _ _ _ Hl Hin) as (Ht & _ & _ & _ & Hto).
    split; [exact Ht|].
    refine (squaresOf_blockers _ _ _ _ Hto). now apply land_u64_r. }
  apply in_app_or in Hin. destruct Hin as [Hin|Hin].
  { left.
    destruct (pawnCaptures_In _ _ _ _ _ _ _ Hr Hin) as (Ht & _ & _ & _ & Hto).
    split; [exact Ht|].
    refine (squaresOf_blockers _ _ _ _ Hto). now apply land_u64_r. }
  right.
  destruct (nonzero (enPassantCapture (position b)));
    [|apply Some_inj in Hen; subst enPassants; contradiction].
  apply bind_Some in Hen. destruct Hen as (rightMoves & Hrm & Hen).
  apply bind_Some in Hen. destruct Hen as (leftMoves & Hlm & Hen).
  apply Some_inj in Hen. subst enPassants.
  apply in_app_or in Hin. destruct Hin as [Hin|Hin].
  - pose proof (enPassant_branch_blockers _ _ _ _ _ _ _ _ _ Hrm Hin) as Hc.
    rewrite Hc in Hrm.
    rewrite (enPassantMove_In _ _ _ _ _ _ _ _ Hrm Hin). cbn [type].
    split; [reflexivity|]. exact (land_blockers_nonzero _ _ _ Hc).
  - pose proof (enPassant_branch_blockers _ _ _ _ _ _ _ _ _ Hlm Hin) as Hc.
    rewrite Hc in Hlm.
    rewrite (enPassantMove_In _ _ _ _ _ _ _ _ Hlm Hin). cbn [type].
    split; [reflexivity|]. exact (land_blockers_nonzero _ _ _ Hc).
Qed.

(** Every generated move that is not a king move lands on a square of
    [blockerSquares], the board [getBlockerSquares] returns; an en-passant
    capture is generated only when the pawn it takes stands on such a
    square.  So when [getBlockerSquares] returns the empty board, only king
    moves are generated. *)
Theorem generated_moves_answer_check (sliders : Sliders) (isEngine : bool)
    (b : Board) (blockers : Z) (moves : list Move) (m : Move) :
  boards64 b ->
  getBlockerSquares sliders isEngine b = Some blockers ->
  generateMoves sliders isEngine b = Some moves -> In m moves ->
  (moving m = ownKing isEngine
   \/ (type m <> EN_PASSANT /\ Z.testbit blockers (to m) = true)
   \/ (type m = EN_PASSANT
       /\ nonzero (Z.land (enPassantCapture (position b)) blockers) = true))
  /\ (blockers = 0 -> moving m = ownKing isEngine).
Proof.
  intros Hb Hblockers H Hin.
  assert (Hcases :
    moving m = ownKing isEngine
    \/ (type m <> EN_PASSANT /\ Z.testbit blockers (to m) = true)
    \/ (type m = EN_PASSANT
        /\ nonzero (Z.land (enPassantCapture (position b)) blockers)
           = true)).
  { unfold generateMoves in H.
    apply bind_Some in H. destruct H as (k & Hk & H).
    assert (Hbs : blockerSquares k = blockers).
    { unfold getPins in Hk. rewrite Hblockers in Hk. cbn [bind] in Hk.
      apply bind_Some in Hk. destruct Hk as (cp & _ & Hk).
      apply bind_Some in Hk. destruct Hk as (op & _ & Hk).
      apply Some_inj in Hk. subst k. reflexivity. }
    apply bind_Some in H. destruct H as (pawnMoves & Hp & H).
    apply bind_Some in H. destruct H as (knightMoves & Hn & H).
    apply bind_Some in H. destruct H as (kingMoves & Hking & H).
    apply bind_Some in H. destruct H as (bishopMoves & Hbi & H).
    apply bind_Some in H. destruct H as (rookMoves & Hr & H).
    apply bind_Some in H. destruct H as (queenMoves & Hq & H).
    apply Some_inj in H. subst moves. rewrite <- Hbs.
    assert (Hpiece : type m = NORMAL
                     /\ Z.testbit (blockerSquares k) (to m) = true ->
              moving m = ownKing isEngine
              \/ (type m <> EN_PASSANT
                  /\ Z.testbit (blockerSquares k) (to m) = true)
              \/ (type m = EN_PASSANT
                  /\ nonzero (Z.land (enPassantCapture (position b))
                                (blockerSquares k)) = true)).
    { intros [Ht Hbit]. right. left. split; [|exact Hbit].
      rewrite Ht. discriminate. }
    apply in_app_or in Hin. destruct Hin as [Hin|Hin];
      [right; exact (generatePawnMoves_blockers _ _ _ _ _ _ Hb Hp Hin)|].
    apply in_app_or in Hin. destruct Hin as [Hin|Hin];
      [exact (Hpiece (generateKnightMoves_blockers _ _ _ _ _ Hb Hn Hin))|].
    apply in_app_or in Hin. destruct Hin as [Hin|Hin];
      [left; exact (proj1 (generateKingMoves_from _ _ _ _ _ Hking Hin))|].
    apply in_app_or in Hin. destruct Hin as [Hin|Hin];
      [exact (Hpiece (generateBishopMoves_blockers _ _ _ _ _ _ Hb Hbi Hin))|].
    apply in_app_or in Hin. destruct Hin as [Hin|Hin];
      [exact (Hpiece (generateRookMoves_blockers _ _ _ _ _ _ Hb Hr Hin))|].
    exact (Hpiece (generateQueenMoves_blockers _ _ _ _ _ _ Hb Hq Hin)). }
  split; [exact Hcases|]. intros Hzero. subst blockers.
  destruct Hcases as [Hking|[[_ Hbit]|[_ Hnz]]]; [exact Hking| |].
  - rewrite Z.testbit_0_l in Hbit. discriminate.
  - rewrite Z.land_0_r in Hnz. discriminate.
Qed.

Lemma knightCheck_boards64 : boards64 knightCheck.
Proof.
  unfold boards64, u64.
  split; [intros t; destruct t|repeat split];
    first [vm_compute; discriminate | vm_compute; reflexivity
          | (split; [vm_compute; discriminate|vm_compute; reflexivity])].
Qed.

Lemma knightCheck_blockers (rand : Z -> Z) (g : MoveGen) :
  newMoveGen rand = Some g ->
  getBlockerSquares (tableSliders g) true knightCheck = Some (boardOf 17).
Proof.
  intros Hg. rewrite (tableSliders_rays rand g Hg). vm_compute. reflexivity.
Qed.

Lemma generated_moves_answer_check_witness :
  getBlockerSquares (tableSliders knownMoveGen) true knightCheck
  = Some (boardOf 17)
  /\ Z.testbit (boardOf 17) (to queenTakesKnight) = true.
Proof.
  split;
    [exact (knightCheck_blockers knownRand knownMoveGen knownMoveGen_built)|].
  pose proof (knightCheck_blockers knownRand knownMoveGen knownMoveGen_built)
    as Hblockers.
  pose proof (knightCheck_moves knownRand knownMoveGen knownMoveGen_built)
    as Hmoves.
  assert (Hin : In queenTakesKnight [pawnTakesKnight; queenTakesKnight])
    by (right; left; reflexivity).
  destruct (generated_moves_answer_check (tableSliders knownMoveGen) true
              knightCheck (boardOf 17) _ queenTakesKnight
              knightCheck_boards64 Hblockers Hmoves Hin)
    as [[Hking|[[_ Hbit]|[Hep _]]] _].
  - discriminate.
  - exact Hbit.
  - discriminate.
Defined.

(** ** Pinned pieces keep to the pin *)


Lemma boardOf_off_board (s : Z) : 64 <= s -> boardOf s = 0.
Proof.
  intros Hs. apply Z.bits_inj'. intros i Hi. unfold boardOf.
  rewrite testbit_shl64, Z.bits_0 by exact Hi.
  destruct (Z.ltb_spec i 64) as [Hlt|]; [|apply andb_false_r].
  rewrite (Z.testbit_neg_r 1 (i - s)) by lia. reflexivity.
Qed.























(** ** makeMove keeps the bitboards disjoint *)

(** Where a bit can be set after a move that is not a castling move, made
    on disjoint bitboards to a square that holds at most the captured
    piece: on [to] for the piece placed there, and elsewhere, off [from],
    only where it was set before. *)
Lemma moved_bit (isEngine : bool) (p0 : Position) (m : Move) (s : Z)
    (t : PieceType) (i : Z) :
  length (pieces p0) = 12%nat ->
  0 <= from m < 64 -> 0 <= to m < 64 -> from m <> to m ->
  moving m <> NONE ->
  castlingMove isEngine p0 m = false ->
  Z.testbit (piece p0 (moving m)) (from m) = true ->
  captured m <> moving m -> captured m <> placedType isEngine m ->
  (captured m <> NONE ->
   0 <= s < 64 /\ captureMask p0 m = boardOf s
   /\ Z.testbit (piece p0 (captured m)) s = true) ->
  (forall t', t' <> NONE -> Z.testbit (piece p0 t') (to m) = true ->
              t' = captured m /\ s = to m) ->
  disjointPieces p0 ->
  t <> NONE -> 0 <= i ->
  Z.testbit (piece (movePosition isEngine p0 m) t) i = true ->
  (i = to m /\ t = placedType isEngine m)
  \/ (i <> to m /\ i <> from m /\ Z.testbit (piece p0 t) i = true).
Proof.
  intros Hl Hfrom Hto Hne Hm Hcastling Hbit Hcm Hcp Hcap Hfree Hd Ht Hi H.
  rewrite (movePosition_bits isEngine p0 m s Hl Hfrom Hto Hne Hm Hcastling
             Hbit Hcm Hcp Hcap t i Ht Hi) in H.
  destruct (PieceType_eqb t (placedType isEngine m) && (i =? to m)) eqn:E1.
  { left. apply andb_true_iff in E1. destruct E1 as [Ep Hit].
    split; [apply Z.eqb_eq; exact Hit|exact (PieceType_eqb_true _ _ Ep)]. }
  destruct (PieceType_eqb t (moving m) && (i =? from m)) eqn:E2;
    [discriminate|].
  destruct (PieceType_eqb t (captured m) && (i =? s)) eqn:E3;
    [discriminate|].
  right. split; [|split; [|exact H]].
  - intros Hit. subst i. destruct (Hfree t Ht H) as [Htc Hst].
    subst t s. rewrite PieceType_eqb_refl, Z.eqb_refl in E3. discriminate.
  - intros Hif. subst i. destruct (PieceType_eqb t (moving m)) eqn:Em.
    + rewrite Z.eqb_refl in E2. discriminate.
    + assert (Htm : moving m <> t).
      { intros E. rewrite <- E, PieceType_eqb_refl in Em. discriminate. }
      rewrite (disjoint_bit p0 (moving m) t (from m) Hd Hm Ht Htm Hbit) in H.
      discriminate.
Qed.

(** [makeMove] keeps the twelve bitboards pairwise disjoint: if they are
    disjoint before a move that is not a castling move, the moving piece
    stands on [from], and [to] holds no piece but the captured one (which
    stands on [s]: on [to], or beside it for an en-passant capture), then
    they are disjoint after it. *)
Theorem makeMove_keeps_disjoint (isEngine : bool) (b : Board) (m : Move)
    (s : Z) :
  length (pieces (position b)) = 12%nat ->
  0 <= from m < 64 -> 0 <= to m < 64 -> from m <> to m ->
  moving m <> NONE ->
  castlingMove isEngine (position b) m = false ->
  Z.testbit (piece (position b) (moving m)) (from m) = true ->
  captured m <> moving m -> captured m <> placedType isEngine m ->
  (captured m <> NONE ->
   0 <= s < 64 /\ captureMask (position b) m = boardOf s
   /\ Z.testbit (piece (position b) (captured m)) s = true) ->
  (forall t, t <> NONE -> Z.testbit (piece (position b) t) (to m) = true ->
             t = captured m /\ s = to m) ->
  disjointPieces (position b) ->
  disjointPieces (position (makeMove isEngine b m)).
Proof.
  intros Hl Hfrom Hto Hne Hm Hcastling Hbit Hcm Hcp Hcap Hfree Hd.
  change (position (makeMove isEngine b m))
    with (movePosition isEngine (position b) m).
  intros t1 t2 Ht1 Ht2 Hdiff. apply Z.bits_inj'. intros i Hi.
  rewrite Z.land_spec, Z.bits_0.
  destruct (Z.testbit (piece (movePosition isEngine (position b) m) t1) i)
    eqn:E1; [|reflexivity].
  destruct (Z.testbit (piece (movePosition isEngine (position b) m) t2) i)
    eqn:E2; [|reflexivity].
  exfalso.
  apply (moved_bit isEngine (position b) m s t1 i Hl Hfrom Hto Hne Hm
           Hcastling Hbit Hcm Hcp Hcap Hfree Hd Ht1 Hi) in E1.
  apply (moved_bit isEngine (position b) m s t2 i Hl Hfrom Hto Hne Hm
           Hcastling Hbit Hcm Hcp Hcap Hfree Hd Ht2 Hi) in E2.
  destruct E1 as [[Hi1 Hp1]|(Hn1 & _ & Hb1)],
    E2 as [[Hi2 Hp2]|(Hn2 & _ & Hb2)]; try contradiction.
  - apply Hdiff. congruence.
  - rewrite (disjoint_bit _ t1 t2 i Hd Ht1 Ht2 Hdiff Hb1) in Hb2.
    discriminate.
Qed.

Lemma scenario5_disjoint : disjointPieces (position scenario5).
Proof.
  intros t1 t2 H1 H2 Hne.
  destruct t1; try congruence; destruct t2; try congruence;
    vm_compute; reflexivity.
Qed.

Lemma makeMove_keeps_disjoint_witness :
  disjointPieces (position (makeMove true scenario5 exd6)).
Proof.
  assert (Hl : length (pieces (position scenario5)) = 12%nat)
    by reflexivity.
  assert (Hfrom : 0 <= from exd6 < 64) by (cbn [from exd6]; lia).
  assert (Hto : 0 <= to exd6 < 64) by (cbn [to exd6]; lia).
  assert (Hne : from exd6 <> to exd6) by (cbn [from to exd6]; lia).
  assert (Hm : moving exd6 <> NONE) by discriminate.
  assert (Hcastling : castlingMove true (position scenario5) exd6 = false)
    by reflexivity.
  assert (Hbit : Z.testbit (piece (position scenario5) (moving exd6))
                   (from exd6) = true) by (vm_compute; reflexivity).
  assert (Hcm : captured exd6 <> moving exd6) by discriminate.
  assert (Hcp : captured exd6 <> placedType true exd6) by discriminate.
  assert (Hcap : captured exd6 <> NONE ->
            0 <= 36 < 64
            /\ captureMask (position scenario5) exd6 = boardOf 36
            /\ Z.testbit (piece (position scenario5) (captured exd6)) 36
               = true).
  { intros _. split; [lia|]. split; vm_compute; reflexivity. }
  assert (Hfree : forall t, t <> NONE ->
            Z.testbit (piece (position scenario5) t) (to exd6) = true ->
            t = captured exd6 /\ 36 = to exd6).
  { intros t _ H. destruct t; vm_compute in H; discriminate. }
  exact (makeMove_keeps_disjoint true scenario5 exd6 36 Hl Hfrom Hto Hne Hm
           Hcastling Hbit Hcm Hcp Hcap Hfree scenario5_disjoint).
Defined.

(** ** What a generated move records as captured *)

Lemma boardOf_below_board (s : Z) : s < 0 -> boardOf s = 0.
Proof.
  intros Hs. apply Z.bits_inj'. intros i Hi. unfold boardOf.
  rewrite testbit_shl64, Z.bits_0 by exact Hi.
  replace (Z.testbit 1 (i - s)) with false; [reflexivity|].
  symmetry. change 1 with (2 ^ 0). apply Z.pow2_bits_false. lia.
Qed.

Lemma nonzero_land_on_board (x s : Z) :
  nonzero (Z.land x (boardOf s)) = true ->
  0 <= s < 64 /\ Z.testbit x s = true.
Proof.
  intros H.
  destruct (Z.lt_ge_cases s 0) as [Hneg|Hpos].
  { rewrite (boardOf_below_board s Hneg), Z.land_0_r in H. discriminate. }
  destruct (Z.lt_ge_cases s 64) as [Hlt|Hge].
  - split; [lia|]. rewrite nonzero_land_boardOf in H by lia. exact H.
  - rewrite (boardOf_off_board s Hge), Z.land_0_r in H. discriminate.
Qed.

Lemma firstTypeOn_bit (p : Position) (mask : Z) (types : list PieceType)
    (t : PieceType) :
  firstTypeOn p mask types = Some t ->
  nonzero (Z.land (piece p t) mask) = true.
Proof.
  induction types as [|x types IH]; cbn [firstTypeOn]; [discriminate|].
  destruct (nonzero (Z.land (piece p x) mask)) eqn:E.
  - intros H. apply Some_inj in H. subst x. exact E.
  - exact IH.
Qed.

(** What the lookup [getPlayerPieceType(to)] / [getEnginePieceType(to)]
    returns. *)
Lemma capturedOn_found (isEngine : bool) (b : Board) (square : Z)
    (c : PieceType) :
  capturedOn isEngine b square = Some c ->
  (c = NONE -> Z.testbit (emptySquares b) square = true)
  /\ (c <> NONE ->
      0 <= square < 64
      /\ Z.testbit (emptySquares b) square = false
      /\ Z.testbit (piece (position b) c) square = true).
Proof.
  intros H.
  assert (Hcases :
    (c = NONE /\ nonzero (Z.land (emptySquares b) (boardOf square)) = true)
    \/ (c <> NONE
        /\ nonzero (Z.land (emptySquares b) (boardOf square)) = false
        /\ nonzero (Z.land (piece (position b) c) (boardOf square))
           = true)).
  { unfold capturedOn, getPlayerPieceType, getEnginePieceType in H.
    cbv zeta in H.
    destruct (nonzero (Z.land (emptySquares b) (boardOf square))) eqn:E.
    - left. destruct isEngine; apply Some_inj in H; subst c;
        split; reflexivity.
    - right. destruct isEngine.
      + split; [|split; [reflexivity|exact (firstTypeOn_bit _ _ _ _ H)]].
        intros ->. apply firstTypeOn_In in H. cbn in H.
        intuition discriminate.
      + split; [|split; [reflexivity|exact (firstTypeOn_bit _ _ _ _ H)]].
        intros ->. apply firstTypeOn_In in H. cbn in H.
        intuition discriminate. }
  destruct Hcases as [[-> He]|(Hc & He & Hp)].
  - split; [|intros Hne; contradiction]. intros _.
    exact (proj2 (nonzero_land_on_board _ _ He)).
  - split; [intros ->; contradiction|]. intros _.
    destruct (nonzero_land_on_board _ _ Hp) as [Hr Hbit].
    split; [exact Hr|]. split; [|exact Hbit].
    rewrite nonzero_land_boardOf in He by exact Hr. exact He.
Qed.

Lemma generatePawnMoves_found (sliders : Sliders) (isEngine : bool)
    (b : Board) (k : Pins) (l : list Move) (m : Move) :
  boards64 b ->
  generatePawnMoves sliders isEngine b k = Some l -> In m l ->
  type m <> EN_PASSANT ->
  (captured m = NONE /\ Z.testbit (emptySquares b) (to m) = true)
  \/ capturedOn isEngine b (to m) = Some (captured m).
Proof.
  intros (Hp & He & _) H Hin Hty.
  unfold generatePawnMoves in H. cbv zeta in H.
  apply bind_Some in H. destruct H as (lefts & Hl & H).
  apply bind_Some in H. destruct H as (rights & Hr & H).
  apply bind_Some in H. destruct H as (enPassants & Hen & H).
  apply Some_inj in H. subst l.
  assert (Hpawns : u64 (piece (position b) (ownPawn isEngine))) by apply Hp.
  apply in_app_or in Hin. destruct Hin as [Hin|Hin].
  { left. apply in_app_or in Hin. destruct Hin as [Hin|Hin].
    - split; [exact (proj1 (proj2 (proj2 (pawnSinglePushes_In _ _ _ _ Hin))))|].
      assert (Hs : moving m = ownPawn isEngine /\ type m <> EN_PASSANT
                   /\ 0 <= from m < 64
                   /\ Z.testbit (piece (position b) (ownPawn isEngine))
                        (from m) = true
                   /\ 0 <= to m < 64
                   /\ Z.testbit (emptySquares b) (to m) = true)
        by (destruct isEngine;
            exact (pawn_single_push_squares _ b k _ m Hpawns He Hin)).
      exact (proj2 (proj2 (proj2 (proj2 (proj2 Hs))))).
    - split; [exact (proj1 (proj2 (proj2 (pawnDoublePushes_In _ _ _ _ Hin))))|].
      assert (Hs : moving m = ownPawn isEngine /\ type m <> EN_PASSANT
                   /\ 0 <= from m < 64
                   /\ Z.testbit (piece (position b) (ownPawn isEngine))
                        (from m) = true
                   /\ 0 <= to m < 64
                   /\ Z.testbit (emptySquares b) (to m) = true)
        by (destruct isEngine;
            exact (pawn_double_push_squares _ b k _ m Hpawns He Hin)).
      exact (proj2 (proj2 (proj2 (proj2 (proj2 Hs))))). }
  apply in_app_or in Hin. destruct Hin as [Hin|Hin];
    [right; exact (proj1 (proj2 (proj2
                     (pawnCaptures_In _ _ _ _ _ _ _ Hl Hin))))|].
  apply in_app_or in Hin. destruct Hin as [Hin|Hin];
    [right; exact (proj1 (proj2 (proj2
                     (pawnCaptures_In _ _ _ _ _ _ _ Hr Hin))))|].
  exfalso. apply Hty.
  destruct (nonzero (enPassantCapture (position b)));
    [|apply Some_inj in Hen; subst enPassants; contradiction].
  apply bind_Some in Hen. destruct Hen as (rightMoves & Hrm & Hen).
  apply bind_Some in Hen. destruct Hen as (leftMoves & Hlm & Hen).
  apply Some_inj in Hen. subst enPassants.
  apply in_app_or in Hin. destruct Hin as [Hin|Hin].
  - destruct (nonzero _) in Hrm;
      [|apply Some_inj in Hrm; subst rightMoves; contradiction].
    rewrite (enPassantMove_In _ _ _ _ _ _ _ _ Hrm Hin). reflexivity.
  - destruct (nonzero _) in Hlm;
      [|apply Some_inj in Hlm; subst leftMoves; contradiction].
    rewrite (enPassantMove_In _ _ _ _ _ _ _ _ Hlm Hin). reflexivity.
Qed.

Lemma generateMoves_captures (sliders : Sliders) (isEngine : bool)
    (b : Board) (moves : list Move) (m : Move) :
  boards64 b ->
  generateMoves sliders isEngine b = Some moves -> In m moves ->
  type m <> EN_PASSANT ->
  (captured m = NONE -> Z.testbit (emptySquares b) (to m) = true)
  /\ (captured m <> NONE ->
      0 <= to m < 64
      /\ Z.testbit (emptySquares b) (to m) = false
      /\ Z.testbit (piece (position b) (captured m)) (to m) = true).
Proof.
  intros Hb H Hin Hty.
  assert (Hfound :
    (captured m = NONE /\ Z.testbit (emptySquares b) (to m) = true)
    \/ capturedOn isEngine b (to m) = Some (captured m)).
  { destruct (generateMoves_In _ _ _ _ _ H Hin)
      as [[Hpawn _]|(mover & _ & _ & _ & Hc)]; [|right; exact Hc].
    unfold generateMoves in H.
    apply bind_Some in H. destruct H as (k & _ & H).
    apply bind_Some in H. destruct H as (pawnMoves & Hp & H).
    apply bind_Some in H. destruct H as (knightMoves & Hn & H).
    apply bind_Some in H. destruct H as (kingMoves & Hk & H).
    apply bind_Some in H. destruct H as (bishopMoves & Hbi & H).
    apply bind_Some in H. destruct H as (rookMoves & Hr & H).
    apply bind_Some in H. destruct H as (queenMoves & Hq & H).
    apply Some_inj in H. subst moves.
    assert (Hother : forall l mover,
              (forall x, In x l -> moving x = mover) ->
              mover <> ownPawn isEngine -> ~ In m l).
    { intros l mover Hall Hne Hl. apply Hne.
      rewrite <- (Hall m Hl). exact Hpawn. }
    apply in_app_or in Hin. destruct Hin as [Hin|Hin];
      [exact (generatePawnMoves_found _ _ _ _ _ _ Hb Hp Hin Hty)|].
    exfalso.
    apply in_app_or in Hin. destruct Hin as [Hin|Hin].
    { refine (Hother knightMoves (ownKnight isEngine) _ _ Hin).
      - intros x Hx.
        exact (proj1 (proj2 (generateKnightMoves_In _ _ _ _ _ Hn Hx))).
      - destruct isEngine; discriminate. }
    apply in_app_or in Hin. destruct Hin as [Hin|Hin].
    { refine (Hother kingMoves (ownKing isEngine) _ _ Hin).
      - intros x Hx.
        exact (proj1 (proj2 (generateKingMoves_In _ _ _ _ _ Hk Hx))).
      - destruct isEngine; discriminate. }
    apply in_app_or in Hin. destruct Hin as [Hin|Hin].
    { refine (Hother bishopMoves (ownBishop isEngine) _ _ Hin).
      - intros x Hx.
        exact (proj1 (proj2 (generateBishopMoves_In _ _ _ _ _ _ Hbi Hx))).
      - destruct isEngine; discriminate. }
    apply in_app_or in Hin. destruct Hin as [Hin|Hin].
    { refine (Hother rookMoves (ownRook isEngine) _ _ Hin).
      - intros x Hx.
        exact (proj1 (proj2 (generateRookMoves_In _ _ _ _ _ _ Hr Hx))).
      - destruct isEngine; discriminate. }
    refine (Hother queenMoves (ownQueen isEngine) _ _ Hin).
    - intros x Hx.
      exact (proj1 (proj2 (generateQueenMoves_In _ _ _ _ _ _ Hq Hx))).
    - destruct isEngine; discriminate. }
  destruct Hfound as [[Hnone Hempty]|Hc].
  - split; [intros _; exact Hempty|]. intros Hne. contradiction.
  - exact (capturedOn_found _ _ _ _ Hc).
Qed.

(** What a generated move that is not an en-passant capture records as
    captured is what stands on [to]: [NONE] only if [emptySquares] marks
    [to] empty, and otherwise a piece type whose bitboard has [to] set, on
    a square that [emptySquares] does not mark empty. *)
Theorem generated_captures_on_board (sliders : Sliders) (isEngine : bool)
    (b : Board) (moves : list Move) (m : Move) :
  boards64 b ->
  generateMoves sliders isEngine b = Some moves -> In m moves ->
  type m <> EN_PASSANT ->
  (captured m = NONE -> Z.testbit (emptySquares b) (to m) = true)
  /\ (captured m <> NONE ->
      0 <= to m < 64
      /\ Z.testbit (emptySquares b) (to m) = false
      /\ Z.testbit (piece (position b) (captured m)) (to m) = true).
Proof. exact (generateMoves_captures sliders isEngine b moves m). Qed.

Lemma generated_captures_on_board_witness :
  Z.testbit (piece (position knightCheck) PLAYER_KNIGHT) 17 = true
  /\ Z.testbit (emptySquares knightCheck) 17 = false.
Proof.
  pose proof (knightCheck_moves knownRand knownMoveGen knownMoveGen_built)
    as Hmoves.
  assert (Hin : In queenTakesKnight [pawnTakesKnight; queenTakesKnight])
    by (right; left; reflexivity).
  destruct (generated_captures_on_board (tableSliders knownMoveGen) true
              knightCheck _ queenTakesKnight knightCheck_boards64 Hmoves Hin)
    as [_ Hcapture]; [discriminate|].
  destruct Hcapture as (_ & Hempty & Hbit); [discriminate|].
  split; [exact Hbit|exact Hempty].
Defined.

(** ** A king out of check restricts no move *)

Lemma masks_exclude_origin :
  forallb (fun n =>
             let s := Z.of_nat n in
             negb (Z.testbit (getRookBlockers s) s)
             && negb (Z.testbit (getBishopBlockers s) s))
          (seq 0 64) = true.
Proof. vm_compute. reflexivity. Qed.

Lemma mask_excludes_origin (s : Z) :
  0 <= s < 64 ->
  Z.testbit (getRookBlockers s) s = false
  /\ Z.testbit (getBishopBlockers s) s = false.
Proof.
  intros Hs. pose proof masks_exclude_origin as H.
  rewrite forallb_forall in H. specialize (H (Z.to_nat s)).
  assert (Hin : In (Z.to_nat s) (seq 0 64)) by (apply in_seq; lia).
  apply H in Hin. cbv zeta in Hin. rewrite Z2Nat.id in Hin by lia.
  apply andb_true_iff in Hin. destruct Hin as [H1 H2].
  apply negb_true_iff in H1, H2. split; assumption.
Qed.

(** Lifting the king off the board changes no blocker of its own square:
    the blocker mask of a square leaves the square out. *)
Lemma blockers_without_king (occupied mask s : Z) :
  0 <= s < 64 -> u64 mask -> Z.testbit mask s = false ->
  Z.land (Z.land occupied mask) (not64 (boardOf s)) = Z.land occupied mask.
Proof.
  intros Hs Hu Hbit. apply Z.bits_inj'. intros i Hi.
  rewrite !Z.land_spec, testbit_not64, testbit_boardOf by lia.
  destruct (Z.eqb_spec i s) as [->|Hne].
  - rewrite Hbit. cbn [negb andb]. rewrite !andb_false_r. reflexivity.
  - cbn [negb andb]. destruct (Z.ltb_spec i 64) as [Hlt|Hge].
    + now rewrite andb_true_r.
    + rewrite (u64_testbit_high mask i Hu Hge). now rewrite !andb_false_r.
Qed.

Lemma lor_zero (x y : Z) : Z.lor x y = 0 -> x = 0 /\ y = 0.
Proof. apply Z.lor_eq_0_iff. Qed.

(** If [isKingInCheck] finds the king of the side on square [s] out of
    check, [getBlockerSquares] returns [FILLED_BOARD]: every square is a
    blocker square, so the generator restricts no move. *)
Theorem out_of_check_all_blockers (rand : Z -> Z) (g : MoveGen)
    (isEngine : bool) (b : Board) (s : Z) :
  newMoveGen rand = Some g ->
  0 <= s < 64 ->
  piece (position b) (ownKing isEngine) = boardOf s ->
  isKingInCheck (tableSliders g) b isEngine = Some false ->
  getBlockerSquares (tableSliders g) isEngine b = Some FILLED_BOARD.
Proof.
  intros Hg Hs Hking H. rewrite (tableSliders_rays rand g Hg) in *.
  assert (Hsafe : isSafeSquare (raySliders g) isEngine b s = Some true).
  { unfold isKingInCheck in H.
    destruct isEngine; cbn [ownKing] in Hking;
      rewrite Hking, getLeastSquare_boardOf in H by exact Hs;
      apply bind_Some in H; destruct H as (safe & Hsafe & H);
      apply Some_inj in H; (destruct safe; [exact Hsafe|discriminate]). }
  clear H. unfold isSafeSquare in Hsafe. cbv zeta in Hsafe.
  apply bind_Some in Hsafe. destruct Hsafe as (cm & Hcm & H).
  apply bind_Some in H. destruct H as (om & Hom & H).
  apply bind_Some in H. destruct H as (ca & Hca & H).
  apply bind_Some in H. destruct H as (oa & Hoa & H).
  apply bind_Some in H. destruct H as (kn & Hkn & H).
  apply bind_Some in H. destruct H as (km & Hkm & H).
  apply Some_inj in H. apply Z.eqb_eq in H.
  apply lor_zero in H. destruct H as [H Hright].
  apply lor_zero in H. destruct H as [H Hleft].
  apply lor_zero in H. destruct H as [H _].
  apply lor_zero in H. destruct H as [H Hknight].
  apply lor_zero in H. destruct H as [Hcardinal Hordinal].
  assert (Hmasks : cm = getRookBlockers s /\ om = getBishopBlockers s).
  { unfold raySliders in Hcm, Hom. cbn [cardinalMask ordinalMask] in Hcm, Hom.
    destruct (onBoard s); [|discriminate].
    apply Some_inj in Hcm, Hom. split; congruence. }
  destruct Hmasks as [Ecm Eom].
  destruct (mask_excludes_origin s Hs) as [Hrook Hbishop].
  assert (Hown : piece (position b)
                   (if isEngine then ENGINE_KING else PLAYER_KING)
                 = boardOf s) by exact Hking.
  rewrite Hown in Hca, Hoa.
  subst cm om.
  rewrite blockers_without_king in Hca
    by first [exact Hs | apply getRookBlockers_u64 | exact Hrook].
  rewrite blockers_without_king in Hoa
    by first [exact Hs | apply getBishopBlockers_u64 | exact Hbishop].
  unfold getBlockerSquares. cbv zeta.
  assert (Hking' : (if isEngine then piece (position b) ENGINE_KING
                    else piece (position b) PLAYER_KING) = boardOf s)
    by (destruct isEngine; exact Hking).
  rewrite Hking', getLeastSquare_boardOf by exact Hs.
  rewrite Hcm, Hom. cbn [bind]. rewrite Hca, Hoa. cbn [bind].
  rewrite Hkn. cbn [bind].
  rewrite Hcardinal, Hordinal, Hknight, Hleft, Hright.
  reflexivity.
Qed.

Lemma newBoard_out_of_check (rand : Z -> Z) (g : MoveGen) :
  newMoveGen rand = Some g ->
  isKingInCheck (tableSliders g) newBoard true = Some false.
Proof.
  intros Hg. rewrite (tableSliders_rays rand g Hg). vm_compute. reflexivity.
Qed.

Lemma out_of_check_all_blockers_witness :
  getBlockerSquares (tableSliders knownMoveGen) true newBoard
  = Some FILLED_BOARD.
Proof.
  apply (out_of_check_all_blockers knownRand knownMoveGen true newBoard 3
           knownMoveGen_built).
  - lia.
  - reflexivity.
  - exact (newBoard_out_of_check knownRand knownMoveGen knownMoveGen_built).
Defined.

(** * Score bounds in the positions of a game (C5) *)

(** ** Counting the bits of a union and of a difference *)

Lemma pos_lor_popcount (p q : positive) :
  pos_popcount (Pos.lor p q) + countSetBits (Z.of_N (Pos.land p q))
  = pos_popcount p + pos_popcount q.
Proof.
  revert q. induction p as [p IH|p IH|]; intros q; destruct q as [q|q|];
    cbn [Pos.lor Pos.land pos_popcount];
    rewrite ?countSetBits_Ndouble, ?countSetBits_Nsucc_double;
    try specialize (IH q);
    cbn [countSetBits Z.of_N pos_popcount]; lia.
Qed.

Lemma pos_lxor_popcount (p q : positive) :
  countSetBits (Z.of_N (Pos.lxor p q))
  + 2 * countSetBits (Z.of_N (Pos.land p q))
  = pos_popcount p + pos_popcount q.
Proof.
  revert q. induction p as [p IH|p IH|]; intros q; destruct q as [q|q|];
    cbn [Pos.lxor Pos.land pos_popcount];
    rewrite ?countSetBits_Ndouble, ?countSetBits_Nsucc_double;
    try specialize (IH q);
    cbn [countSetBits Z.of_N pos_popcount]; lia.
Qed.

Lemma countSetBits_lor (x y : Z) :
  0 <= x -> 0 <= y ->
  countSetBits (Z.lor x y) + countSetBits (Z.land x y)
  = countSetBits x + countSetBits y.
Proof.
  intros Hx Hy. destruct x as [|p|p]; [cbn; lia| |lia].
  destruct y as [|q|q]; [cbn; lia| |lia].
  apply pos_lor_popcount.
Qed.

Lemma countSetBits_lxor (x y : Z) :
  0 <= x -> 0 <= y ->
  countSetBits (Z.lxor x y) + 2 * countSetBits (Z.land x y)
  = countSetBits x + countSetBits y.
Proof.
  intros Hx Hy. destruct x as [|p|p]; [cbn; lia| |lia].
  destruct y as [|q|q]; [cbn; lia| |lia].
  apply pos_lxor_popcount.
Qed.

Lemma countSetBits_lor_le (x y : Z) :
  0 <= x -> 0 <= y ->
  countSetBits (Z.lor x y) <= countSetBits x + countSetBits y.
Proof.
  intros Hx Hy. pose proof (countSetBits_lor x y Hx Hy).
  pose proof (countSetBits_nonneg (Z.land x y)). lia.
Qed.

Lemma countSetBits_lxor_le (x y : Z) :
  0 <= x -> 0 <= y ->
  countSetBits (Z.lxor x y) <= countSetBits x + countSetBits y.
Proof.
  intros Hx Hy. pose proof (countSetBits_lxor x y Hx Hy).
  pose proof (countSetBits_nonneg (Z.land x y)). lia.
Qed.

(** Clearing a set bit takes one off the count. *)
Lemma countSetBits_clear (x s : Z) :
  0 <= x -> 0 <= s < 64 -> Z.testbit x s = true ->
  countSetBits (Z.lxor x (boardOf s)) = countSetBits x - 1.
Proof.
  intros Hx Hs Hbit.
  pose proof (countSetBits_lxor x (boardOf s) Hx
                (proj1 (boardOf_u64 s))) as H.
  rewrite (Z.land_comm x), (land_boardOf_on x s Hs Hbit) in H.
  rewrite (countSetBits_boardOf s Hs) in H. lia.
Qed.

Lemma boardOf_count (s : Z) : countSetBits (boardOf s) <= 1.
Proof.
  destruct (Z.lt_ge_cases s 0) as [Hneg|Hpos];
    [rewrite (boardOf_below_board s Hneg); cbn; lia|].
  destruct (Z.lt_ge_cases s 64) as [Hin|Hout];
    [rewrite countSetBits_boardOf by lia; lia|].
  rewrite (boardOf_off_board s Hout). cbn. lia.
Qed.

(** ** makeMove keeps twelve bitboards of 64 bits *)

(** The position holds twelve bitboards, each a [uint64_t] value. *)
Definition wide (p : Position) : Prop :=
  length (pieces p) = 12%nat /\ forall t, u64 (piece p t).

Lemma nth_setNth_cases (n n' : nat) (v : Z) (l : list Z) :
  nth n' (setNth n v l) 0 = v \/ nth n' (setNth n v l) 0 = nth n' l 0.
Proof.
  revert n n'. induction l as [|x l IH]; intros n n'.
  - right. destruct n; reflexivity.
  - destruct n as [|n], n' as [|n']; cbn [setNth nth]; auto.
Qed.

Lemma wide_setPiece (p : Position) (t : PieceType) (v : Z) :
  wide p -> u64 v -> wide (setPiece p t v).
Proof.
  intros [Hl Hu] Hv. split.
  - unfold setPiece. cbn [pieces]. rewrite setNth_length. exact Hl.
  - intros t'. unfold piece, setPiece. cbn [pieces].
    destruct (nth_setNth_cases (pieceIndex t) (pieceIndex t') v (pieces p))
      as [-> | ->]; [exact Hv|apply Hu].
Qed.

Lemma wide_xorPiece (p : Position) (t : PieceType) (mask : Z) :
  wide p -> u64 mask -> wide (xorPiece p t mask).
Proof.
  intros Hp Hm. apply wide_setPiece; [exact Hp|].
  apply lxor_u64; [apply Hp|exact Hm].
Qed.

Lemma wide_orPiece (p : Position) (t : PieceType) (mask : Z) :
  wide p -> u64 mask -> wide (orPiece p t mask).
Proof.
  intros Hp Hm. apply wide_setPiece; [exact Hp|].
  apply lor_u64; [apply Hp|exact Hm].
Qed.

Lemma wide_if (c : bool) (p q : Position) :
  wide p -> wide q -> wide (if c then p else q).
Proof. now destruct c. Qed.

Lemma wide_forbidKingside (engine : bool) (p : Position) :
  wide p -> wide (forbidKingside engine p).
Proof. now destruct engine. Qed.

Lemma wide_forbidQueenside (engine : bool) (p : Position) :
  wide p -> wide (forbidQueenside engine p).
Proof. now destruct engine. Qed.

Lemma wide_setEnPassant (p : Position) (v : Z) :
  wide p -> wide (setEnPassant p v).
Proof. exact (fun H => H). Qed.

Lemma rook_corners_u64 (isEngine : bool) :
  u64 (if isEngine then ENGINE_KINGSIDE_ROOK else PLAYER_KINGSIDE_ROOK)
  /\ u64 (if isEngine then ENGINE_QUEENSIDE_ROOK else PLAYER_QUEENSIDE_ROOK).
Proof. destruct isEngine; split; vm_compute; split; congruence. Qed.

Lemma shifted_u64 (c : bool) (s : Z) :
  u64 (if c then shl64 (boardOf s) 1 else shr64 (boardOf s) 1).
Proof.
  destruct c; [apply shl64_u64|].
  apply shr64_u64; [apply boardOf_u64|lia].
Qed.

Lemma shifted_u64' (c : bool) (s : Z) :
  u64 (if c then shr64 (boardOf s) 1 else shl64 (boardOf s) 1).
Proof.
  destruct c; [|apply shl64_u64].
  apply shr64_u64; [apply boardOf_u64|lia].
Qed.

Ltac wide_step :=
  match goal with
  | H : wide ?p |- wide ?p => exact H
  | |- wide (if _ then _ else _) => apply wide_if
  | |- wide (forbidKingside _ _) => apply wide_forbidKingside
  | |- wide (forbidQueenside _ _) => apply wide_forbidQueenside
  | |- wide (setEnPassant _ _) => apply wide_setEnPassant
  | |- wide (xorPiece _ _ _) => apply wide_xorPiece
  | |- wide (orPiece _ _ _) => apply wide_orPiece
  | |- u64 (boardOf _) => apply boardOf_u64
  | |- u64 (if ENGINE_IS_WHITE then shl64 _ _ else _) => apply shifted_u64
  | |- u64 (if ENGINE_IS_WHITE then shr64 _ _ else _) => apply shifted_u64'
  | |- u64 (if ?e then ENGINE_KINGSIDE_ROOK else _) =>
      exact (proj1 (rook_corners_u64 e))
  | |- u64 (if ?e then ENGINE_QUEENSIDE_ROOK else _) =>
      exact (proj2 (rook_corners_u64 e))
  | H : u64 ?x |- u64 ?x => exact H
  end.

Lemma movePosition_wide (isEngine : bool) (p0 : Position) (m : Move) :
  wide p0 -> u64 (enPassantCapture p0) ->
  wide (movePosition isEngine p0 m).
Proof.
  intros Hp He. unfold movePosition. cbv zeta.
  match goal with
  | |- context [setEnPassant ?p (boardOf (to m))] => set (p3 := p)
  end.
  assert (H3 : wide p3).
  { subst p3.
    match goal with
    | |- context [xorPiece ?p (captured m) _] => set (p2 := p)
    end.
    assert (H2 : wide p2)
      by (subst p2; destruct (type m); repeat wide_step).
    clearbody p2. destruct (type m); repeat wide_step. }
  clearbody p3. repeat wide_step.
Qed.

Lemma update_boards64 (b : Board) :
  (forall t, u64 (piece (position b) t)) -> boards64 (update b).
Proof.
  intros Hu. unfold boards64, update.
  cbn [position emptySquares playerPieces enginePieces playerOrEmpty
       engineOrEmpty].
  assert (He : u64 (Z.lor (Z.lor (Z.lor (Z.lor (Z.lor
            (piece (position b) ENGINE_PAWN)
            (piece (position b) ENGINE_KNIGHT))
            (piece (position b) ENGINE_BISHOP))
            (piece (position b) ENGINE_ROOK))
            (piece (position b) ENGINE_QUEEN))
            (piece (position b) ENGINE_KING)))
    by (repeat apply lor_u64; apply Hu).
  assert (Hq : u64 (Z.lor (Z.lor (Z.lor (Z.lor (Z.lor
            (piece (position b) PLAYER_PAWN)
            (piece (position b) PLAYER_KNIGHT))
            (piece (position b) PLAYER_BISHOP))
            (piece (position b) PLAYER_ROOK))
            (piece (position b) PLAYER_QUEEN))
            (piece (position b) PLAYER_KING)))
    by (repeat apply lor_u64; apply Hu).
  split; [exact Hu|]. split; [apply not64_u64|].
  split; [exact Hq|]. split; [exact He|].
  split; apply lor_u64; first [assumption | apply not64_u64].
Qed.

Lemma flipEngineToMove_boards64 (b : Board) :
  boards64 b -> boards64 (flipEngineToMove b).
Proof. exact (fun H => H). Qed.

Lemma makeMove_boards64 (isEngine : bool) (b : Board) (m : Move) :
  wide (position b) -> u64 (enPassantCapture (position b)) ->
  wide (position (makeMove isEngine b m))
  /\ boards64 (makeMove isEngine b m).
Proof.
  intros Hp He.
  pose proof (movePosition_wide isEngine (position b) m Hp He) as Hw.
  unfold makeMove.
  set (p' := movePosition isEngine (position b) m) in *. clearbody p'.
  split; [exact Hw|].
  apply flipEngineToMove_boards64.
  exact (update_boards64 (setPosition b p') (proj2 Hw)).
Qed.

(** ** makeMove adds no material *)

Lemma piece_xorPiece (p : Position) (t t' : PieceType) (mask : Z) :
  length (pieces p) = 12%nat -> t <> NONE ->
  piece (xorPiece p t mask) t'
  = if PieceType_eqb t' t then Z.lxor (piece p t) mask else piece p t'.
Proof. intros Hl Ht. unfold xorPiece. now apply piece_setPiece. Qed.

Lemma piece_orPiece (p : Position) (t t' : PieceType) (mask : Z) :
  length (pieces p) = 12%nat -> t <> NONE ->
  piece (orPiece p t mask) t'
  = if PieceType_eqb t' t then Z.lor (piece p t) mask else piece p t'.
Proof. intros Hl Ht. unfold orPiece. now apply piece_setPiece. Qed.

(** The first three steps of [makeMove] take one bit off the bitboard of
    the moving piece and add at most one to the bitboard of the piece put
    down; no other bitboard grows. *)
Lemma relocated_count (isEngine : bool) (p0 : Position) (m : Move)
    (t : PieceType) :
  wide p0 -> moving m <> NONE ->
  0 <= from m < 64 ->
  Z.testbit (piece p0 (moving m)) (from m) = true ->
  captured m <> moving m -> captured m <> placedType isEngine m ->
  (captured m <> NONE ->
   captureMask p0 m = 0
   \/ exists s, 0 <= s < 64 /\ captureMask p0 m = boardOf s
                /\ Z.testbit (piece p0 (captured m)) s = true) ->
  countSetBits (piece (relocated isEngine p0 m) t)
  <= countSetBits (piece p0 t)
     - (if PieceType_eqb t (moving m) then 1 else 0)
     + (if PieceType_eqb t (placedType isEngine m) then 1 else 0).
Proof.
  intros Hw Hm Hf Hbit Hcm Hcp Hcap. unfold relocated. cbv zeta.
  pose proof (placedType_inner isEngine m Hm) as Hp.
  set (p1 := xorPiece (setEnPassant p0 0) (moving m) (boardOf (from m))).
  assert (Hw1 : wide p1).
  { subst p1. apply wide_xorPiece; [exact Hw|apply boardOf_u64]. }
  assert (H1 : forall t',
            piece p1 t'
            = if PieceType_eqb t' (moving m)
              then Z.lxor (piece p0 (moving m)) (boardOf (from m))
              else piece p0 t').
  { intros t'. subst p1.
    exact (piece_xorPiece (setEnPassant p0 0) (moving m) t' _
             (proj1 Hw) Hm). }
  set (p2 := orPiece p1 (placedType isEngine m) (boardOf (to m))).
  assert (Hw2 : wide p2).
  { subst p2. apply wide_orPiece; [exact Hw1|apply boardOf_u64]. }
  assert (H2 : forall t',
            piece p2 t'
            = if PieceType_eqb t' (placedType isEngine m)
              then Z.lor (piece p1 (placedType isEngine m))
                         (boardOf (to m))
              else piece p1 t').
  { intros t'. subst p2.
    exact (piece_orPiece p1 (placedType isEngine m) t' _ (proj1 Hw1) Hp). }
  assert (C1 : forall t',
            countSetBits (piece p1 t')
            = countSetBits (piece p0 t')
              - (if PieceType_eqb t' (moving m) then 1 else 0)).
  { intros t'. rewrite H1.
    destruct (PieceType_eqb t' (moving m)) eqn:E; [|lia].
    apply PieceType_eqb_true in E. subst t'.
    apply countSetBits_clear;
      [exact (proj1 (proj2 Hw (moving m)))|exact Hf|exact Hbit]. }
  assert (C2 : forall t',
            countSetBits (piece p2 t')
            <= countSetBits (piece p1 t')
               + (if PieceType_eqb t' (placedType isEngine m)
                  then 1 else 0)).
  { intros t'. rewrite H2.
    destruct (PieceType_eqb t' (placedType isEngine m)) eqn:E; [|lia].
    apply PieceType_eqb_true in E. subst t'.
    pose proof (countSetBits_lor_le (piece p1 (placedType isEngine m))
                  (boardOf (to m))
                  (proj1 (proj2 Hw1 _)) (proj1 (boardOf_u64 _))).
    pose proof (boardOf_count (to m)). lia. }
  clearbody p2. clearbody p1.
  destruct (PieceType_eqb (captured m) NONE) eqn:Ec; cbn [negb].
  - specialize (C1 t). specialize (C2 t). lia.
  - assert (Hc : captured m <> NONE).
    { intros E. rewrite E in Ec. discriminate. }
    rewrite (piece_xorPiece p2 (captured m) t _ (proj1 Hw2) Hc).
    destruct (PieceType_eqb t (captured m)) eqn:Et.
    + apply PieceType_eqb_true in Et. subst t.
      rewrite (PieceType_eqb_false _ _ Hcm), (PieceType_eqb_false _ _ Hcp).
      assert (Hsame : piece p2 (captured m) = piece p0 (captured m)).
      { rewrite H2, (PieceType_eqb_false _ _ Hcp), H1,
          (PieceType_eqb_false _ _ Hcm). reflexivity. }
      rewrite Hsame.
      destruct (Hcap Hc) as [Hzero|(s & Hs & Hmask & Hcbit)].
      * rewrite Hzero, Z.lxor_0_r. lia.
      * rewrite Hmask.
        rewrite (countSetBits_clear _ s (proj1 (proj2 Hw _)) Hs Hcbit).
        lia.
    + specialize (C1 t). specialize (C2 t). lia.
Qed.

Lemma pieceCount_samePieces (p q : Position) (side : bool) :
  samePieces p q -> pieceCount p side = pieceCount q side.
Proof.
  intros H. unfold pieceCount, piece. rewrite H. reflexivity.
Qed.

Lemma piece_samePieces (p q : Position) (t : PieceType) :
  samePieces p q -> piece p t = piece q t.
Proof. intros H. unfold piece. rewrite H. reflexivity. Qed.

Lemma wide_samePieces (p q : Position) :
  samePieces p q -> wide q -> wide p.
Proof.
  intros H [Hl Hu]. unfold wide, piece in *. rewrite H. auto.
Qed.

(** The pieces of either side after the first three steps of a move the
    side [isEngine] makes with one of its own pieces. *)
Lemma relocated_pieceCount (isEngine : bool) (p0 : Position) (m : Move)
    (side : bool) :
  wide p0 ->
  In (moving m) (ownTypes isEngine) ->
  (type m <> NORMAL -> moving m = ownPawn isEngine) ->
  (captured m = NONE \/ In (captured m) (ownTypes (negb isEngine))) ->
  0 <= from m < 64 ->
  Z.testbit (piece p0 (moving m)) (from m) = true ->
  (captured m <> NONE ->
   captureMask p0 m = 0
   \/ exists s, 0 <= s < 64 /\ captureMask p0 m = boardOf s
                /\ Z.testbit (piece p0 (captured m)) s = true) ->
  pieceCount (relocated isEngine p0 m) side <= pieceCount p0 side.
Proof.
  intros Hw Hown Hty Hcap Hf Hbit Hmask.
  assert (Hm : moving m <> NONE).
  { intros E. rewrite E in Hown.
    destruct isEngine; cbn in Hown; intuition discriminate. }
  assert (Hp : In (placedType isEngine m) (ownTypes isEngine)).
  { unfold placedType, ownQueen, ownRook, ownBishop, ownKnight.
    destruct (type m); try exact Hown; destruct isEngine; cbn; tauto. }
  assert (Hdiff : forall own, In own (ownTypes isEngine) ->
                    captured m <> own).
  { intros own Ho E. destruct Hcap as [Hn|Hc].
    - rewrite Hn in E. subst own.
      destruct isEngine; cbn in Ho; intuition discriminate.
    - rewrite E in Hc.
      destruct isEngine; cbn in Ho, Hc; intuition congruence. }
  pose proof (fun t => relocated_count isEngine p0 m t Hw Hm Hf Hbit
                         (Hdiff _ Hown) (Hdiff _ Hp) Hmask) as H.
  clear Hmask Hbit Hf Hcap Hdiff Hp Hm.
  unfold placedType, ownQueen, ownRook, ownBishop, ownKnight in H.
  set (q := relocated isEngine p0 m) in *. clearbody q.
  destruct m as [ty fr dest mv cp].
  cbn [type moving] in *.
  unfold pieceCount.
  destruct isEngine; cbn [ownTypes engineTypes playerTypes In] in Hown;
    (destruct Hown as [E|[E|[E|[E|[E|[E|[]]]]]]]); subst mv;
    (destruct ty;
     try (specialize (Hty ltac:(discriminate)); discriminate Hty));
    destruct side;
    pose proof (H ENGINE_PAWN); pose proof (H ENGINE_KNIGHT);
    pose proof (H ENGINE_BISHOP); pose proof (H ENGINE_ROOK);
    pose proof (H ENGINE_QUEEN); pose proof (H PLAYER_PAWN);
    pose proof (H PLAYER_KNIGHT); pose proof (H PLAYER_BISHOP);
    pose proof (H PLAYER_ROOK); pose proof (H PLAYER_QUEEN);
    clear H;
    cbn [PieceType_eqb pieceIndex Nat.eqb] in *; lia.
Qed.

Lemma shifted_count (s : Z) :
  countSetBits (shl64 (boardOf s) 1) <= 1
  /\ countSetBits (shr64 (boardOf s) 1) <= 1.
Proof.
  destruct (Z.lt_ge_cases s 0) as [Hneg|Hpos];
    [rewrite (boardOf_below_board s Hneg); split; vm_compute; discriminate|].
  destruct (Z.lt_ge_cases s 64) as [Hin|Hout];
    [|rewrite (boardOf_off_board s Hout); split; vm_compute; discriminate].
  assert (Hall : forallb
            (fun n => (countSetBits (shl64 (boardOf (Z.of_nat n)) 1) <=? 1)
                      && (countSetBits (shr64 (boardOf (Z.of_nat n)) 1)
                          <=? 1))
            (seq 0 64) = true) by (vm_compute; reflexivity).
  rewrite forallb_forall in Hall.
  assert (Hs : In (Z.to_nat s) (seq 0 64)) by (apply in_seq; lia).
  specialize (Hall _ Hs). rewrite Z2Nat.id in Hall by lia.
  apply andb_true_iff in Hall. destruct Hall as [Hl Hr].
  split; apply Z.leb_le; assumption.
Qed.

Lemma rook_corners_count (isEngine : bool) :
  countSetBits (if isEngine then ENGINE_KINGSIDE_ROOK
                else PLAYER_KINGSIDE_ROOK) <= 1
  /\ countSetBits (if isEngine then ENGINE_QUEENSIDE_ROOK
                   else PLAYER_QUEENSIDE_ROOK) <= 1.
Proof. destruct isEngine; split; vm_compute; discriminate. Qed.

(** The rook's part of a castling move adds at most two bits to the
    bitboard of the rooks and leaves the other bitboards alone. *)
Lemma rook_step_count (c : bool) (p : Position) (rook : PieceType)
    (corner shift : Z) :
  wide p -> rook <> NONE -> u64 corner -> u64 shift ->
  countSetBits corner <= 1 -> countSetBits shift <= 1 ->
  let p' := if c then orPiece (xorPiece p rook corner) rook shift else p in
  wide p'
  /\ forall t, countSetBits (piece p' t)
               <= countSetBits (piece p t)
                  + (if PieceType_eqb t rook then 2 else 0).
Proof.
  intros Hw Hr Hc Hs Hcc Hsc p'. subst p'.
  destruct c;
    [|split; [exact Hw|intros t; destruct (PieceType_eqb t rook); lia]].
  pose proof (wide_xorPiece p rook corner Hw Hc) as Hw1.
  split; [apply wide_orPiece; assumption|]. intros t.
  rewrite (piece_orPiece _ rook t shift (proj1 Hw1) Hr).
  rewrite !(piece_xorPiece p rook _ corner (proj1 Hw) Hr).
  rewrite PieceType_eqb_refl.
  destruct (PieceType_eqb t rook) eqn:E; [|lia].
  apply PieceType_eqb_true in E. subst t.
  pose proof (countSetBits_lxor_le (piece p rook) corner
                (proj1 (proj2 Hw rook)) (proj1 Hc)).
  pose proof (countSetBits_lor_le (Z.lxor (piece p rook) corner) shift
                (proj1 (lxor_u64 _ _ (proj2 Hw rook) Hc)) (proj1 Hs)).
  lia.
Qed.

(** After the whole of [makeMove] a side has the pieces the first three
    steps left it, and at most four more if it moved its king while it
    held a castling right. *)
Lemma movePosition_pieceCount (isEngine : bool) (p0 : Position) (m : Move)
    (side : bool) :
  wide p0 -> u64 (enPassantCapture p0) ->
  pieceCount (movePosition isEngine p0 m) side
  <= pieceCount (relocated isEngine p0 m) side
     + (if PieceType_eqb (moving m) (ownKing isEngine)
           && (castleKingside isEngine p0 || castleQueenside isEngine p0)
           && Bool.eqb side isEngine
        then 4 else 0).
Proof.
  intros Hw He. unfold movePosition. cbv zeta.
  match goal with
  | |- context [setEnPassant ?p (boardOf (to m))] => set (p3 := p)
  end.
  assert (H3 : samePieces p3 (relocated isEngine p0 m)
               /\ rightsLe p3 p0 /\ wide p3).
  { subst p3.
    match goal with
    | |- context [xorPiece ?p (captured m) _] => set (p2 := p)
    end.
    assert (H2 : p2 = orPiece (xorPiece (setEnPassant p0 0) (moving m)
                                 (boardOf (from m)))
                        (placedType isEngine m) (boardOf (to m))).
    { subst p2. unfold placedType, ownQueen, ownRook, ownBishop, ownKnight.
      destruct (type m); reflexivity. }
    assert (Hr2 : rightsLe p2 p0)
      by (subst p2; destruct (type m); repeat rights_step).
    assert (Hw2 : wide p2)
      by (subst p2; destruct (type m); repeat wide_step).
    unfold relocated. cbv zeta. rewrite <- H2. clearbody p2.
    unfold captureMask.
    split; [|split; [repeat rights_step
                    |destruct (type m); repeat wide_step]].
    destruct (negb (PieceType_eqb (captured m) NONE));
      repeat pieces_step. }
  destruct H3 as (H3 & Hr3 & Hw3). clearbody p3.
  rewrite <- (pieceCount_samePieces p3 _ side H3).
  unfold ownKing.
  destruct (PieceType_eqb (moving m)
              (if isEngine then ENGINE_KING else PLAYER_KING)).
  - cbn [andb].
    destruct (castleKingside isEngine p3 || castleQueenside isEngine p3)
      eqn:E3;
      [|destruct ((castleKingside isEngine p0 || castleQueenside isEngine p0)
                  && Bool.eqb side isEngine); lia].
    assert (E0 : castleKingside isEngine p0 || castleQueenside isEngine p0
                 = true).
    { destruct (castleKingside isEngine p0) eqn:Ek; [reflexivity|].
      destruct (castleQueenside isEngine p0) eqn:Eq; [reflexivity|].
      rewrite (rightsLe_kingside _ _ _ Hr3 Ek),
        (rightsLe_queenside _ _ _ Hr3 Eq) in E3. discriminate. }
    rewrite E0. cbn [andb].
    assert (Hrook : (if isEngine then ENGINE_ROOK else PLAYER_ROOK) <> NONE)
      by (destruct isEngine; discriminate).
    match goal with
    | |- pieceCount (forbidQueenside _ (forbidKingside _ ?p)) _ <= _ =>
        set (p5 := p)
    end.
    rewrite (pieceCount_samePieces
               (forbidQueenside isEngine (forbidKingside isEngine p5))
               p5 side)
      by (repeat pieces_step).
    subst p5.
    match goal with
    | |- pieceCount (if _ then orPiece (xorPiece ?p _ _) _ _ else _) _ <= _ =>
        set (p4 := p)
    end.
    destruct (rook_step_count
                (nonzero (Z.land (boardOf (to m))
                            (if isEngine then ENGINE_KINGSIDE_DESTINATION
                             else PLAYER_KINGSIDE_DESTINATION)))
                p3 _ _
                (if ENGINE_IS_WHITE then shl64 (boardOf (to m)) 1
                 else shr64 (boardOf (to m)) 1)
                Hw3 Hrook
                (proj1 (rook_corners_u64 isEngine))
                (shifted_u64 ENGINE_IS_WHITE (to m))
                (proj1 (rook_corners_count isEngine))
                (proj1 (shifted_count (to m)))) as [Hw4 H4].
    fold p4 in Hw4, H4.
    destruct (rook_step_count
                (nonzero (Z.land (boardOf (to m))
                            (if isEngine then ENGINE_QUEENSIDE_DESTINATION
                             else PLAYER_QUEENSIDE_DESTINATION)))
                p4 _ _
                (if ENGINE_IS_WHITE then shr64 (boardOf (to m)) 1
                 else shl64 (boardOf (to m)) 1)
                Hw4 Hrook
                (proj2 (rook_corners_u64 isEngine))
                (shifted_u64' ENGINE_IS_WHITE (to m))
                (proj2 (rook_corners_count isEngine))
                (proj2 (shifted_count (to m)))) as [_ H5].
    cbv zeta in H5.
    match goal with
    | |- pieceCount ?p _ <= _ => set (p5 := p) in *
    end.
    clearbody p5. clearbody p4.
    unfold pieceCount.
    destruct isEngine, side; cbn [Bool.eqb];
      pose proof (H4 ENGINE_PAWN); pose proof (H4 ENGINE_KNIGHT);
      pose proof (H4 ENGINE_BISHOP); pose proof (H4 ENGINE_ROOK);
      pose proof (H4 ENGINE_QUEEN); pose proof (H4 PLAYER_PAWN);
      pose proof (H4 PLAYER_KNIGHT); pose proof (H4 PLAYER_BISHOP);
      pose proof (H4 PLAYER_ROOK); pose proof (H4 PLAYER_QUEEN);
      pose proof (H5 ENGINE_PAWN); pose proof (H5 ENGINE_KNIGHT);
      pose proof (H5 ENGINE_BISHOP); pose proof (H5 ENGINE_ROOK);
      pose proof (H5 ENGINE_QUEEN); pose proof (H5 PLAYER_PAWN);
      pose proof (H5 PLAYER_KNIGHT); pose proof (H5 PLAYER_BISHOP);
      pose proof (H5 PLAYER_ROOK); pose proof (H5 PLAYER_QUEEN);
      clear H4 H5;
      cbn [PieceType_eqb pieceIndex Nat.eqb] in *; lia.
  - cbn [andb].
    match goal with
    | |- pieceCount ?p _ <= _ =>
        rewrite (pieceCount_samePieces p p3 side) by (repeat pieces_step)
    end.
    lia.
Qed.

(** The material of a side: its pieces other than the king, and four more
    while it may still castle. *)
Definition material (p : Position) (side : bool) : Z :=
  pieceCount p side
  + (if castleKingside side p || castleQueenside side p then 4 else 0).

Lemma rightsLe_material (p q : Position) (side : bool) :
  rightsLe p q ->
  (if castleKingside side p || castleQueenside side p then 4 else 0)
  <= (if castleKingside side q || castleQueenside side q then 4 else 0).
Proof.
  intros H.
  destruct (castleKingside side q || castleQueenside side q) eqn:E;
    [destruct (castleKingside side p || castleQueenside side p); lia|].
  apply orb_false_iff in E. destruct E as [Ek Eq].
  rewrite (rightsLe_kingside _ _ _ H Ek), (rightsLe_queenside _ _ _ H Eq).
  cbn [orb]. lia.
Qed.

(** [makeMove] of a move of a piece of the side moving, from a square
    that holds the piece, taking nothing or a piece that is on the board,
    adds no material to either side. *)
Lemma movePosition_material (isEngine : bool) (p0 : Position) (m : Move)
    (side : bool) :
  wide p0 -> u64 (enPassantCapture p0) ->
  In (moving m) (ownTypes isEngine) ->
  (type m <> NORMAL -> moving m = ownPawn isEngine) ->
  (captured m = NONE \/ In (captured m) (ownTypes (negb isEngine))) ->
  0 <= from m < 64 ->
  Z.testbit (piece p0 (moving m)) (from m) = true ->
  (captured m <> NONE ->
   captureMask p0 m = 0
   \/ exists s, 0 <= s < 64 /\ captureMask p0 m = boardOf s
                /\ Z.testbit (piece p0 (captured m)) s = true) ->
  material (movePosition isEngine p0 m) side <= material p0 side.
Proof.
  intros Hw He Hown Hty Hcap Hf Hbit Hmask.
  pose proof (relocated_pieceCount isEngine p0 m side Hw Hown Hty Hcap Hf
                Hbit Hmask) as Hrel.
  pose proof (movePosition_pieceCount isEngine p0 m side Hw He) as Hcount.
  pose proof (rightsLe_material _ _ side
                (movePosition_rights isEngine p0 m)) as Hrights.
  unfold material.
  set (after := movePosition isEngine p0 m) in *.
  destruct (PieceType_eqb (moving m) (ownKing isEngine)) eqn:Ek;
    cbn [andb] in Hcount; [|lia].
  apply PieceType_eqb_true in Ek.
  destruct (movePosition_king isEngine p0 m Ek) as [Hk Hq].
  fold after in Hk, Hq. clearbody after.
  destruct (Bool.eqb side isEngine) eqn:Es.
  - apply Bool.eqb_prop in Es. subst side.
    rewrite Hk, Hq. cbn [orb].
    destruct (castleKingside isEngine p0 || castleQueenside isEngine p0);
      cbn [andb] in Hcount; lia.
  - rewrite andb_false_r in Hcount. lia.
Qed.

(** ** The positions of a game *)

Lemma makeMove_position (isEngine : bool) (b : Board) (m : Move) :
  position (makeMove isEngine b m) = movePosition isEngine (position b) m.
Proof. reflexivity. Qed.

(** A generated move that passes the test of [makeMove] for the en passant
    mark is a [NORMAL] move to a square of the board. *)
Lemma marked_move_normal (sliders : Sliders) (isEngine : bool) (b : Board)
    (moves : list Move) (move : Move) (p : Position) :
  generateMoves sliders isEngine b = Some moves -> In move moves ->
  marksEnPassant isEngine p move = true ->
  type move = NORMAL /\ moving move = ownPawn isEngine
  /\ 0 <= to move < 64.
Proof.
  intros Hgen Hin Hmark. unfold marksEnPassant in Hmark.
  apply andb_true_iff in Hmark. destruct Hmark as [Hmark _].
  apply andb_true_iff in Hmark. destruct Hmark as [Hpawn Habs].
  apply PieceType_eqb_true in Hpawn. apply Z.eqb_eq in Habs.
  destruct (generateMoves_In _ _ _ _ _ Hgen Hin)
    as [[_ Hshape]|(mover & Hmover & _ & Hmoving & _)].
  - destruct Hshape as [(_ & d & Hd & Hfrom)|[(Hty & _ & Hto & _)
                                              |(_ & d & Hd & Hto)]].
    + destruct (wrap8_step (to move) d Hd) as [Hne _].
      rewrite <- Hfrom in Hne. contradiction.
    + split; [exact Hty|]. split; assumption.
    + destruct (wrap8_step (from move) d Hd) as [_ Hne].
      rewrite <- Hto in Hne. contradiction.
  - rewrite Hpawn in Hmoving. subst mover.
    destruct isEngine; cbn [In ownPawn ownKnight ownKing ownBishop ownRook
                              ownQueen] in Hmover;
      repeat (destruct Hmover as [Hmover|Hmover]; [discriminate|]);
      contradiction.
Qed.

(** What holds of every position of a game, [mover] being the side to
    move: twelve bitboards of 64 bits; [enPassantCapture] is empty or marks
    one square, which holds a pawn of the side that moved last; and neither
    side has more than 19 in material (15 pieces beside the king, and 4 for
    the castling rights of the start). *)
Definition sound (mover : bool) (b : Board) : Prop :=
  wide (position b)
  /\ boards64 b
  /\ (enPassantCapture (position b) = 0
      \/ exists s, 0 <= s < 64
                   /\ enPassantCapture (position b) = boardOf s
                   /\ Z.testbit (piece (position b) (enemyPawn mover)) s
                      = true)
  /\ forall side, material (position b) side <= 19.

Lemma sound_newBoard : sound true newBoard.
Proof.
  split; [split; [reflexivity|exact newBoard_u64]|].
  split.
  { unfold boards64, u64. split; [exact newBoard_u64|].
    repeat split; vm_compute; congruence. }
  split; [left; reflexivity|].
  intros side. destruct side; vm_compute; discriminate.
Qed.

Lemma sound_makeMove (sliders : Sliders) (mover : bool) (b : Board)
    (moves : list Move) (m : Move) :
  sound mover b ->
  generateMoves sliders mover b = Some moves -> In m moves ->
  sound (negb mover) (makeMove mover b m).
Proof.
  intros (Hw & Hb & Hep & Hmat) Hgen Hin.
  assert (He : u64 (enPassantCapture (position b))).
  { destruct Hep as [-> | (s & _ & -> & _)];
      [apply u64_0|apply boardOf_u64]. }
  destruct (generateMoves_types _ _ _ _ _ Hgen Hin)
    as (Hown & Hcap & Hty & Htaken).
  destruct (generateMoves_squares _ _ _ _ _ Hb Hgen Hin)
    as (Hf & Hbit & _).
  assert (Hmask : captured m <> NONE ->
            captureMask (position b) m = 0
            \/ exists s, 0 <= s < 64
                         /\ captureMask (position b) m = boardOf s
                         /\ Z.testbit (piece (position b) (captured m)) s
                            = true).
  { intros Hc. unfold captureMask.
    destruct (type m) eqn:Ety;
      try (right; exists (to m);
           assert (Hne : type m <> EN_PASSANT) by (rewrite Ety; discriminate);
           destruct (proj2 (generateMoves_captures _ _ _ _ _ Hb Hgen Hin Hne)
                       Hc) as (Hto & _ & Hcbit);
           split; [exact Hto|split; [reflexivity|exact Hcbit]]).
    rewrite (Htaken eq_refl).
    destruct Hep as [Hz|(s & Hs & Hs' & Hpawn)]; [left; exact Hz|].
    right. exists s. split; [exact Hs|]. split; [exact Hs'|exact Hpawn]. }
  destruct (makeMove_boards64 mover b m Hw He) as [Hw' Hb'].
  split; [exact Hw'|]. split; [exact Hb'|].
  rewrite makeMove_position. split.
  - rewrite movePosition_enPassant.
    destruct (marksEnPassant mover (movePosition mover (position b) m) m)
      eqn:Hmark; [right|left; reflexivity].
    destruct (marked_move_normal _ _ _ _ _ _ Hgen Hin Hmark)
      as (Hnormal & Hpawn & Hto).
    exists (to m). split; [exact Hto|]. split; [reflexivity|].
    assert (Hm : moving m <> NONE)
      by (rewrite Hpawn; destruct mover; discriminate).
    assert (Hcastling : castlingMove mover (position b) m = false).
    { unfold castlingMove. rewrite Hpawn.
      destruct mover; reflexivity. }
    rewrite (piece_samePieces _ _ _
               (movePosition_pieces mover (position b) m Hcastling)).
    rewrite (relocated_bits mover (position b) m _ _ (proj1 Hw) Hm).
    assert (Hplaced : placedType mover m = ownPawn mover)
      by (unfold placedType; rewrite Hnormal; exact Hpawn).
    replace (enemyPawn (negb mover)) with (ownPawn mover)
      by (destruct mover; reflexivity).
    rewrite Hplaced, Hpawn, PieceType_eqb_refl.
    rewrite (testbit_boardOf (to m) (to m) Hto (proj1 Hto)), Z.eqb_refl.
    cbn [andb]. rewrite orb_true_r.
    assert (Hnot : negb (PieceType_eqb (captured m) NONE)
                   && (PieceType_eqb (ownPawn mover) (captured m)
                       && Z.testbit (captureMask (position b) m) (to m))
                   = false).
    { destruct Hcap as [Hn|Hc].
      - rewrite Hn. reflexivity.
      - assert (Hne : PieceType_eqb (ownPawn mover) (captured m) = false).
        { apply PieceType_eqb_false. intros E. rewrite <- E in Hc.
          destruct mover; cbn in Hc; intuition discriminate. }
        rewrite Hne. cbn [andb]. apply andb_false_r. }
    rewrite Hnot. reflexivity.
  - intros side.
    pose proof (movePosition_material mover (position b) m side Hw He Hown
                  Hty Hcap Hf Hbit Hmask).
    specialize (Hmat side). lia.
Qed.

(** Every position of a game is sound for the side to move. *)
Lemma reachable_sound (sliders : Sliders) (b : Board) :
  reachable sliders b -> sound (engineToMove b) b.
Proof.
  induction 1 as [|b moves m Hb IH Hgen Hin]; [exact sound_newBoard|].
  rewrite makeMove_engineToMove.
  exact (sound_makeMove sliders _ b moves m IH Hgen Hin).
Qed.

(** The static evaluation of a sound position is within the bounds. *)
Lemma sound_evaluate (mover : bool) (b : Board) :
  sound mover b -> inBounds (evaluate (position b)).
Proof.
  intros (Hw & _ & _ & Hmat).
  pose proof (evaluate_material (position b)
                (fun t => proj1 (proj2 Hw t))) as He.
  pose proof (Hmat true) as Ht. pose proof (Hmat false) as Hf.
  unfold material in Ht, Hf.
  assert (Ht' : pieceCount (position b) true <= 19)
    by (destruct (_ || _) in Ht; lia).
  assert (Hf' : pieceCount (position b) false <= 19)
    by (destruct (_ || _) in Hf; lia).
  unfold inBounds. rewrite MAX_EVAL_value. lia.
Qed.

Lemma sound_leaves (sliders : Sliders) (pieceValuePastEnd : Z)
    (depth : nat) :
  forall mover b,
    sound mover b ->
    leavesBounded sliders pieceValuePastEnd depth mover b = true.
Proof.
  induction depth as [|depth IH]; intros mover b Hs.
  - rewrite leavesBounded_leaf. apply scoreInBounds_spec.
    exact (sound_evaluate mover b Hs).
  - rewrite leavesBounded_inner.
    destruct (generateMoves sliders mover b) as [generated|] eqn:Hgen;
      [|reflexivity].
    apply forallb_forall. intros m Hin. apply IH.
    apply (sound_makeMove sliders mover b generated m Hs Hgen).
    exact (Permutation_in m
             (proj1 (sortedMoves_perm pieceValuePastEnd generated)) Hin).
Qed.

(** C5.  Take a position of a game: the board the constructor sets up, or
    a board reached from it by moves the generator produced for the side to
    move.  With the engine to move, every score [maximize] returns from a
    ply [0 <= ply] lies between [- MAX_EVAL] and [MAX_EVAL]; with the
    player to move, so does every score [minimize] returns.  And the score
    returned for a checkmate, which is found at a ply that is not beyond
    [SEARCH_DEPTH], has an absolute value of at least
    [MAX_EVAL - SEARCH_DEPTH]. *)
Theorem search_score_bounds (sliders : Sliders) (pieceValuePastEnd : Z)
    (fuel : nat) (b : Board) (ply alpha beta score : Z) (b' : Board) :
  0 <= ply ->
  (maximize sliders pieceValuePastEnd fuel b ply alpha beta
   = Some (score, b') ->
   (reachable sliders b -> engineToMove b = true -> inBounds score)
   /\ (ply <= SEARCH_DEPTH ->
       generateEngineMoves sliders b = Some [] ->
       isKingInCheck sliders b true = Some true ->
       MAX_EVAL - SEARCH_DEPTH <= Z.abs score))
  /\ (minimize sliders pieceValuePastEnd fuel b ply alpha beta
      = Some (score, b') ->
      (reachable sliders b -> engineToMove b = false -> inBounds score)
      /\ (ply <= SEARCH_DEPTH ->
          generatePlayerMoves sliders b = Some [] ->
          isKingInCheck sliders b false = Some true ->
          MAX_EVAL - SEARCH_DEPTH <= Z.abs score)).
Proof.
  intros Hply.
  pose proof MAX_EVAL_value as HM.
  assert (HN : MIN_EVAL = -32768) by reflexivity.
  destruct (search_bounded sliders pieceValuePastEnd fuel) as [Hmax Hmin].
  split; intros H.
  - split.
    + intros Hr Hturn.
      pose proof (reachable_sound sliders b Hr) as Hs.
      rewrite Hturn in Hs.
      exact (proj1 (Hmax b ply alpha beta score b' Hply
                      (sound_leaves sliders pieceValuePastEnd _ true b Hs)
                      H)).
    + intros Hle Hgen Hcheck. destruct fuel as [|fuel]; [discriminate|].
      rewrite (maximize_no_moves sliders pieceValuePastEnd fuel b ply alpha
                 beta true Hle Hgen Hcheck) in H.
      apply Some_pair in H. destruct H as [<- _].
      unfold SEARCH_DEPTH in *. rewrite HN, HM. lia.
  - split.
    + intros Hr Hturn.
      pose proof (reachable_sound sliders b Hr) as Hs.
      rewrite Hturn in Hs.
      exact (proj1 (Hmin b ply alpha beta score b' Hply
                      (sound_leaves sliders pieceValuePastEnd _ false b Hs)
                      H)).
    + intros Hle Hgen Hcheck. destruct fuel as [|fuel]; [discriminate|].
      rewrite (minimize_no_moves sliders pieceValuePastEnd fuel b ply alpha
                 beta true Hle Hgen Hcheck) in H.
      apply Some_pair in H. destruct H as [<- _].
      unfold SEARCH_DEPTH in *. rewrite HM. lia.
Qed.

Lemma generateEngineMoves_side (sliders : Sliders) (b : Board) :
  generateEngineMoves sliders b = generateMoves sliders true b.
Proof. reflexivity. Qed.

(** The search for a reply to the first pawn push, from the last ply the
    search looks at. *)
Lemma first_reply_search (rand : Z -> Z) (g : MoveGen) :
  newMoveGen rand = Some g ->
  exists score b',
    minimize (tableSliders g) 0 2 (makeMove true newBoard firstPawnPush)
      SEARCH_DEPTH MIN_EVAL MAX_EVAL
    = Some (score, b').
Proof.
  intros Hg. rewrite (tableSliders_rays rand g Hg).
  let r := eval vm_compute in
    (minimize (raySliders g) 0 2 (makeMove true newBoard firstPawnPush)
       SEARCH_DEPTH MIN_EVAL MAX_EVAL) in
  match r with
  | Some (?score, ?b') => exists score, b'
  end.
  vm_compute. reflexivity.
Qed.

Lemma search_score_bounds_witness :
  (exists score b',
     maximize (tableSliders knownMoveGen) 0 3 newBoard 4 MIN_EVAL MAX_EVAL
     = Some (score, b')
     /\ inBounds score)
  /\ (exists score b',
        minimize (tableSliders knownMoveGen) 0 2
          (makeMove true newBoard firstPawnPush) SEARCH_DEPTH MIN_EVAL
          MAX_EVAL
        = Some (score, b')
        /\ inBounds score)
  /\ maximize (tableSliders knownMoveGen) 0 1 engineMated 2 MIN_EVAL MAX_EVAL
     = Some (MIN_EVAL + 2, engineMated)
  /\ MAX_EVAL - SEARCH_DEPTH <= Z.abs (MIN_EVAL + 2).
Proof.
  destruct (start_search knownRand knownMoveGen knownMoveGen_built)
    as (_ & score & b' & H).
  destruct (first_reply_search knownRand knownMoveGen knownMoveGen_built)
    as (reply & b'' & Hreply).
  destruct (start_first_move knownRand knownMoveGen knownMoveGen_built)
    as (rest & Hfirst).
  destruct (terminal_fixtures knownRand knownMoveGen knownMoveGen_built)
    as (Hgen & Hcheck & _).
  assert (H4 : 0 <= 4) by lia.
  assert (H5 : 0 <= SEARCH_DEPTH) by (unfold SEARCH_DEPTH; lia).
  assert (H2 : 0 <= 2) by lia.
  assert (Hply : 2 <= SEARCH_DEPTH) by (unfold SEARCH_DEPTH; lia).
  assert (Hturn : engineToMove newBoard = true) by reflexivity.
  pose proof (maximize_no_moves (tableSliders knownMoveGen) 0 0 engineMated
                2 MIN_EVAL MAX_EVAL true Hply Hgen Hcheck) as Hmate.
  pose proof (reachable_move (tableSliders knownMoveGen) newBoard
                (firstPawnPush :: rest) firstPawnPush
                (reachable_start _)) as Hmoved.
  rewrite Hturn in Hmoved. rewrite generateEngineMoves_side in Hfirst.
  specialize (Hmoved Hfirst (or_introl eq_refl)).
  assert (Hreplying : engineToMove (makeMove true newBoard firstPawnPush)
                      = false)
    by (rewrite makeMove_engineToMove, Hturn; reflexivity).
  split.
  - exists score, b'. split; [exact H|].
    exact (proj1 (proj1 (search_score_bounds (tableSliders knownMoveGen) 0 3
                           newBoard 4 MIN_EVAL MAX_EVAL score b' H4) H)
             (reachable_start _) Hturn).
  - split.
    + exists reply, b''. split; [exact Hreply|].
      exact (proj1 (proj2 (search_score_bounds (tableSliders knownMoveGen) 0
                             2 (makeMove true newBoard firstPawnPush)
                             SEARCH_DEPTH MIN_EVAL MAX_EVAL reply b'' H5)
                      Hreply)
               Hmoved Hreplying).
    + split; [exact Hmate|].
      exact (proj2 (proj1 (search_score_bounds (tableSliders knownMoveGen) 0
                             1 engineMated 2 MIN_EVAL MAX_EVAL
                             (MIN_EVAL + 2) engineMated H2)
                      Hmate)
               Hply Hgen Hcheck).
Defined.
